(* ===== verification/_CoqProject ===== *)
-Q . S2P
Prelude.v
Const.v
Calc.v
CalcArith.v
CalcLogic.v
CalcX.v
CalcMux.v
CellTable.v
CellEval.v
GuideNames.v
Dict.v
HashFn.v
Hashlib.v
HashlibSpec.v
Shared.v
ModMap.v
Sched.v
Effects.v
FailExec.v
FailPackets.v
AbcPlan.v
AbcPlanSpec.v
Match.v
MatchSpec.v
GuideCheck.v
GuideCheckSpec.v
