(* ===== verification/Prelude.v ===== *)
(** * EqGuide: a verification development of the equivalence checker

    EqGuide is a branch of Yosys with an equivalence checker for RTL designs.
    The pass [guide_check] (passes/guide/guide_check.cc) pairs the modules of a
    gold and a gate design, checks multipliers, dividers and retimed modules with
    special engines, and proves every remaining pair with ABC, in an order a
    learned scheduler may choose; failures become packets and hints in JSONL
    files.  All of it stands on the Yosys kernel: constants, their evaluation,
    the cell types and the hash containers.

    ** Files, in dependency order

    Kernel
    - [Prelude.v]: this header, tactics ([zdiv], [zbool], [case_test]), 32-bit
      integers ([s32]), bit lists and their integer values.
    - [Const.v]: [RTLIL::State] and [RTLIL::Const] of kernel/rtlil.h, rtlil.cc
      with both backings (a vector of states, a byte string).
    - [Calc.v]: every [RTLIL::const_*] function of kernel/calc.cc on bit vectors;
      [CalcArith.v] arithmetic, [CalcLogic.v] bitwise operators, comparisons and
      shifts, [CalcMux.v] multiplexers, [CalcX.v] undefined bits.
    - [CellTable.v], [CellEval.v]: [struct CellTypes] of kernel/celltypes.h: the
      registry the [setup_*] methods fill, and the four overloads of [eval].
    - [Dict.v], [HashFn.v], [Hashlib.v], [HashlibSpec.v]: kernel/hashlib.h, class
      [dict].  [Dict.v] is the abstract container, the vector of entries with its
      insertion, erasure and iteration order; [Hashlib.v] is the hash table;
      [HashlibSpec.v] proves that the table implements the container.  The
      other files use the container.

    Checker
    - [GuideNames.v]: identifiers, prefixes, pair and file names (core.cc).
    - [Shared.v]: the records of check/shared.h, JSON values, doubles, text input.
    - [ModMap.v]: [hier_mod_map] of check/core.cc.
    - [Sched.v]: check/scheduler.cc: features, prediction, loading of models.
    - [Effects.v]: the state monad of the checker and the interface [Host] to the
      operating system (processes, files); a state is the world, the telemetry,
      the fingerprints already written, the lines appended to JSONL files and the
      history of commands.
    - [FailExec.v], [FailPackets.v]: check/fail_exec.cc: running a command,
      classifying its output, packets and their deduplication, hints.
    - [AbcPlan.v], [AbcPlanSpec.v]: [abc_cec_module] and [bmcinduct_check] of
      check/core.cc: the plan of proof actions and its execution.
    - [Match.v], [MatchSpec.v]: check/match.cc: the cutpoints of a module pair, by
      name, guidance file and accepted suggestions, with the samples written for
      training.
    - [GuideCheck.v], [GuideCheckSpec.v]: guide_check.cc: arguments, [abc_cec],
      the report and the verdict.

    ** How the model reads

    A C++ function is a function of the same name.  [int] and [long long] are
    integers [Z], wrapped with [s32], [u32] where the source can overflow;
    [double] is [spec_float] with 53 bits.  An exception, a failed assertion, an
    out-of-range access and the end of the process by [log_error] are [None].
    Loops are structural or run on fuel: [lookup_walk] and [pred_walk] on the
    number of entries (a chain visits an entry once), [tree_loop] on the number
    of nodes (enough when children follow their parents), [pow_loop] and
    [double_loop] on the bits of the exponent, [hash_string] on the length of
    the string; theorems show that the fuel is enough where the code ends.

    ** Theorems

    - The verdict ([guide_check_passed], [abc_cec_sound], [bmcinduct_spec]): a
      PASSED is backed by the commands that were run and what they printed.
    - The pairing ([hier_mod_map_one_to_one], [partner_involutive]) and where it
      and the checks part: no pair that the names do not give is ever checked
      ([structural_pairs_unchecked]), and escaped prefixes lose a character
      ([escaped_prefix_cut_too_far]).
    - The cutpoints: one-to-one ([match_one_to_one]), suggestions only for
      unmatched signals and through every gate ([suggestions_gated]), and the dump
      of samples that throws after a renaming match
      ([dump_after_external_throws]).
    - The order of the proofs ([abc_default_policy], [abc_plan_complete],
      [learned_plan_sorted], [best_action_minimal], [tree_predict_total]).
    - Failures ([failure_packets_unique], [trace_report_dropped],
      [proof_outcome_spec], [teacher_first_clue], [hint_of_packet]).
    - Containers ([hashtable_refines_entries]).
    - Constants: no observer but [decode_string] depends on the backing
      ([const_backing_irrelevant]); conversions to and from [int]
      ([int_conversions_exact], [const_int_roundtrip]).
    - Evaluation: on defined operands the operators of calc.cc compute their
      integer or bitwise meaning ([bitwise_ops_exact], [arith_ops_exact],
      [division_exact], [const_pow_exact], [comparisons_exact], [shifts_exact],
      [const_bmux_selects], [const_demux_bmux]); for undefined bits the operators
      that [operators_x_sound] lists are sound and [const_pow] is not
      ([const_pow_not_x_sound]; [const_eqx] and [const_nex] compare undefined bits
      as such, and the wide multiplexers are not covered); cells evaluate to the
      meaning of their types ([eval_binary_exact], [eval_unary_exact],
      [eval_lut_exact], [eval_sop_exact], [gates_exact],
      [eval_dispatch_complete]).

    ** Not modelled

    ABC, yosys-smtbmc and the operating system are behind [Host]; the dumps to
    BLIF and SMT2 run Yosys passes and are behind [Dumper]; the JSON parser and
    the file system of the model loaders are arguments.  Times are only recorded
    where the source reads them back (run times of actions).  [check_and_report]
    leaves out the files of suggestions and hints that [execute] writes between
    the report and the verdict, which depends on neither.  The lines of a JSONL
    file appear when it is closed, so a file that an exception cuts short is not
    described; and a prediction tree that never ends is [None] in
    [candidate_score], so [None] of [match_signals_module] may stand for
    divergence as well as for an exception.  The products of widths in [eval_sop]
    are not wrapped at 32 bits.

    ** Plan

    In this order: the named signals of a module ([build_named_sigs] of
    check/match.cc, an argument of [Match.v]), which need wires, ports and signal
    maps; the multiplier, divider and retiming checks
    (check/retime_multi.cc, check/div_check.cc), whose results are arguments of
    [check_and_report] for now; the region proofs (check/region.cc), a second
    client of [abc_cec_module] and the local validation of [Match.v]; [write_failure_hints]; then the SAT encoding
    (kernel/satgen.cc, libs/ezsat) against the cell semantics of [CellEval.v]. *)

From stdpp Require Export base gmap strings list fin_maps.
From Stdlib Require Export ZArith Lia Ascii.

Open Scope Z_scope.
Set Default Proof Using "Type".

(** ** Tactics of the development *)

(** Split conjunctions and destruct existential hypotheses. *)
Ltac split_hyps :=
  repeat match goal with
  | H : _ /\ _ |- _ => destruct H
  | H : exists _, _ |- _ => destruct H
  end.

(** Case analysis on the first boolean or option test of the goal. *)
Ltac case_test :=
  match goal with
  | |- context [if ?b then _ else _] => destruct b eqn:?
  | |- context [match ?o with Some _ => _ | None => _ end] => destruct o eqn:?
  end.

(** Turn boolean comparisons on [Z] among the hypotheses into propositions. *)
Ltac zbool :=
  repeat match goal with
  | H : (_ <? _) = true |- _ => apply Z.ltb_lt in H
  | H : (_ <? _) = false |- _ => apply Z.ltb_ge in H
  | H : (_ <=? _) = true |- _ => apply Z.leb_le in H
  | H : (_ <=? _) = false |- _ => apply Z.leb_gt in H
  | H : (_ =? _) = true |- _ => apply Z.eqb_eq in H
  | H : (_ =? _) = false |- _ => apply Z.eqb_neq in H
  end.

(** Linear arithmetic with division and remainder by constants. *)
Ltac zdiv := Z.to_euclidean_division_equations; lia.

Create Rewrite HintDb bits.
Create Rewrite HintDb lens.

(** ** Machine integers *)

(** The value a 32-bit two's complement [int] holds after a computation whose
    mathematical result is [z] (conversions are modulo 2^32). *)
Definition s32 (z : Z) : Z := (z + 2 ^ 31) mod 2 ^ 32 - 2 ^ 31.

Definition INT_MAX : Z := 2 ^ 31 - 1.
Definition INT_MIN : Z := - 2 ^ 31.

Lemma s32_range z : INT_MIN <= s32 z <= INT_MAX.
Proof.
  unfold s32, INT_MIN, INT_MAX.
  pose proof (Z.mod_pos_bound (z + 2 ^ 31) (2 ^ 32)). lia.
Qed.

Lemma s32_id z : INT_MIN <= z <= INT_MAX -> s32 z = z.
Proof. unfold s32, INT_MIN, INT_MAX. intros. rewrite Z.mod_small; lia. Qed.

Lemma s32_cong z : s32 z mod 2 ^ 32 = z mod 2 ^ 32.
Proof.
  unfold s32. rewrite Zminus_mod, Zmod_mod, <- Zminus_mod. f_equal. lia.
Qed.

Lemma s32_mod a b : a mod 2 ^ 32 = b mod 2 ^ 32 -> s32 a = s32 b.
Proof.
  intros H. unfold s32. rewrite (Zplus_mod a), (Zplus_mod b), H. reflexivity.
Qed.

(** ** Bit lists, least significant bit first *)

Fixpoint bits_val (l : list bool) : Z :=
  match l with
  | [] => 0
  | b :: t => Z.b2z b + 2 * bits_val t
  end.

Fixpoint Z_bits (n : nat) (z : Z) : list bool :=
  match n with
  | O => []
  | S n => Z.odd z :: Z_bits n (Z.div2 z)
  end.

(** Two's complement reading of a bit list. *)
Definition bits_sval (l : list bool) : Z :=
  bits_val l - (if default false (last l) then 2 ^ Z.of_nat (length l) else 0).

Lemma Z_bits_S n z : Z_bits (S n) z = Z.odd z :: Z_bits n (Z.div2 z).
Proof. done. Qed.

Lemma Z_bits_length n z : length (Z_bits n z) = n.
Proof. revert z. induction n; intros; cbn; auto. Qed.
#[export] Hint Rewrite Z_bits_length : lens.

Lemma bits_val_bound l : 0 <= bits_val l < 2 ^ Z.of_nat (length l).
Proof.
  induction l as [|b l IH]; simpl length; [simpl; lia|].
  rewrite Nat2Z.inj_succ, Z.pow_succ_r by lia. simpl. destruct b; simpl Z.b2z; zdiv.
Qed.

Lemma bits_val_app l1 l2 :
  bits_val (l1 ++ l2) = bits_val l1 + 2 ^ Z.of_nat (length l1) * bits_val l2.
Proof.
  induction l1 as [|b l1 IH]; simpl app; simpl length; [simpl bits_val; lia|].
  rewrite Nat2Z.inj_succ, Z.pow_succ_r by lia. simpl bits_val. lia.
Qed.

Lemma bits_val_replicate_false n : bits_val (replicate n false) = 0.
Proof. induction n; simpl; lia. Qed.

Lemma bits_val_replicate_true n : bits_val (replicate n true) = 2 ^ Z.of_nat n - 1.
Proof.
  induction n; simpl replicate; [simpl; lia|].
  rewrite Nat2Z.inj_succ, Z.pow_succ_r by lia. simpl. lia.
Qed.
#[export] Hint Rewrite bits_val_app bits_val_replicate_false
  bits_val_replicate_true : bits.

Lemma bits_val_Z_bits n z : bits_val (Z_bits n z) = z mod 2 ^ Z.of_nat n.
Proof.
  revert z. induction n as [|n IH]; intros z.
  - cbn. by rewrite Z.mod_1_r.
  - rewrite Nat2Z.inj_succ, Z.pow_succ_r by lia.
    cbn [Z_bits bits_val]. rewrite IH.
    rewrite Z.rem_mul_r by lia. rewrite <- Z.div2_div, Zmod_odd.
    destruct (Z.odd z); simpl; lia.
Qed.

Lemma Z_bits_bits_val l : Z_bits (length l) (bits_val l) = l.
Proof.
  induction l as [|b l IH]; [done|].
  cbn [length Z_bits bits_val]. f_equal.
  - rewrite Z.odd_add, Z.odd_mul. by destruct b.
  - transitivity (Z_bits (length l) (bits_val l)); [f_equal|exact IH].
    rewrite Z.div2_div. destruct b; simpl Z.b2z; zdiv.
Qed.

Lemma bits_val_inj l1 l2 :
  length l1 = length l2 -> bits_val l1 = bits_val l2 -> l1 = l2.
Proof.
  intros Hl Hv. rewrite <- (Z_bits_bits_val l1), <- (Z_bits_bits_val l2).
  by rewrite Hl, Hv.
Qed.

Lemma Z_bits_mod n z : Z_bits n (z mod 2 ^ Z.of_nat n) = Z_bits n z.
Proof.
  rewrite <- (bits_val_Z_bits n z).
  rewrite <- (Z_bits_length n z) at 1. apply Z_bits_bits_val.
Qed.

Lemma Z_bits_cong n a b :
  a mod 2 ^ Z.of_nat n = b mod 2 ^ Z.of_nat n -> Z_bits n a = Z_bits n b.
Proof. intros H. by rewrite <- Z_bits_mod, H, Z_bits_mod. Qed.

Lemma Z_bits_lookup n z i :
  (i < n)%nat -> Z_bits n z !! i = Some (Z.testbit z (Z.of_nat i)).
Proof.
  revert z i. induction n as [|n IH]; intros z i Hi; [lia|].
  destruct i as [|i]; cbn [Z_bits].
  - reflexivity.
  - rewrite lookup_cons, IH by lia.
    by rewrite Z.div2_spec, Z.shiftr_spec, Nat2Z.inj_succ by lia.
Qed.

Lemma Z_bits_nonneg_testbit l i :
  Z.testbit (bits_val l) (Z.of_nat i) = default false (l !! i).
Proof.
  destruct (decide (i < length l)%nat) as [Hi|Hi].
  - rewrite <- (Z_bits_bits_val l) at 2. by rewrite Z_bits_lookup.
  - rewrite lookup_ge_None_2 by lia. simpl.
    destruct (decide (bits_val l = 0)) as [->|]; [by rewrite Z.testbit_0_l|].
    pose proof (bits_val_bound l).
    apply Z.bits_above_log2; [lia|].
    apply Z.log2_lt_pow2; [lia|].
    apply Z.lt_le_trans with (2 ^ Z.of_nat (length l)); [lia|].
    apply Z.pow_le_mono_r; lia.
Qed.

Arguments Z_bits : simpl never.
