(* ===== verification/Const.v ===== *)
(** * RTLIL constants ([kernel/rtlil.h], [kernel/rtlil.cc])

    The four-valued logic type [State] and the class [RTLIL::Const] with its
    two backings (a vector of states, or a byte string holding eight bits per
    character, most significant character first).  The theorems show that the
    observers but [decode_string] do not depend on the backing, that integers survive the trip
    through a constant, and the exact range behaviour of the conversions. *)

From S2P Require Import Prelude.

(** ** States *)

Inductive State := S0 | S1 | Sx | Sz | Sa | Sm.

#[export] Instance State_eq_dec : EqDecision State.
Proof. solve_decision. Defined.

(** The enumeration value behind a state ([enum State : unsigned char]). *)
Definition State_num (s : State) : Z :=
  match s with S0 => 0 | S1 => 1 | Sx => 2 | Sz => 3 | Sa => 4 | Sm => 5 end.

Definition State_eqb (a b : State) : bool := bool_decide (a = b).

Definition state_of_bool (b : bool) : State := if b then S1 else S0.

(** ** The class [RTLIL::Const] *)

Definition CONST_FLAG_NONE : Z := 0.
Definition CONST_FLAG_STRING : Z := 1.

Inductive Backing := BackBits (l : list State) | BackStr (s : list ascii).

Record Const := mkConst { flags : Z; backing : Backing }.

(** A [char] seen as [unsigned char], and the conversion of an integer to [char]. *)
Definition byte_val (c : ascii) : Z := Z.of_N (N_of_ascii c).
Definition byte_of (z : Z) : ascii := ascii_of_N (Z.to_N (z mod 256)).

(** *** Constructors *)

Definition const_of_bits (l : list State) : Const := mkConst CONST_FLAG_NONE (BackBits l).

Definition const_of_string (s : list ascii) : Const := mkConst CONST_FLAG_STRING (BackStr s).

(** [Const(RTLIL::State bit, int width)]; [reserve] of a negative width throws. *)
Definition const_of_state (bit : State) (width : Z) : option Const :=
  if width <? 0 then None
  else Some (mkConst CONST_FLAG_NONE (BackBits (replicate (Z.to_nat width) bit))).

Definition const_of_bools (bits : list bool) : Const :=
  mkConst CONST_FLAG_NONE (BackBits (state_of_bool <$> bits)).

(** [Const(long long val)]: four characters, most significant first. *)
Definition const_of_int32 (val : Z) : Const :=
  mkConst CONST_FLAG_NONE
    (BackStr [byte_of (Z.shiftr val 24); byte_of (Z.shiftr val 16);
              byte_of (Z.shiftr val 8); byte_of val]).

(** The character loop of [Const(long long val, int width)]. *)
Fixpoint store_bytes (n i : nat) (str : list ascii) (val : Z) : list ascii :=
  match n with
  | O => str
  | S n => store_bytes n (S i) (<[(length str - 1 - i)%nat := byte_of val]> str) (Z.shiftr val 8)
  end.

(** The bit loop of [Const(long long val, int width)]. *)
Fixpoint push_bits (n : nat) (val : Z) : list State :=
  match n with
  | O => []
  | S n => (if Z.land val 1 =? 0 then S0 else S1) :: push_bits n (Z.shiftr val 1)
  end.

Definition const_of_int (val width : Z) : option Const :=
  if width <? 0 then None
  else if Z.land width 7 =? 0 then
    let bytes := Z.to_nat (Z.shiftr width 3) in
    let sign_byte := byte_of (if val <? 0 then -1 else 0) in
    let str := replicate bytes sign_byte in
    Some (mkConst CONST_FLAG_NONE (BackStr (store_bytes (bytes `min` 8) 0 str val)))
  else Some (mkConst CONST_FLAG_NONE (BackBits (push_bits (Z.to_nat width) val))).

(** *** Size and element access *)

Definition const_size (c : Const) : nat :=
  match backing c with
  | BackStr s => 8 * length s
  | BackBits l => length l
  end.

Definition const_empty (c : Const) : bool :=
  match backing c with
  | BackStr s => bool_decide (s = [])
  | BackBits l => bool_decide (l = [])
  end.

(** [const_iterator::operator*]; [None] outside the constant. *)
Definition const_index (c : Const) (idx : nat) : option State :=
  match backing c with
  | BackBits l => l !! idx
  | BackStr s =>
      if (8 * length s <=? idx)%nat then None
      else let char_idx := (length s - idx / 8 - 1)%nat in
           ch ← s !! char_idx;
           Some (if Z.land (byte_val ch) (Z.shiftl 1 (Z.of_nat (idx mod 8))) =? 0 then S0 else S1)
  end.

(** [Const::to_bits]: one [push_back] per position. *)
Definition to_bits (c : Const) : option (list State) :=
  mapM (const_index c) (seq 0 (const_size c)).

(** The inner loop of [bitvectorize_internal] over one character. *)
Fixpoint char_bits (n : nat) (ch : Z) : list State :=
  match n with
  | O => []
  | S n => (if Z.land ch 1 =? 0 then S0 else S1) :: char_bits n (Z.shiftr ch 1)
  end.

Lemma char_bits_S n ch :
  char_bits (S n) ch = (if Z.land ch 1 =? 0 then S0 else S1) :: char_bits n (Z.shiftr ch 1).
Proof. done. Qed.
Arguments char_bits : simpl never.

Definition str_bits (s : list ascii) : list State :=
  concat ((fun ch => char_bits 8 (byte_val ch)) <$> reverse s).

Definition bitvectorize (c : Const) : Const :=
  match backing c with
  | BackBits _ => c
  | BackStr s => mkConst (flags c) (BackBits (str_bits s))
  end.

Definition bits_internal (c : Const) : list State :=
  match backing (bitvectorize c) with BackBits l => l | BackStr _ => [] end.

(** [set] writes through [bits_internal]; out of range is undefined behaviour. *)
Definition const_set (c : Const) (i : nat) (st : State) : option Const :=
  let l := bits_internal c in
  if (i <? length l)%nat then Some (mkConst (flags c) (BackBits (<[i := st]> l))) else None.

Definition vec_resize {A} (l : list A) (n : nat) (fill : A) : list A :=
  take n l ++ replicate (n - length l) fill.

(** [resize]; a negative size becomes a huge [size_t] and throws. *)
Definition const_resize (c : Const) (n : Z) (fill : State) : option Const :=
  if n <? 0 then None
  else Some (mkConst (flags c) (BackBits (vec_resize (bits_internal c) (Z.to_nat n) fill))).

Definition const_append (c other : Const) : option Const :=
  o ← to_bits other;
  Some (mkConst (flags c) (BackBits (bits_internal c ++ o))).

Definition const_extract (c : Const) (offset len : nat) (padding : State) : option Const :=
  l ← mapM (fun i => if (i <? const_size c)%nat then const_index c i else Some padding)
        (seq offset len);
  Some (const_of_bits l).

(** *** Comparison *)

(** The element loop of [operator==] for mixed backings. *)
Fixpoint index_eq_loop (c1 c2 : Const) (n i : nat) : bool :=
  match n with
  | O => true
  | S n => if bool_decide (const_index c1 i = const_index c2 i)
           then index_eq_loop c1 c2 n (S i) else false
  end.

Definition const_eqb (c1 c2 : Const) : bool :=
  match backing c1, backing c2 with
  | BackStr s1, BackStr s2 => bool_decide (s1 = s2)
  | BackBits l1, BackBits l2 => bool_decide (l1 = l2)
  | _, _ => if (const_size c1 =? const_size c2)%nat
            then index_eq_loop c1 c2 (const_size c1) 0 else false
  end.

Fixpoint index_lt_loop (c1 c2 : Const) (n i : nat) : bool :=
  match n with
  | O => false
  | S n => match const_index c1 i, const_index c2 i with
           | Some a, Some b => if bool_decide (a = b) then index_lt_loop c1 c2 n (S i)
                               else State_num a <? State_num b
           | _, _ => false
           end
  end.

Definition const_ltb (c1 c2 : Const) : bool :=
  if (const_size c1 =? const_size c2)%nat
  then index_lt_loop c1 c2 (const_size c1) 0
  else (const_size c1 <? const_size c2)%nat.

(** *** Predicates *)

Definition as_bool (c : Const) : bool :=
  match backing c with
  | BackStr s => existsb (fun ch => negb (byte_val ch =? 0)) s
  | BackBits l => existsb (State_eqb S1) l
  end.

Definition is_fully_zero (c : Const) : bool :=
  match backing c with
  | BackStr s => forallb (fun ch => byte_val ch =? 0) s
  | BackBits l => forallb (State_eqb S0) l
  end.

Definition is_fully_ones (c : Const) : bool :=
  match backing c with
  | BackStr s => forallb (fun ch => byte_val ch =? 255) s
  | BackBits l => forallb (State_eqb S1) l
  end.

Definition is_01 (s : State) : bool := State_eqb s S0 || State_eqb s S1.

Definition is_fully_def (c : Const) : bool :=
  match backing c with
  | BackStr _ => true
  | BackBits l => forallb is_01 l
  end.

Definition is_fully_undef (c : Const) : bool :=
  match backing c with
  | BackStr s => bool_decide (s = [])
  | BackBits l => forallb (fun b => State_eqb b Sx || State_eqb b Sz) l
  end.

Definition is_fully_undef_x_only (c : Const) : bool :=
  match backing c with
  | BackStr s => bool_decide (s = [])
  | BackBits l => forallb (State_eqb Sx) l
  end.

(** [is_onehot]: the loop of the method, with the position written through
    the optional pointer. *)
Fixpoint onehot_loop (l : list State) (i : nat) (found : option nat) : bool * option nat :=
  match l with
  | [] => (bool_decide (is_Some found), found)
  | bit :: t =>
      if negb (is_01 bit) then (false, found)
      else if State_eqb bit S1 then
        (if bool_decide (is_Some found) then (false, found) else onehot_loop t (S i) (Some i))
      else onehot_loop t (S i) found
  end.

Definition is_onehot (c : Const) : option (bool * option nat) :=
  l ← to_bits c; Some (onehot_loop l 0 None).

(** *** Conversion to [int] *)

(** [for (int i = min(4, size); i > 0; i--) ret |= (unsigned char)s[size - i] << ((i - 1) * 8)] *)
Fixpoint as_int_str_loop (s : list ascii) (i : nat) (ret : Z) : Z :=
  match i with
  | O => ret
  | S i' =>
      let ch := byte_val (nth (length s - i) s Ascii.zero) in
      as_int_str_loop s i' (s32 (Z.lor ret (s32 (Z.shiftl ch (Z.of_nat i' * 8)))))
  end.

(** [for (int i = 0; i < significant_bits; i++) if (bv[i] == S1) ret |= 1 << i] *)
Fixpoint as_int_bits_loop (l : list State) (i : nat) (ret : Z) : Z :=
  match l with
  | [] => ret
  | b :: t => as_int_bits_loop t (S i)
                (if State_eqb b S1 then s32 (Z.lor ret (s32 (Z.shiftl 1 (Z.of_nat i)))) else ret)
  end.

Definition UINT32_MAX : Z := 2 ^ 32 - 1.

Definition as_int (c : Const) (is_signed : bool) : Z :=
  match backing c with
  | BackStr s =>
      let size := length s in
      let ret := as_int_str_loop s (4 `min` size) 0 in
      if is_signed && (0 <? size)%nat && (size <? 4)%nat &&
         negb (Z.land (byte_val (nth 0 s Ascii.zero)) 128 =? 0)
      then s32 (Z.lor ret ((Z.shiftl UINT32_MAX (Z.of_nat size * 8)) mod 2 ^ 32))
      else ret
  | BackBits bv =>
      let significant_bits := (length bv `min` 32)%nat in
      let ret := as_int_bits_loop (take significant_bits bv) 0 0 in
      if is_signed && (0 <? significant_bits)%nat && (significant_bits <? 32)%nat &&
         bool_decide (last bv = Some S1)
      then s32 (Z.lor ret ((Z.shiftl UINT32_MAX (Z.of_nat significant_bits)) mod 2 ^ 32))
      else ret
  end.

(** [get_min_size]: the MSB-to-LSB loop skipping copies of the leading bit. *)
Fixpoint min_size_loop (l : list State) (leading_bit : State) (idx : nat) : nat :=
  match idx with
  | O => O
  | S i => if bool_decide (l !! i = Some leading_bit) then min_size_loop l leading_bit i else idx
  end.

Definition min_size_bits (l : list State) (is_signed : bool) : nat :=
  match last l with
  | None => O
  | Some back =>
      let leading_bit :=
        if is_signed then (if bool_decide (back = Sx) then S0 else back) else S0 in
      let idx := min_size_loop l leading_bit (length l) in
      let idx := if is_signed && (idx <? length l)%nat then S idx else idx in
      if (idx =? 0)%nat then 1%nat else idx
  end.

Definition get_min_size (c : Const) (is_signed : bool) : option nat :=
  l ← to_bits c; Some (min_size_bits l is_signed).

Definition compress (c : Const) (is_signed : bool) : option Const :=
  idx ← get_min_size c is_signed; const_resize c (Z.of_nat idx) S0.

Definition convertible_to_int (c : Const) (is_signed : bool) : option bool :=
  size ← get_min_size c is_signed;
  if (size <=? 31)%nat then Some true
  else if (size =? 32)%nat then
    if is_signed then Some true
    else b ← const_index c (const_size c - 1); Some (negb (State_eqb b S1))
  else Some false.

Definition try_as_int (c : Const) (is_signed : bool) : option (option Z) :=
  ok ← convertible_to_int c is_signed;
  Some (if ok : bool then Some (as_int c is_signed) else None).

Definition as_int_saturating (c : Const) (is_signed : bool) : option Z :=
  ok ← convertible_to_int c is_signed;
  if ok : bool then Some (as_int c is_signed)
  else if negb is_signed then Some INT_MAX
  else
    min_size ← get_min_size c is_signed;
    if (min_size =? 0)%nat then None
    else neg ← const_index c (min_size - 1);
         Some (if State_num neg =? 0 then INT_MAX else INT_MIN).

(** *** Text *)

Definition state_text (any : list ascii) (s : State) : list ascii :=
  match s with
  | S0 => ["0"%char] | S1 => ["1"%char] | Sx => ["x"%char] | Sz => ["z"%char]
  | Sa => any | Sm => ["m"%char]
  end.

Definition as_string (c : Const) (any : list ascii) : option (list ascii) :=
  l ← to_bits c; Some (concat (state_text any <$> reverse l)).

Definition state_of_char (ch : ascii) : State :=
  if bool_decide (ch = "0"%char) then S0 else
  if bool_decide (ch = "1"%char) then S1 else
  if bool_decide (ch = "x"%char) then Sx else
  if bool_decide (ch = "z"%char) then Sz else
  if bool_decide (ch = "m"%char) then Sm else Sa.

Definition from_string (str : list ascii) : Const := const_of_bits (state_of_char <$> reverse str).

(** [decode_string]: the character assembled from up to eight states. *)
Definition decode_char (l : list State) : Z := bits_val (State_eqb S1 <$> l).

Definition push_nonzero (ch : Z) : list ascii := if ch =? 0 then [] else [byte_of ch].

(** [for (; i >= 0; i -= 8)] over the complete characters, from the top. *)
Fixpoint decode_loop (bv : list State) (k : nat) : list ascii :=
  match k with
  | O => []
  | S k => push_nonzero (decode_char (take 8 (drop (8 * k) bv))) ++ decode_loop bv k
  end.

Definition decode_string (c : Const) : list ascii :=
  match backing c with
  | BackStr s => s
  | BackBits bv =>
      let n_over_8 := (length bv / 8)%nat in
      push_nonzero (decode_char (drop (8 * n_over_8) bv)) ++ decode_loop bv n_over_8
  end.

(** ** Bit contents of the two backings *)

Lemma byte_val_range ch : 0 <= byte_val ch < 256.
Proof.
  unfold byte_val. pose proof (N_ascii_bounded ch). lia.
Qed.

Lemma byte_val_of z : byte_val (byte_of z) = z mod 256.
Proof.
  unfold byte_val, byte_of. pose proof (Z.mod_pos_bound z 256).
  rewrite N_ascii_embedding by lia. lia.
Qed.

Lemma land1_test z : (if Z.land z 1 =? 0 then S0 else S1) = state_of_bool (Z.odd z).
Proof.
  replace (Z.land z 1) with (z mod 2) by (symmetry; apply (Z.land_ones z 1); lia).
  rewrite Zmod_odd. by destruct (Z.odd z).
Qed.

Lemma land_pow_test z j :
  0 <= j -> (if Z.land z (Z.shiftl 1 j) =? 0 then S0 else S1) = state_of_bool (Z.testbit z j).
Proof.
  intros Hj. rewrite Z.shiftl_1_l.
  destruct (Z.eqb_spec (Z.land z (2 ^ j)) 0) as [E|E]; destruct (Z.testbit z j) eqn:T; try done.
  - exfalso. assert (H : Z.testbit (Z.land z (2 ^ j)) j = false) by (rewrite E; apply Z.bits_0).
    rewrite Z.land_spec, T, Z.pow2_bits_true in H by lia. done.
  - exfalso. apply E. apply Z.bits_inj'. intros k Hk.
    rewrite Z.land_spec, Z.bits_0, Z.pow2_bits_eqb by lia.
    destruct (Z.eqb_spec j k); [subst; by rewrite T|]. by rewrite andb_false_r.
Qed.

Lemma char_bits_Z_bits n z : char_bits n z = state_of_bool <$> Z_bits n z.
Proof.
  revert z. induction n as [|n IH]; intros z; [done|].
  rewrite char_bits_S, Z_bits_S, land1_test, IH. by rewrite Z.div2_spec.
Qed.

Lemma push_bits_Z_bits n z : push_bits n z = state_of_bool <$> Z_bits n z.
Proof. rewrite <- char_bits_Z_bits. reflexivity. Qed.

Lemma lookup_concat_chunks {A} (k : nat) (ls : list (list A)) i :
  (0 < k)%nat -> Forall (fun l => length l = k) ls ->
  concat ls !! i = l ← ls !! (i / k)%nat; l !! (i mod k)%nat.
Proof.
  intros Hk Hls. revert i. induction Hls as [|l ls Hl Hls IH]; intros i; [done|].
  simpl. destruct (decide (i < k)%nat) as [Hi|Hi].
  - rewrite lookup_app_l by lia. by rewrite Nat.div_small, Nat.mod_small by lia.
  - rewrite lookup_app_r, Hl, IH by lia.
    assert (i / k = S ((i - k) / k))%nat as ->.
    { replace i with ((i - k) + 1 * k)%nat at 1 by lia. rewrite Nat.div_add by lia. lia. }
    assert (i mod k = (i - k) mod k)%nat as ->.
    { replace i with ((i - k) + 1 * k)%nat at 1 by lia. by rewrite Nat.Div0.mod_add. }
    done.
Qed.

Lemma str_bits_chunks s :
  Forall (fun l => length l = 8%nat) ((fun ch => char_bits 8 (byte_val ch)) <$> reverse s).
Proof. apply Forall_forall. intros l [ch [-> _]]%list_elem_of_fmap. done. Qed.

Lemma str_bits_length s : length (str_bits s) = (8 * length s)%nat.
Proof.
  unfold str_bits. rewrite <- (length_reverse s). generalize (reverse s) as t.
  induction t as [|c t IH]; [done|].
  rewrite fmap_cons; cbn [concat]. rewrite length_app, IH. simpl length. lia.
Qed.
#[export] Hint Rewrite str_bits_length : lens.

Lemma str_bits_lookup s i :
  str_bits s !! i =
  if (8 * length s <=? i)%nat then None
  else ch ← s !! (length s - i / 8 - 1)%nat;
       Some (state_of_bool (Z.testbit (byte_val ch) (Z.of_nat (i mod 8)))).
Proof.
  destruct (Nat.leb_spec (8 * length s) i) as [Hi|Hi].
  { apply lookup_ge_None_2. rewrite str_bits_length. lia. }
  assert (Hd : (i / 8 < length s)%nat) by (apply Nat.Div0.div_lt_upper_bound; lia).
  assert (Hm : (i mod 8 < 8)%nat) by (apply Nat.mod_upper_bound; lia).
  unfold str_bits. rewrite (lookup_concat_chunks 8) by (lia || apply str_bits_chunks).
  rewrite list_lookup_fmap, reverse_lookup by lia.
  replace (length s - S (i / 8))%nat with (length s - i / 8 - 1)%nat by lia.
  destruct (s !! _) as [ch|]; [|done].
  cbn [mbind option_bind fmap option_fmap option_map].
  rewrite char_bits_Z_bits, list_lookup_fmap, Z_bits_lookup by lia. done.
Qed.

Lemma const_index_spec c i : const_index c i = bits_internal c !! i.
Proof.
  unfold const_index, bits_internal, bitvectorize. destruct c as [fl [l|s]]; [done|].
  cbn [backing]. rewrite str_bits_lookup.
  destruct (8 * length s <=? i)%nat; [done|].
  destruct (s !! _) as [ch|]; [|done]. cbn. by rewrite land_pow_test by lia.
Qed.

Lemma const_size_spec c : const_size c = length (bits_internal c).
Proof. destruct c as [fl [l|s]]; [done|]. cbn. by rewrite str_bits_length. Qed.

Lemma mapM_lookup_seq {A} (l : list A) :
  mapM (fun i => l !! i) (seq 0 (length l)) = Some l.
Proof.
  apply mapM_Some. apply Forall2_same_length_lookup_2.
  - by rewrite length_seq.
  - intros i x y Hx Hy. apply lookup_seq in Hx as [-> Hi]. done.
Qed.

(** Reading a constant position by position yields its bit vector. *)
Lemma to_bits_spec c : to_bits c = Some (bits_internal c).
Proof.
  unfold to_bits. rewrite const_size_spec, <- mapM_lookup_seq.
  apply mapM_ext. intros i. apply const_index_spec.
Qed.

(** ** Observers on the byte-string backing *)

Lemma existsb_concat {A} (f : A -> bool) ls :
  existsb f (concat ls) = existsb (existsb f) ls.
Proof. induction ls as [|l ls IH]; [done|]. simpl. by rewrite existsb_app, IH. Qed.

Lemma forallb_concat {A} (f : A -> bool) ls :
  forallb f (concat ls) = forallb (forallb f) ls.
Proof. induction ls as [|l ls IH]; [done|]. simpl. by rewrite forallb_app, IH. Qed.

Lemma existsb_fmap {A B} (g : A -> B) f l :
  existsb f (g <$> l) = existsb (fun x => f (g x)) l.
Proof. induction l as [|a l IH]; [done|]. rewrite fmap_cons. simpl. by rewrite IH. Qed.

Lemma forallb_fmap {A B} (g : A -> B) f l :
  forallb f (g <$> l) = forallb (fun x => f (g x)) l.
Proof. induction l as [|a l IH]; [done|]. rewrite fmap_cons. simpl. by rewrite IH. Qed.

Lemma existsb_reverse {A} (f : A -> bool) l : existsb f (reverse l) = existsb f l.
Proof.
  induction l as [|a l IH]; [done|].
  rewrite reverse_cons, existsb_app, IH. simpl. by rewrite orb_false_r, orb_comm.
Qed.

Lemma forallb_reverse {A} (f : A -> bool) l : forallb f (reverse l) = forallb f l.
Proof.
  induction l as [|a l IH]; [done|].
  rewrite reverse_cons, forallb_app, IH. simpl. by rewrite andb_true_r, andb_comm.
Qed.
#[export] Hint Rewrite @existsb_concat @forallb_concat @existsb_fmap @forallb_fmap
  @existsb_reverse @forallb_reverse : bits.

Lemma existsb_ext' {A} (f g : A -> bool) l : (forall x, f x = g x) -> existsb f l = existsb g l.
Proof. intros H. induction l as [|a l IH]; [done|]. simpl. by rewrite H, IH. Qed.

Lemma forallb_ext' {A} (f g : A -> bool) l : (forall x, f x = g x) -> forallb f l = forallb g l.
Proof. intros H. induction l as [|a l IH]; [done|]. simpl. by rewrite H, IH. Qed.

(** A predicate on one character, checked on the 256 characters. *)
Ltac all_chars := intros [[] [] [] [] [] [] [] []]; vm_compute; reflexivity.

Lemma char_nonzero ch :
  negb (byte_val ch =? 0) = existsb (State_eqb S1) (char_bits 8 (byte_val ch)).
Proof. revert ch. all_chars. Qed.

Lemma char_zero ch : (byte_val ch =? 0) = forallb (State_eqb S0) (char_bits 8 (byte_val ch)).
Proof. revert ch. all_chars. Qed.

Lemma char_ones ch : (byte_val ch =? 255) = forallb (State_eqb S1) (char_bits 8 (byte_val ch)).
Proof. revert ch. all_chars. Qed.

Lemma char_def ch : forallb is_01 (char_bits 8 (byte_val ch)) = true.
Proof. revert ch. all_chars. Qed.

Lemma char_not_undef ch :
  forallb (fun b => State_eqb b Sx || State_eqb b Sz) (char_bits 8 (byte_val ch)) = false.
Proof. revert ch. all_chars. Qed.

Lemma char_not_x ch : forallb (State_eqb Sx) (char_bits 8 (byte_val ch)) = false.
Proof. revert ch. all_chars. Qed.

Lemma forallb_false_nil {A} (s : list A) : forallb (fun _ => false) s = bool_decide (s = []).
Proof. destruct s; done. Qed.

(** ** The integer read from a bit vector *)

Definition s1_bits (l : list State) : list bool := State_eqb S1 <$> l.

Lemma lor_disjoint a b k : 0 <= k -> 0 <= a < 2 ^ k -> Z.lor a (Z.shiftl b k) = a + b * 2 ^ k.
Proof.
  intros Hk Ha. rewrite Z.shiftl_mul_pow2 by lia.
  assert (Hd : Z.land a (b * 2 ^ k) = 0).
  { apply Z.bits_inj'. intros i Hi. rewrite Z.land_spec, Z.bits_0.
    destruct (Z.ltb_spec i k).
    - rewrite Z.mul_pow2_bits_low by lia. apply andb_false_r.
    - rewrite <- (Z.mod_small a (2 ^ k)), Z.mod_pow2_bits_high by lia. done. }
  by rewrite <- Z.lxor_lor, <- Z.add_nocarry_lxor.
Qed.

Lemma s32_lor a b : s32 (Z.lor (s32 a) (s32 b)) = s32 (Z.lor a b).
Proof.
  apply s32_mod. rewrite <- !Z.land_ones by lia.
  rewrite !Z.land_lor_distr_l, !Z.land_ones by lia. by rewrite !s32_cong.
Qed.

Lemma as_int_bits_loop_spec l i v :
  0 <= v < 2 ^ Z.of_nat i ->
  as_int_bits_loop l i (s32 v) = s32 (v + 2 ^ Z.of_nat i * bits_val (s1_bits l)).
Proof.
  revert i v. induction l as [|b l IH]; intros i v Hv.
  - cbn. f_equal. lia.
  - cbn [as_int_bits_loop s1_bits fmap list_fmap].
    assert (HS : 2 ^ Z.of_nat (S i) = 2 * 2 ^ Z.of_nat i)
      by (rewrite Nat2Z.inj_succ, Z.pow_succ_r; lia).
    unfold State_eqb in *. rewrite (bool_decide_ext (b = S1) (S1 = b)) by done.
    cbn [bits_val]. destruct (bool_decide (S1 = b)).
    + rewrite s32_lor, lor_disjoint by lia.
      rewrite IH by lia. f_equal. rewrite HS. simpl Z.b2z. unfold s1_bits, State_eqb. lia.
    + rewrite IH by lia. f_equal. rewrite HS. simpl Z.b2z. unfold s1_bits, State_eqb. lia.
Qed.

Lemma s1_bits_of_bools l : s1_bits (state_of_bool <$> l) = l.
Proof.
  unfold s1_bits. induction l as [|b l IH]; [done|].
  rewrite !fmap_cons, IH. by destruct b.
Qed.

Lemma s1_bits_app l1 l2 : s1_bits (l1 ++ l2) = s1_bits l1 ++ s1_bits l2.
Proof. apply fmap_app. Qed.

Lemma s1_bits_length l : length (s1_bits l) = length l.
Proof. apply length_fmap. Qed.
#[export] Hint Rewrite s1_bits_length : lens.

Lemma char_bits_val ch : bits_val (s1_bits (char_bits 8 (byte_val ch))) = byte_val ch.
Proof.
  rewrite char_bits_Z_bits, s1_bits_of_bools, bits_val_Z_bits.
  apply Z.mod_small, byte_val_range.
Qed.

(** Character [j] from the end occupies bits [8j .. 8j+7]. *)
Lemma str_bits_chunk s j :
  (j < length s)%nat ->
  take 8 (drop (8 * j) (str_bits s)) =
  char_bits 8 (byte_val (nth (length s - S j) s Ascii.zero)).
Proof.
  intros Hj. apply list_eq. intros i.
  destruct (decide (i < 8)%nat) as [Hi|Hi].
  2:{ rewrite !lookup_ge_None_2; [done| |]; [|rewrite length_take; lia].
      rewrite char_bits_Z_bits, length_fmap, Z_bits_length. lia. }
  rewrite lookup_take_lt, lookup_drop, str_bits_lookup by lia.
  destruct (Nat.leb_spec (8 * length s) (8 * j + i)); [lia|].
  assert ((8 * j + i) / 8 = j)%nat as -> by
    (rewrite Nat.mul_comm, Nat.div_add_l, (Nat.div_small i 8) by lia; lia).
  assert ((8 * j + i) mod 8 = i)%nat as -> by
    (rewrite Nat.mul_comm, Nat.add_comm, Nat.Div0.mod_add, Nat.mod_small by lia; lia).
  replace (length s - j - 1)%nat with (length s - S j)%nat by lia.
  rewrite (nth_lookup s (length s - S j) Ascii.zero).
  destruct (s !! (length s - S j)%nat) as [ch|] eqn:E.
  - cbn [mbind option_bind default from_option].
    rewrite char_bits_Z_bits, list_lookup_fmap, Z_bits_lookup by lia. done.
  - apply lookup_ge_None_1 in E. lia.
Qed.

Lemma as_int_str_loop_spec s i v :
  (i <= length s)%nat ->
  as_int_str_loop s i (s32 v) = s32 (Z.lor v (bits_val (s1_bits (take (8 * i) (str_bits s))))).
Proof.
  revert v. induction i as [|i IH]; intros v Hi.
  - simpl take. cbn [s1_bits fmap list_fmap bits_val as_int_str_loop]. by rewrite Z.lor_0_r.
  - cbn [as_int_str_loop]. rewrite s32_lor, IH by lia. f_equal.
    rewrite <- Z.lor_assoc. f_equal.
    assert (Hl : length (take (8 * i) (str_bits s)) = (8 * i)%nat)
      by (rewrite length_take, str_bits_length; lia).
    rewrite Z.lor_comm.
    replace (Z.of_nat i * 8) with (Z.of_nat (8 * i)) by lia.
    rewrite lor_disjoint; [|lia|].
    2:{ pose proof (bits_val_bound (s1_bits (take (8 * i) (str_bits s)))) as B.
        by rewrite s1_bits_length, Hl in B. }
    replace (8 * S i)%nat with (8 * i + 8)%nat by lia.
    rewrite <- take_take_drop, s1_bits_app, bits_val_app, s1_bits_length, Hl.
    rewrite str_bits_chunk, char_bits_val by lia. lia.
Qed.

Lemma as_int_bits_loop_0 l : as_int_bits_loop l 0 0 = s32 (bits_val (s1_bits l)).
Proof.
  change 0 with (s32 0) at 1. rewrite as_int_bits_loop_spec by lia. f_equal. lia.
Qed.

Lemma as_int_str_loop_0 s i :
  (i <= length s)%nat ->
  as_int_str_loop s i 0 = s32 (bits_val (s1_bits (take (8 * i) (str_bits s)))).
Proof. intros Hi. change 0 with (s32 0) at 1. by rewrite as_int_str_loop_spec. Qed.

(** The sign-extension mask [UINT32_MAX << n] adds [-2^n] to the low bits. *)
Lemma sign_mask v n :
  (n < 32)%nat -> 0 <= v < 2 ^ Z.of_nat n ->
  s32 (Z.lor (s32 v) ((Z.shiftl UINT32_MAX (Z.of_nat n)) mod 2 ^ 32)) = s32 (v - 2 ^ Z.of_nat n).
Proof.
  intros Hn Hv. apply s32_mod. rewrite <- !Z.land_ones by lia.
  rewrite Z.land_lor_distr_l, <- Z.land_assoc, Z.land_diag, !Z.land_ones, s32_cong by lia.
  unfold UINT32_MAX. rewrite <- !Z.land_ones by lia.
  rewrite <- Z.land_lor_distr_l, lor_disjoint, !Z.land_ones by lia.
  replace (v + (2 ^ 32 - 1) * 2 ^ Z.of_nat n)
    with (v - 2 ^ Z.of_nat n + 2 ^ Z.of_nat n * 2 ^ 32) by lia.
  by rewrite Z_mod_plus_full.
Qed.

(** [as_int] reads the low 32 bits, sign-extending a shorter constant when asked. *)
Definition as_int_value (l : list State) (is_signed : bool) : Z :=
  s32 (bits_val (s1_bits (take 32 l)) -
       (if is_signed && (length l <? 32)%nat && bool_decide (last l = Some S1)
        then 2 ^ Z.of_nat (length l) else 0)).

Lemma as_int_bits fl l sg : as_int (mkConst fl (BackBits l)) sg = as_int_value l sg.
Proof.
  unfold as_int, as_int_value. cbn [backing].
  rewrite as_int_bits_loop_0, (Nat.min_comm (length l)), <- take_take, (take_ge l) by lia.
  destruct sg; cbn [andb]; [|by rewrite Z.sub_0_r].
  destruct (Nat.ltb_spec (length l) 32).
  - rewrite Nat.min_r by lia. destruct (Nat.ltb_spec (length l) 32); [|lia].
    destruct (Nat.ltb_spec 0 (length l)); cbn [andb].
    + destruct (bool_decide _); [|by rewrite Z.sub_0_r].
      apply sign_mask; [lia|].
      pose proof (bits_val_bound (s1_bits (take 32 l))) as B.
      rewrite s1_bits_length, take_ge in B by lia. by rewrite take_ge by lia.
    + destruct l; [done|simpl in *; lia].
  - rewrite Nat.min_l by lia. by rewrite andb_false_r, Z.sub_0_r.
Qed.

Lemma byte_msb ch : negb (Z.land (byte_val ch) 128 =? 0) =
  bool_decide (last (char_bits 8 (byte_val ch)) = Some S1).
Proof. revert ch. all_chars. Qed.

Lemma last_str_bits s :
  (0 < length s)%nat ->
  last (str_bits s) = last (char_bits 8 (byte_val (nth 0 s Ascii.zero))).
Proof.
  destruct s as [|ch s]; simpl; [lia|]. intros _.
  unfold str_bits. rewrite reverse_cons, fmap_app, concat_app, list_fmap_singleton.
  cbn [concat nth]. rewrite app_nil_r, last_app. by destruct ch as [[] [] [] [] [] [] [] []].
Qed.

Lemma as_int_str fl s sg : as_int (mkConst fl (BackStr s)) sg = as_int_value (str_bits s) sg.
Proof.
  unfold as_int, as_int_value. cbn [backing].
  rewrite as_int_str_loop_0, str_bits_length by lia.
  assert (take (8 * (4 `min` length s)) (str_bits s) = take 32 (str_bits s)) as ->.
  { destruct (Nat.min_spec 4 (length s)) as [[? ->]|[? ->]]; [done|].
    by rewrite !take_ge by (rewrite str_bits_length; lia). }
  destruct sg; cbn [andb]; [|by rewrite Z.sub_0_r].
  destruct (Nat.ltb_spec (length s) 4), (Nat.ltb_spec (8 * length s) 32); try lia.
  2:{ by rewrite andb_false_r, Z.sub_0_r. }
  destruct (Nat.ltb_spec 0 (length s)); cbn [andb].
  - rewrite last_str_bits, <- byte_msb by lia.
    destruct (negb _); [|by rewrite Z.sub_0_r].
    replace (Z.of_nat (length s) * 8) with (Z.of_nat (8 * length s)) by lia.
    apply sign_mask; [lia|].
    pose proof (bits_val_bound (s1_bits (take 32 (str_bits s)))) as B.
    rewrite s1_bits_length, take_ge, str_bits_length in B by (rewrite str_bits_length; lia).
    by rewrite take_ge by (rewrite str_bits_length; lia).
  - destruct s; [done|simpl in *; lia].
Qed.

Lemma as_int_spec c sg : as_int c sg = as_int_value (bits_internal c) sg.
Proof. destruct c as [fl [l|s]]; [apply as_int_bits|apply as_int_str]. Qed.

Lemma index_eq_loop_spec c1 c2 n i :
  index_eq_loop c1 c2 n i = true <->
  forall j, (i <= j < i + n)%nat -> const_index c1 j = const_index c2 j.
Proof.
  revert i. induction n as [|n IH]; intros i; cbn [index_eq_loop].
  - split; [intros _ j Hj; lia|done].
  - case_bool_decide as E.
    + rewrite IH. split; intros H j Hj; [|apply H; lia].
      destruct (decide (j = i)) as [->|]; [done|apply H; lia].
    + split; [done|]. intros H. destruct E. apply H. lia.
Qed.

Lemma const_index_eq_bits c1 c2 :
  const_size c1 = const_size c2 ->
  index_eq_loop c1 c2 (const_size c1) 0 = true <-> bits_internal c1 = bits_internal c2.
Proof.
  intros Hs. rewrite index_eq_loop_spec. split.
  - intros H. apply list_eq_same_length with (const_size c1).
    + by rewrite Hs, const_size_spec.
    + by rewrite const_size_spec.
    + intros j x y Hj Hx Hy. specialize (H j ltac:(lia)).
      rewrite !const_index_spec in H. congruence.
  - intros H j _. by rewrite !const_index_spec, H.
Qed.

Lemma str_bits_inj s1 s2 : str_bits s1 = str_bits s2 -> s1 = s2.
Proof.
  intros H.
  assert (Hl : length s1 = length s2)
    by (pose proof (f_equal length H) as L; rewrite !str_bits_length in L; lia).
  apply list_eq_same_length with (length s1); [done|done|].
  intros i x y Hi Hx Hy.
  pose proof (str_bits_chunk s1 (length s1 - S i) ltac:(lia)) as H1.
  pose proof (str_bits_chunk s2 (length s1 - S i) ltac:(lia)) as H2.
  rewrite H, H2 in H1.
  replace (length s2 - S (length s1 - S i))%nat with i in H1 by lia.
  replace (length s1 - S (length s1 - S i))%nat with i in H1 by lia.
  rewrite !nth_lookup, Hx, Hy in H1. cbn [default from_option id] in H1.
  apply (f_equal (fun l => bits_val (s1_bits l))) in H1. rewrite !char_bits_val in H1.
  unfold byte_val in H1. apply N2Z.inj in H1.
  apply (f_equal ascii_of_N) in H1. by rewrite !ascii_N_embedding in H1.
Qed.

(** [operator==] decides equality of the denoted bit vectors on every mix of backings. *)
Lemma const_eqb_spec c1 c2 : const_eqb c1 c2 = true <-> bits_internal c1 = bits_internal c2.
Proof.
  assert (Hmix : (if (const_size c1 =? const_size c2)%nat
                  then index_eq_loop c1 c2 (const_size c1) 0 else false) = true <->
                 bits_internal c1 = bits_internal c2).
  { destruct (Nat.eqb_spec (const_size c1) (const_size c2)) as [E|E].
    - by apply const_index_eq_bits.
    - split; [done|]. intros H. destruct E. by rewrite !const_size_spec, H. }
  destruct c1 as [f1 [l1|s1]], c2 as [f2 [l2|s2]]; try exact Hmix; cbn.
  - apply bool_decide_eq_true.
  - rewrite bool_decide_eq_true. split; [by intros ->|apply str_bits_inj].
Qed.

(** The observers that look at the backing themselves. *)
Lemma direct_observers (c : Const) :
  let c' := bitvectorize c in
  const_size c = const_size c' /\ const_empty c = const_empty c' /\
  to_bits c = to_bits c' /\ as_bool c = as_bool c' /\
  (forall sg, as_int c sg = as_int c' sg) /\
  is_fully_zero c = is_fully_zero c' /\ is_fully_ones c = is_fully_ones c' /\
  is_fully_def c = is_fully_def c' /\ is_fully_undef c = is_fully_undef c' /\
  is_fully_undef_x_only c = is_fully_undef_x_only c' /\
  is_onehot c = is_onehot c' /\ const_eqb c c' = true.
Proof.
  destruct c as [fl [l|s]]; cbn [bitvectorize backing flags].
  { repeat split; try done. unfold const_eqb. cbn. by apply bool_decide_eq_true. }
  assert (Hb : bits_internal (mkConst fl (BackStr s)) = str_bits s) by done.
  assert (Ht : to_bits (mkConst fl (BackStr s)) = to_bits (mkConst fl (BackBits (str_bits s))))
    by (by rewrite !to_bits_spec).
  split; [unfold const_size; cbn; by rewrite str_bits_length|].
  split.
  { unfold const_empty; cbn. apply bool_decide_ext. split; [by intros ->|].
    intros H%(f_equal length). rewrite str_bits_length in H. destruct s; [done|simpl in H; lia]. }
  split; [exact Ht|].
  split.
  { unfold as_bool, str_bits; cbn [backing]. autorewrite with bits.
    apply existsb_ext', char_nonzero. }
  split; [intros sg; by rewrite as_int_str, as_int_bits|].
  unfold is_fully_zero, is_fully_ones, is_fully_def, is_fully_undef, is_fully_undef_x_only;
    cbn [backing].
  unfold str_bits at 1 2 3 4 5. autorewrite with bits.
  split; [apply forallb_ext', char_zero|]. split; [apply forallb_ext', char_ones|].
  split; [symmetry; apply forallb_forall; intros; apply char_def|].
  rewrite (forallb_ext' _ (fun _ => false) s char_not_undef), forallb_false_nil.
  rewrite (forallb_ext' _ (fun _ => false) s char_not_x), forallb_false_nil.
  split; [done|]. split; [done|].
  split; [unfold is_onehot; by rewrite Ht|].
  apply const_eqb_spec. by rewrite Hb.
Qed.

(** The observers that read through the iterator. *)
Lemma const_index_backing c i : const_index (bitvectorize c) i = const_index c i.
Proof. rewrite !const_index_spec. by destruct c as [fl [l|s]]. Qed.

Lemma index_lt_loop_ext c1 c2 d1 d2 n i :
  (forall j, const_index c1 j = const_index d1 j) -> (forall j, const_index c2 j = const_index d2 j) ->
  index_lt_loop c1 c2 n i = index_lt_loop d1 d2 n i.
Proof. intros H1 H2. revert i. induction n as [|n IH]; intros i; cbn; [done|]. by rewrite H1, H2, IH. Qed.

Lemma const_ltb_backing c d : const_ltb (bitvectorize c) d = const_ltb c d /\ const_ltb d (bitvectorize c) = const_ltb d c.
Proof.
  assert (Hs : const_size (bitvectorize c) = const_size c) by (symmetry; apply direct_observers).
  unfold const_ltb. rewrite Hs. split; (destruct (_ =? _)%nat; [|done]); by apply index_lt_loop_ext; intros j; rewrite ?const_index_backing.
Qed.

Lemma bits_internal_backing c : bits_internal (bitvectorize c) = bits_internal c.
Proof. by destruct c as [fl [l|s]]. Qed.

Lemma const_eqb_backing c d : const_eqb (bitvectorize c) d = const_eqb c d /\ const_eqb d (bitvectorize c) = const_eqb d c.
Proof. split; apply eq_iff_eq_true; by rewrite !const_eqb_spec, bits_internal_backing. Qed.

(** ** Integers through constants *)

Lemma store_bytes_length n i str val : length (store_bytes n i str val) = length str.
Proof. revert i str val. induction n; intros; cbn; [done|]. by rewrite IHn, length_insert. Qed.
#[export] Hint Rewrite store_bytes_length : lens.

Lemma store_bytes_lookup n i str val j :
  (i + n <= length str)%nat -> (j < length str)%nat ->
  store_bytes n i str val !! (length str - 1 - j)%nat =
  if (i <=? j)%nat && (j <? i + n)%nat
  then Some (byte_of (Z.shiftr val (8 * Z.of_nat (j - i))))
  else str !! (length str - 1 - j)%nat.
Proof.
  revert i str val. induction n as [|n IH]; intros i str val Hn Hj; cbn [store_bytes].
  - destruct (Nat.leb_spec i j), (Nat.ltb_spec j (i + 0)); try done; lia.
  - pose proof (IH (S i) (<[(length str - 1 - i)%nat := byte_of val]> str) (Z.shiftr val 8)) as E.
    rewrite length_insert in E. rewrite E by lia.
    destruct (Nat.leb_spec (S i) j), (Nat.ltb_spec j (S i + n)), (Nat.leb_spec i j),
      (Nat.ltb_spec j (i + S n)); try lia; cbn [andb].
    + do 2 f_equal. rewrite Z.shiftr_shiftr by lia. f_equal. lia.
    + rewrite list_lookup_insert_ne by lia. done.
    + assert (j = i) as -> by lia. rewrite list_lookup_insert_eq by lia.
      rewrite Nat.sub_diag. done.
    + rewrite list_lookup_insert_ne by lia. done.
Qed.

Lemma testbit_beyond_int64 val k :
  - 2 ^ 63 <= val < 2 ^ 63 -> 63 <= k -> Z.testbit val k = (val <? 0).
Proof.
  intros Hv Hk. destruct (Z.ltb_spec val 0).
  - apply Z.bits_above_log2_neg; [lia|].
    destruct (decide (Z.pred (- val) = 0)) as [->|]; [simpl; lia|].
    apply Z.log2_lt_pow2; [lia|].
    apply Z.lt_le_trans with (2 ^ 63); [lia|]. by apply Z.pow_le_mono_r.
  - destruct (decide (val = 0)) as [->|]; [apply Z.testbit_0_l|].
    apply Z.bits_above_log2; [lia|]. apply Z.log2_lt_pow2; [lia|].
    apply Z.lt_le_trans with (2 ^ 63); [lia|]. by apply Z.pow_le_mono_r.
Qed.

Lemma byte_of_testbit z r : 0 <= r < 8 -> Z.testbit (byte_val (byte_of z)) r = Z.testbit z r.
Proof.
  intros Hr. rewrite byte_val_of. change 256 with (2 ^ 8).
  by rewrite Z.mod_pow2_bits_low by lia.
Qed.

Lemma const_of_int_str_bits val n :
  - 2 ^ 63 <= val < 2 ^ 63 ->
  str_bits (store_bytes (n `min` 8) 0
    (replicate n (byte_of (if val <? 0 then -1 else 0))) val) =
  state_of_bool <$> Z_bits (8 * n) val.
Proof.
  intros Hv. apply list_eq. intros i.
  rewrite str_bits_lookup, store_bytes_length, length_replicate.
  destruct (Nat.leb_spec (8 * n) i) as [Hi|Hi].
  { symmetry. apply lookup_ge_None_2. rewrite length_fmap, Z_bits_length. lia. }
  rewrite list_lookup_fmap, Z_bits_lookup by lia.
  assert (Hd : (i / 8 < n)%nat) by (apply Nat.Div0.div_lt_upper_bound; lia).
  assert (Hm : (i mod 8 < 8)%nat) by (apply Nat.mod_upper_bound; lia).
  assert (Hi8 : (i = 8 * (i / 8) + i mod 8)%nat) by (apply Nat.div_mod_eq).
  set (j := (i / 8)%nat) in *. set (r := (i mod 8)%nat) in *.
  set (str := replicate n _).
  assert (Hls : length str = n) by apply length_replicate.
  replace (n - j - 1)%nat with (length str - 1 - j)%nat by lia.
  rewrite store_bytes_lookup by lia. rewrite Nat.sub_0_r. cbn [Nat.leb andb].
  destruct (Nat.ltb_spec j (0 + n `min` 8)).
  - cbn [mbind option_bind]. rewrite byte_of_testbit, Z.shiftr_spec by lia.
    cbn [fmap option_fmap option_map]. do 3 f_equal. lia.
  - rewrite Hls. unfold str. rewrite lookup_replicate_2 by lia. cbn [mbind option_bind].
    rewrite byte_of_testbit, (testbit_beyond_int64 val) by lia.
    destruct (val <? 0); cbn; [|by rewrite Z.testbit_0_l].
    by rewrite Z.bits_m1 by lia.
Qed.

Lemma land7_zero w : (Z.land w 7 =? 0) = true -> w = 8 * Z.shiftr w 3.
Proof.
  intros H%Z.eqb_eq. change 7 with (Z.ones 3) in H. rewrite Z.land_ones in H by lia.
  rewrite Z.shiftr_div_pow2 by lia. change (2 ^ 3) with 8 in *. zdiv.
Qed.

Lemma const_of_int_spec val width :
  - 2 ^ 63 <= val < 2 ^ 63 -> 0 <= width ->
  exists c, const_of_int val width = Some c /\ flags c = CONST_FLAG_NONE /\
    bits_internal c = state_of_bool <$> Z_bits (Z.to_nat width) val.
Proof.
  intros Hv Hw. unfold const_of_int.
  destruct (Z.ltb_spec width 0); [lia|].
  destruct (Z.land width 7 =? 0) eqn:E.
  - apply land7_zero in E. eexists. split; [done|]. split; [done|].
    unfold bits_internal; cbn [bitvectorize backing].
    rewrite const_of_int_str_bits by done. do 2 f_equal. lia.
  - eexists. split; [done|]. split; [done|].
    unfold bits_internal; cbn [bitvectorize backing]. apply push_bits_Z_bits.
Qed.

(** [Const(long long val, int width)] holds the two's complement bits of
    [val] (sign-extended beyond 64 bits), whichever backing the width selects,
    and rejects exactly the negative widths. *)
Theorem const_of_int_bits (val width : Z) (Hv : - 2 ^ 63 <= val < 2 ^ 63) :
  (c ← const_of_int val width; to_bits c) =
  if width <? 0 then None
  else Some (state_of_bool <$> Z_bits (Z.to_nat width) val).
Proof.
  destruct (Z.ltb_spec width 0) as [Hw|Hw].
  - unfold const_of_int. destruct (Z.ltb_spec width 0); [done|lia].
  - destruct (const_of_int_spec val width Hv Hw) as (c & -> & _ & Hc).
    cbn. by rewrite to_bits_spec, Hc.
Qed.

(* both backings of the constructor: 16 bits in a string, 11 bits in a vector *)
Lemma const_of_int_bits_witness :
  (- 2 ^ 63 <= -3 < 2 ^ 63) /\
  (c ← const_of_int (-3) 16; to_bits c) = Some (state_of_bool <$> Z_bits 16 (-3)) /\
  (c ← const_of_int (-3) 11; to_bits c) = Some (state_of_bool <$> Z_bits 11 (-3)).
Proof.
  split; [lia|]. split.
  - apply (const_of_int_bits (-3) 16); lia.
  - apply (const_of_int_bits (-3) 11); lia.
Defined.

Lemma Z_bits_take k n z : (k <= n)%nat -> take k (Z_bits n z) = Z_bits k z.
Proof.
  intros Hk. apply list_eq. intros i. destruct (decide (i < k)%nat).
  - rewrite lookup_take_lt, !Z_bits_lookup by lia. done.
  - rewrite !lookup_ge_None_2; rewrite ?length_take, ?Z_bits_length; [done|lia|lia].
Qed.

Lemma last_Z_bits n z : (0 < n)%nat -> last (Z_bits n z) = Some (Z.testbit z (Z.of_nat (n - 1))).
Proof. intros Hn. rewrite last_lookup, Z_bits_length, Z_bits_lookup by lia. do 3 f_equal. lia. Qed.

Lemma mod_sign n z :
  (0 < n)%nat ->
  z mod 2 ^ Z.of_nat n - (if Z.testbit z (Z.of_nat (n - 1)) then 2 ^ Z.of_nat n else 0) =
  (z + 2 ^ Z.of_nat (n - 1)) mod 2 ^ Z.of_nat n - 2 ^ Z.of_nat (n - 1).
Proof.
  intros Hn. set (h := 2 ^ Z.of_nat (n - 1)).
  assert (Hp : 2 ^ Z.of_nat n = 2 * h).
  { unfold h. rewrite <- Z.pow_succ_r by lia. f_equal. lia. }
  assert (Hh : 0 < h) by (unfold h; lia).
  rewrite Hp.
  assert (Ht : Z.testbit z (Z.of_nat (n - 1)) = (h <=? z mod (2 * h))).
  { rewrite <- Hp. rewrite <- (Z.mod_pow2_bits_low z (Z.of_nat n)) by lia.
    rewrite Z.testbit_eqb by lia. fold h. rewrite Hp.
    pose proof (Z.mod_pos_bound z (2 * h) ltac:(lia)).
    destruct (Z.leb_spec h (z mod (2 * h))).
    - rewrite <- (Z.div_unique (z mod (2 * h)) h 1 (z mod (2 * h) - h)) by lia. done.
    - rewrite Z.div_small by lia. done. }
  rewrite Ht. pose proof (Z.div_mod z (2 * h) ltac:(lia)) as Hd.
  pose proof (Z.mod_pos_bound z (2 * h) ltac:(lia)).
  destruct (Z.leb_spec h (z mod (2 * h))).
  - rewrite <- (Z.mod_unique (z + h) (2 * h) (z / (2 * h) + 1) (z mod (2 * h) - h)) by lia. lia.
  - rewrite <- (Z.mod_unique (z + h) (2 * h) (z / (2 * h)) (z mod (2 * h) + h)) by lia. lia.
Qed.

(** ** Range behaviour of the conversions to [int] *)

(** The integer a fully defined constant denotes. *)
Definition bits_value (bl : list bool) (is_signed : bool) : Z :=
  if is_signed then bits_sval bl else bits_val bl.

Definition const_value (c : Const) (is_signed : bool) : Z :=
  bits_value (s1_bits (bits_internal c)) is_signed.

Lemma fully_def_bools l : forallb is_01 l = true -> l = state_of_bool <$> s1_bits l.
Proof.
  induction l as [|b l IH]; [done|]. cbn [forallb]. intros [Hb Hl]%andb_true_iff.
  unfold s1_bits in *. rewrite !fmap_cons, <- IH by done. f_equal. by destruct b.
Qed.

Lemma is_fully_def_spec c : is_fully_def c = forallb is_01 (bits_internal c).
Proof.
  destruct c as [fl [l|s]]; [done|]. cbn. unfold str_bits. autorewrite with bits.
  symmetry. apply forallb_forall. intros; apply char_def.
Qed.

Lemma last_fmap_bools bl : last (state_of_bool <$> bl) = Some S1 <-> last bl = Some true.
Proof.
  rewrite fmap_last. destruct (last bl) as [[]|]; split; intros [=]; done.
Qed.

Lemma bits_val_take_mod k (bl : list bool) : bits_val (take k bl) mod 2 ^ Z.of_nat k = bits_val bl mod 2 ^ Z.of_nat k.
Proof.
  rewrite <- (take_drop k bl) at 2. rewrite bits_val_app.
  destruct (decide (k <= length bl)%nat).
  - rewrite length_take, Nat.min_l, Z.mul_comm, Z_mod_plus_full by lia. done.
  - rewrite drop_ge by lia. cbn. f_equal. lia.
Qed.

Lemma as_int_value_def bl sg : as_int_value (state_of_bool <$> bl) sg = s32 (bits_value bl sg).
Proof.
  unfold as_int_value, bits_value. rewrite length_fmap.
  rewrite <- fmap_take, s1_bits_of_bools. apply s32_mod.
  destruct sg; cbn [andb].
  - unfold bits_sval. destruct (Nat.ltb_spec (length bl) 32); cbn [andb].
    + rewrite take_ge by lia. do 2 f_equal.
      destruct (last bl) as [[]|] eqn:E; cbn [default from_option id].
      * rewrite bool_decide_true by (by apply last_fmap_bools). done.
      * rewrite bool_decide_false by (rewrite last_fmap_bools; congruence). done.
      * rewrite bool_decide_false by (rewrite last_fmap_bools; congruence). done.
    + rewrite Z.sub_0_r, (bits_val_take_mod 32).
      destruct (default false (last bl)); [|by rewrite Z.sub_0_r].
      replace (2 ^ Z.of_nat (length bl)) with (2 ^ (Z.of_nat (length bl) - 32) * 2 ^ 32)
        by (rewrite <- Z.pow_add_r by lia; f_equal; lia).
      by rewrite <- Zminus_mod_idemp_r, Z_mod_mult, Z.sub_0_r.
  - rewrite Z.sub_0_r. apply (bits_val_take_mod 32).
Qed.

Lemma min_size_loop_spec (l : list State) b n :
  let i := min_size_loop l b n in
  (i <= n)%nat /\ (forall k, (i <= k < n)%nat -> l !! k = Some b) /\
  (i = 0%nat \/ l !! (i - 1)%nat <> Some b).
Proof.
  induction n as [|n IH]; cbn [min_size_loop].
  - repeat split; [lia|intros; lia|by left].
  - case_bool_decide as E.
    + destruct IH as (H1 & H2 & H3). repeat split; [lia| |done].
      intros k Hk. destruct (decide (k = n)) as [->|]; [done|apply H2; lia].
    + repeat split; [lia|intros; lia|]. right. by replace (S n - 1)%nat with n by lia.
Qed.

Lemma constant_tail (bl : list bool) b i :
  (i <= length bl)%nat -> (forall k, (i <= k < length bl)%nat -> bl !! k = Some b) ->
  bl = take i bl ++ replicate (length bl - i) b.
Proof.
  intros Hi H. apply list_eq. intros k.
  destruct (decide (k < i)%nat).
  - rewrite lookup_app_l, lookup_take_lt by (rewrite ?length_take; lia). done.
  - rewrite lookup_app_r, length_take, Nat.min_l by (rewrite ?length_take; lia).
    destruct (decide (k < length bl)%nat).
    + rewrite lookup_replicate_2, H by lia. done.
    + rewrite !lookup_ge_None_2; rewrite ?length_replicate; [done|lia|lia].
Qed.

(** Where the redundant leading copies of [b] start determines the magnitude. *)
Lemma value_of_tail (bl : list bool) b i :
  (i <= length bl)%nat -> (forall k, (i <= k < length bl)%nat -> bl !! k = Some b) ->
  (i = 0%nat \/ bl !! (i - 1)%nat = Some (negb b)) ->
  bits_val bl = bits_val (take i bl) + (if b then 2 ^ Z.of_nat (length bl) - 2 ^ Z.of_nat i else 0) /\
  (if b then bits_val (take i bl) < 2 ^ Z.of_nat (i - 1)
   else (i = 0%nat \/ 2 ^ Z.of_nat (i - 1) <= bits_val (take i bl))).
Proof.
  intros Hi Ht Hb. split.
  - rewrite (constant_tail bl b i) at 1 by done.
    rewrite bits_val_app, length_take, Nat.min_l by lia. destruct b.
    + rewrite bits_val_replicate_true, Z.mul_sub_distr_l, <- Z.pow_add_r, <- Nat2Z.inj_add by lia.
      replace (i + (length bl - i))%nat with (length bl) by lia. lia.
    + rewrite bits_val_replicate_false. lia.
  - destruct Hb as [->|Hb]; [destruct b; [rewrite take_0; simpl; lia|by left]|].
    destruct i as [|i]; [destruct b; [rewrite take_0; simpl; lia|by left]|].
    replace (S i - 1)%nat with i in * by lia.
    rewrite (take_S_r bl i (negb b)) by done.
    rewrite bits_val_app, length_take, Nat.min_l by lia.
    pose proof (bits_val_bound (take i bl)) as B.
    rewrite length_take, Nat.min_l in B by lia.
    destruct b; cbn -[Z.pow Z.of_nat]; lia.
Qed.

Lemma pow2_le_mono a b : (a <= b)%nat -> 2 ^ Z.of_nat a <= 2 ^ Z.of_nat b.
Proof. intros. apply Z.pow_le_mono_r; lia. Qed.

(** [get_min_size] of a defined constant counts the value bits. *)
Lemma min_size_signed (bl : list bool) :
  let n := min_size_bits (state_of_bool <$> bl) true in
  bl <> [] -> (1 <= n <= length bl)%nat /\ bl !! (n - 1)%nat = last bl /\
  ((n <= 32)%nat <-> INT_MIN <= bits_sval bl <= INT_MAX).
Proof.
  intros n Hne. unfold n, min_size_bits. rewrite fmap_last, length_fmap.
  destruct (last bl) as [b|] eqn:Hl; [|by apply last_None in Hl]. cbn [fmap option_fmap option_map].
  rewrite (bool_decide_false (state_of_bool b = Sx)) by (by destruct b).
  pose proof (min_size_loop_spec (state_of_bool <$> bl) (state_of_bool b) (length bl)) as (H1 & H2 & H3).
  set (i := min_size_loop _ _ _) in *.
  assert (Hlast : bl !! (length bl - 1)%nat = Some b)
    by (rewrite <- Hl, last_lookup; f_equal; lia).
  assert (Hlen : (0 < length bl)%nat) by (destruct bl; simpl; [done|lia]).
  assert (Ht : forall k, (i <= k < length bl)%nat -> bl !! k = Some b).
  { intros k Hk. specialize (H2 k Hk). rewrite list_lookup_fmap in H2.
    destruct (bl !! k) as [b'|]; [|done]. by destruct b, b'. }
  assert (Hi : (i < length bl)%nat).
  { destruct (decide (i = length bl)) as [E|]; [|lia]. exfalso. destruct H3 as [H3|H3]; [lia|].
    apply H3. rewrite E, list_lookup_fmap, Hlast. done. }
  assert (Hb : i = 0%nat \/ bl !! (i - 1)%nat = Some (negb b)).
  { destruct H3 as [H3|H3]; [by left|right]. rewrite list_lookup_fmap in H3.
    destruct (bl !! (i - 1)%nat) as [b'|] eqn:E.
    - destruct b, b'; try done; by destruct H3.
    - apply lookup_ge_None_1 in E. lia. }
  destruct (Nat.ltb_spec i (length bl)); [|lia]. cbn [andb Nat.eqb].
  split; [lia|]. split.
  { replace (S i - 1)%nat with i by lia. apply Ht. lia. }
  destruct (value_of_tail bl b i ltac:(lia) Ht Hb) as [Hv Hm].
  unfold bits_sval. rewrite Hl, Hv. cbn [default from_option id].
  pose proof (bits_val_bound (take i bl)) as B. rewrite length_take, Nat.min_l in B by lia.
  unfold INT_MIN, INT_MAX.
  assert (Hp : forall a, (a <= 31)%nat -> 2 ^ Z.of_nat a <= 2 ^ 31)
    by (intros; apply (pow2_le_mono _ 31); lia).
  assert (Hq : forall a, (31 <= a)%nat -> 2 ^ 31 <= 2 ^ Z.of_nat a)
    by (intros; apply (pow2_le_mono 31); lia).
  assert (Hi2 : i = 0%nat \/ 2 ^ Z.of_nat i = 2 * 2 ^ Z.of_nat (i - 1)).
  { destruct i; [by left|right]. rewrite <- Z.pow_succ_r by lia. f_equal. lia. }
  destruct (decide (i <= 31)%nat) as [Hc|Hc].
  - split; [intros _|lia]. specialize (Hp i Hc). destruct b; cbn match in *; lia.
  - split; [lia|]. intros Hr. exfalso.
    specialize (Hq (i - 1)%nat ltac:(lia)). destruct b; cbn match in *; lia.
Qed.

Lemma min_size_unsigned (bl : list bool) :
  let n := min_size_bits (state_of_bool <$> bl) false in
  bl <> [] -> (1 <= n <= length bl)%nat /\ (forall k, (1 <= k)%nat -> (n <= k)%nat <-> bits_val bl < 2 ^ Z.of_nat k).
Proof.
  intros n Hne. unfold n, min_size_bits. rewrite fmap_last, length_fmap.
  destruct (last bl) as [b|] eqn:Hl; [|by apply last_None in Hl].
  cbn [fmap option_fmap option_map andb].
  pose proof (min_size_loop_spec (state_of_bool <$> bl) S0 (length bl)) as (H1 & H2 & H3).
  set (i := min_size_loop _ _ _) in *.
  assert (Hlen : (0 < length bl)%nat) by (destruct bl; simpl; [done|lia]).
  assert (Ht : forall k, (i <= k < length bl)%nat -> bl !! k = Some false).
  { intros k Hk. specialize (H2 k Hk). rewrite list_lookup_fmap in H2.
    destruct (bl !! k) as [[]|]; done. }
  assert (Hb : i = 0%nat \/ bl !! (i - 1)%nat = Some (negb false)).
  { destruct H3 as [H3|H3]; [by left|]. destruct (decide (i = 0)%nat); [by left|right].
    rewrite list_lookup_fmap in H3.
    destruct (bl !! (i - 1)%nat) as [[]|] eqn:E; [done|by destruct H3|].
    apply lookup_ge_None_1 in E. lia. }
  destruct (value_of_tail bl false i ltac:(lia) Ht Hb) as [Hv Hm].
  pose proof (bits_val_bound (take i bl)) as B. rewrite length_take, Nat.min_l in B by lia.
  split; [destruct (Nat.eqb_spec i 0); lia|]. intros k Hk. destruct (decide (i <= k)%nat) as [Hc|Hc].
  - pose proof (pow2_le_mono i k Hc). destruct (Nat.eqb_spec i 0); lia.
  - pose proof (pow2_le_mono k (i - 1) ltac:(lia)). destruct (Nat.eqb_spec i 0); lia.
Qed.

Lemma top_bit_set (bl : list bool) n : bl !! n = Some true -> 2 ^ Z.of_nat n <= bits_val bl.
Proof.
  intros Hb. pose proof (bits_val_bound bl) as B. destruct (Z.le_gt_cases (2 ^ Z.of_nat n) (bits_val bl)) as [|Hlt]; [done|].
  pose proof (Z_bits_nonneg_testbit bl n) as T. rewrite Hb in T. cbn in T.
  rewrite <- (Z.mod_small (bits_val bl) (2 ^ Z.of_nat n)), Z.mod_pow2_bits_high in T by lia. done.
Qed.

Lemma sval_sign (bl : list bool) :
  if default false (last bl) then bits_sval bl < 0 else 0 <= bits_sval bl.
Proof.
  unfold bits_sval. pose proof (bits_val_bound bl). destruct (default false (last bl)); lia.
Qed.

Lemma top_bit_clear (bl : list bool) n :
  length bl = S n -> bl !! n = Some false -> bits_val bl < 2 ^ Z.of_nat n.
Proof.
  intros Hl Hb. rewrite <- (take_ge bl (S n)) by lia.
  rewrite (take_S_r bl n false) by done.
  rewrite bits_val_app. cbn [bits_val]. pose proof (bits_val_bound (take n bl)) as B.
  rewrite length_take, Nat.min_l in B by lia. simpl Z.b2z. lia.
Qed.

Lemma convertible_spec c sg :
  is_fully_def c = true -> sg = true \/ (const_size c <= 32)%nat ->
  convertible_to_int c sg =
  Some (bool_decide (INT_MIN <= const_value c sg <= INT_MAX)).
Proof.
  intros Hdef Hw. rewrite is_fully_def_spec in Hdef. apply fully_def_bools in Hdef.
  unfold const_value. set (bl := s1_bits (bits_internal c)) in *.
  unfold convertible_to_int, get_min_size. rewrite to_bits_spec.
  cbn [mbind option_bind]. rewrite Hdef.
  assert (Hs : const_size c = length bl)
    by (rewrite const_size_spec, Hdef; apply length_fmap).
  destruct (decide (bl = [])) as [->|Hne].
  { destruct sg; cbn; by rewrite bool_decide_true by (vm_compute; split; congruence). }
  unfold bits_value. destruct sg.
  - destruct (min_size_signed bl Hne) as (Hn & _ & Hr).
    set (n := min_size_bits _ _) in *.
    destruct (Nat.leb_spec n 31); [|destruct (Nat.eqb_spec n 32)]; f_equal; symmetry;
      [apply bool_decide_true|apply bool_decide_true|apply bool_decide_false]; rewrite <- Hr; lia.
  - destruct Hw as [|Hw]; [done|].
    destruct (min_size_unsigned bl Hne) as (Hn & Hk). pose proof (Hk 31%nat ltac:(lia)) as Hr. change (2 ^ Z.of_nat 31) with (INT_MAX + 1) in Hr.
    pose proof (bits_val_bound bl) as B.
    set (n := min_size_bits _ _) in *.
    destruct (Nat.leb_spec n 31).
    { f_equal. symmetry. apply bool_decide_true. unfold INT_MIN. lia. }
    destruct (Nat.eqb_spec n 32); [|lia].
    rewrite const_index_spec, Hdef, list_lookup_fmap, Hs.
    assert (length bl = 32%nat) as Hl by lia. rewrite Hl. simpl (32 - 1)%nat.
    destruct (bl !! 31%nat) as [[]|] eqn:E.
    + cbn. f_equal. symmetry. apply bool_decide_false. lia.
    + exfalso. pose proof (top_bit_clear bl 31 Hl E). unfold INT_MAX in *. lia.
    + apply lookup_ge_None_1 in E. lia.
Qed.

Lemma as_int_def c sg : is_fully_def c = true -> as_int c sg = s32 (const_value c sg).
Proof.
  intros Hdef. rewrite is_fully_def_spec in Hdef. apply fully_def_bools in Hdef.
  rewrite as_int_spec, Hdef at 1. by rewrite as_int_value_def.
Qed.

(** The unsigned reading of a constant wider than 32 bits: the size test passes up to
    32 bits, and [back() != S1] then looks at a bit beyond them. *)
Lemma convertible_wide c :
  is_fully_def c = true -> (32 < const_size c)%nat ->
  convertible_to_int c false = Some (const_value c false <? 2 ^ 32).
Proof.
  intros Hdef Hw. rewrite is_fully_def_spec in Hdef. apply fully_def_bools in Hdef.
  unfold const_value. set (bl := s1_bits (bits_internal c)) in *.
  unfold convertible_to_int, get_min_size. rewrite to_bits_spec. cbn [mbind option_bind]. rewrite Hdef.
  assert (Hs : const_size c = length bl) by (rewrite const_size_spec, Hdef; apply length_fmap).
  assert (Hne : bl <> []) by (intros E; rewrite E in Hs; cbn in Hs; lia). unfold bits_value.
  destruct (min_size_unsigned bl Hne) as (Hn & Hk). pose proof (Hk 31%nat ltac:(lia)) as H31. pose proof (Hk 32%nat ltac:(lia)) as H32.
  change (Z.of_nat 32) with 32 in H32. change (Z.of_nat 31) with 31 in H31.
  set (n := min_size_bits _ _) in *. destruct (Nat.leb_spec n 31) as [Hle|Hgt].
  { f_equal. symmetry. apply Z.ltb_lt, H32. lia. }
  destruct (Nat.eqb_spec n 32) as [He|Hne32].
  - rewrite const_index_spec, Hdef, list_lookup_fmap, Hs. assert (Hv : bits_val bl < 2 ^ 32) by (apply H32; lia).
    destruct (bl !! (length bl - 1)%nat) as [[]|] eqn:E.
    + apply top_bit_set in E. pose proof (pow2_le_mono 32 (length bl - 1) ltac:(lia)). change (Z.of_nat 32) with 32 in *. lia.
    + cbn. f_equal. symmetry. by apply Z.ltb_lt.
    + apply lookup_ge_None_1 in E. lia.
  - f_equal. symmetry. apply Z.ltb_ge. destruct (Z.le_gt_cases (2 ^ 32) (bits_val bl)) as [|Hlt]; [done|]. apply H32 in Hlt. lia.
Qed.

(** C32: on fully defined constants, read as signed or of at most 32 bits,
    [convertible_to_int] holds exactly when the value fits a C++ [int],
    [try_as_int] then answers the value and otherwise nothing, and
    [as_int_saturating] clamps the value to the range of [int].  The unsigned
    reading of a wider constant is exact below 2^31 and rejected, or clamped, from
    2^32 on; in between all three take the value for convertible and answer it
    minus 2^32. *)
Theorem int_conversions_exact (c : Const) (sg : bool) (Hdef : is_fully_def c = true) :
  let v := const_value c sg in
  let fits := bool_decide (INT_MIN <= v <= INT_MAX) in
  (sg = true \/ (const_size c <= 32)%nat ->
     convertible_to_int c sg = Some fits /\
     try_as_int c sg = Some (if fits then Some v else None) /\
     as_int_saturating c sg = Some (Z.max INT_MIN (Z.min INT_MAX v))) /\
  (sg = false -> (32 < const_size c)%nat ->
     convertible_to_int c sg = Some (v <? 2 ^ 32) /\
     try_as_int c sg = Some (if v <? 2 ^ 31 then Some v else if v <? 2 ^ 32 then Some (v - 2 ^ 32) else None) /\
     as_int_saturating c sg = Some (if v <? 2 ^ 31 then v else if v <? 2 ^ 32 then v - 2 ^ 32 else INT_MAX)).
Proof.
  intros v fits. split.
  - intros Hw. split; [by apply convertible_spec|]. unfold try_as_int, as_int_saturating. rewrite convertible_spec by done.
    cbn [mbind option_bind]. rewrite as_int_def by done. fold v. unfold fits.
    case_bool_decide as Hr.
    { rewrite s32_id by done. split; [done|]. f_equal. lia. }
    split; [done|]. rewrite is_fully_def_spec in Hdef. apply fully_def_bools in Hdef.
    unfold v, const_value in *. set (bl := s1_bits (bits_internal c)) in *.
    unfold bits_value in *. destruct sg; cbn [negb].
    + assert (Hne : bl <> []) by (intros E; apply Hr; rewrite E; vm_compute; split; congruence).
      unfold get_min_size. rewrite to_bits_spec. cbn [mbind option_bind]. rewrite Hdef.
      destruct (min_size_signed bl Hne) as (Hn & Hlast & _).
      set (n := min_size_bits _ _) in *. destruct (Nat.eqb_spec n 0); [lia|].
      rewrite const_index_spec, Hdef, list_lookup_fmap, Hlast.
      pose proof (sval_sign bl) as Hsg.
      destruct (last bl) as [b|] eqn:E; [|by apply last_None in E].
      cbn in Hsg. unfold INT_MIN, INT_MAX in *. destruct b; cbn -[Z.pow]; f_equal; lia.
    + pose proof (bits_val_bound bl). unfold INT_MIN, INT_MAX in *. f_equal. lia.
  - intros -> Hw. pose proof (convertible_wide c Hdef Hw) as Hc. fold v in Hc. split; [done|].
    unfold try_as_int, as_int_saturating. rewrite Hc. cbn [mbind option_bind negb]. rewrite as_int_def by done. fold v.
    assert (Hv : 0 <= v) by apply bits_val_bound.
    destruct (Z.ltb_spec v (2 ^ 32)); [|destruct (Z.ltb_spec v (2 ^ 31)); [lia|done]].
    destruct (Z.ltb_spec v (2 ^ 31)).
    + rewrite s32_id by (unfold INT_MIN, INT_MAX; lia). done.
    + unfold s32. rewrite <- (Z.mod_unique (v + 2 ^ 31) (2 ^ 32) 1 (v - 2 ^ 31)) by lia.
      replace (v - 2 ^ 31 - 2 ^ 31) with (v - 2 ^ 32) by lia. done.
Qed.

(** -7 in 40 bits, and 2^31 in 40 bits read without a sign. *)
Lemma int_conversions_exact_witness :
  let c := const_of_bits (state_of_bool <$> Z_bits 40 (-7)) in
  let d := const_of_bits (state_of_bool <$> Z_bits 40 (2 ^ 31)) in
  try_as_int c true = Some (Some (-7)) /\ as_int_saturating c true = Some (-7) /\
  try_as_int d false = Some (Some INT_MIN).
Proof.
  intros c d. destruct (int_conversions_exact c true eq_refl) as [H _]. destruct (H (or_introl eq_refl)) as (_ & H1 & H2).
  destruct (int_conversions_exact d false eq_refl) as [_ H']. destruct (H' eq_refl ltac:(apply Nat.ltb_lt; vm_compute; reflexivity)) as (_ & H3 & _).
  vm_compute in H1, H2, H3 |- *. split_and!; assumption.
Defined.

Lemma bits_sval_Z_bits n v :
  (0 < n)%nat -> - 2 ^ Z.of_nat (n - 1) <= v < 2 ^ Z.of_nat (n - 1) -> bits_sval (Z_bits n v) = v.
Proof.
  intros Hn Hv. unfold bits_sval.
  rewrite bits_val_Z_bits, Z_bits_length, last_Z_bits by done. cbn [default from_option id].
  rewrite mod_sign by done.
  assert (2 ^ Z.of_nat n = 2 * 2 ^ Z.of_nat (n - 1))
    by (rewrite <- Z.pow_succ_r by lia; f_equal; lia).
  rewrite Z.mod_small; lia.
Qed.

Lemma forallb_01_bools bl : forallb is_01 (state_of_bool <$> bl) = true.
Proof. induction bl as [|[] bl IH]; done. Qed.

(** C33: an [int] stored in a constant is read back by [as_int], with a sign when it
    fits the width in two's complement, and without one when it is not negative
    and fits the width as a natural number. *)
Theorem const_int_roundtrip (v width : Z)
    (Hint : INT_MIN <= v <= INT_MAX) (Hw : 0 < width) :
  (- 2 ^ (width - 1) <= v < 2 ^ (width - 1) -> (c ← const_of_int v width; Some (as_int c true)) = Some v) /\
  (0 <= v < 2 ^ width -> (c ← const_of_int v width; Some (as_int c false)) = Some v).
Proof.
  pose proof Hint as Hint'. unfold INT_MIN, INT_MAX in Hint'.
  destruct (const_of_int_spec v width) as (c & -> & _ & Hc); [lia|lia|]. cbn [mbind option_bind].
  assert (Hd : is_fully_def c = true) by (rewrite is_fully_def_spec, Hc; apply forallb_01_bools).
  split; intros Hfit; f_equal; rewrite as_int_def by done; unfold const_value; rewrite Hc, s1_bits_of_bools; cbn [bits_value].
  - rewrite bits_sval_Z_bits; [by apply s32_id|lia|].
    replace (Z.of_nat (Z.to_nat width - 1)) with (width - 1) by lia. done.
  - rewrite bits_val_Z_bits, Z2Nat.id, Z.mod_small by lia. by apply s32_id.
Qed.

Lemma const_int_roundtrip_witness :
  (c ← const_of_int (-77) 8; Some (as_int c true)) = Some (-77) /\
  (c ← const_of_int INT_MIN 33; Some (as_int c true)) = Some INT_MIN /\
  (c ← const_of_int 200 8; Some (as_int c false)) = Some 200.
Proof. split_and!; apply const_int_roundtrip; unfold INT_MIN, INT_MAX; lia. Defined.

Lemma concat_singletons {A B} (f : A -> B) l : concat ((fun x => [f x]) <$> l) = f <$> l.
Proof. induction l as [|a l IH]; [done|]. rewrite !fmap_cons. cbn [concat]. by rewrite IH. Qed.

(** Printing a constant with the default don't-care character and parsing the
    text gives the same states back. *)
Theorem as_string_from_string (c : Const) :
  (t ← as_string c ["-"%char]; to_bits (from_string t)) = to_bits c.
Proof.
  unfold as_string. rewrite to_bits_spec. cbn [mbind option_bind].
  rewrite to_bits_spec. f_equal. unfold from_string.
  set (l := bits_internal c).
  assert (E : concat (state_text ["-"%char] <$> reverse l) =
              (fun s => nth 0 (state_text ["-"%char] s) Ascii.zero) <$> reverse l).
  { etransitivity; [|apply concat_singletons]. f_equal. apply list_fmap_ext. intros i s _. by destruct s. }
  rewrite E. unfold bits_internal, const_of_bits; cbn [bitvectorize backing].
  rewrite !fmap_reverse, reverse_involutive, <- list_fmap_compose.
  rewrite <- (list_fmap_id l) at 2. apply list_fmap_ext. intros i s _. by destruct s.
Qed.

(** ** Decoding strings *)

Lemma push_nonzero_byte ch :
  push_nonzero (byte_val ch) = if byte_val ch =? 0 then [] else [ch].
Proof.
  unfold push_nonzero, byte_of. destruct (byte_val ch =? 0); [done|].
  rewrite Z.mod_small by apply byte_val_range. unfold byte_val.
  by rewrite N2Z.id, ascii_N_embedding.
Qed.

Definition nonzero_chars (s : list ascii) : list ascii :=
  List.filter (fun ch => negb (byte_val ch =? 0)) s.

Lemma decode_loop_str_bits s k :
  (k <= length s)%nat -> decode_loop (str_bits s) k = nonzero_chars (drop (length s - k) s).
Proof.
  induction k as [|k IH]; intros Hk; cbn [decode_loop].
  { rewrite Nat.sub_0_r, drop_all. done. }
  rewrite str_bits_chunk, IH by lia. unfold decode_char.
  change (State_eqb S1 <$> ?l) with (s1_bits l). rewrite char_bits_val, push_nonzero_byte.
  assert (Hi : (length s - S k < length s)%nat) by lia.
  destruct (lookup_lt_is_Some_2 s _ Hi) as [ch Hch].
  rewrite (drop_S s ch (length s - S k)) by done.
  replace (S (length s - S k)) with (length s - k)%nat by lia.
  rewrite nth_lookup, Hch. cbn [default from_option id nonzero_chars List.filter].
  by destruct (byte_val ch =? 0).
Qed.

Lemma nonzero_chars_id s : nonzero_chars s = s <-> Forall (fun ch => byte_val ch <> 0) s.
Proof.
  unfold nonzero_chars. split.
  - intros E. rewrite <- E. apply Forall_forall. intros ch Hin.
    rewrite list_elem_of_In in Hin. apply filter_In in Hin as [_ H].
    intros E0. by rewrite E0 in H.
  - induction 1 as [|ch s Hch _ IH]; [done|]. cbn [List.filter].
    destruct (Z.eqb_spec (byte_val ch) 0); [done|]. cbn [negb]. by rewrite IH.
Qed.

(** [decode_string] is not a function of the constant's value: a string-backed
    constant is returned verbatim, while the equal bit-backed constant loses
    every NUL character; the two agree exactly on strings without NUL. *)
Lemma decode_string_bits (fl : Z) (s : list ascii) :
  let c := mkConst fl (BackStr s) in
  const_eqb c (bitvectorize c) = true /\
  decode_string c = s /\
  decode_string (bitvectorize c) = nonzero_chars s /\
  (decode_string (bitvectorize c) = decode_string c <-> Forall (fun ch => byte_val ch <> 0) s).
Proof.
  intros c. split; [by apply const_eqb_spec|]. split; [done|].
  assert (E : decode_string (bitvectorize c) = nonzero_chars s).
  2:{ split; [done|]. rewrite E. apply nonzero_chars_id. }
  unfold c, decode_string. cbn [bitvectorize backing].
  rewrite str_bits_length.
  replace (8 * length s / 8)%nat with (length s) by (rewrite Nat.mul_comm, Nat.div_mul; lia).
  rewrite drop_ge by (rewrite str_bits_length; lia).
  rewrite decode_loop_str_bits, Nat.sub_diag by lia. done.
Qed.


