(* ===== verification/Calc.v ===== *)
(** * Constant evaluation ([kernel/calc.cc])

    Every [RTLIL::const_*] function, on the bit vectors of its arguments
    (see [Const.to_bits_spec]: a constant is only used through its bits).
    [BigInteger] is the integer type [Z].  [None] stands for an exception,
    a failed [log_assert] or an out-of-range access.  A width or [result_len]
    is a C++ [int], here a [Z]; -1 means that the caller gave none. *)

From S2P Require Import Prelude Const.

Abbreviation bvec := (list State).

(** ** Helpers *)

(** [Const::resize] on a bit vector. *)
Definition bv_resize (l : bvec) (n : Z) (fill : State) : option bvec :=
  if n <? 0 then None else Some (vec_resize l (Z.to_nat n) fill).

(** [Const(State, int)] on a bit vector. *)
Definition bv_state (b : State) (n : Z) : option bvec :=
  if n <? 0 then None else Some (replicate (Z.to_nat n) b).

(** [result.set(i, b)] *)
Definition bv_set (l : bvec) (i : nat) (b : State) : option bvec :=
  if (i <? length l)%nat then Some (<[i := b]> l) else None.

(** [if (GetSize(result) < result_len) result.resize(result_len, S0)] *)
Definition widen (r : bvec) (result_len : Z) : bvec :=
  if Z.of_nat (length r) <? result_len then vec_resize r (Z.to_nat result_len) S0 else r.

Definition extend_u0 (arg : bvec) (width : Z) (is_signed : bool) : option bvec :=
  let padding := match last arg with
                 | Some b => if is_signed then b else S0
                 | None => S0
                 end in
  bv_resize arg width padding.

(** The bit loop of [const2big]: magnitude and first undefined position. *)
Fixpoint mag_loop (l : bvec) (inv_sign_bit : State) (i mag undef : Z) : Z * Z :=
  match l with
  | [] => (mag, undef)
  | b :: t =>
      if is_01 b
      then mag_loop t inv_sign_bit (i + 1)
             (if State_eqb b inv_sign_bit then Z.setbit mag i else Z.clearbit mag i) undef
      else mag_loop t inv_sign_bit (i + 1) mag (if undef <? 0 then i else undef)
  end.

Definition const2big (val : bvec) (as_signed : bool) (undef_bit_pos : Z) : Z * Z :=
  if as_signed && bool_decide (last val = Some S1)
  then let '(mag, undef) := mag_loop (take (length val - 1) val) S0 0 0 undef_bit_pos in
       (- (mag + 1), undef)
  else mag_loop val S1 0 0 undef_bit_pos.

Definition big2const (val result_len undef_bit_pos : Z) : option bvec :=
  if 0 <=? undef_bit_pos then bv_state Sx result_len
  else
    result ← bv_state S0 result_len;
    let mag := Z.abs val in
    Some (if mag =? 0 then result
          else if val <? 0
          then (fun i => if Z.testbit (mag - 1) (Z.of_nat i) then S0 else S1) <$> seq 0 (length result)
          else (fun i => if Z.testbit mag (Z.of_nat i) then S1 else S0) <$> seq 0 (length result)).

Definition logic_and (a b : State) : State :=
  if State_eqb a S0 then S0 else if State_eqb b S0 then S0
  else if negb (State_eqb a S1) then Sx else if negb (State_eqb b S1) then Sx else S1.

Definition logic_or (a b : State) : State :=
  if State_eqb a S1 then S1 else if State_eqb b S1 then S1
  else if negb (State_eqb a S0) then Sx else if negb (State_eqb b S0) then Sx else S0.

Definition logic_xor (a b : State) : State :=
  if negb (State_eqb a S0) && negb (State_eqb a S1) then Sx
  else if negb (State_eqb b S0) && negb (State_eqb b S1) then Sx
  else if negb (State_eqb a b) then S1 else S0.

Definition logic_xnor (a b : State) : State :=
  if negb (State_eqb a S0) && negb (State_eqb a S1) then Sx
  else if negb (State_eqb b S0) && negb (State_eqb b S1) then Sx
  else if State_eqb a b then S1 else S0.

Definition state_not (b : State) : State :=
  if State_eqb b S0 then S1 else if State_eqb b S1 then S0 else Sx.

Definition size_or (result_len : Z) (n : nat) : Z := if result_len <? 0 then Z.of_nat n else result_len.
Definition max_size (a b : bvec) : nat := length a `max` length b.

(** ** Bitwise and reduction operators *)

Definition const_not (arg1 : bvec) (signed1 : bool) (result_len : Z) : option bvec :=
  let result_len := size_or result_len (length arg1) in
  arg1_ext ← extend_u0 arg1 result_len signed1;
  result ← bv_state Sx result_len;
  Some ((fun i => match arg1_ext !! i with None => S0 | Some b => state_not b end)
          <$> seq 0 (length result)).

Definition logic_wrapper (logic_func : State -> State -> State) (arg1 arg2 : bvec)
    (signed1 signed2 : bool) (result_len : Z) : option bvec :=
  let result_len := size_or result_len (max_size arg1 arg2) in
  arg1 ← extend_u0 arg1 result_len signed1;
  arg2 ← extend_u0 arg2 result_len signed2;
  result ← bv_state Sx result_len;
  Some ((fun i => logic_func (default S0 (arg1 !! i)) (default S0 (arg2 !! i)))
          <$> seq 0 (length result)).

Definition const_and := logic_wrapper logic_and.
Definition const_or := logic_wrapper logic_or.
Definition const_xor := logic_wrapper logic_xor.
Definition const_xnor := logic_wrapper logic_xnor.

Definition logic_reduce_wrapper (initial : State) (logic_func : State -> State -> State)
    (arg1 : bvec) (result_len : Z) : bvec :=
  let temp := fold_left logic_func arg1 initial in
  widen [temp] result_len.

Definition const_reduce_and (arg1 : bvec) (result_len : Z) : bvec :=
  logic_reduce_wrapper S1 logic_and arg1 result_len.
Definition const_reduce_or (arg1 : bvec) (result_len : Z) : bvec :=
  logic_reduce_wrapper S0 logic_or arg1 result_len.
Definition const_reduce_xor (arg1 : bvec) (result_len : Z) : bvec :=
  logic_reduce_wrapper S0 logic_xor arg1 result_len.

(** Flip a leading [S0]/[S1] of the result ([const_reduce_xnor], [const_ne], [const_nex]). *)
Definition flip_front (buffer : bvec) : bvec :=
  match buffer with
  | [] => []
  | b :: t => (if State_eqb b S0 then S1 else if State_eqb b S1 then S0 else b) :: t
  end.

Definition const_reduce_xnor (arg1 : bvec) (result_len : Z) : bvec :=
  flip_front (logic_reduce_wrapper S0 logic_xor arg1 result_len).
Definition const_reduce_bool (arg1 : bvec) (result_len : Z) : bvec :=
  logic_reduce_wrapper S0 logic_or arg1 result_len.

(** ** Logical operators *)

Definition const_logic_not (arg1 : bvec) (signed1 : bool) (result_len : Z) : bvec :=
  let '(a, undef_a) := const2big arg1 signed1 (-1) in
  widen [if a =? 0 then (if 0 <=? undef_a then Sx else S1) else S0] result_len.

Definition logic_operand (arg : bvec) (is_signed : bool) : State :=
  let '(a, undef) := const2big arg is_signed (-1) in
  if a =? 0 then (if 0 <=? undef then Sx else S0) else S1.

Definition const_logic_and (arg1 arg2 : bvec) (signed1 signed2 : bool) (result_len : Z) : bvec :=
  widen [logic_and (logic_operand arg1 signed1) (logic_operand arg2 signed2)] result_len.

Definition const_logic_or (arg1 arg2 : bvec) (signed1 signed2 : bool) (result_len : Z) : bvec :=
  widen [logic_or (logic_operand arg1 signed1) (logic_operand arg2 signed2)] result_len.

(** ** Shifts *)

Definition const_shift_worker (arg1 arg2 : bvec) (sign_ext signed2 : bool) (direction result_len : Z)
    (vacant_bits : State) : option bvec :=
  let '(offset, undef_bit_pos) := const2big arg2 signed2 (-1) in
  let offset := offset * direction in
  let result_len := size_or result_len (length arg1) in
  result ← bv_state Sx result_len;
  if 0 <=? undef_bit_pos then Some result
  else mapM (fun i : nat =>
         let pos := Z.of_nat i + offset in
         if pos <? 0 then Some vacant_bits
         else if Z.of_nat (length arg1) <=? pos
         then (if sign_ext then last arg1 else Some vacant_bits)
         else arg1 !! Z.to_nat pos) (seq 0 (length result)).

Definition const_shl (arg1 arg2 : bvec) (signed1 : bool) (result_len : Z) : option bvec :=
  arg1_ext ← extend_u0 arg1 result_len signed1;
  const_shift_worker arg1_ext arg2 false false (-1) result_len S0.

Definition const_shr (arg1 arg2 : bvec) (signed1 : bool) (result_len : Z) : option bvec :=
  arg1_ext ← extend_u0 arg1 (Z.max result_len (Z.of_nat (length arg1))) signed1;
  const_shift_worker arg1_ext arg2 false false 1 result_len S0.

Definition const_sshl (arg1 arg2 : bvec) (signed1 : bool) (result_len : Z) : option bvec :=
  const_shift_worker arg1 arg2 signed1 false (-1) result_len S0.

Definition const_sshr (arg1 arg2 : bvec) (signed1 : bool) (result_len : Z) : option bvec :=
  const_shift_worker arg1 arg2 signed1 false 1 result_len S0.

Definition const_shift (arg1 arg2 : bvec) (signed1 signed2 : bool) (result_len : Z) : option bvec :=
  arg1_ext ← extend_u0 arg1 (Z.max result_len (Z.of_nat (length arg1))) signed1;
  const_shift_worker arg1_ext arg2 false signed2 1 result_len S0.

Definition const_shiftx (arg1 arg2 : bvec) (signed2 : bool) (result_len : Z) : option bvec :=
  const_shift_worker arg1 arg2 false signed2 1 result_len Sx.

(** ** Comparisons *)

(** [const2big(arg1) op const2big(arg2)] with the shared undefined position. *)
Definition big2 (arg1 arg2 : bvec) (signed1 signed2 : bool) : Z * Z * Z :=
  let '(a, undef) := const2big arg1 signed1 (-1) in
  let '(b, undef) := const2big arg2 signed2 undef in
  (a, b, undef).

Definition cmp_wrapper (cmp : Z -> Z -> bool) (arg1 arg2 : bvec) (signed1 signed2 : bool)
    (result_len : Z) : bvec :=
  let '(a, b, undef_bit_pos) := big2 arg1 arg2 signed1 signed2 in
  widen [if 0 <=? undef_bit_pos then Sx else if cmp a b then S1 else S0] result_len.

Definition const_lt := cmp_wrapper Z.ltb.
Definition const_le := cmp_wrapper Z.leb.
Definition const_ge := cmp_wrapper Z.geb.
Definition const_gt := cmp_wrapper Z.gtb.

(** The bit loop of [const_eq]: [None] for the early return, else the status. *)
Fixpoint eq_loop (l1 l2 : bvec) (matched_status : State) : option State :=
  match l1, l2 with
  | a :: t1, b :: t2 =>
      if State_eqb a S0 && State_eqb b S1 then None
      else if State_eqb a S1 && State_eqb b S0 then None
      else eq_loop t1 t2 (if (1 <? State_num a) || (1 <? State_num b) then Sx else matched_status)
  | _, _ => Some matched_status
  end.

Definition const_eq (arg1 arg2 : bvec) (signed1 signed2 : bool) (result_len : Z) : option bvec :=
  result ← bv_state S0 result_len;
  let width := Z.of_nat (max_size arg1 arg2) in
  arg1_ext ← extend_u0 arg1 width (signed1 && signed2);
  arg2_ext ← extend_u0 arg2 width (signed1 && signed2);
  match eq_loop arg1_ext arg2_ext S1 with
  | None => Some result
  | Some matched_status => bv_set result 0 matched_status
  end.

Definition front_flipped (r : bvec) : option bvec :=
  match r with [] => None | _ => Some (flip_front r) end.

Definition const_ne (arg1 arg2 : bvec) (signed1 signed2 : bool) (result_len : Z) : option bvec :=
  r ← const_eq arg1 arg2 signed1 signed2 result_len; front_flipped r.

Definition const_eqx (arg1 arg2 : bvec) (signed1 signed2 : bool) (result_len : Z) : option bvec :=
  result ← bv_state S0 result_len;
  let width := Z.of_nat (max_size arg1 arg2) in
  arg1_ext ← extend_u0 arg1 width (signed1 && signed2);
  arg2_ext ← extend_u0 arg2 width (signed1 && signed2);
  if bool_decide (arg1_ext = arg2_ext) then bv_set result 0 S1 else Some result.

Definition const_nex (arg1 arg2 : bvec) (signed1 signed2 : bool) (result_len : Z) : option bvec :=
  r ← const_eqx arg1 arg2 signed1 signed2 result_len; front_flipped r.

(** ** Arithmetic *)

Definition arith_wrapper (op : Z -> Z -> Z) (arg1 arg2 : bvec) (signed1 signed2 : bool)
    (result_len : Z) : option bvec :=
  let '(a, b, undef_bit_pos) := big2 arg1 arg2 signed1 signed2 in
  big2const (op a b) (size_or result_len (max_size arg1 arg2)) undef_bit_pos.

Definition const_add := arith_wrapper Z.add.
Definition const_sub := arith_wrapper Z.sub.

Definition const_mul (arg1 arg2 : bvec) (signed1 signed2 : bool) (result_len : Z) : option bvec :=
  let '(a, b, undef_bit_pos) := big2 arg1 arg2 signed1 signed2 in
  big2const (a * b) (size_or result_len (max_size arg1 arg2)) (Z.min undef_bit_pos 0).

(** The shared shape of the four division operators: the divisor test comes
    first, [f a b] is the quotient or remainder computed on big integers. *)
Definition div_wrapper (f : Z -> Z -> Z) (arg1 arg2 : bvec) (signed1 signed2 : bool)
    (result_len : Z) : option bvec :=
  let '(a, b, undef_bit_pos) := big2 arg1 arg2 signed1 signed2 in
  if b =? 0 then bv_state Sx result_len
  else big2const (f a b) (size_or result_len (max_size arg1 arg2)) (Z.min undef_bit_pos 0).

(** [BigInteger] division is only applied to non-negative operands here. *)
Definition div_body (a b : Z) : Z :=
  let result_neg := xorb (a <? 0) (b <? 0) in
  let a := if a <? 0 then - a else a in
  let b := if b <? 0 then - b else b in
  if result_neg then - (a / b) else a / b.

Definition mod_body (a b : Z) : Z :=
  let result_neg := a <? 0 in
  let a := if a <? 0 then - a else a in
  let b := if b <? 0 then - b else b in
  if result_neg then - (a mod b) else a mod b.

Definition divfloor_body (a b : Z) : Z :=
  let result_pos := Bool.eqb (a <? 0) (b <? 0) in
  let a := if a <? 0 then - a else a in
  let b := if b <? 0 then - b else b in
  if result_pos || (a =? 0) then a / b else - ((a + b - 1) / b).

Definition modfloor_body (a b : Z) : Z :=
  let a_neg := a <? 0 in
  let b_neg := b <? 0 in
  let a := if a_neg then - a else a in
  let b := if b_neg then - b else b in
  let truncated := if a_neg then - (a mod b) else a mod b in
  if (truncated =? 0) || Bool.eqb a_neg b_neg then truncated
  else if b_neg then truncated - b else truncated + b.

Definition const_div := div_wrapper div_body.
Definition const_mod := div_wrapper mod_body.
Definition const_divfloor := div_wrapper divfloor_body.
Definition const_modfloor := div_wrapper modfloor_body.

(** [for (i < modulus_bits) modulus *= 2] *)
Fixpoint double_loop (n : nat) (modulus : Z) : Z :=
  match n with O => modulus | S n => double_loop n (modulus * 2) end.

(** [while (b > 0) { if (b % 2 == 1) y = (y*a) % modulus; b = b/2; a = (a*a) % modulus; }];
    the fuel bounds the bit length of [b]. *)
Fixpoint pow_loop (fuel : nat) (a b y modulus : Z) : option Z :=
  if 0 <? b then
    match fuel with
    | O => None
    | S fuel => pow_loop fuel ((a * a) mod modulus) (b / 2)
                  (if b mod 2 =? 1 then (y * a) mod modulus else y) modulus
    end
  else Some y.

Definition pow_fuel (b : Z) : nat := S (Z.to_nat (Z.log2 b)).

Definition const_pow (arg1 arg2 : bvec) (signed1 signed2 : bool) (result_len : Z) : option bvec :=
  let '(a, b, undef_bit_pos) := big2 arg1 arg2 signed1 signed2 in
  if (a =? 0) && (b <? 0) then bv_state Sx result_len
  else if (a =? 0) && (0 <? b) then bv_state S0 result_len
  else
    let y := 1 in
    let y := if b <? 0
             then (let y := if (a <? -1) || (1 <? a) then 0 else y in
                   if a =? -1 then (if (- b) mod 2 =? 0 then 1 else -1) else y)
             else y in
    y ← (if 0 <? b then
           let modulus_bits := if 0 <=? result_len then Z.to_nat result_len else 1024%nat in
           let modulus := double_loop modulus_bits 1 in
           let '(a, flip_result_sign) :=
             if a <? 0 then (a * -1, b mod 2 =? 1) else (a, false) in
           y ← pow_loop (pow_fuel b) a b y modulus;
           Some (if flip_result_sign : bool then y * -1 else y)
         else Some y);
    big2const y (size_or result_len (max_size arg1 arg2)) (Z.min undef_bit_pos 0).

Definition const_pos (arg1 : bvec) (signed1 : bool) (result_len : Z) : option bvec :=
  extend_u0 arg1 result_len signed1.

Definition const_buf (arg1 : bvec) (signed1 : bool) (result_len : Z) : option bvec :=
  extend_u0 arg1 result_len signed1.

Definition const_neg (arg1 : bvec) (signed1 : bool) (result_len : Z) : option bvec :=
  const_sub [S0] arg1 true signed1 result_len.

(** ** Multiplexers *)

Definition const_mux (arg1 arg2 arg3 : bvec) : option bvec :=
  if (length arg2 =? length arg1)%nat then
    s ← arg3 !! 0%nat;
    Some (if State_eqb s S0 then arg1
          else if State_eqb s S1 then arg2
          else zip_with (fun r b => if negb (State_eqb r b) then Sx else r) arg1 arg2)
  else None.

(** The first position holding [S1] ([const_pmux]'s search loop). *)
Fixpoint find_s1 (l : bvec) : option nat :=
  match l with
  | [] => None
  | b :: t => if State_eqb b S1 then Some O else S <$> find_s1 t
  end.

Definition slice {A} (l : list A) (first n : nat) : option (list A) :=
  if (first + n <=? length l)%nat then Some (take n (drop first l)) else None.

Definition const_pmux (arg1 arg2 arg3 : bvec) : option bvec :=
  if is_fully_zero (const_of_bits arg3) then Some arg1
  else if negb (fst (onehot_loop arg3 0 None)) then Some (replicate (length arg1) Sx)
  else i ← find_s1 arg3; slice arg2 (i * length arg1) (length arg1).

(** One level of the [const_bmux] loop, for the select bit [sel]. *)
Definition bmux_step (t : bvec) (sel : State) : bvec :=
  let half := (length t / 2)%nat in
  if State_eqb sel S0 then take half t
  else if State_eqb sel S1 then drop half t
  else zip_with (fun a b => if State_eqb a b then a else Sx) (take half t) (take half (drop half t)).

Definition const_bmux (arg1 arg2 : bvec) : bvec := fold_left bmux_step (reverse arg2) arg1.

(** The comparison loop of [const_demux] for output slot [i]: (ne, x). *)
Fixpoint demux_loop (arg2 : bvec) (i : Z) (j : Z) (ne x : bool) : bool * bool :=
  match arg2 with
  | [] => (ne, x)
  | b :: t =>
      let bit := negb (Z.land i (Z.shiftl 1 j) =? 0) in
      if State_eqb b (if bit then S0 else S1) then demux_loop t i (j + 1) true x
      else if negb (is_01 b) then demux_loop t i (j + 1) ne true
      else demux_loop t i (j + 1) ne x
  end.

Definition demux_slot (arg1 arg2 : bvec) (i : nat) : bvec :=
  let '(ne, x) := demux_loop arg2 (Z.of_nat i) 0 false false in
  if ne : bool then replicate (length arg1) S0
  else if x : bool then (fun b => if State_eqb b S0 then S0 else Sx) <$> arg1
  else arg1.

(** [1 << s_width] overflows [int] from 31 select bits on. *)
Definition const_demux (arg1 arg2 : bvec) : option bvec :=
  if (length arg2 <? 31)%nat
  then Some (concat (demux_slot arg1 arg2 <$> seq 0 (2 ^ length arg2)))
  else None.

Definition const_bweqx (arg1 arg2 : bvec) : option bvec :=
  if (length arg2 =? length arg1)%nat
  then Some (zip_with (fun a b => if State_eqb a b then S1 else S0) arg1 arg2)
  else None.

Fixpoint bwmux_loop (arg1 arg2 arg3 : bvec) : bvec :=
  match arg1, arg2, arg3 with
  | a :: t1, b :: t2, s :: t3 =>
      (if negb (State_eqb s Sx) || State_eqb a b then (if State_eqb s S1 then b else a) else Sx)
      :: bwmux_loop t1 t2 t3
  | _, _, _ => []
  end.

Definition const_bwmux (arg1 arg2 arg3 : bvec) : option bvec :=
  if (length arg2 =? length arg1)%nat && (length arg3 =? length arg1)%nat
  then Some (bwmux_loop arg1 arg2 arg3) else None.

(** ** Bit vectors of defined states *)

(** The fully defined bit vector with the given bits. *)
Abbreviation dbv := (fmap (M:=list) state_of_bool).

Lemma bits_sval_testbit (bl : list bool) i :
  Z.testbit (bits_sval bl) (Z.of_nat i) = default (default false (last bl)) (bl !! i).
Proof.
  unfold bits_sval. pose proof (bits_val_bound bl) as B.
  destruct (last bl) as [[]|] eqn:E; cbn [default from_option id].
  - destruct (decide (i < length bl)%nat) as [Hi|Hi].
    + rewrite <- (Z.mod_pow2_bits_low _ (Z.of_nat (length bl))) by lia.
      rewrite <- Zminus_mod_idemp_r, Z_mod_same_full, Z.sub_0_r, Z.mod_small by lia.
      rewrite Z_bits_nonneg_testbit.
      destruct (lookup_lt_is_Some_2 bl i Hi) as [b ->]. done.
    + rewrite (lookup_ge_None_2 bl i) by lia. cbn [default from_option id].
      apply Z.bits_above_log2_neg; [lia|].
      destruct (decide (Z.pred (- (bits_val bl - 2 ^ Z.of_nat (length bl))) = 0)) as [->|];
        [cbn; destruct bl; [done|simpl in Hi; lia]|].
      apply Z.log2_lt_pow2; [lia|].
      apply Z.lt_le_trans with (2 ^ Z.of_nat (length bl)); [lia|]. apply Z.pow_le_mono_r; lia.
  - rewrite Z.sub_0_r, Z_bits_nonneg_testbit. done.
  - rewrite Z.sub_0_r, Z_bits_nonneg_testbit. done.
Qed.

(** The bit that continues a vector to the left under a signedness. *)
Definition ext_bit (bl : list bool) (sg : bool) : bool := sg && default false (last bl).

Lemma bits_value_testbit (bl : list bool) sg i :
  Z.testbit (bits_value bl sg) (Z.of_nat i) = default (ext_bit bl sg) (bl !! i).
Proof.
  unfold bits_value, ext_bit. destruct sg; [apply bits_sval_testbit|apply Z_bits_nonneg_testbit].
Qed.

Lemma Z_bits_eq (l : list bool) n z :
  length l = n -> (forall i, (i < n)%nat -> l !! i = Some (Z.testbit z (Z.of_nat i))) -> l = Z_bits n z.
Proof.
  intros Hl H. apply list_eq. intros i. destruct (decide (i < n)%nat).
  - by rewrite H, Z_bits_lookup by lia.
  - rewrite !lookup_ge_None_2; rewrite ?Z_bits_length; [done|lia|lia].
Qed.

Lemma vec_resize_length {A} (l : list A) n x : length (vec_resize l n x) = n.
Proof. unfold vec_resize. rewrite length_app, length_take, length_replicate. lia. Qed.
#[export] Hint Rewrite @vec_resize_length : lens.

Lemma vec_resize_lookup {A} (l : list A) n x i :
  (i < n)%nat -> vec_resize l n x !! i = Some (default x (l !! i)).
Proof.
  intros Hi. unfold vec_resize. destruct (decide (i < length l)%nat).
  - rewrite lookup_app_l, lookup_take_lt by (rewrite ?length_take; lia).
    destruct (lookup_lt_is_Some_2 l i ltac:(lia)) as [y ->]. done.
  - rewrite lookup_app_r, length_take by (rewrite length_take; lia).
    rewrite lookup_replicate_2 by lia. by rewrite lookup_ge_None_2 by lia.
Qed.

Lemma vec_resize_bools bl n b : vec_resize (dbv bl) n (state_of_bool b) = dbv (vec_resize bl n b).
Proof.
  unfold vec_resize. by rewrite fmap_app, fmap_take, fmap_replicate, length_fmap.
Qed.

Lemma vec_resize_value bl n sg : vec_resize bl n (ext_bit bl sg) = Z_bits n (bits_value bl sg).
Proof.
  apply Z_bits_eq; [apply vec_resize_length|]. intros i Hi.
  by rewrite vec_resize_lookup, bits_value_testbit.
Qed.

(** Extension and truncation re-encode the value at the new width. *)
Lemma extend_u0_spec bl w sg :
  0 <= w -> extend_u0 (dbv bl) w sg = Some (dbv (Z_bits (Z.to_nat w) (bits_value bl sg))).
Proof.
  intros Hw. unfold extend_u0, bv_resize. destruct (Z.ltb_spec w 0); [lia|].
  f_equal. rewrite <- vec_resize_value, <- vec_resize_bools. f_equal.
  unfold ext_bit. rewrite fmap_last. by destruct (last bl) as [[]|], sg.
Qed.

Lemma bv_state_spec b w : 0 <= w -> bv_state b w = Some (replicate (Z.to_nat w) b).
Proof. intros. unfold bv_state. destruct (Z.ltb_spec w 0); [lia|done]. Qed.

Lemma size_or_nonneg r n : 0 <= size_or r n.
Proof. unfold size_or. destruct (Z.ltb_spec r 0); lia. Qed.

Lemma map_seq_Z_bits (f : nat -> State) n z :
  (forall i, (i < n)%nat -> f i = state_of_bool (Z.testbit z (Z.of_nat i))) ->
  f <$> seq 0 n = dbv (Z_bits n z).
Proof.
  intros H. apply list_eq. intros i. rewrite !list_lookup_fmap.
  destruct (decide (i < n)%nat) as [Hi|Hi].
  - rewrite lookup_seq_lt, Z_bits_lookup by lia. cbn [fmap option_fmap option_map].
    by rewrite H.
  - rewrite !lookup_ge_None_2; rewrite ?length_seq, ?Z_bits_length; [done|lia|lia].
Qed.

(** ** [const2big] and [big2const] *)

Lemma setbit_low m i : 0 <= i -> 0 <= m < 2 ^ i -> Z.setbit m i = m + 2 ^ i.
Proof.
  intros Hi Hm. unfold Z.setbit. rewrite lor_disjoint by lia. lia.
Qed.

Lemma clearbit_low m i : 0 <= i -> 0 <= m < 2 ^ i -> Z.clearbit m i = m.
Proof.
  intros Hi Hm. rewrite Z.clearbit_spec'. apply Z.bits_inj'. intros k Hk.
  rewrite Z.ldiff_spec, Z.pow2_bits_eqb by lia.
  destruct (Z.eqb_spec i k) as [->|]; cbn [negb]; [|by rewrite andb_true_r].
  rewrite andb_false_r. symmetry. rewrite <- (Z.mod_small m (2 ^ k)) by done.
  by rewrite Z.mod_pow2_bits_high by lia.
Qed.

Definition has_undef (l : bvec) : bool := negb (forallb is_01 l).

Lemma mag_loop_spec l inv i m u :
  inv = S0 \/ inv = S1 -> 0 <= i -> 0 <= m < 2 ^ i ->
  fst (mag_loop l inv i m u) = m + 2 ^ i * bits_val (State_eqb inv <$> l) /\
  (0 <=? snd (mag_loop l inv i m u)) = (0 <=? u) || has_undef l /\
  (-1 <= u -> -1 <= snd (mag_loop l inv i m u)).
Proof.
  intros Hinv. revert i m u. induction l as [|b l IH]; intros i m u Hi Hm.
  - cbn. rewrite orb_false_r. repeat split; lia.
  - cbn [mag_loop]. rewrite fmap_cons. cbn [bits_val]. unfold has_undef. cbn [forallb].
    assert (HS : 2 ^ (i + 1) = 2 * 2 ^ i) by (rewrite Z.pow_add_r; lia).
    destruct (is_01 b) eqn:Eb; cbn [andb].
    + assert (Eq : State_eqb b inv = State_eqb inv b) by (unfold State_eqb; apply bool_decide_ext; done).
      rewrite Eq. destruct (State_eqb inv b).
      * rewrite setbit_low by lia.
        destruct (IH (i + 1) (m + 2 ^ i) u ltac:(lia) ltac:(lia)) as (-> & -> & H).
        simpl Z.b2z. rewrite HS. repeat split; [lia|done].
      * rewrite clearbit_low by lia.
        destruct (IH (i + 1) m u ltac:(lia) ltac:(lia)) as (-> & -> & H).
        simpl Z.b2z. rewrite HS. repeat split; [lia|done].
    + destruct (IH (i + 1) m (if u <? 0 then i else u) ltac:(lia) ltac:(lia)) as (-> & -> & H).
      replace (State_eqb inv b) with false by (destruct Hinv; subst; by destruct b).
      simpl Z.b2z. rewrite HS. cbn [negb]. repeat split; [lia| |].
      * rewrite orb_true_r. destruct (Z.ltb_spec u 0), (Z.leb_spec 0 u); try lia;
          destruct (Z.leb_spec 0 i); try lia; done.
      * intros Hu. apply H. destruct (Z.ltb_spec u 0); lia.
Qed.

(** The integer [const2big] reads: undefined bits count as 0 (or 1 below a set sign bit). *)
Definition big_val (l : bvec) (sg : bool) : Z :=
  if sg && bool_decide (last l = Some S1)
  then - (bits_val (State_eqb S0 <$> take (length l - 1) l) + 1)
  else bits_val (s1_bits l).

Lemma take_app_last {A} (l : list A) x : take (length (l ++ [x]) - 1) (l ++ [x]) = l.
Proof.
  rewrite length_app, take_app_le by (cbn; lia). apply take_ge. cbn. lia.
Qed.

Lemma const2big_spec l sg u :
  -1 <= u ->
  exists u', const2big l sg u = (big_val l sg, u') /\ -1 <= u' /\ (0 <=? u') = (0 <=? u) || has_undef l.
Proof.
  intros Hu. unfold const2big, big_val.
  destruct (sg && bool_decide (last l = Some S1)) eqn:E.
  - apply andb_true_iff in E as [_ E%bool_decide_eq_true].
    pose proof (mag_loop_spec (take (length l - 1) l) S0 0 0 u) as (H1 & H2 & H3);
      [by left|lia|lia|].
    destruct (mag_loop _ _ _ _ _) as [m u']. cbn [fst snd] in *. subst m.
    exists u'. split; [f_equal; lia|]. split; [by apply H3|]. rewrite H2. f_equal.
    apply last_Some in E as [l' ->]. rewrite take_app_last.
    unfold has_undef. rewrite forallb_app. cbn. by rewrite andb_true_r.
  - pose proof (mag_loop_spec l S1 0 0 u) as (H1 & H2 & H3); [by right|lia|lia|].
    destruct (mag_loop _ _ _ _ _) as [m u']. cbn [fst snd] in *. subst m.
    exists u'. split; [f_equal; unfold s1_bits; lia|]. split; [by apply H3|done].
Qed.

Lemma has_undef_dbv bl : has_undef (dbv bl) = false.
Proof. unfold has_undef. by rewrite forallb_01_bools. Qed.

Lemma bits_val_negb bl : bits_val (negb <$> bl) = 2 ^ Z.of_nat (length bl) - 1 - bits_val bl.
Proof.
  induction bl as [|b bl IH]; [done|].
  rewrite fmap_cons. cbn [bits_val]. rewrite IH. simpl length.
  rewrite Nat2Z.inj_succ, Z.pow_succ_r by lia. destruct b; simpl Z.b2z; lia.
Qed.

Lemma big_val_dbv bl sg : big_val (dbv bl) sg = bits_value bl sg.
Proof.
  unfold big_val, bits_value, bits_sval. rewrite s1_bits_of_bools, length_fmap.
  destruct sg; cbn [andb]; [|done].
  destruct (last bl) as [[]|] eqn:E; cbn [default from_option id].
  - rewrite bool_decide_true by (by apply last_fmap_bools).
    apply last_Some in E as [l' ->]. rewrite <- fmap_take, take_app_last, <- list_fmap_compose.
    rewrite (list_fmap_ext (State_eqb S0 ∘ state_of_bool) negb l') by (intros ? [] _; done).
    rewrite bits_val_negb, bits_val_app, length_app. cbn [bits_val length].
    rewrite Nat.add_1_r, Nat2Z.inj_succ, Z.pow_succ_r by lia. simpl Z.b2z. lia.
  - rewrite bool_decide_false by (rewrite last_fmap_bools; congruence). lia.
  - rewrite bool_decide_false by (rewrite last_fmap_bools; congruence). lia.
Qed.

Lemma big2const_spec v n u :
  0 <= n ->
  big2const v n u = Some (if 0 <=? u then replicate (Z.to_nat n) Sx else dbv (Z_bits (Z.to_nat n) v)).
Proof.
  intros Hn. unfold big2const. destruct (0 <=? u); rewrite bv_state_spec by done; [done|].
  cbn [mbind option_bind]. f_equal. rewrite length_replicate.
  destruct (Z.eqb_spec (Z.abs v) 0) as [E|E].
  - replace v with 0 by lia. rewrite <- (map_seq_Z_bits (fun _ => S0)).
    + apply list_eq. intros i. rewrite list_lookup_fmap.
      destruct (decide (i < Z.to_nat n)%nat).
      * rewrite lookup_seq_lt, lookup_replicate_2 by lia. done.
      * rewrite !lookup_ge_None_2; rewrite ?length_seq, ?length_replicate; [done|lia|lia].
    + intros i _. by rewrite Z.testbit_0_l.
  - destruct (Z.ltb_spec v 0) as [Hv|Hv]; apply map_seq_Z_bits; intros i _.
    + replace v with (Z.lnot (Z.abs v - 1)) at 2 by (unfold Z.lnot; lia).
      rewrite Z.lnot_spec by lia. by destruct (Z.testbit _ _).
    + replace (Z.abs v) with v by lia. by destruct (Z.testbit _ _).
Qed.

(** Both operands of a binary operator at once. *)
Lemma big2_spec a b s1 s2 :
  exists u, big2 a b s1 s2 = (big_val a s1, big_val b s2, u) /\ -1 <= u /\
            (0 <=? u) = has_undef a || has_undef b.
Proof.
  unfold big2. destruct (const2big_spec a s1 (-1)) as (u1 & -> & H1 & E1); [lia|].
  destruct (const2big_spec b s2 u1) as (u2 & -> & H2 & E2); [done|].
  exists u2. split; [done|]. split; [done|]. by rewrite E2, E1.
Qed.

Lemma min0_sign u : -1 <= u -> (0 <=? Z.min u 0) = (0 <=? u).
Proof. intros. destruct (Z.leb_spec 0 u), (Z.leb_spec 0 (Z.min u 0)); lia. Qed.

Lemma big2_dbv x y s1 s2 :
  exists u, big2 (dbv x) (dbv y) s1 s2 = (bits_value x s1, bits_value y s2, u) /\
            (0 <=? u) = false /\ (0 <=? Z.min u 0) = false.
Proof.
  destruct (big2_spec (dbv x) (dbv y) s1 s2) as (u & -> & Hu & E).
  rewrite !has_undef_dbv in E. exists u. rewrite !big_val_dbv, min0_sign by done. done.
Qed.
