(* ===== verification/CalcArith.v ===== *)
(** * Correctness of the arithmetic of [kernel/calc.cc]

    On fully defined operands every arithmetic operator computes the integer
    operation on the values of its operands and encodes the result at the
    result width; an undefined operand bit makes the whole result undefined.
    The division operators are the four rounding conventions of the integers,
    and [const_pow] is exponentiation modulo the result width. *)

From S2P Require Import Prelude Const Calc.

(** The width of the result of a binary operator. *)
Definition result_width (r : Z) (x y : bvec) : nat := Z.to_nat (size_or r (max_size x y)).

(** ** Addition, subtraction, multiplication, negation *)

Lemma arith_wrapper_spec op x y s1 s2 r :
  arith_wrapper op x y s1 s2 r =
  Some (if has_undef x || has_undef y then replicate (result_width r x y) Sx
        else dbv (Z_bits (result_width r x y) (op (big_val x s1) (big_val y s2)))).
Proof.
  unfold arith_wrapper. destruct (big2_spec x y s1 s2) as (u & -> & Hu & <-).
  apply big2const_spec, size_or_nonneg.
Qed.

Lemma const_mul_spec x y s1 s2 r :
  const_mul x y s1 s2 r =
  Some (if has_undef x || has_undef y then replicate (result_width r x y) Sx
        else dbv (Z_bits (result_width r x y) (big_val x s1 * big_val y s2))).
Proof.
  unfold const_mul. destruct (big2_spec x y s1 s2) as (u & -> & Hu & E).
  rewrite big2const_spec by apply size_or_nonneg. by rewrite min0_sign, E.
Qed.

Lemma arith_wrapper_dbv op a b s1 s2 r :
  arith_wrapper op (dbv a) (dbv b) s1 s2 r =
  Some (dbv (Z_bits (result_width r (dbv a) (dbv b)) (op (bits_value a s1) (bits_value b s2)))).
Proof. by rewrite arith_wrapper_spec, !has_undef_dbv, !big_val_dbv. Qed.

Lemma const_mul_dbv a b s1 s2 r :
  const_mul (dbv a) (dbv b) s1 s2 r =
  Some (dbv (Z_bits (result_width r (dbv a) (dbv b)) (bits_value a s1 * bits_value b s2))).
Proof. by rewrite const_mul_spec, !has_undef_dbv, !big_val_dbv. Qed.

(** C10: on defined bits, [const_add], [const_sub], [const_mul] and [const_neg]
    are the operations of the integers on the signed or unsigned values of the
    operands, truncated to the result width. *)
Theorem arith_ops_exact a b s1 s2 r :
  let x := dbv a in let y := dbv b in
  let w := result_width r x y in
  const_add x y s1 s2 r = Some (dbv (Z_bits w (bits_value a s1 + bits_value b s2))) /\
  const_sub x y s1 s2 r = Some (dbv (Z_bits w (bits_value a s1 - bits_value b s2))) /\
  const_mul x y s1 s2 r = Some (dbv (Z_bits w (bits_value a s1 * bits_value b s2))) /\
  const_neg y s2 r = Some (dbv (Z_bits (result_width r [S0] y) (- bits_value b s2))).
Proof.
  cbv zeta. unfold const_add, const_sub, const_neg, const_sub.
  change [S0] with (dbv [false]).
  rewrite !arith_wrapper_dbv, const_mul_dbv. repeat split.
Qed.

(** ** Division *)

Lemma div_body_quot a b : b <> 0 -> div_body a b = Z.quot a b.
Proof.
  intros Hb. unfold div_body.
  destruct (Z.ltb_spec a 0), (Z.ltb_spec b 0); cbn [xorb].
  - rewrite <- Z.quot_div_nonneg, Z.quot_opp_opp by lia. done.
  - rewrite <- Z.quot_div_nonneg, Z.quot_opp_l by lia. lia.
  - rewrite <- Z.quot_div_nonneg, Z.quot_opp_r by lia. lia.
  - rewrite Z.quot_div_nonneg by lia. done.
Qed.

Lemma mod_body_rem a b : b <> 0 -> mod_body a b = Z.rem a b.
Proof.
  intros Hb. unfold mod_body.
  destruct (Z.ltb_spec a 0), (Z.ltb_spec b 0); rewrite <- Z.rem_mod_nonneg by lia;
    rewrite ?Z.rem_opp_l, ?Z.rem_opp_r by lia; lia.
Qed.

Lemma divfloor_body_div a b : b <> 0 -> divfloor_body a b = Z.div a b.
Proof.
  intros Hb. unfold divfloor_body.
  assert (Hc : forall m n, 0 < m -> 0 < n -> - ((m + n - 1) / n) = (- m) / n).
  { intros m n Hm Hn. apply Z.div_unique_pos with ((n - 1) - (m + n - 1) mod n);
      pose proof (Z.mod_pos_bound (m + n - 1) n); pose proof (Z.div_mod (m + n - 1) n); nia. }
  destruct (Z.ltb_spec a 0), (Z.ltb_spec b 0); cbn [Bool.eqb orb].
  - by rewrite Z.div_opp_opp.
  - destruct (Z.eqb_spec (- a) 0); [lia|]. rewrite Hc by lia. f_equal; lia.
  - destruct (Z.eqb_spec a 0) as [->|]; [by rewrite !Z.div_0_l by lia|].
    rewrite Hc by lia. rewrite <- Z.div_opp_opp by lia. f_equal; lia.
  - done.
Qed.

Lemma modfloor_body_mod a b : b <> 0 -> modfloor_body a b = Z.modulo a b.
Proof.
  intros Hb. unfold modfloor_body.
  destruct (Z.ltb_spec a 0), (Z.ltb_spec b 0); cbn [Bool.eqb]; rewrite ?orb_true_r, ?orb_false_r.
  - rewrite Z.mod_opp_opp by lia. lia.
  - pose proof (Z.mod_opp_l_z (- a) b Hb). pose proof (Z.mod_opp_l_nz (- a) b Hb).
    rewrite Z.opp_involutive in *. destruct (Z.eqb_spec (- ((- a) mod b)) 0); lia.
  - pose proof (Z.mod_opp_r_z a (- b) ltac:(lia)). pose proof (Z.mod_opp_r_nz a (- b) ltac:(lia)).
    rewrite Z.opp_involutive in *. destruct (Z.eqb_spec (a mod - b) 0); lia.
  - done.
Qed.

Lemma div_wrapper_spec f x y s1 s2 r :
  div_wrapper f x y s1 s2 r =
  if big_val y s2 =? 0 then bv_state Sx r
  else Some (if has_undef x || has_undef y then replicate (result_width r x y) Sx
             else dbv (Z_bits (result_width r x y) (f (big_val x s1) (big_val y s2)))).
Proof.
  unfold div_wrapper. destruct (big2_spec x y s1 s2) as (u & -> & Hu & E).
  rewrite big2const_spec by apply size_or_nonneg. by rewrite min0_sign, E.
Qed.

Lemma div_wrapper_dbv f a b s1 s2 r :
  bits_value b s2 <> 0 ->
  div_wrapper f (dbv a) (dbv b) s1 s2 r =
  Some (dbv (Z_bits (result_width r (dbv a) (dbv b)) (f (bits_value a s1) (bits_value b s2)))).
Proof.
  intros Hb. rewrite div_wrapper_spec, !has_undef_dbv, !big_val_dbv.
  by destruct (Z.eqb_spec (bits_value b s2) 0).
Qed.

(** C11: with a non-zero divisor, [const_div]/[const_mod] are the truncating
    quotient and remainder ([Z.quot], [Z.rem]) and [const_divfloor]/
    [const_modfloor] the flooring ones ([Z.div], [Z.modulo]), for every mix of
    signs, truncated to the result width. *)
Theorem division_exact a b s1 s2 r :
  bits_value b s2 <> 0 ->
  let x := dbv a in let y := dbv b in
  let w := result_width r x y in
  const_div x y s1 s2 r = Some (dbv (Z_bits w (Z.quot (bits_value a s1) (bits_value b s2)))) /\
  const_mod x y s1 s2 r = Some (dbv (Z_bits w (Z.rem (bits_value a s1) (bits_value b s2)))) /\
  const_divfloor x y s1 s2 r = Some (dbv (Z_bits w (bits_value a s1 / bits_value b s2))) /\
  const_modfloor x y s1 s2 r = Some (dbv (Z_bits w (bits_value a s1 mod bits_value b s2))).
Proof.
  intros Hb. cbv zeta. unfold const_div, const_mod, const_divfloor, const_modfloor.
  rewrite !div_wrapper_dbv by done.
  rewrite div_body_quot, mod_body_rem, divfloor_body_div, modfloor_body_mod by done.
  repeat split.
Qed.

(** -7 and 2 as signed 4-bit operands. *)
Lemma division_exact_witness :
  const_div (dbv [true; false; false; true]) (dbv [false; true; false; false]) true true 4
  = Some (dbv (Z_bits 4 (-3))) /\
  const_divfloor (dbv [true; false; false; true]) (dbv [false; true; false; false]) true true 4
  = Some (dbv (Z_bits 4 (-4))).
Proof.
  pose proof (division_exact [true; false; false; true] [false; true; false; false] true true 4
                ltac:(discriminate)) as H.
  destruct H as (H1 & _ & H2 & _). split; [exact H1|exact H2].
Defined.

(** A divisor whose bits read as 0 makes all four division operators return
    [result_len] undefined bits when the result width is given and throw (the
    constructor [Const(Sx, -1)]) when it is not. *)
Theorem division_by_zero x y s1 s2 r :
  big_val y s2 = 0 ->
  let res := if r <? 0 then None else Some (replicate (Z.to_nat r) Sx) in
  const_div x y s1 s2 r = res /\ const_mod x y s1 s2 r = res /\
  const_divfloor x y s1 s2 r = res /\ const_modfloor x y s1 s2 r = res.
Proof.
  intros E. cbv zeta. unfold const_div, const_mod, const_divfloor, const_modfloor.
  rewrite !div_wrapper_spec, E. repeat split.
Qed.

Lemma division_by_zero_witness :
  const_div [S1; S0] [S0; Sx] false false 2 = Some [Sx; Sx] /\
  const_div [S1; S0] [S0; Sx] false false (-1) = None.
Proof.
  destruct (division_by_zero [S1; S0] [S0; Sx] false false 2 eq_refl) as (H1 & _).
  destruct (division_by_zero [S1; S0] [S0; Sx] false false (-1) eq_refl) as (H2 & _).
  split; [exact H1|exact H2].
Defined.

(** ** Exponentiation *)

Lemma double_loop_spec n m : double_loop n m = m * 2 ^ Z.of_nat n.
Proof.
  revert m. induction n as [|n IH]; intros m; cbn [double_loop]; [simpl; lia|].
  rewrite IH, Nat2Z.inj_succ, Z.pow_succ_r by lia. lia.
Qed.

(** Square and multiply: with fuel for every bit of the exponent, the loop
    returns, and its result is [y * a^b] modulo the modulus. *)
Lemma pow_loop_spec fuel a b y m :
  0 <= b -> 0 < m -> b < 2 ^ Z.of_nat fuel ->
  exists y', pow_loop fuel a b y m = Some y' /\ y' mod m = (y * a ^ b) mod m.
Proof.
  intros Hb Hm. revert a b y Hb. induction fuel as [|fuel IH]; intros a b y Hb Hf.
  - assert (b = 0) as -> by (simpl in Hf; lia). cbn. exists y. by rewrite Z.mul_1_r.
  - cbn [pow_loop]. rewrite Nat2Z.inj_succ, Z.pow_succ_r in Hf by lia.
    destruct (Z.ltb_spec 0 b) as [Hp|Hp].
    + destruct (IH ((a * a) mod m) (b / 2) (if b mod 2 =? 1 then (y * a) mod m else y)
                  ltac:(zdiv) ltac:(zdiv)) as (y' & -> & E).
      exists y'. split; [done|]. rewrite E.
      assert (Hsq : forall k, ((a * a) mod m) ^ k mod m = (a * a) ^ k mod m)
        by (intros; apply Z.mod_pow_l).
      rewrite <- Zmult_mod_idemp_r, Hsq, Zmult_mod_idemp_r.
      assert (Hpow : a ^ b = (a * a) ^ (b / 2) * a ^ (b mod 2)).
      { rewrite Z.pow_mul_l, <- !Z.pow_add_r by zdiv. f_equal. zdiv. }
      rewrite Hpow. destruct (Z.eqb_spec (b mod 2) 1) as [->|].
      * rewrite Z.pow_1_r, Zmult_mod_idemp_l. f_equal. ring.
      * replace (b mod 2) with 0 by zdiv. rewrite Z.pow_0_r. f_equal. ring.
    + assert (b = 0) as -> by lia. exists y. by rewrite Z.mul_1_r.
Qed.

Lemma pow_fuel_enough b : 0 < b -> b < 2 ^ Z.of_nat (pow_fuel b).
Proof.
  intros Hb. unfold pow_fuel. rewrite Nat2Z.inj_succ, Z2Nat.id by apply Z.log2_nonneg.
  by apply Z.log2_spec.
Qed.

(** The power the operator defines: negative exponents truncate [1 / a^-b]. *)
Definition pow_value (a b : Z) : Z :=
  if b <? 0
  then (if a =? 1 then 1 else if a =? -1 then (if Z.even b then 1 else -1) else 0)
  else a ^ b.

Lemma mod_2_opp b : ((- b) mod 2 =? 0) = Z.even b.
Proof.
  rewrite Zmod_even, Z.even_opp. by destruct (Z.even b).
Qed.

Lemma pow_flip a b m y :
  0 < b -> 0 < m -> a < 0 ->
  y mod m = (1 * (a * -1) ^ b) mod m ->
  (if b mod 2 =? 1 then y * -1 else y) mod m = (a ^ b) mod m.
Proof.
  intros Hb Hm Ha E. rewrite Z.mul_1_l in E.
  replace (a * -1) with (- a) in E by lia.
  rewrite Zmod_odd. destruct (Z.odd b) eqn:O; cbn match.
  - rewrite Z.pow_opp_odd in E by (by apply Z.odd_spec). cbn.
    rewrite <- Zmult_mod_idemp_l, E, Zmult_mod_idemp_l. f_equal. ring.
  - rewrite Z.pow_opp_even in E; [done|]. apply Z.even_spec.
    by rewrite <- Z.negb_odd, O.
Qed.

(** What the code computes between the operand conversion and [big2const]. *)
Definition pow_body (a b : Z) (modulus_bits : nat) : option Z :=
  let y := if b <? 0
           then (let y := if (a <? -1) || (1 <? a) then 0 else 1 in
                 if a =? -1 then (if (- b) mod 2 =? 0 then 1 else -1) else y)
           else 1 in
  if 0 <? b then
    let modulus := double_loop modulus_bits 1 in
    let '(a, flip_result_sign) := if a <? 0 then (a * -1, b mod 2 =? 1) else (a, false) in
    y ← pow_loop (pow_fuel b) a b y modulus;
    Some (if flip_result_sign : bool then y * -1 else y)
  else Some y.

Lemma pow_body_spec a b n :
  ~ (a = 0 /\ b < 0) ->
  exists y, pow_body a b n = Some y /\ y mod 2 ^ Z.of_nat n = pow_value a b mod 2 ^ Z.of_nat n.
Proof.
  intros Hz. unfold pow_body, pow_value. rewrite double_loop_spec, Z.mul_1_l.
  assert (Hm : 0 < 2 ^ Z.of_nat n) by lia.
  destruct (Z.ltb_spec b 0) as [Hb|Hb]; destruct (Z.ltb_spec 0 b) as [Hp|Hp]; [lia| | |].
  - rewrite mod_2_opp. eexists. split; [done|].
    destruct (Z.eqb_spec a 1), (Z.eqb_spec a (-1)), (Z.ltb_spec a (-1)), (Z.ltb_spec 1 a); try lia; done.
  - pose proof (pow_fuel_enough b Hp) as Hf. destruct (Z.ltb_spec a 0) as [Ha|Ha].
    + destruct (pow_loop_spec (pow_fuel b) (a * -1) b 1 _ Hb Hm Hf) as (y & -> & E).
      cbn [mbind option_bind]. eexists. split; [done|]. by apply pow_flip.
    + destruct (pow_loop_spec (pow_fuel b) a b 1 _ Hb Hm Hf) as (y & -> & E).
      cbn [mbind option_bind]. eexists. split; [done|]. by rewrite E, Z.mul_1_l.
  - assert (b = 0) as -> by lia. eexists. split; [done|]. done.
Qed.

Lemma const_pow_spec x y s1 s2 r :
  const_pow x y s1 s2 r =
  let a := big_val x s1 in let b := big_val y s2 in
  if (a =? 0) && (b <? 0) then bv_state Sx r
  else if (a =? 0) && (0 <? b) then bv_state S0 r
  else v ← pow_body a b (if 0 <=? r then Z.to_nat r else 1024%nat);
       Some (if has_undef x || has_undef y then replicate (result_width r x y) Sx
             else dbv (Z_bits (result_width r x y) v)).
Proof.
  unfold const_pow. destruct (big2_spec x y s1 s2) as (u & -> & Hu & E). cbv zeta.
  destruct (_ && (_ <? 0)); [done|]. destruct (_ && _); [done|].
  unfold pow_body. match goal with |- mbind _ ?o = _ => destruct o as [v|]; [|done] end.
  cbn [mbind option_bind]. rewrite big2const_spec by apply size_or_nonneg.
  by rewrite min0_sign, E.
Qed.

Lemma const_pow_dbv a b s1 s2 r :
  0 <= r ->
  const_pow (dbv a) (dbv b) s1 s2 r =
  Some (if (bits_value a s1 =? 0) && (bits_value b s2 <? 0) then replicate (Z.to_nat r) Sx
        else dbv (Z_bits (Z.to_nat r) (pow_value (bits_value a s1) (bits_value b s2)))).
Proof.
  intros Hr. rewrite const_pow_spec, !has_undef_dbv, !big_val_dbv, !bv_state_spec by done.
  cbv zeta. destruct (Z.leb_spec 0 r); [|lia].
  assert (Hw : result_width r (dbv a) (dbv b) = Z.to_nat r)
    by (unfold result_width, size_or; destruct (Z.ltb_spec r 0); lia).
  destruct (Z.eqb_spec (bits_value a s1) 0) as [Ea|Ea]; cbn [andb].
  - destruct (Z.ltb_spec (bits_value b s2) 0) as [Eb|Eb]; [done|].
    destruct (Z.ltb_spec 0 (bits_value b s2)) as [Eb'|Eb'].
    + unfold pow_value. destruct (Z.ltb_spec (bits_value b s2) 0); [lia|].
      rewrite Ea, Z.pow_0_l by done. f_equal. symmetry.
      rewrite <- (bits_val_replicate_false (Z.to_nat r)).
      rewrite <- (length_replicate (Z.to_nat r) false) at 1.
      by rewrite Z_bits_bits_val, fmap_replicate.
    + destruct (pow_body_spec (bits_value a s1) (bits_value b s2) (Z.to_nat r)) as (v & -> & E); [lia|].
      cbn [mbind option_bind orb]. rewrite Hw. do 2 f_equal. by apply Z_bits_cong.
  - destruct (pow_body_spec (bits_value a s1) (bits_value b s2) (Z.to_nat r)) as (v & -> & E); [lia|].
    cbn [mbind option_bind orb]. rewrite Hw. do 2 f_equal. by apply Z_bits_cong.
Qed.

(** C15: on defined operands, with a result width given, the square-and-multiply
    loop of [const_pow] terminates and the operator returns the power truncated
    to the width; a negative exponent gives 1, ±1 or 0 for the bases 1, -1 and
    the others, and all-x for the base 0. *)
Theorem const_pow_exact a b s1 s2 r :
  0 <= r ->
  const_pow (dbv a) (dbv b) s1 s2 r =
  Some (if (bits_value a s1 =? 0) && (bits_value b s2 <? 0) then replicate (Z.to_nat r) Sx
        else dbv (Z_bits (Z.to_nat r) (pow_value (bits_value a s1) (bits_value b s2)))).
Proof. apply const_pow_dbv. Qed.

(** (-3)^5 = -243, on eight bits; and 2 to a negative power. *)
Lemma const_pow_exact_witness :
  const_pow (dbv (Z_bits 8 (-3))) (dbv (Z_bits 4 5)) true false 8 = Some (dbv (Z_bits 8 (-243))) /\
  const_pow (dbv (Z_bits 8 2)) (dbv (Z_bits 4 (-1))) true true 8 = Some (dbv (Z_bits 8 0)).
Proof.
  pose proof (const_pow_exact (Z_bits 8 (-3)) (Z_bits 4 5) true false 8 ltac:(lia)) as H1.
  pose proof (const_pow_exact (Z_bits 8 2) (Z_bits 4 (-1)) true true 8 ltac:(lia)) as H2.
  vm_compute in H1, H2 |- *. split; [exact H1|exact H2].
Defined.
