(* ===== verification/CalcLogic.v ===== *)
(** * Correctness of the bitwise, comparison and shift operators of [kernel/calc.cc]

    On fully defined operands the bitwise operators are the two's complement
    bitwise operations of the integers, the reductions and the logic operators
    are truth values, the comparisons decide the order of the operands' values,
    five shift operators are [Z.shiftl]/[Z.shiftr] on the value of the shifted
    operand, and [const_shiftx] is a window of it. *)

From S2P Require Import Prelude Const Calc CalcArith.

(** ** Bitwise operators *)

Lemma logic_wrapper_dbv (lf : State -> State -> State) (bf : bool -> bool -> bool) zf a b s1 s2 r :
  (forall p q, lf (state_of_bool p) (state_of_bool q) = state_of_bool (bf p q)) ->
  (forall u v i, 0 <= i -> Z.testbit (zf u v) i = bf (Z.testbit u i) (Z.testbit v i)) ->
  logic_wrapper lf (dbv a) (dbv b) s1 s2 r =
  Some (dbv (Z_bits (result_width r (dbv a) (dbv b)) (zf (bits_value a s1) (bits_value b s2)))).
Proof.
  intros Hl Hz. unfold logic_wrapper. pose proof (size_or_nonneg r (max_size (dbv a) (dbv b))).
  rewrite !extend_u0_spec, bv_state_spec by done. cbn [mbind option_bind].
  rewrite length_replicate. f_equal. apply map_seq_Z_bits. intros i Hi.
  rewrite !list_lookup_fmap, !Z_bits_lookup by done. cbn [fmap option_fmap option_map default from_option id].
  by rewrite Hl, Hz by lia.
Qed.

Lemma const_not_dbv a s1 r :
  const_not (dbv a) s1 r =
  Some (dbv (Z_bits (Z.to_nat (size_or r (length a))) (Z.lnot (bits_value a s1)))).
Proof.
  unfold const_not. rewrite length_fmap. pose proof (size_or_nonneg r (length a)).
  rewrite !extend_u0_spec, bv_state_spec by done. cbn [mbind option_bind].
  rewrite length_replicate. f_equal. apply map_seq_Z_bits. intros i Hi.
  rewrite !list_lookup_fmap, !Z_bits_lookup by done. cbn [fmap option_fmap option_map].
  rewrite Z.lnot_spec by lia. by destruct (Z.testbit _ _).
Qed.

Create HintDb bitwise.

Lemma const_and_dbv a b s1 s2 r :
  const_and (dbv a) (dbv b) s1 s2 r =
  Some (dbv (Z_bits (result_width r (dbv a) (dbv b)) (Z.land (bits_value a s1) (bits_value b s2)))).
Proof. apply (logic_wrapper_dbv logic_and andb); [by intros [] []|intros; apply Z.land_spec]. Qed.

Lemma const_or_dbv a b s1 s2 r :
  const_or (dbv a) (dbv b) s1 s2 r =
  Some (dbv (Z_bits (result_width r (dbv a) (dbv b)) (Z.lor (bits_value a s1) (bits_value b s2)))).
Proof. apply (logic_wrapper_dbv logic_or orb); [by intros [] []|intros; apply Z.lor_spec]. Qed.

Lemma const_xor_dbv a b s1 s2 r :
  const_xor (dbv a) (dbv b) s1 s2 r =
  Some (dbv (Z_bits (result_width r (dbv a) (dbv b)) (Z.lxor (bits_value a s1) (bits_value b s2)))).
Proof. apply (logic_wrapper_dbv logic_xor xorb); [by intros [] []|intros; apply Z.lxor_spec]. Qed.

Lemma const_xnor_dbv a b s1 s2 r :
  const_xnor (dbv a) (dbv b) s1 s2 r =
  Some (dbv (Z_bits (result_width r (dbv a) (dbv b)) (Z.lnot (Z.lxor (bits_value a s1) (bits_value b s2))))).
Proof.
  apply (logic_wrapper_dbv logic_xnor (fun p q => negb (xorb p q)) (fun u v => Z.lnot (Z.lxor u v)));
    [by intros [] []|]. intros. by rewrite Z.lnot_spec, Z.lxor_spec.
Qed.
#[export] Hint Resolve const_and_dbv const_or_dbv const_xor_dbv const_xnor_dbv const_not_dbv : bitwise.

(** ** Comparisons *)

(** A truth value, zero-extended to the result width. *)
Lemma widen_spec (b : bool) r :
  widen [state_of_bool b] r = dbv (Z_bits (Z.to_nat (Z.max 1 r)) (Z.b2z b)).
Proof.
  unfold widen. cbn [length]. destruct (Z.ltb_spec (Z.of_nat 1) r).
  - change [state_of_bool b] with (dbv [b]). change S0 with (state_of_bool false).
    rewrite vec_resize_bools. replace (Z.to_nat (Z.max 1 r)) with (Z.to_nat r) by lia.
    f_equal. change false with (ext_bit [b] false). rewrite vec_resize_value. by destruct b.
  - replace (Z.to_nat (Z.max 1 r)) with 1%nat by lia. by destruct b.
Qed.

Lemma cmp_wrapper_dbv cmp a b s1 s2 r :
  cmp_wrapper cmp (dbv a) (dbv b) s1 s2 r =
  dbv (Z_bits (Z.to_nat (Z.max 1 r)) (Z.b2z (cmp (bits_value a s1) (bits_value b s2)))).
Proof.
  unfold cmp_wrapper. destruct (big2_dbv a b s1 s2) as (u & -> & -> & _).
  rewrite <- widen_spec. by destruct (cmp _ _).
Qed.

(** The sign bit of a value is its highest bit at any sufficient width. *)
Lemma ext_bit_top a w sg :
  (0 < w)%nat -> (length a <= w)%nat ->
  ext_bit a sg = sg && Z.testbit (bits_value a sg) (Z.of_nat (w - 1)).
Proof.
  intros Hw Hl. rewrite bits_value_testbit. unfold ext_bit. destruct sg; [|done]. cbn [andb].
  destruct (decide (length a = w)) as [<-|].
  - rewrite last_lookup. replace (length a - 1)%nat with (pred (length a)) by lia.
    by destruct (a !! pred (length a)).
  - by rewrite (lookup_ge_None_2 a (w - 1)) by lia.
Qed.

Lemma bits_value_ext_eq a b w sg :
  (length a <= w)%nat -> (length b <= w)%nat ->
  (forall i, (i < w)%nat -> Z.testbit (bits_value a sg) (Z.of_nat i) = Z.testbit (bits_value b sg) (Z.of_nat i)) ->
  bits_value a sg = bits_value b sg.
Proof.
  intros Ha Hb H. apply Z.bits_inj'. intros k Hk.
  rewrite <- (Z2Nat.id k) by lia. destruct (decide (Z.to_nat k < w)%nat) as [|Hw]; [by apply H|].
  rewrite !bits_value_testbit, !(lookup_ge_None_2 _ (Z.to_nat k)) by lia. cbn [default from_option id].
  destruct (decide (0 < w)%nat) as [Hp|Hp].
  - rewrite !(ext_bit_top _ w) by done. by rewrite H by lia.
  - destruct a, b; try (simpl in *; lia). done.
Qed.

Lemma Z_bits_value_eq a b w sg :
  (length a <= w)%nat -> (length b <= w)%nat ->
  Z_bits w (bits_value a sg) = Z_bits w (bits_value b sg) <-> bits_value a sg = bits_value b sg.
Proof.
  intros Ha Hb. split; [|by intros ->]. intros H. apply (bits_value_ext_eq _ _ w); [done..|].
  intros i Hi. assert (E : Z_bits w (bits_value a sg) !! i = Z_bits w (bits_value b sg) !! i) by (by rewrite H).
  rewrite !Z_bits_lookup in E by done. by inversion E.
Qed.

Lemma eq_loop_dbv (a b : list bool) :
  length a = length b ->
  eq_loop (dbv a) (dbv b) S1 = if bool_decide (a = b) then Some S1 else None.
Proof.
  revert b. induction a as [|p a IH]; intros [|q b] Hl; try done.
  rewrite !fmap_cons. cbn [eq_loop]. injection Hl as Hl.
  destruct p, q; cbn; try (rewrite bool_decide_false by congruence; done);
    rewrite IH by done; destruct (decide (a = b)) as [->|];
    by rewrite ?bool_decide_true, ?bool_decide_false by congruence.
Qed.

Lemma dbv_inj (a b : list bool) : dbv a = dbv b <-> a = b.
Proof.
  split; [|by intros ->]. revert b.
  induction a as [|p a IH]; intros [|q b] E; try done.
  rewrite !fmap_cons in E. injection E as E1 E2. f_equal; [by destruct p, q|by apply IH].
Qed.

Lemma eq_result (b : bool) r :
  1 <= r ->
  (if b then bv_set (replicate (Z.to_nat r) S0) 0 S1 else Some (replicate (Z.to_nat r) S0)) =
  Some (dbv (Z_bits (Z.to_nat r) (Z.b2z b))).
Proof.
  intros Hr. replace (Z.to_nat r) with (Z.to_nat (Z.max 1 r)) at 3 by lia. rewrite <- widen_spec.
  unfold widen, bv_set, vec_resize. cbn [length]. rewrite length_replicate.
  destruct (Z.to_nat r) as [|n] eqn:E; [lia|]. destruct (Z.ltb_spec (Z.of_nat 1) r).
  - rewrite take_ge by (cbn; lia). replace (S n - 1)%nat with n by lia. by destruct b.
  - assert (n = 0%nat) as -> by lia. by destruct b.
Qed.

Lemma flip_result (b : bool) n :
  flip_front (dbv (Z_bits n (Z.b2z b))) = dbv (Z_bits n (Z.b2z (negb b))).
Proof. destruct n; [done|]. by destruct b. Qed.

Lemma const_eq_dbv a b s1 s2 r :
  1 <= r ->
  let e := Z.b2z (bits_value a (s1 && s2) =? bits_value b (s1 && s2)) in
  const_eq (dbv a) (dbv b) s1 s2 r = Some (dbv (Z_bits (Z.to_nat r) e)) /\
  const_eqx (dbv a) (dbv b) s1 s2 r = Some (dbv (Z_bits (Z.to_nat r) e)).
Proof.
  intros Hr. cbv zeta. unfold const_eq, const_eqx, max_size.
  rewrite !length_fmap, bv_state_spec, !extend_u0_spec by lia. cbn [mbind option_bind].
  rewrite eq_loop_dbv, (bool_decide_ext _ _ (dbv_inj _ _)) by (by rewrite !Z_bits_length).
  rewrite <- eq_result by done. rewrite Nat2Z.id.
  pose proof (Z_bits_value_eq a b (length a `max` length b) (s1 && s2) ltac:(lia) ltac:(lia)) as H.
  rewrite (bool_decide_ext _ _ H). destruct (Z.eqb_spec (bits_value a (s1 && s2)) (bits_value b (s1 && s2))).
  - by rewrite bool_decide_true by done.
  - by rewrite bool_decide_false by done.
Qed.

(** C13: on defined bits and for a result of at least one bit, the eight
    comparison operators decide the order (each operand read with its own
    signedness) and the equality (both signed only when both are flagged so)
    of the operands' values, as a zero-extended truth value. *)
Theorem comparisons_exact a b s1 s2 r :
  1 <= r ->
  let x := dbv a in let y := dbv b in
  let res t := dbv (Z_bits (Z.to_nat r) (Z.b2z t)) in
  let u := bits_value a s1 in let v := bits_value b s2 in
  let eq := bits_value a (s1 && s2) =? bits_value b (s1 && s2) in
  const_lt x y s1 s2 r = res (u <? v) /\ const_le x y s1 s2 r = res (u <=? v) /\
  const_ge x y s1 s2 r = res (v <=? u) /\ const_gt x y s1 s2 r = res (v <? u) /\
  const_eq x y s1 s2 r = Some (res eq) /\ const_ne x y s1 s2 r = Some (res (negb eq)) /\
  const_eqx x y s1 s2 r = Some (res eq) /\ const_nex x y s1 s2 r = Some (res (negb eq)).
Proof.
  intros Hr. cbv zeta. unfold const_lt, const_le, const_ge, const_gt, const_ne, const_nex.
  destruct (const_eq_dbv a b s1 s2 r Hr) as [-> ->]. cbn [mbind option_bind].
  rewrite !cmp_wrapper_dbv, Z.geb_leb, Z.gtb_ltb. replace (Z.max 1 r) with r by lia.
  unfold front_flipped. rewrite <- !flip_result. destruct (Z.to_nat r) eqn:E; [lia|].
  split_and!; done.
Qed.

(** -1 (signed 3 bits) against 7 (unsigned 4 bits). *)
Lemma comparisons_exact_witness :
  const_lt (dbv (Z_bits 3 (-1))) (dbv (Z_bits 4 7)) true true 1 = [S1] /\
  const_eq (dbv (Z_bits 3 (-1))) (dbv (Z_bits 4 7)) true false 2 = Some [S1; S0].
Proof.
  destruct (comparisons_exact (Z_bits 3 (-1)) (Z_bits 4 7) true true 1 ltac:(lia)) as (H1 & _).
  destruct (comparisons_exact (Z_bits 3 (-1)) (Z_bits 4 7) true false 2 ltac:(lia))
    as (_ & _ & _ & _ & H2 & _).
  vm_compute in H1, H2 |- *. split; [exact H1|exact H2].
Defined.

(** ** Reductions and logical operators *)

Lemma logic_and_bool p q : logic_and (state_of_bool p) (state_of_bool q) = state_of_bool (p && q).
Proof. by destruct p, q. Qed.
Lemma logic_or_bool p q : logic_or (state_of_bool p) (state_of_bool q) = state_of_bool (p || q).
Proof. by destruct p, q. Qed.
Lemma logic_xor_bool p q : logic_xor (state_of_bool p) (state_of_bool q) = state_of_bool (xorb p q).
Proof. by destruct p, q. Qed.

Lemma fold_left_bools (lf : State -> State -> State) bf (a : list bool) i :
  (forall p q, lf (state_of_bool p) (state_of_bool q) = state_of_bool (bf p q)) ->
  fold_left lf (dbv a) (state_of_bool i) = state_of_bool (fold_left bf a i).
Proof. intros H. revert i. induction a as [|b a IH]; intros i; [done|]. cbn. by rewrite H, IH. Qed.

Lemma fold_left_andb a i : fold_left andb a i = i && forallb id a.
Proof. revert i. induction a as [|b a IH]; intros i; cbn; [by destruct i|]. rewrite IH. by destruct i, b. Qed.

Lemma fold_left_orb a i : fold_left orb a i = i || existsb id a.
Proof. revert i. induction a as [|b a IH]; intros i; cbn; [by destruct i|]. rewrite IH. by destruct i, b. Qed.

(** A truth value as a result: zero-extended to the result width, and never
    narrower than one bit. *)
Definition truth (r : Z) (t : bool) : bvec := dbv (Z_bits (Z.to_nat (Z.max 1 r)) (Z.b2z t)).

Lemma reduce_dbv lf bf a i r :
  (forall p q, lf (state_of_bool p) (state_of_bool q) = state_of_bool (bf p q)) ->
  logic_reduce_wrapper (state_of_bool i) lf (dbv a) r = truth r (fold_left bf a i).
Proof. intros H. unfold logic_reduce_wrapper. by rewrite (fold_left_bools _ _ _ _ H), widen_spec. Qed.

Lemma const_reduce_and_dbv a r : const_reduce_and (dbv a) r = truth r (forallb id a).
Proof. unfold const_reduce_and. change S1 with (state_of_bool true). by rewrite (reduce_dbv _ andb _ _ _ logic_and_bool), fold_left_andb. Qed.
Lemma const_reduce_or_dbv a r : const_reduce_or (dbv a) r = truth r (existsb id a).
Proof. unfold const_reduce_or. change S0 with (state_of_bool false). by rewrite (reduce_dbv _ orb _ _ _ logic_or_bool), fold_left_orb. Qed.
Lemma const_reduce_bool_dbv a r : const_reduce_bool (dbv a) r = truth r (existsb id a).
Proof. apply const_reduce_or_dbv. Qed.
Lemma const_reduce_xor_dbv a r : const_reduce_xor (dbv a) r = truth r (fold_left xorb a false).
Proof. unfold const_reduce_xor. change S0 with (state_of_bool false). by rewrite (reduce_dbv _ xorb _ _ _ logic_xor_bool). Qed.
Lemma const_reduce_xnor_dbv a r : const_reduce_xnor (dbv a) r = truth r (negb (fold_left xorb a false)).
Proof.
  unfold const_reduce_xnor, truth. change S0 with (state_of_bool false).
  by rewrite (reduce_dbv _ xorb _ _ _ logic_xor_bool), <- flip_result; unfold truth.
Qed.

Lemma logic_operand_dbv a sg : logic_operand (dbv a) sg = state_of_bool (negb (bits_value a sg =? 0)).
Proof.
  unfold logic_operand. destruct (const2big_spec (dbv a) sg (-1)) as (u & -> & Hu & E); [lia|].
  rewrite has_undef_dbv in E. rewrite E, big_val_dbv. replace (0 <=? -1) with false by done. by destruct (_ =? 0).
Qed.

Lemma logic_not_dbv a sg r : const_logic_not (dbv a) sg r = truth r (bits_value a sg =? 0).
Proof.
  unfold const_logic_not, truth. destruct (const2big_spec (dbv a) sg (-1)) as (u & -> & Hu & E); [lia|].
  rewrite has_undef_dbv in E. rewrite E, big_val_dbv, <- widen_spec.
  replace (0 <=? -1) with false by done. by destruct (_ =? 0).
Qed.

Lemma logic_and_dbv a b s1 s2 r :
  const_logic_and (dbv a) (dbv b) s1 s2 r = truth r (negb (bits_value a s1 =? 0) && negb (bits_value b s2 =? 0)).
Proof. unfold const_logic_and, truth. by rewrite !logic_operand_dbv, logic_and_bool, widen_spec. Qed.

Lemma logic_or_dbv a b s1 s2 r :
  const_logic_or (dbv a) (dbv b) s1 s2 r = truth r (negb (bits_value a s1 =? 0) || negb (bits_value b s2 =? 0)).
Proof. unfold const_logic_or, truth. by rewrite !logic_operand_dbv, logic_or_bool, widen_spec. Qed.
#[export] Hint Resolve const_reduce_and_dbv const_reduce_or_dbv const_reduce_bool_dbv const_reduce_xor_dbv
  const_reduce_xnor_dbv logic_not_dbv logic_and_dbv logic_or_dbv : bitwise.

(** C14: on defined bits, [const_and], [const_or], [const_xor], [const_xnor] and
    [const_not] are the infinite two's complement bitwise operations on the
    operands' values, truncated to the result width; the five reductions are the
    conjunction, disjunction, parity, negated parity and disjunction of the bits;
    [const_logic_not], [const_logic_and] and [const_logic_or] are negation,
    conjunction and disjunction of "the value is not 0".  The results of the last
    two groups are truth values, zero-extended to the result width. *)
Theorem bitwise_ops_exact a b s1 s2 r :
  let x := dbv a in let y := dbv b in
  let w := result_width r x y in
  let u := bits_value a s1 in let v := bits_value b s2 in
  let parity := fold_left xorb a false in
  const_and x y s1 s2 r = Some (dbv (Z_bits w (Z.land u v))) /\
  const_or x y s1 s2 r = Some (dbv (Z_bits w (Z.lor u v))) /\
  const_xor x y s1 s2 r = Some (dbv (Z_bits w (Z.lxor u v))) /\
  const_xnor x y s1 s2 r = Some (dbv (Z_bits w (Z.lnot (Z.lxor u v)))) /\
  const_not x s1 r = Some (dbv (Z_bits (Z.to_nat (size_or r (length a))) (Z.lnot u))) /\
  const_reduce_and x r = truth r (forallb id a) /\ const_reduce_or x r = truth r (existsb id a) /\
  const_reduce_xor x r = truth r parity /\ const_reduce_xnor x r = truth r (negb parity) /\
  const_reduce_bool x r = truth r (existsb id a) /\
  const_logic_not x s1 r = truth r (u =? 0) /\
  const_logic_and x y s1 s2 r = truth r (negb (u =? 0) && negb (v =? 0)) /\
  const_logic_or x y s1 s2 r = truth r (negb (u =? 0) || negb (v =? 0)).
Proof. cbv zeta. split_and!; auto with bitwise. Qed.

(** ** Shifts *)

Lemma mapM_fmap_Some {A B} (f : A -> option B) (g : A -> B) l : (forall x, f x = Some (g x)) -> mapM f l = Some (g <$> l).
Proof. intros H. induction l as [|x l IH]; [done|]. cbn. by rewrite H, IH. Qed.

Lemma mapM_seq_Z_bits (f : nat -> option State) n z :
  (forall i, (i < n)%nat -> f i = Some (state_of_bool (Z.testbit z (Z.of_nat i)))) ->
  mapM f (seq 0 n) = Some (dbv (Z_bits n z)).
Proof.
  intros H. apply mapM_Some. apply Forall2_same_length_lookup.
  split; [by rewrite length_seq, length_fmap, Z_bits_length|].
  intros i x y Hx Hy. apply lookup_seq in Hx as [-> Hi]. rewrite Nat.add_0_l, H by done.
  rewrite list_lookup_fmap, Z_bits_lookup in Hy by done. by injection Hy as <-.
Qed.

(** The worker is one shift of the integers, in the direction of the signed
    offset; it reads past the end of the operand with the operand's sign. *)
Lemma shift_worker_dbv a b se s2 d r :
  (se = true -> a <> []) ->
  const_shift_worker (dbv a) (dbv b) se s2 d r S0 =
  Some (dbv (Z_bits (Z.to_nat (size_or r (length a)))
               (Z.shiftr (bits_value a se) (bits_value b s2 * d)))).
Proof.
  intros Hne. unfold const_shift_worker. rewrite length_fmap.
  destruct (const2big_spec (dbv b) s2 (-1)) as (u & -> & Hu & E); [lia|].
  rewrite has_undef_dbv in E. rewrite E, big_val_dbv.
  rewrite bv_state_spec by apply size_or_nonneg. cbn [mbind option_bind orb].
  replace (0 <=? -1) with false by done.
  rewrite length_replicate. apply mapM_seq_Z_bits. intros i Hi.
  set (o := bits_value b s2 * d). rewrite Z.shiftr_spec by lia.
  destruct (Z.ltb_spec (Z.of_nat i + o) 0); [by rewrite Z.testbit_neg_r by lia|].
  rewrite <- (Z2Nat.id (Z.of_nat i + o)) at 3 by lia. rewrite bits_value_testbit.
  destruct (Z.leb_spec (Z.of_nat (length a)) (Z.of_nat i + o)).
  - rewrite (lookup_ge_None_2 a) by lia. cbn [default from_option id]. unfold ext_bit.
    destruct se; [|done]. cbn [andb]. rewrite fmap_last.
    destruct (last a) as [t|] eqn:El; [done|]. apply last_None in El. by destruct Hne.
  - rewrite list_lookup_fmap. destruct (lookup_lt_is_Some_2 a (Z.to_nat (Z.of_nat i + o))) as [t ->]; [lia|].
    done.
Qed.

Lemma size_or_given r n : 0 <= r -> size_or r n = r.
Proof. intros. unfold size_or. destruct (Z.ltb_spec r 0); lia. Qed.

Lemma shiftr_neg1 z k : Z.shiftr z (k * -1) = Z.shiftl z k.
Proof. replace (k * -1) with (- k) by lia. apply Z.shiftr_opp_r. Qed.

Lemma Z_bits_shiftl_mod n z k :
  0 <= k -> Z_bits n (Z.shiftl (z mod 2 ^ Z.of_nat n) k) = Z_bits n (Z.shiftl z k).
Proof.
  intros Hk. apply Z_bits_cong. rewrite !Z.shiftl_mul_pow2 by done. apply Zmult_mod_idemp_l.
Qed.

Lemma bits_value_reencode a sg w : 0 <= w -> bits_value (Z_bits (Z.to_nat w) (bits_value a sg)) false = bits_value a sg mod 2 ^ w.
Proof. intros Hw. unfold bits_value at 1. by rewrite bits_val_Z_bits, Z2Nat.id. Qed.

(** The value of the shifted operand as a number of the result width. *)
Definition logical_value (a : list bool) (sg : bool) (r : Z) : Z := bits_value a sg mod 2 ^ Z.max r (Z.of_nat (length a)).

Section ShiftValues.
Context (a b : list bool) (s1 s2 : bool) (r : Z) (Hr : 0 <= r).

Lemma const_sshl_dbv : a <> [] ->
  const_sshl (dbv a) (dbv b) s1 r = Some (dbv (Z_bits (Z.to_nat r) (Z.shiftl (bits_value a s1) (bits_value b false)))).
Proof using Hr. intros Hne. unfold const_sshl. by rewrite shift_worker_dbv, size_or_given, shiftr_neg1 by done. Qed.

Lemma const_sshr_dbv : a <> [] ->
  const_sshr (dbv a) (dbv b) s1 r = Some (dbv (Z_bits (Z.to_nat r) (Z.shiftr (bits_value a s1) (bits_value b false)))).
Proof using Hr. intros Hne. unfold const_sshr. by rewrite shift_worker_dbv, size_or_given, Z.mul_1_r by done. Qed.

Lemma const_shl_dbv :
  const_shl (dbv a) (dbv b) s1 r = Some (dbv (Z_bits (Z.to_nat r) (Z.shiftl (bits_value a s1) (bits_value b false)))).
Proof using Hr.
  unfold const_shl. rewrite extend_u0_spec by done. cbn [mbind option_bind].
  rewrite shift_worker_dbv, size_or_given, shiftr_neg1, bits_value_reencode by done.
  rewrite <- (Z2Nat.id r) at 2 by done. do 2 f_equal. apply Z_bits_shiftl_mod. unfold bits_value. apply bits_val_bound.
Qed.

Lemma const_shr_dbv :
  const_shr (dbv a) (dbv b) s1 r = Some (dbv (Z_bits (Z.to_nat r) (Z.shiftr (logical_value a s1 r) (bits_value b false)))).
Proof using Hr.
  unfold const_shr. rewrite length_fmap, extend_u0_spec by lia. cbn [mbind option_bind].
  by rewrite shift_worker_dbv, size_or_given, Z.mul_1_r, bits_value_reencode by (done || lia).
Qed.

Lemma const_shift_dbv :
  const_shift (dbv a) (dbv b) s1 s2 r = Some (dbv (Z_bits (Z.to_nat r) (Z.shiftr (logical_value a s1 r) (bits_value b s2)))).
Proof using Hr.
  unfold const_shift. rewrite length_fmap, extend_u0_spec by lia. cbn [mbind option_bind].
  by rewrite shift_worker_dbv, size_or_given, Z.mul_1_r, bits_value_reencode by (done || lia).
Qed.
End ShiftValues.

(** [const_shiftx] fills with x whatever it reads outside of the operand. *)
Definition window (a : list bool) (o : Z) (n : nat) : bvec :=
  (fun i : nat => let p := Z.of_nat i + o in if p <? 0 then Sx else default Sx (dbv a !! Z.to_nat p)) <$> seq 0 n.

Lemma const_shiftx_dbv a b s2 r :
  const_shiftx (dbv a) (dbv b) s2 r = Some (window a (bits_value b s2) (Z.to_nat (size_or r (length a)))).
Proof.
  unfold const_shiftx, const_shift_worker. rewrite length_fmap.
  destruct (const2big_spec (dbv b) s2 (-1)) as (u & -> & Hu & E); [lia|].
  rewrite has_undef_dbv in E. rewrite E, big_val_dbv, Z.mul_1_r, bv_state_spec by apply size_or_nonneg.
  cbn [mbind option_bind orb]. replace (0 <=? -1) with false by done. rewrite length_replicate.
  apply mapM_fmap_Some. intros i. cbv zeta. destruct (Z.ltb_spec (Z.of_nat i + bits_value b s2) 0); [done|].
  destruct (Z.leb_spec (Z.of_nat (length a)) (Z.of_nat i + bits_value b s2)).
  - rewrite lookup_ge_None_2 by (rewrite length_fmap; lia). done.
  - destruct (lookup_lt_is_Some_2 (dbv a) (Z.to_nat (Z.of_nat i + bits_value b s2))) as [t ->]; [rewrite length_fmap; lia|done].
Qed.

(** C12: for a defined shift amount and a result width [r >= 0]: [const_shl] and
    [const_sshl] shift the value left, [const_sshr] shifts it right
    arithmetically, and [const_shr] and [const_shift] shift it right logically
    at the width [max r (length a)], [const_shift] in both directions
    (a negative amount shifts left); [const_shiftx] reads the window of [r] bits
    that starts at the amount, with x for every bit outside of the operand. *)
Theorem shifts_exact a b s1 s2 r :
  0 <= r -> a <> [] ->
  let x := dbv a in let y := dbv b in
  let res z := Some (dbv (Z_bits (Z.to_nat r) z)) in
  let logical := bits_value a s1 mod 2 ^ Z.max r (Z.of_nat (length a)) in
  const_shl x y s1 r = res (Z.shiftl (bits_value a s1) (bits_value b false)) /\
  const_sshl x y s1 r = res (Z.shiftl (bits_value a s1) (bits_value b false)) /\
  const_shr x y s1 r = res (Z.shiftr logical (bits_value b false)) /\
  const_sshr x y s1 r = res (Z.shiftr (bits_value a s1) (bits_value b false)) /\
  const_shift x y s1 s2 r = res (Z.shiftr logical (bits_value b s2)) /\
  const_shiftx x y s2 r = Some (window a (bits_value b s2) (Z.to_nat r)).
Proof.
  intros Hr Hne. cbv zeta. split_and!; [by apply const_shl_dbv|by apply const_sshl_dbv|by apply const_shr_dbv
    |by apply const_sshr_dbv|by apply const_shift_dbv|]. by rewrite const_shiftx_dbv, size_or_given.
Qed.

(** -8 (signed 4 bits) shifted by 2. *)
Lemma shifts_exact_witness :
  const_shl (dbv (Z_bits 4 (-8))) (dbv (Z_bits 2 2)) true 6 = Some (dbv (Z_bits 6 (-32))) /\
  const_sshr (dbv (Z_bits 4 (-8))) (dbv (Z_bits 2 2)) true 6 = Some (dbv (Z_bits 6 (-2))) /\
  const_shift (dbv (Z_bits 4 (-8))) (dbv (Z_bits 2 (-2))) true true 6 = Some (dbv (Z_bits 6 (-32))) /\
  const_shiftx (dbv (Z_bits 4 (-8))) (dbv (Z_bits 2 (-2))) true 7 = Some [Sx; Sx; S0; S0; S0; S1; Sx].
Proof.
  destruct (shifts_exact (Z_bits 4 (-8)) (Z_bits 2 2) true false 6 ltac:(lia) ltac:(done))
    as (H1 & _ & _ & H2 & _).
  destruct (shifts_exact (Z_bits 4 (-8)) (Z_bits 2 (-2)) true true 6 ltac:(lia) ltac:(done))
    as (_ & _ & _ & _ & H3 & _).
  destruct (shifts_exact (Z_bits 4 (-8)) (Z_bits 2 (-2)) true true 7 ltac:(lia) ltac:(done))
    as (_ & _ & _ & _ & _ & H4).
  vm_compute in H1, H2, H3, H4 |- *. split_and!; assumption.
Defined.
