(* ===== verification/CalcX.v ===== *)
(** * Undefined bits in [kernel/calc.cc]

    A bit vector with undefined states stands for all its concretisations.
    An evaluator is sound for undefined inputs when each defined bit of its
    result is the bit every concretisation of the operands gives.  The file
    proves this for the operators of one, two and three operands that have the
    property, and shows that [const_pow] does not. *)

From S2P Require Import Prelude Const Calc CalcArith CalcLogic.

(** ** Approximation *)

(** [approx s t]: the state [s] leaves [t] possible. *)
Definition approx (s t : State) : Prop := is_01 s = true -> t = s.

(** [approx] on vectors of the same width. *)
Abbreviation approxs := (Forall2 approx).

#[global] Instance approx_refl : Reflexive approx.
Proof. by intros s _. Qed.

Lemma approx_trans : Transitive approx.
Proof. intros s t u H1 H2 Hs. specialize (H1 Hs). subst. by apply H2. Qed.

Lemma approx_undef s t : is_01 s = false -> approx s t.
Proof. unfold approx. congruence. Qed.

Lemma approxs_length x y : approxs x y -> length x = length y.
Proof. apply Forall2_length. Qed.

Lemma approxs_refl x : approxs x x.
Proof. by apply Forall2_same_length_lookup_2; [|intros i ?? -> [= ->]]. Qed.

Lemma approxs_Sx n y : length y = n -> approxs (replicate n Sx) y.
Proof.
  intros <-. induction y; simpl; constructor; [by apply approx_undef|done].
Qed.

(** A vector without undefined bits approximates only itself. *)
Lemma approxs_defined x y : approxs x y -> has_undef x = false -> y = x.
Proof.
  unfold has_undef. induction 1 as [|s t x y Hst _ IH]; [done|].
  cbn. rewrite negb_andb, orb_false_iff, negb_false_iff. intros [Hs Hx].
  rewrite IH by done. by rewrite Hst.
Qed.

Lemma approxs_has_undef x y : approxs x y -> has_undef y = true -> has_undef x = true.
Proof.
  intros H Hy. destruct (has_undef x) eqn:E; [done|].
  rewrite (approxs_defined x y) in Hy by done. congruence.
Qed.

Lemma approxs_last x y : approxs x y ->
  match last x, last y with Some s, Some t => approx s t | None, None => True | _, _ => False end.
Proof.
  intros H. rewrite !last_lookup, <- (approxs_length _ _ H).
  destruct (Forall2_lookup_l _ _ _ (pred (length x)) _ H) as (t & -> & ?) || idtac.
  destruct (x !! pred (length x)) as [s|] eqn:E.
  - by destruct (Forall2_lookup_l _ _ _ _ _ H E) as (t & -> & ?).
  - apply lookup_ge_None_1 in E. rewrite (approxs_length _ _ H) in E.
    by rewrite lookup_ge_None_2 by lia.
Qed.

(** The resize and extension of operands. *)
Lemma approxs_vec_resize x y n s t : approxs x y -> approx s t -> approxs (vec_resize x n s) (vec_resize y n t).
Proof.
  intros H Hst. unfold vec_resize. rewrite (approxs_length _ _ H).
  apply Forall2_app; [by apply Forall2_take|by apply Forall2_replicate].
Qed.

Lemma extend_u0_approx x y w sg x' :
  approxs x y -> extend_u0 x w sg = Some x' ->
  exists y', extend_u0 y w sg = Some y' /\ approxs x' y'.
Proof.
  intros H. unfold extend_u0, bv_resize. destruct (w <? 0); [done|]. intros [= <-].
  eexists. split; [done|]. apply approxs_vec_resize; [done|].
  pose proof (approxs_last _ _ H) as Hl. destruct (last x), (last y); try done. by destruct sg.
Qed.

(** Soundness of an operator of two operands: it succeeds on whatever its
    operands stand for, with a result its own result stands for. *)
Definition x_sound (f : bvec -> bvec -> option bvec) : Prop :=
  forall x y x' y' r, approxs x x' -> approxs y y' -> f x y = Some r ->
  exists r', f x' y' = Some r' /\ approxs r r'.

(** ** Bitwise operators *)

Definition monotone2 (lf : State -> State -> State) : Prop :=
  forall s t s' t', approx s s' -> approx t t' -> approx (lf s t) (lf s' t').

Lemma logic_and_mono : monotone2 logic_and.
Proof. intros [] [] [] [] H1 H2; unfold approx in *; cbn in *; naive_solver. Qed.
Lemma logic_or_mono : monotone2 logic_or.
Proof. intros [] [] [] [] H1 H2; unfold approx in *; cbn in *; naive_solver. Qed.
Lemma logic_xor_mono : monotone2 logic_xor.
Proof. intros [] [] [] [] H1 H2; unfold approx in *; cbn in *; naive_solver. Qed.
Lemma logic_xnor_mono : monotone2 logic_xnor.
Proof. intros [] [] [] [] H1 H2; unfold approx in *; cbn in *; naive_solver. Qed.
#[export] Hint Resolve logic_and_mono logic_or_mono logic_xor_mono logic_xnor_mono : core.

Lemma state_not_mono s t : approx s t -> approx (state_not s) (state_not t).
Proof. destruct s, t; unfold approx; cbn; naive_solver. Qed.

Lemma Forall2_fmap_seq {A} (R : A -> A -> Prop) (f g : nat -> A) n :
  (forall i, (i < n)%nat -> R (f i) (g i)) -> Forall2 R (f <$> seq 0 n) (g <$> seq 0 n).
Proof.
  intros H. apply Forall2_fmap_2. apply Forall2_same_length_lookup_2; [done|].
  intros i a b Ha Hb. rewrite Ha in Hb. injection Hb as <-.
  apply lookup_seq in Ha as [-> Hi]. by apply H.
Qed.

Lemma approxs_lookup x y i : approxs x y -> approx (default S0 (x !! i)) (default S0 (y !! i)).
Proof.
  intros H. destruct (x !! i) as [s|] eqn:E.
  - by destruct (Forall2_lookup_l _ _ _ _ _ H E) as (t & -> & ?).
  - apply lookup_ge_None_1 in E. rewrite (approxs_length _ _ H) in E. by rewrite lookup_ge_None_2.
Qed.

Lemma max_size_approx x y x' y' : approxs x x' -> approxs y y' -> max_size x' y' = max_size x y.
Proof. intros H1 H2. unfold max_size. by rewrite (approxs_length _ _ H1), (approxs_length _ _ H2). Qed.

Lemma logic_wrapper_sound lf s1 s2 r :
  monotone2 lf -> x_sound (fun x y => logic_wrapper lf x y s1 s2 r).
Proof.
  intros Hm x y x' y' res Hx Hy. unfold logic_wrapper. rewrite (max_size_approx _ _ _ _ Hx Hy).
  set (w := size_or r (max_size x y)).
  destruct (extend_u0 x w s1) as [ex|] eqn:Ex; [|done].
  destruct (extend_u0_approx _ _ _ _ _ Hx Ex) as (ex' & -> & Hex). cbn [mbind option_bind].
  destruct (extend_u0 y w s2) as [ey|] eqn:Ey; [|done].
  destruct (extend_u0_approx _ _ _ _ _ Hy Ey) as (ey' & -> & Hey). cbn [mbind option_bind].
  destruct (bv_state Sx w); [|done]. cbn [mbind option_bind]. intros [= <-].
  eexists. split; [done|]. apply Forall2_fmap_seq. intros i _.
  apply Hm; by apply approxs_lookup.
Qed.

(** ** Arithmetic *)

Lemma approxs_big x y : approxs x y -> has_undef x = false ->
  forall sg, big_val y sg = big_val x sg /\ has_undef y = false.
Proof. intros H E sg. by rewrite (approxs_defined _ _ H E). Qed.

Lemma result_width_approx r x y x' y' :
  approxs x x' -> approxs y y' -> result_width r x' y' = result_width r x y.
Proof. intros. unfold result_width. by erewrite max_size_approx. Qed.

(** The shape of [add], [sub], [mul] (and of the divisions): an undefined
    operand bit makes the whole result undefined. *)
Lemma strict_sound (f : bvec -> bvec -> option bvec) (g : bvec -> bvec -> bvec) (w : bvec -> bvec -> nat) :
  (forall x y, f x y = Some (if has_undef x || has_undef y then replicate (w x y) Sx else g x y)) ->
  (forall x y, length (g x y) = w x y) ->
  (forall x y x' y', approxs x x' -> approxs y y' -> w x' y' = w x y) ->
  x_sound f.
Proof.
  intros Hf Hl Hw x y x' y' r Hx Hy. rewrite !Hf. intros [= <-]. eexists. split; [done|].
  rewrite (Hw _ _ _ _ Hx Hy). destruct (has_undef x || has_undef y) eqn:E.
  - apply approxs_Sx. case_match; [apply length_replicate|]. rewrite Hl. by apply Hw.
  - apply orb_false_iff in E as [Ex Ey].
    rewrite (approxs_defined _ _ Hx Ex), (approxs_defined _ _ Hy Ey), Ex, Ey. apply approxs_refl.
Qed.

Lemma arith_wrapper_sound op s1 s2 r : x_sound (fun x y => arith_wrapper op x y s1 s2 r).
Proof.
  eapply strict_sound; [intros; apply arith_wrapper_spec| |].
  - intros; cbv beta. by rewrite length_fmap, Z_bits_length.
  - intros. by apply result_width_approx.
Qed.

Lemma const_mul_sound s1 s2 r : x_sound (fun x y => const_mul x y s1 s2 r).
Proof.
  eapply strict_sound; [intros; apply const_mul_spec| |].
  - intros; cbv beta. by rewrite length_fmap, Z_bits_length.
  - intros. by apply result_width_approx.
Qed.

(** With the result width given, a division by a vector that may be 0 gives
    all-x, which covers every outcome. *)
Lemma div_wrapper_sound f s1 s2 r : 0 <= r -> x_sound (fun x y => div_wrapper f x y s1 s2 r).
Proof.
  intros Hr.
  assert (Hw : forall x y, result_width r x y = Z.to_nat r)
    by (intros; unfold result_width; by rewrite size_or_given).
  assert (Htot : forall x y, exists res, div_wrapper f x y s1 s2 r = Some res /\ length res = Z.to_nat r).
  { intros x y. rewrite div_wrapper_spec, bv_state_spec by done. case_match.
    - eexists. split; [done|]. apply length_replicate.
    - eexists. split; [done|]. rewrite Hw. case_match; [apply length_replicate|].
      by rewrite length_fmap, Z_bits_length. }
  intros x y x' y' res Hx Hy Hres. destruct (Htot x' y') as (res' & Hres' & Hl').
  exists res'. split; [done|]. pose proof Hres as Hres0.
  rewrite div_wrapper_spec, bv_state_spec, Hw in Hres by done.
  destruct (big_val y s2 =? 0) eqn:Ez; [injection Hres as <-; by apply approxs_Sx|].
  destruct (has_undef x || has_undef y) eqn:E; [injection Hres as <-; by apply approxs_Sx|].
  apply orb_false_iff in E as [Ex Ey].
  rewrite (approxs_defined _ _ Hx Ex), (approxs_defined _ _ Hy Ey) in Hres'.
  rewrite Hres' in Hres0. injection Hres0 as <-. apply approxs_refl.
Qed.

(** ** Comparisons *)

Lemma widen_approx s t r : approx s t -> approxs (widen [s] r) (widen [t] r).
Proof.
  intros H. unfold widen. cbn [length]. case_match; [|by repeat constructor].
  apply approxs_vec_resize; [by repeat constructor|done].
Qed.

Lemma cmp_wrapper_sound cmp s1 s2 r : x_sound (fun x y => Some (cmp_wrapper cmp x y s1 s2 r)).
Proof.
  intros x y x' y' res Hx Hy [= <-]. eexists. split; [done|]. unfold cmp_wrapper.
  destruct (big2_spec x y s1 s2) as (u & -> & _ & E).
  destruct (big2_spec x' y' s1 s2) as (u' & -> & _ & E'). rewrite E, E'.
  apply widen_approx. destruct (has_undef x || has_undef y) eqn:Eu; [by apply approx_undef|].
  apply orb_false_iff in Eu as [Ex Ey].
  rewrite (approxs_defined _ _ Hx Ex), (approxs_defined _ _ Hy Ey), Ex, Ey. done.
Qed.

(** [const_eq]: two defined bits that differ decide the result, and without
    them a single undefined bit makes it undefined. *)
Lemma eq_loop_none x y x' y' m m' :
  approxs x x' -> approxs y y' -> eq_loop x y m = None -> eq_loop x' y' m' = None.
Proof.
  intros Hx. revert y y' m m'. induction Hx as [|a a' x x' Ha Hx IH]; intros y y' m m' Hy E.
  - by destruct y.
  - inversion Hy as [|b b' y0 y0' Hb Hy0]; subst; [done|]. cbn [eq_loop] in *.
    destruct (State_eqb a S0 && State_eqb b S1) eqn:E1.
    { destruct a, b; try done. by rewrite Ha, Hb. }
    destruct (State_eqb a S1 && State_eqb b S0) eqn:E2.
    { destruct a, b; try done. by rewrite Ha, Hb. }
    do 2 (match goal with |- context [if ?c then None else _] => destruct c; [done|] end).
    by eapply IH.
Qed.

Lemma eq_loop_Sx x y : eq_loop x y Sx = Some Sx \/ eq_loop x y Sx = None.
Proof.
  revert y. induction x as [|a x IH]; intros [|b y]; cbn; try (by left).
  do 2 (case_match; [by right|]). case_match; apply IH.
Qed.

Lemma eq_loop_S1 x y :
  length x = length y ->
  eq_loop x y S1 = None \/ eq_loop x y S1 = Some Sx \/
  (eq_loop x y S1 = Some S1 /\ has_undef x = false /\ has_undef y = false).
Proof.
  revert y. induction x as [|a x IH]; intros [|b y] Hl; try done; [by right; right|].
  injection Hl as Hl. cbn [eq_loop]. do 2 (case_match; [by left|]).
  destruct ((1 <? State_num a) || (1 <? State_num b)) eqn:E.
  - destruct (eq_loop_Sx x y) as [-> | ->]; [by right; left|by left].
  - destruct (IH y Hl) as [->|[->|(-> & Hx & Hy)]]; [by left|by right; left|right; right].
    unfold has_undef in *. cbn [forallb]. rewrite negb_false_iff in *. rewrite Hx, Hy.
    by destruct a, b.
Qed.

Lemma bv_state_length b w l : bv_state b w = Some l -> length l = Z.to_nat w /\ l = replicate (Z.to_nat w) b.
Proof.
  unfold bv_state. case_match; [done|]. intros [= <-]. by rewrite length_replicate.
Qed.

Lemma bv_set_approx l i s t l' :
  approx s t -> bv_set l i s = Some l' -> exists l'', bv_set l i t = Some l'' /\ approxs l' l''.
Proof.
  intros H. unfold bv_set. case_match; [|done]. intros [= <-]. eexists. split; [done|].
  by apply Forall2_insert; [apply approxs_refl|].
Qed.

Lemma extend_u0_length x w sg x' : extend_u0 x w sg = Some x' -> length x' = Z.to_nat w.
Proof. unfold extend_u0, bv_resize. case_match; [done|]. intros [= <-]. apply vec_resize_length. Qed.

Lemma const_eq_sound s1 s2 r : x_sound (fun x y => const_eq x y s1 s2 r).
Proof.
  intros x y x' y' res Hx Hy. unfold const_eq. rewrite (max_size_approx _ _ _ _ Hx Hy).
  destruct (bv_state S0 r) as [z|] eqn:Ez; [|done]. cbn [mbind option_bind].
  set (w := Z.of_nat (max_size x y)).
  destruct (extend_u0 x w _) as [ex|] eqn:Ex; [|done].
  destruct (extend_u0_approx _ _ _ _ _ Hx Ex) as (ex' & -> & Hex). cbn [mbind option_bind].
  destruct (extend_u0 y w _) as [ey|] eqn:Ey; [|done].
  destruct (extend_u0_approx _ _ _ _ _ Hy Ey) as (ey' & -> & Hey). cbn [mbind option_bind].
  apply extend_u0_length in Ex, Ey.
  destruct (eq_loop_S1 ex ey) as [E|[E|(E & E1 & E2)]]; [congruence|..]; rewrite E.
  - rewrite (eq_loop_none _ _ _ _ _ S1 Hex Hey E). intros [= <-]. eexists. split; [done|apply approxs_refl].
  - intros H. apply bv_state_length in Ez as [Hz ->].
    destruct (eq_loop ex' ey' S1) as [t|].
    + by apply (bv_set_approx _ _ Sx t) in H; [|by apply approx_undef].
    + eexists. split; [done|]. unfold bv_set in H.
      destruct (Nat.ltb_spec 0 (length (replicate (Z.to_nat r) S0))) as [Hlt|]; [|done]. injection H as <-.
      apply Forall2_same_length_lookup. split; [by rewrite length_insert|]. intros i s t Hs Ht.
      destruct (decide (i = 0%nat)) as [->|].
      * rewrite list_lookup_insert_eq in Hs by lia. injection Hs as <-. by apply approx_undef.
      * rewrite list_lookup_insert_ne in Hs by done. by simplify_eq.
  - rewrite (approxs_defined _ _ Hex E1), (approxs_defined _ _ Hey E2), E. intros H.
    exists res. split; [done|apply approxs_refl].
Qed.

Lemma flip_front_approx x y : approxs x y -> approxs (flip_front x) (flip_front y).
Proof.
  destruct 1 as [|s t x y Hs H]; [constructor|]. constructor; [|done].
  destruct s, t; unfold approx in *; cbn in *; naive_solver.
Qed.

Lemma front_flipped_approx x y r :
  approxs x y -> front_flipped x = Some r -> exists r', front_flipped y = Some r' /\ approxs r r'.
Proof.
  intros H. unfold front_flipped. destruct H as [|s t x y Hs H]; [done|]. intros [= <-].
  eexists. split; [done|]. by apply (flip_front_approx (s :: x) (t :: y)); constructor.
Qed.

Lemma const_ne_sound s1 s2 r : x_sound (fun x y => const_ne x y s1 s2 r).
Proof.
  intros x y x' y' res Hx Hy. unfold const_ne.
  destruct (const_eq x y s1 s2 r) as [e|] eqn:E; [|done].
  destruct (const_eq_sound _ _ _ _ _ _ _ _ Hx Hy E) as (e' & -> & He). by apply front_flipped_approx.
Qed.

(** ** Shifts *)

Lemma mapM_approx (f g : nat -> option State) (l : list nat) res :
  (forall i s, f i = Some s -> exists t, g i = Some t /\ approx s t) ->
  mapM f l = Some res -> exists res', mapM g l = Some res' /\ approxs res res'.
Proof.
  intros H. revert res. induction l as [|i l IH]; intros res; cbn.
  - intros [= <-]. exists []. split; [done|constructor].
  - destruct (f i) as [s|] eqn:Ef; [|done]. destruct (H _ _ Ef) as (t & -> & Ht). cbn.
    destruct (mapM f l) as [rl|] eqn:El; [|done]. destruct (IH _ eq_refl) as (rl' & -> & Hr). cbn.
    intros [= <-]. eexists. split; [done|by constructor].
Qed.

Lemma mapM_total (g : nat -> option State) (l : list nat) res' :
  mapM g l = Some res' -> length res' = length l.
Proof. intros H. symmetry. by apply length_mapM in H. Qed.

(** A function of the first operand that reads its last bit. *)
Definition nonempty {A} (x : bvec) (o : option A) : option A := match x with [] => None | _ => o end.

Lemma nonempty_some {A} x (o : option A) a : nonempty x o = Some a -> x <> [] /\ o = Some a.
Proof. by destruct x. Qed.

(** The worker on an operand that is not empty when its last bit is read. *)
Lemma shift_worker_approx se s2 d r vac x y x' y' res :
  0 <= r -> (se = true -> x <> []) -> approxs x x' -> approxs y y' ->
  const_shift_worker x y se s2 d r vac = Some res ->
  exists res', const_shift_worker x' y' se s2 d r vac = Some res' /\ approxs res res'.
Proof.
  intros Hr Hne Hx Hy. unfold const_shift_worker.
  rewrite size_or_given, (size_or_given r (length x')), bv_state_spec by done.
  destruct (const2big_spec y s2 (-1)) as (u & -> & Hu & E); [lia|].
  destruct (const2big_spec y' s2 (-1)) as (u' & -> & Hu' & E'); [lia|].
  cbn [mbind option_bind]. rewrite E, E'. cbn [orb]. replace (0 <=? -1) with false by done. cbn [orb].
  rewrite length_replicate. pose proof (approxs_last _ _ Hx) as Hlast.
  assert (Htot : forall o, exists rl, mapM (fun i : nat =>
      if Z.of_nat i + o <? 0 then Some vac
      else if Z.of_nat (length x') <=? Z.of_nat i + o then (if se then last x' else Some vac)
      else x' !! Z.to_nat (Z.of_nat i + o))
      (seq 0 (Z.to_nat r)) = Some rl /\ length rl = Z.to_nat r).
  { intros o. destruct (mapM _ _) as [rl|] eqn:El.
    - exists rl. split; [done|]. apply mapM_total in El. by rewrite El, length_seq.
    - exfalso. apply mapM_None in El. apply Exists_exists in El as (i & _ & Hi).
      cbv beta in Hi. destruct (Z.ltb_spec (Z.of_nat i + o) 0); [done|].
      destruct (Z.leb_spec (Z.of_nat (length x')) (Z.of_nat i + o)).
      + destruct se; [|done]. apply last_None in Hi. subst. inversion Hx; subst. by destruct Hne.
      + apply lookup_ge_None_1 in Hi. lia. }
  destruct (has_undef y) eqn:Ey.
  - intros [= <-]. destruct (has_undef y') eqn:Ey'.
    + eexists. split; [done|]. apply approxs_refl.
    + destruct (Htot (big_val y' s2 * d)) as (rl & -> & Hl). exists rl. split; [done|].
      by apply approxs_Sx.
  - rewrite (approxs_defined _ _ Hy Ey), Ey, <- (approxs_length _ _ Hx). apply mapM_approx.
    intros i s. cbv zeta. destruct (_ <? 0); [intros [= <-]; eexists; split; [done|reflexivity]|].
    destruct (Z.of_nat (length x) <=? Z.of_nat i + big_val y s2 * d); [destruct se|].
    + intros Es. rewrite Es in Hlast. destruct (last x') as [t|]; [by exists t|done].
    + intros [= <-]; eexists; split; [done|reflexivity].
    + intros Hs. by destruct (Forall2_lookup_l _ _ _ _ _ Hx Hs) as (t & -> & ?); eexists.
Qed.

Lemma shift_worker_sound s2 d r vac : 0 <= r -> x_sound (fun x y => const_shift_worker x y false s2 d r vac).
Proof. intros Hr x y x' y' res. by apply shift_worker_approx. Qed.

Lemma signed_shift_sound se s2 d r vac : 0 <= r -> x_sound (fun x y => nonempty x (const_shift_worker x y se s2 d r vac)).
Proof.
  intros Hr x y x' y' res Hx Hy [Hne E]%nonempty_some.
  apply (shift_worker_approx _ _ _ _ _ _ _ x' y') in E as (res' & E & Ha); [|done..].
  exists res'. split; [|done]. destruct Hx; [done|exact E].
Qed.

Lemma const_shl_sound s1 r : 0 <= r -> x_sound (fun x y => const_shl x y s1 r).
Proof.
  intros Hr x y x' y' res Hx Hy. unfold const_shl.
  destruct (extend_u0 x r s1) as [ex|] eqn:Ex; [|done].
  destruct (extend_u0_approx _ _ _ _ _ Hx Ex) as (ex' & -> & Hex). cbn [mbind option_bind].
  by apply shift_worker_sound.
Qed.

Lemma const_shr_sound s1 r : 0 <= r -> x_sound (fun x y => const_shr x y s1 r).
Proof.
  intros Hr x y x' y' res Hx Hy. unfold const_shr. rewrite <- (approxs_length _ _ Hx).
  destruct (extend_u0 x _ s1) as [ex|] eqn:Ex; [|done].
  destruct (extend_u0_approx _ _ _ _ _ Hx Ex) as (ex' & -> & Hex). cbn [mbind option_bind].
  by apply shift_worker_sound.
Qed.

Lemma const_shift_sound s1 s2 r : 0 <= r -> x_sound (fun x y => const_shift x y s1 s2 r).
Proof.
  intros Hr x y x' y' res Hx Hy. unfold const_shift. rewrite <- (approxs_length _ _ Hx).
  destruct (extend_u0 x _ s1) as [ex|] eqn:Ex; [|done].
  destruct (extend_u0_approx _ _ _ _ _ Hx Ex) as (ex' & -> & Hex). cbn [mbind option_bind].
  by apply shift_worker_sound.
Qed.

(** ** Truth values *)

Lemma logic_operand_cases x sg :
  (logic_operand x sg = S1 /\ big_val x sg <> 0) \/
  (logic_operand x sg = Sx /\ big_val x sg = 0 /\ has_undef x = true) \/
  (logic_operand x sg = S0 /\ big_val x sg = 0 /\ has_undef x = false).
Proof.
  unfold logic_operand. destruct (const2big_spec x sg (-1)) as (u & -> & Hu & E); [lia|].
  rewrite E. replace (0 <=? -1) with false by done. cbn [orb].
  destruct (Z.eqb_spec (big_val x sg) 0); [|by left].
  destruct (has_undef x); [by right; left|by right; right].
Qed.

(** A vector reads as 0 exactly when none of its bits is [S1]. *)
Lemma bits_val_zero l : bits_val l = 0 <-> Forall (fun b => b = false) l.
Proof.
  induction l as [|b l IH]; [split; done|]. cbn [bits_val]. pose proof (bits_val_bound l).
  rewrite Forall_cons, <- IH. destruct b; simpl Z.b2z; split; intros; try lia; naive_solver lia.
Qed.

Lemma big_val_zero x sg : big_val x sg = 0 <-> Forall (fun s => s <> S1) x.
Proof.
  unfold big_val. destruct (sg && _) eqn:E.
  - apply andb_true_iff in E as [_ E%bool_decide_eq_true].
    pose proof (bits_val_bound (State_eqb S0 <$> take (length x - 1) x)). split; [lia|].
    intros HF. apply last_Some_elem_of in E. rewrite Forall_forall in HF. by destruct (HF _ E).
  - unfold s1_bits. rewrite bits_val_zero, Forall_fmap. apply Forall_iff. intros [] ; cbn; naive_solver.
Qed.

Lemma big_val_zero_back x x' sg : approxs x x' -> big_val x sg <> 0 -> big_val x' sg <> 0.
Proof.
  intros H Hn Hz. apply Hn. apply big_val_zero. apply big_val_zero in Hz. clear Hn.
  induction H as [|s t x x' Hst H IH]; [done|].
  apply Forall_cons in Hz as [Ht Hz]. constructor; [|by apply IH].
  intros ->. by rewrite Hst in Ht.
Qed.

Lemma logic_operand_approx x x' sg : approxs x x' -> approx (logic_operand x sg) (logic_operand x' sg).
Proof.
  intros H. destruct (logic_operand_cases x sg) as [[-> E]|[(-> & _)|(-> & E & Eu)]].
  - intros _. destruct (logic_operand_cases x' sg) as [[-> _]|[(_ & E' & _)|(_ & E' & _)]]; [done|..];
      by destruct (big_val_zero_back _ _ sg H E).
  - by apply approx_undef.
  - rewrite (approxs_defined _ _ H Eu).
    destruct (logic_operand_cases x sg) as [[_ ?]|[(_ & _ & ?)|(-> & _)]]; [done|congruence|reflexivity].
Qed.

Lemma logic_op_sound lf s1 s2 r :
  monotone2 lf ->
  x_sound (fun x y => Some (widen [lf (logic_operand x s1) (logic_operand y s2)] r)).
Proof.
  intros Hm x y x' y' res Hx Hy [= <-]. eexists. split; [done|].
  apply widen_approx, Hm; by apply logic_operand_approx.
Qed.

Lemma fold_mono lf x x' i i' :
  monotone2 lf -> approx i i' -> approxs x x' -> approx (fold_left lf x i) (fold_left lf x' i').
Proof.
  intros Hm Hi Hx. revert i i' Hi. induction Hx; intros; cbn; [done|]. by apply IHHx, Hm.
Qed.

Lemma logic_reduce_approx lf i x x' r :
  monotone2 lf -> approxs x x' ->
  approxs (logic_reduce_wrapper i lf x r) (logic_reduce_wrapper i lf x' r).
Proof. intros Hm Hx. apply widen_approx. by apply fold_mono. Qed.

(** ** Operators of one and of three operands *)

Definition x_sound1 (f : bvec -> option bvec) : Prop :=
  forall x x' r, approxs x x' -> f x = Some r -> exists r', f x' = Some r' /\ approxs r r'.

Definition x_sound3 (f : bvec -> bvec -> bvec -> option bvec) : Prop :=
  forall x y z x' y' z' r, approxs x x' -> approxs y y' -> approxs z z' -> f x y z = Some r ->
  exists r', f x' y' z' = Some r' /\ approxs r r'.

(** A total operator. *)
Lemma x_sound1_total (f : bvec -> bvec) :
  (forall x x', approxs x x' -> approxs (f x) (f x')) -> x_sound1 (fun x => Some (f x)).
Proof. intros H x x' r Hx [= <-]. eexists. split; [done|]. by apply H. Qed.

Lemma const_not_sound s1 r : x_sound1 (fun x => const_not x s1 r).
Proof.
  intros x x' res Hx. unfold const_not. rewrite <- (approxs_length _ _ Hx). set (w := size_or r (length x)).
  destruct (extend_u0 x w s1) as [ex|] eqn:Ex; [|done].
  destruct (extend_u0_approx _ _ _ _ _ Hx Ex) as (ex' & -> & Hex). cbn [mbind option_bind].
  destruct (bv_state Sx w); [|done]. cbn [mbind option_bind]. intros [= <-].
  eexists. split; [done|]. apply Forall2_fmap_seq. intros i _. destruct (ex !! i) as [s|] eqn:E.
  - destruct (Forall2_lookup_l _ _ _ _ _ Hex E) as (t & -> & ?). by apply state_not_mono.
  - apply lookup_ge_None_1 in E. rewrite (approxs_length _ _ Hex) in E. by rewrite lookup_ge_None_2.
Qed.

Lemma const_pos_sound s1 r : x_sound1 (fun x => const_pos x s1 r).
Proof. intros x x' res Hx. by apply extend_u0_approx. Qed.

Lemma const_neg_sound s1 r : x_sound1 (fun x => const_neg x s1 r).
Proof. intros x x' res Hx. apply arith_wrapper_sound; [apply approxs_refl|done]. Qed.

Lemma const_logic_not_operand x sg r : const_logic_not x sg r = widen [state_not (logic_operand x sg)] r.
Proof. unfold const_logic_not, logic_operand. destruct (const2big x sg (-1)) as [a u]. by destruct (a =? 0), (0 <=? u). Qed.

Lemma const_mux_sound : x_sound3 const_mux.
Proof.
  intros x y z x' y' z' r Hx Hy Hz. unfold const_mux.
  rewrite <- (approxs_length _ _ Hx), <- (approxs_length _ _ Hy). destruct (_ =? _)%nat eqn:El; [|done].
  destruct Hz as [|s s' z z' Hs Hz]; [done|]. cbn [lookup list_lookup mbind option_bind]. intros [= <-].
  eexists. split; [done|]. destruct (is_01 s) eqn:E01.
  - rewrite (Hs E01). destruct (State_eqb s S0) eqn:E0; [done|]. destruct (State_eqb s S1) eqn:E1; [done|].
    destruct s; discriminate.
  - apply Nat.eqb_eq in El. replace (State_eqb s S0) with false by (by destruct s). replace (State_eqb s S1) with false by (by destruct s).
    clear Hs Hz E01. revert y y' Hy El. induction Hx as [|p p' x x' Hp Hx IH]; intros y y' Hy El.
    { destruct Hy; [|done]. repeat case_match; constructor. }
    destruct Hy as [|q q' y y' Hq Hy]; [done|]. injection El as El. specialize (IH y y' Hy El). cbn [zip_with].
    assert (Hh : forall t, t = p' \/ t = q' \/ (p' = q' /\ t = p') \/ t = Sx /\ p' <> q' -> approx (if negb (State_eqb p q) then Sx else p) t).
    { intros t Ht. destruct (State_eqb p q) eqn:Epq; [|by apply approx_undef]. cbn [negb]. intros H01.
      apply bool_decide_eq_true in Epq as <-. pose proof (Hp H01). pose proof (Hq H01). naive_solver. }
    destruct (State_eqb s' S0); [constructor; [apply Hh; auto|exact IH]|].
    destruct (State_eqb s' S1); [constructor; [apply Hh; auto|exact IH]|].
    constructor; [|exact IH]. apply Hh. destruct (State_eqb p' q') eqn:E; cbn [negb]; [by left|].
    right. right. right. split; [done|]. intros ->. unfold State_eqb in E. by rewrite bool_decide_true in E.
Qed.

(** ** The soundness theorem *)

(** C9: with a given result width the following operators are sound for undefined
    inputs: a defined bit of the result is the bit that every choice of the
    undefined operand bits gives.  Of one operand: [not], [pos], [buf], [neg], the
    five reductions and [logic_not]; of two operands: the bitwise, arithmetic,
    division, shift and logical operators and the comparisons but [eqx] and [nex]
    (the arithmetic shifts for a first operand that is not empty, as they read its
    last bit); of three operands: [mux].  [pow] is not sound, see
    [const_pow_not_x_sound]; [eqx], [nex] and [bweqx] compare undefined bits as such;
    the wide multiplexers are not covered. *)
Theorem operators_x_sound s1 s2 r :
  0 <= r ->
  Forall x_sound1
    [fun x => const_not x s1 r; fun x => const_pos x s1 r; fun x => const_buf x s1 r; fun x => const_neg x s1 r;
     fun x => Some (const_reduce_and x r); fun x => Some (const_reduce_or x r); fun x => Some (const_reduce_xor x r);
     fun x => Some (const_reduce_xnor x r); fun x => Some (const_reduce_bool x r); fun x => Some (const_logic_not x s1 r)] /\
  Forall x_sound
    [fun x y => const_and x y s1 s2 r; fun x y => const_or x y s1 s2 r;
     fun x y => const_xor x y s1 s2 r; fun x y => const_xnor x y s1 s2 r;
     fun x y => const_add x y s1 s2 r; fun x y => const_sub x y s1 s2 r;
     fun x y => const_mul x y s1 s2 r; fun x y => const_div x y s1 s2 r;
     fun x y => const_mod x y s1 s2 r; fun x y => const_divfloor x y s1 s2 r;
     fun x y => const_modfloor x y s1 s2 r; fun x y => const_shl x y s1 r;
     fun x y => const_shr x y s1 r; fun x y => nonempty x (const_sshl x y s1 r);
     fun x y => nonempty x (const_sshr x y s1 r); fun x y => const_shift x y s1 s2 r;
     fun x y => const_shiftx x y s2 r; fun x y => const_eq x y s1 s2 r;
     fun x y => const_ne x y s1 s2 r; fun x y => Some (const_lt x y s1 s2 r);
     fun x y => Some (const_le x y s1 s2 r); fun x y => Some (const_ge x y s1 s2 r);
     fun x y => Some (const_gt x y s1 s2 r); fun x y => Some (const_logic_and x y s1 s2 r);
     fun x y => Some (const_logic_or x y s1 s2 r)] /\
  x_sound3 const_mux.
Proof.
  intros Hr. split_and!; [repeat constructor..|apply const_mux_sound].
  all: first [apply const_not_sound|apply const_pos_sound|apply const_neg_sound
             |by apply logic_wrapper_sound|by apply arith_wrapper_sound|by apply const_mul_sound
             |by apply div_wrapper_sound|by apply const_shl_sound|by apply const_shr_sound|by apply const_shift_sound
             |by apply signed_shift_sound|by apply shift_worker_sound
             |by apply const_eq_sound|by apply const_ne_sound|by apply cmp_wrapper_sound
             |by apply logic_op_sound|apply x_sound1_total; intros x x' Hx].
  all: try (by apply logic_reduce_approx).
  - by apply flip_front_approx, logic_reduce_approx.
  - rewrite !const_logic_not_operand. by apply widen_approx, state_not_mono, logic_operand_approx.
Qed.

(** [4'b1x0x & 4'b0011] is [4'b000x], whatever the undefined bits are. *)
Lemma operators_x_sound_witness :
  exists r', const_and [S1; S0; S0; S1] [S1; S1; S0; S0] false false 4 = Some r' /\
             approxs [Sx; S0; S0; S0] r'.
Proof.
  destruct (operators_x_sound false false 4 ltac:(lia)) as (_ & H & _).
  rewrite Forall_forall in H.
  refine (H (fun x y => const_and x y false false 4) _ [Sx; S0; Sx; S1] [S1; S1; S0; S0] _ _ _ _ _ _).
  - by left.
  - repeat (constructor; [first [by apply approx_undef|reflexivity]|]); constructor.
  - apply approxs_refl.
  - reflexivity.
Defined.

(** An odd base has odd powers. *)
Lemma const_pow_odd bl y s1 s2 r :
  1 <= r -> has_undef y = false -> 0 < big_val y s2 ->
  exists res, const_pow (dbv (true :: bl)) y s1 s2 r = Some res /\ res !! 0%nat = Some S1.
Proof.
  intros Hr Hy Hb. assert (Hd : y = dbv (s1_bits y)) by (apply fully_def_bools; by apply negb_false_iff in Hy).
  rewrite Hd, big_val_dbv in Hb. rewrite Hd, const_pow_dbv by lia. set (a := bits_value (true :: bl) s1). set (b := bits_value _ s2) in *.
  assert (Ho : Z.odd a = true) by (rewrite <- Z.bit0_odd; exact (bits_value_testbit (true :: bl) s1 0)).
  assert (Hz : (a =? 0) = false) by (apply Z.eqb_neq; intros E; by rewrite E in Ho). rewrite Hz. cbn [andb].
  eexists. split; [done|]. rewrite list_lookup_fmap, Z_bits_lookup by lia. unfold pow_value.
  destruct (Z.ltb_spec b 0); [lia|]. by rewrite Z.bit0_odd, Z.odd_pow, Ho.
Qed.

(** C40: [const_pow] takes every base without a defined 1 for the number 0, undefined
    bits or not: to a positive defined power it returns 0, as for the base 0.  So it
    is not sound for undefined inputs: a base that has bit 1 for its undefined
    bit 0 has odd powers, and bit 0 of their result is 1, not 0. *)
Theorem const_pow_not_x_sound x y s1 s2 r :
  1 <= r -> Forall (fun s => s <> S1) x -> has_undef y = false -> 0 < big_val y s2 ->
  const_pow x y s1 s2 r = Some (replicate (Z.to_nat r) S0) /\
  const_pow x y s1 s2 r = const_pow (replicate (length x) S0) y s1 s2 r /\
  (forall s t, x = s :: t -> is_01 s = false ->
     exists x' res, approxs x x' /\ has_undef x' = false /\
       const_pow x' y s1 s2 r = Some res /\ res !! 0%nat = Some S1 /\ ~ approxs (replicate (Z.to_nat r) S0) res) /\
  (forall s t, x = s :: t -> is_01 s = false -> ~ x_sound (fun x y => const_pow x y s1 s2 r)).
Proof.
  intros Hr Hx Hy Hb.
  assert (Hzero : forall z, Forall (fun s => s <> S1) z -> const_pow z y s1 s2 r = Some (replicate (Z.to_nat r) S0)).
  { intros z Hz. apply (big_val_zero z s1) in Hz. rewrite const_pow_spec. cbv zeta. rewrite Hz.
    destruct (Z.ltb_spec (big_val y s2) 0), (Z.ltb_spec 0 (big_val y s2)); try lia. cbn [Z.eqb andb].
    apply bv_state_spec. lia. }
  rewrite !Hzero by (done || (apply Forall_replicate; done)).
  assert (Hodd : forall s t, x = s :: t -> is_01 s = false ->
     exists x' res, approxs x x' /\ has_undef x' = false /\
       const_pow x' y s1 s2 r = Some res /\ res !! 0%nat = Some S1 /\ ~ approxs (replicate (Z.to_nat r) S0) res).
  { intros s t -> Hs. destruct (const_pow_odd (s1_bits t) y s1 s2 r Hr Hy Hb) as (res & E & H0).
    exists (dbv (true :: s1_bits t)), res. split_and!; [|apply has_undef_dbv|done|done|].
    - constructor; [by apply approx_undef|]. apply Forall_cons in Hx as [_ Hx]. clear -Hx.
      induction t as [|u t IH]; [constructor|]. apply Forall_cons in Hx as [Hu Hx]. constructor; [|by apply IH].
      destruct u; try (by apply approx_undef); done.
    - intros Ha. destruct (Forall2_lookup_r _ _ _ _ _ Ha H0) as (s0 & Hs0 & Hap).
      apply lookup_replicate in Hs0 as [-> _]. by specialize (Hap eq_refl). }
  split_and!; [done|done|exact Hodd|]. intros s t Ex Hs Hsound. destruct (Hodd s t Ex Hs) as (x' & res & Ha & _ & E & _ & Hn).
  destruct (Hsound x y x' y _ Ha (approxs_refl y) (Hzero x Hx)) as (res' & E' & Ha'). rewrite E in E'. by injection E' as <-.
Qed.

(** [2'b0x ** 2'b11]: 0, although [2'b01 ** 2'b11] is 1. *)
Lemma const_pow_not_x_sound_witness :
  const_pow [Sx; S0] [S1; S1] false false 2 = Some [S0; S0] /\
  ~ x_sound (fun x y => const_pow x y false false 2).
Proof.
  destruct (const_pow_not_x_sound [Sx; S0] [S1; S1] false false 2 ltac:(lia) ltac:(by repeat constructor) eq_refl ltac:(by vm_compute))
    as (H1 & _ & _ & H2).
  split; [exact H1|exact (H2 Sx [S0] eq_refl eq_refl)].
Defined.
