(* ===== verification/CellTable.v ===== *)
(** * The cell type table ([kernel/celltypes.h], [struct CellTypes])

    The registry of the internal cell types with their ports and the flag
    [is_evaluable], filled by the [setup_*] methods.  [RTLIL::IdString] is the
    string it interns, a [pool] of port names a finite set, the dictionary
    [cell_types] a finite map; every operation returns the new map. *)

From S2P Require Import Prelude.

Local Open Scope string_scope.

Record CellType := mkCellType {
  ct_type : string;
  inputs : gset string;
  outputs : gset string;
  is_evaluable : bool;
  is_combinatorial : bool;
  is_synthesizable : bool
}.

Abbreviation cell_map := (gmap string CellType).

(** [setup_type] with its last two arguments at their defaults, as every call
    in the file leaves them. *)
Definition setup_type (type : string) (inputs outputs : list string) (is_evaluable : bool)
    (m : cell_map) : cell_map :=
  <[type := mkCellType type (list_to_set inputs) (list_to_set outputs) is_evaluable false false]> m.

(** [for (auto x : l) f(x)] on the map. *)
Definition for_each (l : list string) (f : string -> cell_map -> cell_map) (m : cell_map) : cell_map :=
  fold_left (fun m x => f x m) l m.

(** The port list of a module: name, [port_input], [port_output]. *)
Record Module_ := mkModule { m_name : string; m_ports : list (string * bool * bool) }.

Definition setup_module (md : Module_) (m : cell_map) : cell_map :=
  setup_type (m_name md)
    ((fun p => fst (fst p)) <$> filter (fun p => snd (fst p) = true) (m_ports md))
    ((fun p => fst (fst p)) <$> filter (fun p => snd p = true) (m_ports md)) false m.

Definition setup_design (design : list Module_) (m : cell_map) : cell_map :=
  fold_left (fun m md => setup_module md m) design m.

Definition unary_ops : list string :=
  ["$not"; "$pos"; "$buf"; "$neg"; "$reduce_and"; "$reduce_or"; "$reduce_xor"; "$reduce_xnor";
   "$reduce_bool"; "$logic_not"; "$slice"; "$lut"; "$sop"].

Definition binary_ops : list string :=
  ["$and"; "$or"; "$xor"; "$xnor"; "$shl"; "$shr"; "$sshl"; "$sshr";
   "$shift"; "$shiftx"; "$lt"; "$le"; "$eq"; "$ne"; "$eqx"; "$nex";
   "$ge"; "$gt"; "$add"; "$sub"; "$mul"; "$div"; "$mod"; "$divfloor";
   "$modfloor"; "$pow"; "$logic_and"; "$logic_or"; "$concat"; "$macc"; "$bweqx"].

Definition list_np : list string := ["N"; "P"].
Definition list_01 : list string := ["0"; "1"].

Definition setup_internals_eval (m : cell_map) : cell_map :=
  let m := for_each unary_ops (fun type m => setup_type type ["A"] ["Y"] true m) m in
  let m := for_each binary_ops (fun type m => setup_type type ["A"; "B"] ["Y"] true m) m in
  let m := for_each ["$mux"; "$pmux"; "$bwmux"]
             (fun type m => setup_type type ["A"; "B"; "S"] ["Y"] true m) m in
  let m := for_each ["$bmux"; "$demux"] (fun type m => setup_type type ["A"; "S"] ["Y"] true m) m in
  let m := setup_type "$lcu" ["P"; "G"; "CI"] ["CO"] true m in
  let m := setup_type "$alu" ["A"; "B"; "CI"; "BI"] ["X"; "Y"; "CO"] true m in
  let m := setup_type "$macc_v2" ["A"; "B"; "C"] ["Y"] true m in
  let m := setup_type "$fa" ["A"; "B"; "C"] ["X"; "Y"] true m in
  m.

Definition setup_internals (m : cell_map) : cell_map :=
  let m := setup_internals_eval m in
  let m := setup_type "$tribuf" ["A"; "EN"] ["Y"] true m in
  let m := setup_type "$assert" ["A"; "EN"] [] true m in
  let m := setup_type "$assume" ["A"; "EN"] [] true m in
  let m := setup_type "$live" ["A"; "EN"] [] true m in
  let m := setup_type "$fair" ["A"; "EN"] [] true m in
  let m := setup_type "$cover" ["A"; "EN"] [] true m in
  let m := setup_type "$initstate" [] ["Y"] true m in
  let m := setup_type "$anyconst" [] ["Y"] true m in
  let m := setup_type "$anyseq" [] ["Y"] true m in
  let m := setup_type "$allconst" [] ["Y"] true m in
  let m := setup_type "$allseq" [] ["Y"] true m in
  let m := setup_type "$equiv" ["A"; "B"] ["Y"] true m in
  let m := setup_type "$specify2" ["EN"; "SRC"; "DST"] [] true m in
  let m := setup_type "$specify3" ["EN"; "SRC"; "DST"; "DAT"] [] true m in
  let m := setup_type "$specrule" ["EN_SRC"; "EN_DST"; "SRC"; "DST"] [] true m in
  let m := setup_type "$print" ["EN"; "ARGS"; "TRG"] [] false m in
  let m := setup_type "$check" ["A"; "EN"; "ARGS"; "TRG"] [] false m in
  let m := setup_type "$set_tag" ["A"; "SET"; "CLR"] ["Y"] false m in
  let m := setup_type "$get_tag" ["A"] ["Y"] false m in
  let m := setup_type "$overwrite_tag" ["A"; "SET"; "CLR"] [] false m in
  let m := setup_type "$original_tag" ["A"] ["Y"] false m in
  let m := setup_type "$future_ff" ["A"] ["Y"] false m in
  let m := setup_type "$scopeinfo" [] [] false m in
  let m := setup_type "$input_port" [] ["Y"] false m in
  let m := setup_type "$connect" ["A"; "B"] [] false m in
  m.

Definition setup_internals_ff (m : cell_map) : cell_map :=
  let m := setup_type "$sr" ["SET"; "CLR"] ["Q"] false m in
  let m := setup_type "$ff" ["D"] ["Q"] false m in
  let m := setup_type "$dff" ["CLK"; "D"] ["Q"] false m in
  let m := setup_type "$dffe" ["CLK"; "EN"; "D"] ["Q"] false m in
  let m := setup_type "$dffsr" ["CLK"; "SET"; "CLR"; "D"] ["Q"] false m in
  let m := setup_type "$dffsre" ["CLK"; "SET"; "CLR"; "D"; "EN"] ["Q"] false m in
  let m := setup_type "$adff" ["CLK"; "ARST"; "D"] ["Q"] false m in
  let m := setup_type "$adffe" ["CLK"; "ARST"; "D"; "EN"] ["Q"] false m in
  let m := setup_type "$aldff" ["CLK"; "ALOAD"; "AD"; "D"] ["Q"] false m in
  let m := setup_type "$aldffe" ["CLK"; "ALOAD"; "AD"; "D"; "EN"] ["Q"] false m in
  let m := setup_type "$sdff" ["CLK"; "SRST"; "D"] ["Q"] false m in
  let m := setup_type "$sdffe" ["CLK"; "SRST"; "D"; "EN"] ["Q"] false m in
  let m := setup_type "$sdffce" ["CLK"; "SRST"; "D"; "EN"] ["Q"] false m in
  let m := setup_type "$dlatch" ["EN"; "D"] ["Q"] false m in
  let m := setup_type "$adlatch" ["EN"; "D"; "ARST"] ["Q"] false m in
  let m := setup_type "$dlatchsr" ["EN"; "SET"; "CLR"; "D"] ["Q"] false m in
  m.

Definition setup_internals_anyinit (m : cell_map) : cell_map :=
  let m := setup_type "$anyinit" ["D"] ["Q"] false m in
  m.

Definition setup_internals_mem (m : cell_map) : cell_map :=
  let m := setup_internals_ff m in
  let m := setup_type "$memrd" ["CLK"; "EN"; "ADDR"] ["DATA"] false m in
  let m := setup_type "$memrd_v2" ["CLK"; "EN"; "ARST"; "SRST"; "ADDR"] ["DATA"] false m in
  let m := setup_type "$memwr" ["CLK"; "EN"; "ADDR"; "DATA"] [] false m in
  let m := setup_type "$memwr_v2" ["CLK"; "EN"; "ADDR"; "DATA"] [] false m in
  let m := setup_type "$meminit" ["ADDR"; "DATA"] [] false m in
  let m := setup_type "$meminit_v2" ["ADDR"; "DATA"; "EN"] [] false m in
  let m := setup_type "$mem" ["RD_CLK"; "RD_EN"; "RD_ADDR"; "WR_CLK"; "WR_EN"; "WR_ADDR"; "WR_DATA"] ["RD_DATA"] false m in
  let m := setup_type "$mem_v2" ["RD_CLK"; "RD_EN"; "RD_ARST"; "RD_SRST"; "RD_ADDR"; "WR_CLK"; "WR_EN"; "WR_ADDR"; "WR_DATA"] ["RD_DATA"] false m in
  let m := setup_type "$fsm" ["CLK"; "ARST"; "CTRL_IN"] ["CTRL_OUT"] false m in
  m.

Definition setup_stdcells_eval (m : cell_map) : cell_map :=
  let m := setup_type "$_BUF_" ["A"] ["Y"] true m in
  let m := setup_type "$_NOT_" ["A"] ["Y"] true m in
  let m := setup_type "$_AND_" ["A"; "B"] ["Y"] true m in
  let m := setup_type "$_NAND_" ["A"; "B"] ["Y"] true m in
  let m := setup_type "$_OR_" ["A"; "B"] ["Y"] true m in
  let m := setup_type "$_NOR_" ["A"; "B"] ["Y"] true m in
  let m := setup_type "$_XOR_" ["A"; "B"] ["Y"] true m in
  let m := setup_type "$_XNOR_" ["A"; "B"] ["Y"] true m in
  let m := setup_type "$_ANDNOT_" ["A"; "B"] ["Y"] true m in
  let m := setup_type "$_ORNOT_" ["A"; "B"] ["Y"] true m in
  let m := setup_type "$_MUX_" ["A"; "B"; "S"] ["Y"] true m in
  let m := setup_type "$_NMUX_" ["A"; "B"; "S"] ["Y"] true m in
  let m := setup_type "$_MUX4_" ["A"; "B"; "C"; "D"; "S"; "T"] ["Y"] true m in
  let m := setup_type "$_MUX8_" ["A"; "B"; "C"; "D"; "E"; "F"; "G"; "H"; "S"; "T"; "U"] ["Y"] true m in
  let m := setup_type "$_MUX16_" ["A"; "B"; "C"; "D"; "E"; "F"; "G"; "H"; "I"; "J"; "K"; "L"; "M"; "N"; "O"; "P"; "S"; "T"; "U"; "V"] ["Y"] true m in
  let m := setup_type "$_AOI3_" ["A"; "B"; "C"] ["Y"] true m in
  let m := setup_type "$_OAI3_" ["A"; "B"; "C"] ["Y"] true m in
  let m := setup_type "$_AOI4_" ["A"; "B"; "C"; "D"] ["Y"] true m in
  let m := setup_type "$_OAI4_" ["A"; "B"; "C"; "D"] ["Y"] true m in
  m.

Definition setup_stdcells (m : cell_map) : cell_map :=
  let m := setup_stdcells_eval m in
  let m := setup_type "$_TBUF_" ["A"; "E"] ["Y"] true m in
  m.

Definition setup_stdcells_mem (m : cell_map) : cell_map :=
  let m := for_each list_np (fun c1 m => for_each list_np (fun c2 m =>
             setup_type ("$_SR_" +:+ c1 +:+ c2 +:+ "_") ["S"; "R"] ["Q"] false m) m) m in
  let m := setup_type "$_FF_" ["D"] ["Q"] false m in
  let m := for_each list_np (fun c1 m =>
             setup_type ("$_DFF_" +:+ c1 +:+ "_") ["C"; "D"] ["Q"] false m) m in
  let m := for_each list_np (fun c1 m => for_each list_np (fun c2 m =>
             setup_type ("$_DFFE_" +:+ c1 +:+ c2 +:+ "_") ["C"; "D"; "E"] ["Q"] false m) m) m in
  let m := for_each list_np (fun c1 m => for_each list_np (fun c2 m => for_each list_01 (fun c3 m =>
             setup_type ("$_DFF_" +:+ c1 +:+ c2 +:+ c3 +:+ "_") ["C"; "R"; "D"] ["Q"] false m) m) m) m in
  let m := for_each list_np (fun c1 m => for_each list_np (fun c2 m => for_each list_01 (fun c3 m => for_each list_np (fun c4 m =>
             setup_type ("$_DFFE_" +:+ c1 +:+ c2 +:+ c3 +:+ c4 +:+ "_") ["C"; "R"; "D"; "E"] ["Q"] false m) m) m) m) m in
  let m := for_each list_np (fun c1 m => for_each list_np (fun c2 m =>
             setup_type ("$_ALDFF_" +:+ c1 +:+ c2 +:+ "_") ["C"; "L"; "AD"; "D"] ["Q"] false m) m) m in
  let m := for_each list_np (fun c1 m => for_each list_np (fun c2 m => for_each list_np (fun c3 m =>
             setup_type ("$_ALDFFE_" +:+ c1 +:+ c2 +:+ c3 +:+ "_") ["C"; "L"; "AD"; "D"; "E"] ["Q"] false m) m) m) m in
  let m := for_each list_np (fun c1 m => for_each list_np (fun c2 m => for_each list_np (fun c3 m =>
             setup_type ("$_DFFSR_" +:+ c1 +:+ c2 +:+ c3 +:+ "_") ["C"; "S"; "R"; "D"] ["Q"] false m) m) m) m in
  let m := for_each list_np (fun c1 m => for_each list_np (fun c2 m => for_each list_np (fun c3 m => for_each list_np (fun c4 m =>
             setup_type ("$_DFFSRE_" +:+ c1 +:+ c2 +:+ c3 +:+ c4 +:+ "_") ["C"; "S"; "R"; "D"; "E"] ["Q"] false m) m) m) m) m in
  let m := for_each list_np (fun c1 m => for_each list_np (fun c2 m => for_each list_01 (fun c3 m =>
             setup_type ("$_SDFF_" +:+ c1 +:+ c2 +:+ c3 +:+ "_") ["C"; "R"; "D"] ["Q"] false m) m) m) m in
  let m := for_each list_np (fun c1 m => for_each list_np (fun c2 m => for_each list_01 (fun c3 m => for_each list_np (fun c4 m =>
             setup_type ("$_SDFFE_" +:+ c1 +:+ c2 +:+ c3 +:+ c4 +:+ "_") ["C"; "R"; "D"; "E"] ["Q"] false m) m) m) m) m in
  let m := for_each list_np (fun c1 m => for_each list_np (fun c2 m => for_each list_01 (fun c3 m => for_each list_np (fun c4 m =>
             setup_type ("$_SDFFCE_" +:+ c1 +:+ c2 +:+ c3 +:+ c4 +:+ "_") ["C"; "R"; "D"; "E"] ["Q"] false m) m) m) m) m in
  let m := for_each list_np (fun c1 m =>
             setup_type ("$_DLATCH_" +:+ c1 +:+ "_") ["E"; "D"] ["Q"] false m) m in
  let m := for_each list_np (fun c1 m => for_each list_np (fun c2 m => for_each list_01 (fun c3 m =>
             setup_type ("$_DLATCH_" +:+ c1 +:+ c2 +:+ c3 +:+ "_") ["E"; "R"; "D"] ["Q"] false m) m) m) m in
  let m := for_each list_np (fun c1 m => for_each list_np (fun c2 m => for_each list_np (fun c3 m =>
             setup_type ("$_DLATCHSR_" +:+ c1 +:+ c2 +:+ c3 +:+ "_") ["E"; "S"; "R"; "D"] ["Q"] false m) m) m) m in
  m.

(** [setup(design)]: [None] stands for the null design. *)
Definition setup (design : option (list Module_)) (m : cell_map) : cell_map :=
  let m := match design with Some d => setup_design d m | None => m end in
  let m := setup_internals m in
  let m := setup_internals_mem m in
  let m := setup_internals_anyinit m in
  let m := setup_stdcells m in
  setup_stdcells_mem m.

Definition cell_known (m : cell_map) (type : string) : bool :=
  match m !! type with Some _ => true | None => false end.

Definition cell_output (m : cell_map) (type port : string) : bool :=
  match m !! type with Some ct => bool_decide (port ∈ outputs ct) | None => false end.

Definition cell_input (m : cell_map) (type port : string) : bool :=
  match m !! type with Some ct => bool_decide (port ∈ inputs ct) | None => false end.

(** [RTLIL::PortDir]: unknown 0, input 1, output 2, inout 3. *)
Definition cell_port_dir (m : cell_map) (type port : string) : Z :=
  match m !! type with
  | None => 0
  | Some ct => Z.b2z (bool_decide (port ∈ inputs ct)) + Z.b2z (bool_decide (port ∈ outputs ct)) * 2
  end.

Definition cell_evaluable (m : cell_map) (type : string) : bool :=
  match m !! type with Some ct => is_evaluable ct | None => false end.
