(* ===== verification/CellEval.v ===== *)
(** * Evaluation of cells ([kernel/celltypes.h], [CellTypes::eval])

    The static [eval] overloads: by type and operands, and by cell with two,
    three or four operands.  The [errp] argument is a flag saying whether the
    caller passed a pointer: an unhandled type then reports an error, and
    aborts without it. *)

From S2P Require Import Prelude Const Calc CalcArith CalcLogic CalcX CalcMux CellTable.

Local Open Scope string_scope.
Local Open Scope list_scope.
Local Open Scope Z_scope.

(** What a call does: return a constant, set [*errp] (and return [Sm]), or
    throw, fail an assertion or abort. *)
Inductive outcome := Ret (c : bvec) | Err | Abort.

Definition ret (o : option bvec) : outcome :=
  match o with Some c => Ret c | None => Abort end.

Definition eval_not (v : bvec) : bvec :=
  (fun bit => if State_eqb bit S0 then S1 else if State_eqb bit S1 then S0 else bit) <$> v.

Definition in_types (type : string) (l : list string) : bool := existsb (String.eqb type) l.

(** The types whose operands keep their own signedness. *)
Definition keeps_signedness : list string :=
  ["$sshr"; "$sshl"; "$shr"; "$shl"; "$shift"; "$shiftx"; "$pos"; "$buf"; "$neg"; "$not"].

Definition normalise_type (type : string) (signed1 : bool) : string :=
  let type := if String.eqb type "$sshr" && negb signed1 then "$shr" else type in
  if String.eqb type "$sshl" && negb signed1 then "$shl" else type.

Definition eval (type : string) (arg1 arg2 : bvec) (signed1 signed2 : bool) (result_len : Z)
    (errp : bool) : outcome :=
  let type := normalise_type type signed1 in
  let both := signed1 && signed2 in
  let keep := in_types type keeps_signedness in
  let signed1 := if keep then signed1 else both in
  let signed2 := if keep then signed2 else both in
  let isa t := String.eqb type t in
  if isa "$not" then ret (const_not arg1 signed1 result_len)
  else if isa "$and" then ret (const_and arg1 arg2 signed1 signed2 result_len)
  else if isa "$or" then ret (const_or arg1 arg2 signed1 signed2 result_len)
  else if isa "$xor" then ret (const_xor arg1 arg2 signed1 signed2 result_len)
  else if isa "$xnor" then ret (const_xnor arg1 arg2 signed1 signed2 result_len)
  else if isa "$reduce_and" then Ret (const_reduce_and arg1 result_len)
  else if isa "$reduce_or" then Ret (const_reduce_or arg1 result_len)
  else if isa "$reduce_xor" then Ret (const_reduce_xor arg1 result_len)
  else if isa "$reduce_xnor" then Ret (const_reduce_xnor arg1 result_len)
  else if isa "$reduce_bool" then Ret (const_reduce_bool arg1 result_len)
  else if isa "$logic_not" then Ret (const_logic_not arg1 signed1 result_len)
  else if isa "$logic_and" then Ret (const_logic_and arg1 arg2 signed1 signed2 result_len)
  else if isa "$logic_or" then Ret (const_logic_or arg1 arg2 signed1 signed2 result_len)
  else if isa "$shl" then ret (const_shl arg1 arg2 signed1 result_len)
  else if isa "$shr" then ret (const_shr arg1 arg2 signed1 result_len)
  else if isa "$sshl" then ret (const_sshl arg1 arg2 signed1 result_len)
  else if isa "$sshr" then ret (const_sshr arg1 arg2 signed1 result_len)
  else if isa "$shift" then ret (const_shift arg1 arg2 signed1 signed2 result_len)
  else if isa "$shiftx" then ret (const_shiftx arg1 arg2 signed2 result_len)
  else if isa "$lt" then Ret (const_lt arg1 arg2 signed1 signed2 result_len)
  else if isa "$le" then Ret (const_le arg1 arg2 signed1 signed2 result_len)
  else if isa "$eq" then ret (const_eq arg1 arg2 signed1 signed2 result_len)
  else if isa "$ne" then ret (const_ne arg1 arg2 signed1 signed2 result_len)
  else if isa "$eqx" then ret (const_eqx arg1 arg2 signed1 signed2 result_len)
  else if isa "$nex" then ret (const_nex arg1 arg2 signed1 signed2 result_len)
  else if isa "$ge" then Ret (const_ge arg1 arg2 signed1 signed2 result_len)
  else if isa "$gt" then Ret (const_gt arg1 arg2 signed1 signed2 result_len)
  else if isa "$add" then ret (const_add arg1 arg2 signed1 signed2 result_len)
  else if isa "$sub" then ret (const_sub arg1 arg2 signed1 signed2 result_len)
  else if isa "$mul" then ret (const_mul arg1 arg2 signed1 signed2 result_len)
  else if isa "$div" then ret (const_div arg1 arg2 signed1 signed2 result_len)
  else if isa "$mod" then ret (const_mod arg1 arg2 signed1 signed2 result_len)
  else if isa "$divfloor" then ret (const_divfloor arg1 arg2 signed1 signed2 result_len)
  else if isa "$modfloor" then ret (const_modfloor arg1 arg2 signed1 signed2 result_len)
  else if isa "$pow" then ret (const_pow arg1 arg2 signed1 signed2 result_len)
  else if isa "$pos" then ret (const_pos arg1 signed1 result_len)
  else if isa "$neg" then ret (const_neg arg1 signed1 result_len)
  else if isa "$_BUF_" || isa "$buf" then Ret arg1
  else if isa "$_NOT_" then Ret (eval_not arg1)
  else if isa "$_AND_" then ret (const_and arg1 arg2 false false 1)
  else if isa "$_NAND_" then ret (eval_not <$> const_and arg1 arg2 false false 1)
  else if isa "$_OR_" then ret (const_or arg1 arg2 false false 1)
  else if isa "$_NOR_" then ret (eval_not <$> const_or arg1 arg2 false false 1)
  else if isa "$_XOR_" then ret (const_xor arg1 arg2 false false 1)
  else if isa "$_XNOR_" then ret (const_xnor arg1 arg2 false false 1)
  else if isa "$_ANDNOT_" then ret (const_and arg1 (eval_not arg2) false false 1)
  else if isa "$_ORNOT_" then ret (const_or arg1 (eval_not arg2) false false 1)
  else if errp then Err else Abort.

(** ** Cells *)

Record Cell := mkCell { type : string; parameters : gmap string Const }.

(** [cell->parameters.at(name).as_int()] *)
Definition param_int (cell : Cell) (name : string) : option Z :=
  c ← parameters cell !! name; Some (as_int c false).

Definition param_bits (cell : Cell) (name : string) : option bvec :=
  c ← parameters cell !! name; to_bits c.

(** [parameters.count(name) > 0 && parameters[name].as_bool()] *)
Definition param_flag (cell : Cell) (name : string) : bool :=
  match parameters cell !! name with Some c => as_bool c | None => false end.

Definition eval_slice (cell : Cell) (arg1 : bvec) : option bvec :=
  width ← param_int cell "Y_WIDTH";
  offset ← param_int cell "OFFSET";
  if (offset <? 0) || (width <? 0) then None
  else c ← const_extract (const_of_bits arg1) (Z.to_nat offset) (Z.to_nat width) S0; to_bits c.

(** [while (GetSize(t) < n) t.push_back(S0)] *)
Definition pad_to (t : bvec) (n : nat) : bvec := t ++ replicate (n - length t) S0.

(** [1 << width] is undefined outside of [0 <= width < 31]. *)
Definition eval_lut (cell : Cell) (arg1 : bvec) : option bvec :=
  width ← param_int cell "WIDTH";
  t ← param_bits cell "LUT";
  if (0 <=? width) && (width <? 31)
  then let size := (2 ^ Z.to_nat width)%nat in
       Some (const_bmux (vec_resize (pad_to t size) size S0) arg1)
  else None.

(** One product term: the literals of [a] against the pairs of the table. *)
Fixpoint sop_term (t a : bvec) (match_ match_x : bool) {struct a} : option (bool * bool) :=
  match a with
  | [] => Some (match_, match_x)
  | b :: a =>
      match t with
      | t0 :: t1 :: t =>
          let '(m, mx) :=
            if State_eqb t0 S1
            then (if State_eqb b S0 then match_ else false, if State_eqb b S1 then false else match_x)
            else (match_, match_x) in
          let '(m, mx) :=
            if State_eqb t1 S1
            then (if State_eqb b S1 then m else false, if State_eqb b S0 then false else mx)
            else (m, mx) in
          sop_term t a m mx
      | _ => None
      end
  end.

(** The loop over the product terms, with its early return. *)
Fixpoint sop_loop (t a : bvec) (width depth : nat) (default_ret : State) : option State :=
  match depth with
  | O => Some default_ret
  | S depth =>
      '(m, mx) ← sop_term t a true true;
      if m : bool then Some S1
      else sop_loop (drop (2 * width) t) a width depth (if mx : bool then Sx else default_ret)
  end.

Definition eval_sop (cell : Cell) (arg1 : bvec) : option bvec :=
  width ← param_int cell "WIDTH";
  depth ← param_int cell "DEPTH";
  t ← param_bits cell "TABLE";
  let t := pad_to t (Z.to_nat (width * depth * 2)) in
  if (Z.to_nat width <=? length arg1)%nat
  then (fun s => [s]) <$> sop_loop t (take (Z.to_nat width) arg1) (Z.to_nat width) (Z.to_nat depth) S0
  else if depth <=? 0 then Some [S0] else None.

Definition eval_cell2 (cell : Cell) (arg1 arg2 : bvec) (errp : bool) : outcome :=
  let isa t := String.eqb (type cell) t in
  if isa "$slice" then ret (eval_slice cell arg1)
  else if isa "$concat" then Ret (arg1 ++ arg2)
  else if isa "$bmux" then Ret (const_bmux arg1 arg2)
  else if isa "$demux" then ret (const_demux arg1 arg2)
  else if isa "$bweqx" then ret (const_bweqx arg1 arg2)
  else if isa "$lut" then ret (eval_lut cell arg1)
  else if isa "$sop" then ret (eval_sop cell arg1)
  else
    let signed_a := param_flag cell "A_SIGNED" in
    let signed_b := param_flag cell "B_SIGNED" in
    let result_len := default (-1) (param_int cell "Y_WIDTH") in
    eval (type cell) arg1 arg2 signed_a signed_b result_len errp.

Definition eval_cell3 (cell : Cell) (arg1 arg2 arg3 : bvec) (errp : bool) : outcome :=
  let isa t := String.eqb (type cell) t in
  if isa "$mux" || isa "$_MUX_" then ret (const_mux arg1 arg2 arg3)
  else if isa "$_NMUX_" then ret (eval_not <$> const_mux arg1 arg2 arg3)
  else if isa "$bwmux" then ret (const_bwmux arg1 arg2 arg3)
  else if isa "$pmux" then ret (const_pmux arg1 arg2 arg3)
  else if isa "$_AOI3_"
  then ret (c ← const_and arg1 arg2 false false 1; eval_not <$> const_or c arg3 false false 1)
  else if isa "$_OAI3_"
  then ret (c ← const_or arg1 arg2 false false 1; eval_not <$> const_and c arg3 false false 1)
  else if (length arg3 =? 0)%nat then eval_cell2 cell arg1 arg2 errp
  else Abort.

Definition eval_cell4 (cell : Cell) (arg1 arg2 arg3 arg4 : bvec) (errp : bool) : outcome :=
  let isa t := String.eqb (type cell) t in
  if isa "$_AOI4_"
  then ret (c ← const_and arg1 arg2 false false 1; d ← const_and arg3 arg4 false false 1;
            eval_not <$> const_or c d false false 1)
  else if isa "$_OAI4_"
  then ret (c ← const_or arg1 arg2 false false 1; d ← const_or arg3 arg4 false false 1;
            eval_not <$> const_and c d false false 1)
  else if (length arg4 =? 0)%nat then eval_cell3 cell arg1 arg2 arg3 errp
  else Abort.

(** ** The integer meaning of the word-level cells *)

(** Two operands: what [Y] is for defined [A] and [B], at [r] bits.  Most types
    read both operands as signed exactly when both are flagged so; the shifts read
    the shifted operand by its own flag and the amount without a sign, [$shift]
    and [$shiftx] by the flag of [B].  Divisions by 0 and 0 to a negative power
    are undefined.  [None] where the type is not an operator of two operands. *)
Definition binary_meaning (type : string) (a b : list bool) (s1 s2 : bool) (r : Z) : option bvec :=
  let isa t := String.eqb type t in
  let u := bits_value a (s1 && s2) in
  let v := bits_value b (s1 && s2) in
  let amount := bits_value b false in
  let int z := Some (dbv (Z_bits (Z.to_nat r) z)) in
  let truth t := int (Z.b2z t) in
  let unless (undefined : bool) z := Some (if undefined then replicate (Z.to_nat r) Sx else dbv (Z_bits (Z.to_nat r) z)) in
  if isa "$and" then int (Z.land u v)
  else if isa "$or" then int (Z.lor u v)
  else if isa "$xor" then int (Z.lxor u v)
  else if isa "$xnor" then int (Z.lnot (Z.lxor u v))
  else if isa "$add" then int (u + v)
  else if isa "$sub" then int (u - v)
  else if isa "$mul" then int (u * v)
  else if isa "$div" then unless (v =? 0) (Z.quot u v)
  else if isa "$mod" then unless (v =? 0) (Z.rem u v)
  else if isa "$divfloor" then unless (v =? 0) (u / v)
  else if isa "$modfloor" then unless (v =? 0) (u mod v)
  else if isa "$pow" then unless ((u =? 0) && (v <? 0)) (pow_value u v)
  else if isa "$shl" then int (Z.shiftl (bits_value a s1) amount)
  else if isa "$sshl" then int (Z.shiftl (bits_value a s1) amount)
  else if isa "$shr" then int (Z.shiftr (logical_value a s1 r) amount)
  else if isa "$sshr" then int (Z.shiftr (bits_value a s1) amount)
  else if isa "$shift" then int (Z.shiftr (logical_value a s1 r) (bits_value b s2))
  else if isa "$shiftx" then Some (window a (bits_value b s2) (Z.to_nat r))
  else if isa "$lt" then truth (u <? v)
  else if isa "$le" then truth (u <=? v)
  else if isa "$ge" then truth (u >=? v)
  else if isa "$gt" then truth (u >? v)
  else if isa "$eq" then truth (u =? v)
  else if isa "$ne" then truth (negb (u =? v))
  else if isa "$eqx" then truth (u =? v)
  else if isa "$nex" then truth (negb (u =? v))
  else if isa "$logic_and" then truth (negb (u =? 0) && negb (v =? 0))
  else if isa "$logic_or" then truth (negb (u =? 0) || negb (v =? 0))
  else None.

Definition unary_meaning (type : string) (a : list bool) (sg : bool) : option Z :=
  let isa t := String.eqb type t in
  if isa "$not" then Some (Z.lnot (bits_value a sg))
  else if isa "$pos" then Some (bits_value a sg)
  else if isa "$neg" then Some (- bits_value a sg)
  else if isa "$reduce_and" then Some (Z.b2z (forallb id a))
  else if isa "$reduce_or" then Some (Z.b2z (existsb id a))
  else if isa "$reduce_bool" then Some (Z.b2z (existsb id a))
  else if isa "$reduce_xor" then Some (Z.b2z (fold_left xorb a false))
  else if isa "$reduce_xnor" then Some (Z.b2z (negb (fold_left xorb a false)))
  else if isa "$logic_not" then Some (Z.b2z (bits_value a sg =? 0))
  else None.

(** The type of a match on string tests, one test at a time. *)
Ltac string_cases :=
  repeat match goal with
  | |- context [String.eqb ?x ?s] => destruct (String.eqb_spec x s) as [->|]
  end.

Lemma const_ne_dbv a b s1 s2 r :
  1 <= r ->
  let e := Z.b2z (negb (bits_value a (s1 && s2) =? bits_value b (s1 && s2))) in
  const_ne (dbv a) (dbv b) s1 s2 r = Some (dbv (Z_bits (Z.to_nat r) e)) /\
  const_nex (dbv a) (dbv b) s1 s2 r = Some (dbv (Z_bits (Z.to_nat r) e)).
Proof.
  intros Hr. cbv zeta. unfold const_ne, const_nex.
  destruct (const_eq_dbv a b s1 s2 r Hr) as [-> ->]. cbn [mbind option_bind]. unfold front_flipped.
  rewrite <- flip_result. destruct (Z.to_nat r) eqn:E; [lia|]. done.
Qed.

Lemma truth_width r t : 1 <= r -> truth r t = dbv (Z_bits (Z.to_nat r) (Z.b2z t)).
Proof. intros Hr. unfold truth. by replace (Z.max 1 r) with r by lia. Qed.

(** A division by 0 is undefined at every width. *)
Lemma div_wrapper_zero f a b s1 s2 r : 0 <= r -> bits_value b s2 = 0 ->
  div_wrapper f (dbv a) (dbv b) s1 s2 r = Some (replicate (Z.to_nat r) Sx).
Proof. intros Hr Hb. rewrite div_wrapper_spec, big_val_dbv, Hb, bv_state_spec by done. done. Qed.

Lemma value_zero_sign a s1 s2 : (bits_value a s1 =? 0) = (bits_value a s2 =? 0).
Proof.
  apply eq_iff_eq_true. by rewrite !Z.eqb_eq, <- !big_val_dbv, !big_val_zero.
Qed.

(** The division cells, by the function on big integers. *)
Lemma div_cell f g a b sg r : 1 <= r -> (forall u v, v <> 0 -> f u v = g u v) ->
  div_wrapper f (dbv a) (dbv b) sg sg r =
  Some (if bits_value b sg =? 0 then replicate (Z.to_nat r) Sx else dbv (Z_bits (Z.to_nat r) (g (bits_value a sg) (bits_value b sg)))).
Proof.
  intros Hr Hf. destruct (Z.eqb_spec (bits_value b sg) 0) as [Hz|Hz]; [apply div_wrapper_zero; [lia|done]|].
  rewrite div_wrapper_dbv, Hf by done. unfold result_width. by rewrite size_or_given by lia.
Qed.

(** The arithmetic shifts of an unsigned operand are evaluated as the logical ones. *)
Lemma eval_sshl x y s1 s2 r errp :
  eval "$sshl" x y s1 s2 r errp = ret (if s1 then const_sshl x y true r else const_shl x y false r).
Proof. by destruct s1. Qed.
Lemma eval_sshr x y s1 s2 r errp :
  eval "$sshr" x y s1 s2 r errp = ret (if s1 then const_sshr x y true r else const_shr x y false r).
Proof. by destruct s1. Qed.

(** An unsigned value is its own logical value. *)
Lemma logical_value_unsigned a r : logical_value a false r = bits_value a false.
Proof.
  unfold logical_value, bits_value. pose proof (bits_val_bound a). apply Z.mod_small. split; [lia|].
  apply Z.lt_le_trans with (2 ^ Z.of_nat (length a)); [lia|]. apply Z.pow_le_mono_r; lia.
Qed.

Lemma sshl_dbv a b (s1 : bool) r : 0 <= r -> a <> [] ->
  (if s1 then const_sshl (dbv a) (dbv b) true r else const_shl (dbv a) (dbv b) false r) =
  Some (dbv (Z_bits (Z.to_nat r) (Z.shiftl (bits_value a s1) (bits_value b false)))).
Proof. intros. destruct s1; [by apply const_sshl_dbv|by apply const_shl_dbv]. Qed.

Lemma sshr_dbv a b (s1 : bool) r : 0 <= r -> a <> [] ->
  (if s1 then const_sshr (dbv a) (dbv b) true r else const_shr (dbv a) (dbv b) false r) =
  Some (dbv (Z_bits (Z.to_nat r) (Z.shiftr (bits_value a s1) (bits_value b false)))).
Proof. intros. destruct s1; [by apply const_sshr_dbv|]. by rewrite const_shr_dbv, logical_value_unsigned. Qed.

Lemma binary_meaning_total a b s1 s2 r type :
  type ∈ binary_ops -> type ∉ ["$concat"; "$bweqx"; "$macc"] -> is_Some (binary_meaning type a b s1 s2 r).
Proof.
  intros H. revert type H. rewrite <- (Forall_forall (fun type => type ∉ ["$concat"; "$bweqx"; "$macc"] -> is_Some (binary_meaning type a b s1 s2 r))). unfold binary_ops.
  repeat (apply Forall_cons; split; [first [intros _; eexists; reflexivity|intros []; set_solver]|]). by apply Forall_nil.
Qed.



(** C17: a one-operand word-level cell with a defined operand and a result of
    [r >= 1] bits evaluates to the meaning of its type; only [$not], [$pos] and
    [$neg] look at the signedness of [A], whatever [B_SIGNED] is. *)
Theorem eval_unary_exact type a y s1 s2 r errp z :
  1 <= r ->
  unary_meaning type a s1 = Some z ->
  eval type (dbv a) y s1 s2 r errp = Ret (dbv (Z_bits (Z.to_nat r) z)).
Proof.
  intros Hr. unfold unary_meaning. string_cases; cbn match; try done; intros [= <-].
  all: match goal with |- eval ?t _ _ _ _ _ _ = _ =>
         unfold eval; replace (normalise_type t s1) with t by done end.
  all: cbv zeta; cbn [String.eqb Ascii.eqb Bool.eqb andb orb]; cbn -[dbv].
  - rewrite const_not_dbv, size_or_given by lia. done.
  - unfold const_pos. rewrite extend_u0_spec by lia. done.
  - unfold const_neg, const_sub. change [S0] with (dbv [false]). rewrite arith_wrapper_dbv.
    unfold result_width. by rewrite size_or_given by lia.
  - by rewrite const_reduce_and_dbv, truth_width.
  - by rewrite const_reduce_or_dbv, truth_width.
  - by rewrite const_reduce_bool_dbv, truth_width.
  - by rewrite const_reduce_xor_dbv, truth_width.
  - by rewrite const_reduce_xnor_dbv, truth_width.
  - by rewrite logic_not_dbv, truth_width, (value_zero_sign a _ s1).
Qed.

Lemma eval_unary_exact_witness :
  eval "$reduce_xnor" (dbv [true; false; true; true]) [] false false 2 false = Ret [S0; S0] /\
  eval "$neg" (dbv (Z_bits 3 (-4))) [] true false 4 false = Ret (dbv (Z_bits 4 4)).
Proof.
  pose proof (eval_unary_exact "$reduce_xnor" [true; false; true; true] [] false false 2 false 0
                ltac:(lia) eq_refl) as H1.
  pose proof (eval_unary_exact "$neg" (Z_bits 3 (-4)) [] true false 4 false 4 ltac:(lia) eq_refl) as H2.
  split; [exact H1|exact H2].
Defined.

(** ** Gates *)

(** The gates with two, three and four one-bit inputs, and their functions. *)
Definition gates2 : list (string * (bool -> bool -> bool)) :=
  [("$_BUF_", fun a _ => a); ("$_NOT_", fun a _ => negb a);
   ("$_AND_", andb); ("$_NAND_", fun a b => negb (a && b));
   ("$_OR_", orb); ("$_NOR_", fun a b => negb (a || b));
   ("$_XOR_", xorb); ("$_XNOR_", fun a b => negb (xorb a b));
   ("$_ANDNOT_", fun a b => a && negb b); ("$_ORNOT_", fun a b => a || negb b)].

Definition gates3 : list (string * (bool -> bool -> bool -> bool)) :=
  [("$_MUX_", fun a b s : bool => if s then b else a); ("$_NMUX_", fun a b s : bool => negb (if s then b else a));
   ("$_AOI3_", fun a b c => negb (a && b || c)); ("$_OAI3_", fun a b c => negb ((a || b) && c))].

Definition gates4 : list (string * (bool -> bool -> bool -> bool -> bool)) :=
  [("$_AOI4_", fun a b c d => negb (a && b || c && d)); ("$_OAI4_", fun a b c d => negb ((a || b) && (c || d)))].

(** C20: every gate [setup_stdcells_eval] registers, the multiplexers
    [$_MUX4_], [$_MUX8_] and [$_MUX16_] apart, computes its truth table through the
    [eval] overload for its number of inputs, on defined inputs and for every
    setting of the parameters of the cell.  (The three multiplexers have more
    inputs than any overload takes.) *)
Theorem gates_exact (ps : gmap string Const) errp (a b c d : bool) :
  (forall t, cell_known (setup_stdcells_eval ∅) t = true <->
     t ∈ gates2.*1 ++ gates3.*1 ++ gates4.*1 ++ ["$_MUX4_"; "$_MUX8_"; "$_MUX16_"]) /\
  Forall (fun '(t, f) => eval_cell2 (mkCell t ps) [state_of_bool a] [state_of_bool b] errp
                         = Ret [state_of_bool (f a b)]) gates2 /\
  Forall (fun '(t, f) => eval_cell3 (mkCell t ps) [state_of_bool a] [state_of_bool b] [state_of_bool c] errp
                         = Ret [state_of_bool (f a b c)]) gates3 /\
  Forall (fun '(t, f) => eval_cell4 (mkCell t ps) [state_of_bool a] [state_of_bool b]
                           [state_of_bool c] [state_of_bool d] errp
                         = Ret [state_of_bool (f a b c d)]) gates4.
Proof.
  split; [|split_and!; repeat constructor; destruct a, b, c, d; reflexivity].
  intros t. assert (Hd : dom (setup_stdcells_eval ∅) =
    list_to_set (gates2.*1 ++ gates3.*1 ++ gates4.*1 ++ ["$_MUX4_"; "$_MUX8_"; "$_MUX16_"]) :> gset string)
    by (apply (bool_decide_unpack _); vm_compute; exact I).
  rewrite <- (elem_of_list_to_set (C := gset string)), <- Hd, elem_of_dom. unfold cell_known.
  destruct (_ !! t); split; [eauto|done..|by intros [? ?]].
Qed.

(** ** Lookup tables *)

Lemma slot_1 {A} (l : list A) i d : (i < length l)%nat -> slot 1 i l = [nth i l d].
Proof.
  intros Hi. unfold slot. rewrite Nat.mul_1_r.
  destruct (lookup_lt_is_Some_2 l i Hi) as [x Hx].
  by rewrite (drop_S _ _ _ Hx), (nth_lookup_Some _ _ d _ Hx).
Qed.

Lemma lut_table (t : bvec) n :
  vec_resize (pad_to t n) n S0 = (fun i => nth i t S0) <$> seq 0 n.
Proof.
  apply list_eq. intros i. destruct (decide (i < n)%nat) as [Hi|Hi].
  - rewrite vec_resize_lookup, list_lookup_fmap, lookup_seq_lt by done. cbn [fmap option_fmap option_map].
    f_equal. unfold pad_to. destruct (decide (i < length t)%nat).
    + rewrite lookup_app_l by lia. destruct (lookup_lt_is_Some_2 t i ltac:(lia)) as [x Hx].
      rewrite Hx. by rewrite (nth_lookup_Some _ _ _ _ Hx).
    + rewrite lookup_app_r, lookup_replicate_2 by lia. rewrite nth_overflow by lia. done.
  - rewrite !lookup_ge_None_2; rewrite ?vec_resize_length, ?length_fmap, ?length_seq; [done|lia|lia].
Qed.

(** C19: a [$lut] cell of [WIDTH] below 31 with that many defined inputs yields the
    bit of its table [LUT] that the inputs address, and 0 beyond the table. *)
Theorem eval_lut_exact (ps : gmap string Const) sel (lut : bvec) wc y errp :
  (length sel < 31)%nat ->
  ps !! "WIDTH" = Some wc -> as_int wc false = Z.of_nat (length sel) ->
  ps !! "LUT" = Some (const_of_bits lut) ->
  eval_cell2 (mkCell "$lut" ps) (dbv sel) y errp = Ret [nth (Z.to_nat (bits_val sel)) lut S0].
Proof.
  intros Hl Hw Hi Ht. unfold eval_cell2. cbn [type String.eqb Ascii.eqb Bool.eqb].
  unfold eval_lut, param_int, param_bits. cbn [parameters]. rewrite Hw, Ht. cbn [mbind option_bind].
  rewrite to_bits_spec, Hi. cbn [mbind option_bind bits_internal bitvectorize const_of_bits backing].
  destruct (Z.leb_spec 0 (Z.of_nat (length sel))), (Z.ltb_spec (Z.of_nat (length sel)) 31); try lia.
  cbn [andb ret]. rewrite Nat2Z.id, lut_table. f_equal.
  assert (Hb : (Z.to_nat (bits_val sel) < 2 ^ length sel)%nat).
  { pose proof (bits_val_bound sel). apply Nat2Z.inj_lt. rewrite Nat2Z.inj_pow, Z2Nat.id by lia. apply H1. }
  rewrite (const_bmux_slot 1) by (rewrite length_fmap, length_seq; lia).
  rewrite (slot_1 _ _ S0) by (by rewrite length_fmap, length_seq). f_equal.
  apply nth_lookup_Some. by rewrite list_lookup_fmap, lookup_seq_lt.
Qed.

(** Inputs 1,0 (LSB first) select entry 1 of a two-input table that is too short. *)
Lemma eval_lut_exact_witness :
  eval_cell2 (mkCell "$lut" (<["WIDTH" := const_of_int32 2]> (<["LUT" := const_of_bits [S0; S1]]> ∅)))
    (dbv [true; false]) [] false = Ret [S1].
Proof.
  exact (eval_lut_exact (<["WIDTH" := const_of_int32 2]> (<["LUT" := const_of_bits [S0; S1]]> ∅))
           [true; false] [S0; S1] (const_of_int32 2) [] false ltac:(cbn; lia) eq_refl eq_refl eq_refl).
Defined.

(** ** Sums of products *)

(** A literal of a product term: the pair of table bits says which values of
    the input rule the term out. *)
Definition literal_ok (t0 t1 : State) (b : bool) : bool :=
  negb (State_eqb t0 S1 && b) && negb (State_eqb t1 S1 && negb b).

Fixpoint term_true (t : bvec) (a : list bool) {struct a} : bool :=
  match a with
  | [] => true
  | b :: a =>
      match t with
      | t0 :: t1 :: t => literal_ok t0 t1 b && term_true t a
      | _ => true
      end
  end.

Lemma sop_term_dbv t a m mx :
  (2 * length a <= length t)%nat ->
  sop_term t (dbv a) m mx = Some (m && term_true t a, mx && term_true t a).
Proof.
  revert t m mx. induction a as [|b a IH]; intros t m mx Hl.
  - cbn [fmap list_fmap sop_term term_true]. by rewrite !andb_true_r.
  - destruct t as [|t0 [|t1 t]]; [simpl in Hl; lia|simpl in Hl; lia|].
    rewrite fmap_cons. cbn [sop_term term_true]. cbn in Hl. unfold literal_ok.
    destruct (State_eqb t0 S1), (State_eqb t1 S1), b; cbn [State_eqb];
      rewrite IH by lia; f_equal; destruct m, mx, (term_true t a); reflexivity.
Qed.

Lemma sop_loop_dbv t a w n d :
  (2 * w * n <= length t)%nat -> length a = w ->
  sop_loop t (dbv a) w n d =
  Some (if existsb (fun i => term_true (drop (2 * w * i) t) a) (seq 0 n) then S1 else d).
Proof.
  intros Hl Ha. revert t Hl. induction n as [|n IH]; intros t Hl; [done|].
  cbn [sop_loop]. rewrite sop_term_dbv by lia. cbn [mbind option_bind andb].
  cbn [seq existsb]. rewrite Nat.mul_0_r, drop_0. destruct (term_true t a); [done|]. cbn [orb].
  rewrite IH by (rewrite length_drop; lia). rewrite <- fmap_S_seq.
  rewrite existsb_fmap. do 2 f_equal.
  erewrite existsb_ext'; [done|]. intros i. cbv beta. rewrite drop_drop. by replace (2 * w + 2 * w * i)%nat with (2 * w * S i)%nat by lia.
Qed.

(** C18: a [$sop] cell with defined inputs is the disjunction of its [DEPTH]
    product terms over its [WIDTH] inputs, a table that is too short being
    continued with don't-care literals. *)
Theorem eval_sop_exact (ps : gmap string Const) a (table : bvec) wc dc depth y errp :
  ps !! "WIDTH" = Some wc -> as_int wc false = Z.of_nat (length a) ->
  ps !! "DEPTH" = Some dc -> as_int dc false = Z.of_nat depth ->
  ps !! "TABLE" = Some (const_of_bits table) ->
  let t := table ++ replicate (2 * length a * depth - length table) S0 in
  eval_cell2 (mkCell "$sop" ps) (dbv a) y errp =
  Ret [state_of_bool (existsb (fun i => term_true (drop (2 * length a * i) t) a) (seq 0 depth))].
Proof.
  intros Hw Hwi Hd Hdi Ht. cbv zeta. unfold eval_cell2. cbn [type String.eqb Ascii.eqb Bool.eqb].
  unfold eval_sop, param_int, param_bits. cbn [parameters]. rewrite Hw, Hd, Ht. cbn [mbind option_bind].
  rewrite to_bits_spec, Hwi, Hdi. cbn [mbind option_bind bits_internal bitvectorize const_of_bits backing].
  rewrite !Nat2Z.id, length_fmap, Nat.leb_refl.
  rewrite take_ge by (by rewrite length_fmap).
  replace (Z.to_nat (Z.of_nat (length a) * Z.of_nat depth * 2)) with (2 * length a * depth)%nat by lia.
  rewrite sop_loop_dbv; [|unfold pad_to; rewrite length_app, length_replicate; lia|done].
  cbn [fmap option_fmap option_map ret]. unfold pad_to. by case_match.
Qed.

(** [a & !b] as a one-term table over [b, a]. *)
Lemma eval_sop_exact_witness :
  eval_cell2 (mkCell "$sop" (<["WIDTH" := const_of_int32 2]> (<["DEPTH" := const_of_int32 1]>
    (<["TABLE" := const_of_bits [S1; S0; S0; S1]]> ∅)))) (dbv [false; true]) [] false = Ret [S1].
Proof.
  exact (eval_sop_exact (<["WIDTH" := const_of_int32 2]> (<["DEPTH" := const_of_int32 1]>
           (<["TABLE" := const_of_bits [S1; S0; S0; S1]]> ∅))) [false; true] [S1; S0; S0; S1]
           (const_of_int32 2) (const_of_int32 1) 1 [] false eq_refl eq_refl eq_refl eq_refl eq_refl).
Defined.

(** ** The table and the evaluator *)

(** The types [eval] dispatches on. *)
Definition eval_types : list string :=
  ["$not"; "$and"; "$or"; "$xor"; "$xnor"; "$reduce_and"; "$reduce_or"; "$reduce_xor"; "$reduce_xnor";
   "$reduce_bool"; "$logic_not"; "$logic_and"; "$logic_or"; "$shl"; "$shr"; "$sshl"; "$sshr"; "$shift";
   "$shiftx"; "$lt"; "$le"; "$eq"; "$ne"; "$eqx"; "$nex"; "$ge"; "$gt"; "$add"; "$sub"; "$mul"; "$div";
   "$mod"; "$divfloor"; "$modfloor"; "$pow"; "$pos"; "$neg"; "$_BUF_"; "$buf"; "$_NOT_"; "$_AND_";
   "$_NAND_"; "$_OR_"; "$_NOR_"; "$_XOR_"; "$_XNOR_"; "$_ANDNOT_"; "$_ORNOT_"].

Definition cell2_types : list string := ["$slice"; "$concat"; "$bmux"; "$demux"; "$bweqx"; "$lut"; "$sop"].
Definition cell3_types : list string := ["$mux"; "$_MUX_"; "$_NMUX_"; "$bwmux"; "$pmux"; "$_AOI3_"; "$_OAI3_"].
Definition cell4_types : list string := ["$_AOI4_"; "$_OAI4_"].

Lemma ret_not_Err o : ret o <> Err.
Proof. by destruct o. Qed.

Lemma eval_Err ty x y s1 s2 r :
  eval ty x y s1 s2 r true = Err <-> in_types ty eval_types = false.
Proof.
  unfold eval. assert (Hn : in_types (normalise_type ty s1) eval_types = in_types ty eval_types).
  { unfold normalise_type.
    destruct (String.eqb_spec ty "$sshr") as [->|]; [by destruct s1|]. cbn [andb].
    destruct (String.eqb_spec ty "$sshl") as [->|]; [by destruct s1|done]. }
  rewrite <- Hn. generalize (normalise_type ty s1) as t. clear Hn. intros t. cbv zeta.
  generalize (in_types t keeps_signedness) as keep. intros keep.
  unfold in_types, eval_types. cbn [existsb].
  repeat match goal with
  | |- context [String.eqb t ?s] => destruct (String.eqb t s); cbn [orb];
      [split; [intros HE; by apply ret_not_Err in HE || discriminate HE|discriminate]|]
  end.
  by split.
Qed.

Lemma eval_cell2_Err c x y :
  eval_cell2 c x y true = Err <-> in_types (type c) (cell2_types ++ eval_types) = false.
Proof.
  unfold in_types. rewrite existsb_app, orb_false_iff. unfold eval_cell2. cbv zeta.
  unfold cell2_types. cbn [existsb].
  repeat match goal with
  | |- context [String.eqb (type c) ?s] => destruct (String.eqb (type c) s); cbn [orb];
      [split; [intros HE; by apply ret_not_Err in HE || discriminate HE|intros [? _]; discriminate]|]
  end. rewrite eval_Err. unfold in_types. tauto.
Qed.

Lemma eval_cell3_Err c x y z :
  eval_cell3 c x y z true = Err <->
  in_types (type c) (cell3_types ++ cell2_types ++ eval_types) = false /\ z = [].
Proof.
  unfold in_types. rewrite existsb_app, orb_false_iff. unfold eval_cell3. cbv zeta.
  unfold cell3_types. cbn [existsb].
  repeat match goal with
  | |- context [String.eqb (type c) ?s] => destruct (String.eqb (type c) s); cbn [orb];
      [split; [intros HE; by apply ret_not_Err in HE || discriminate HE|intros [[? _] _]; discriminate]|]
  end. destruct z; cbn; [|split; [discriminate|intros [_ ?]; discriminate]].
  rewrite eval_cell2_Err. unfold in_types. tauto.
Qed.

(** The whole table, as [setup()] fills it for the null design. *)
Definition yosys_celltypes : cell_map := setup None ∅.

(** The types flagged evaluable that no [eval] overload handles. *)
Definition evaluable_unhandled : list string :=
  filter (fun t => in_types t (cell4_types ++ cell3_types ++ cell2_types ++ eval_types) = false)
    (fst <$> filter (fun p => is_evaluable (snd p) = true) (map_to_list yosys_celltypes)).

(** C21: the four [eval] overloads report an error for exactly the types outside
    their dispatch (with the extra operands empty), and among the types the
    table flags [is_evaluable] those are the formal, tri-state and specify
    cells, the wide muxes and the cells with carries or several outputs, which
    the callers must handle themselves ([$_MUX4_] and [$macc] for example). *)
Theorem eval_dispatch_complete c x y z v :
  (eval_cell4 c x y z v true = Err <->
   in_types (type c) (cell4_types ++ cell3_types ++ cell2_types ++ eval_types) = false /\
   z = [] /\ v = []) /\
  (forall t, t ∈ evaluable_unhandled <-> t ∈
     ["$tribuf"; "$assert"; "$assume"; "$live"; "$fair"; "$cover"; "$initstate"; "$anyconst"; "$anyseq";
      "$allconst"; "$allseq"; "$equiv"; "$specify2"; "$specify3"; "$specrule"; "$macc"; "$lcu"; "$alu";
      "$macc_v2"; "$fa"; "$_TBUF_"; "$_MUX4_"; "$_MUX8_"; "$_MUX16_"]).
Proof.
  split.
  - unfold in_types. rewrite existsb_app, orb_false_iff. unfold eval_cell4. cbv zeta.
    unfold cell4_types. cbn [existsb].
    repeat match goal with
    | |- context [String.eqb (type c) ?s] => destruct (String.eqb (type c) s); cbn [orb];
        [split; [intros HE; by apply ret_not_Err in HE || discriminate HE|intros [[? _] _]; discriminate]|]
    end. destruct v; cbn; [|split; [discriminate|intros (_ & _ & ?); discriminate]].
    rewrite eval_cell3_Err. unfold in_types. tauto.
  - intros t. assert (H : forall l l' : list string,
      forallb (fun s => existsb (String.eqb s) l') l = true ->
      forallb (fun s => existsb (String.eqb s) l) l' = true -> t ∈ l <-> t ∈ l').
    { intros l l' H1 H2. rewrite forallb_forall in H1, H2.
      rewrite !list_elem_of_In. split; intros Hin;
        [apply H1 in Hin|apply H2 in Hin]; apply existsb_exists in Hin as (s & Hs & ->%String.eqb_eq); done. }
    apply H; vm_compute; reflexivity.
Qed.
