(* ===== verification/GuideNames.v ===== *)
(** * Names of the guide checker ([passes/guide/check/core.cc], [kernel/rtlil.h])

    Identifier escaping, the derivation of module names from the gold and gate
    prefixes, and the file and pair names built from them.  Strings are byte
    strings, an [IdString] is the string it stands for (the empty one is the
    null identifier), [None] is the [std::out_of_range] of [substr]. *)

From S2P Require Import Prelude.

Local Open Scope string_scope.
Local Open Scope list_scope.
Local Open Scope Z_scope.

(** ** Strings of the C++ library *)

Definition ch (s : string) : ascii := match s with String c _ => c | EmptyString => Ascii.zero end.
Definition BACKSLASH : ascii := ch "\".
Definition DOLLAR : ascii := ch "$".
Definition UNDERSCORE : ascii := ch "_".
Definition SLASH : ascii := ch "/".

(** [s.substr(pos)]: throws when [pos] is beyond the end. *)
Fixpoint substr_from (s : string) (pos : nat) : option string :=
  match pos, s with
  | O, _ => Some s
  | S pos, String _ s => substr_from s pos
  | S _, EmptyString => None
  end.

(** [IdString::begins_with] *)
Definition begins_with (s p : string) : bool := String.prefix p s.

Definition in_range (c lo hi : ascii) : bool :=
  (N_of_ascii lo <=? N_of_ascii c)%N && (N_of_ascii c <=? N_of_ascii hi)%N.

(** [std::isalnum] and [std::tolower] in the C locale. *)
Definition isalnum (c : ascii) : bool :=
  in_range c (ch "0") (ch "9") || in_range c (ch "A") (ch "Z") || in_range c (ch "a") (ch "z").
Definition tolower (c : ascii) : ascii :=
  if in_range c (ch "A") (ch "Z") then ascii_of_N (N_of_ascii c + 32) else c.

Fixpoint str_map (f : ascii -> ascii) (s : string) : string :=
  match s with EmptyString => EmptyString | String c s => String (f c) (str_map f s) end.

(** The part of [s] before the last [c] ([find_last_of] and [substr(0, pos)]). *)
Fixpoint before_last (c : ascii) (s : string) : option string :=
  match s with
  | EmptyString => None
  | String d s =>
      match before_last c s with
      | Some t => Some (String d t)
      | None => if Ascii.eqb d c then Some "" else None
      end
  end.

(** The part of [s] after the last [c]. *)
Fixpoint after_last (c : ascii) (s : string) : option string :=
  match s with
  | EmptyString => None
  | String d s =>
      match after_last c s with
      | Some t => Some t
      | None => if Ascii.eqb d c then Some s else None
      end
  end.

(** ** [kernel/rtlil.h] *)

Definition escape_id (str : string) : string :=
  match str with
  | String c _ => if negb (Ascii.eqb c BACKSLASH) && negb (Ascii.eqb c DOLLAR) then String BACKSLASH str else str
  | EmptyString => str
  end.

Definition unescape_id (str : string) : string :=
  match str with
  | String c (String d s) =>
      if negb (Ascii.eqb c BACKSLASH) then str
      else if Ascii.eqb d DOLLAR || Ascii.eqb d BACKSLASH then str
      else if in_range d (ch "0") (ch "9") then str
      else String d s
  | _ => str
  end.

(** ** [core.cc] *)

Definition strip_backslash (id : string) : string :=
  match id with
  | String c s => if Ascii.eqb c BACKSLASH then s else id
  | EmptyString => id
  end.

Definition filename_char (c : ascii) : bool :=
  isalnum c || Ascii.eqb c UNDERSCORE || Ascii.eqb c (ch "-") || Ascii.eqb c (ch ".").

Definition sanitize_filename (s : string) : string :=
  str_map (fun c => if filename_char c then c else UNDERSCORE) s.

Definition path_dirname (path : string) : string :=
  match before_last SLASH path with None => "." | Some s => s end.

Definition pair_artifact_path (dir_name pre gold_mod gate_mod ext : string) : string :=
  dir_name +:+ "/" +:+ pre +:+ "_" +:+ sanitize_filename (strip_backslash gold_mod) +:+ "_" +:+
  sanitize_filename (strip_backslash gate_mod) +:+ ext.

Definition get_pair_id (gold_mod gate_mod : string) : string :=
  strip_backslash gold_mod +:+ "__vs__" +:+ strip_backslash gate_mod.

(** [None]: [substr] throws; [Some ""]: the null identifier. *)
Definition get_orignal_mod_name (mod_name root_mod_name pre : string) : option string :=
  if String.eqb mod_name root_mod_name then Some root_mod_name
  else if begins_with mod_name (escape_id pre)
  then escape_id <$> substr_from (strip_backslash mod_name) (String.length pre)
  else Some "".

(** The name pairing [hier_mod_map] and [abc_cec] share: whether a module
    belongs to a side, and the name of its partner on the other side. *)
Definition on_side (name top pre : string) : bool :=
  begins_with name (escape_id pre) || String.eqb name top.

Definition partner (name top pre other_top other_prefix : string) : option string :=
  if String.eqb name top then Some other_top
  else o ← get_orignal_mod_name name top pre; Some (escape_id (other_prefix +:+ strip_backslash o)).

(** ** Properties *)

(** A prefix or name as the user normally gives it: not empty, not escaped. *)
Definition plain (s : string) : bool :=
  match s with
  | String c _ => negb (Ascii.eqb c BACKSLASH) && negb (Ascii.eqb c DOLLAR)
  | EmptyString => false
  end.

(** The rest of a module name after its prefix: it has no leading backslash. *)
Definition plain_rest (s : string) : bool :=
  match s with String c _ => negb (Ascii.eqb c BACKSLASH) | EmptyString => true end.

Lemma escape_plain s : plain s = true -> escape_id s = String BACKSLASH s.
Proof. destruct s as [|c s]; [done|]. cbn. by intros ->. Qed.

Lemma plain_app p s : plain p = true -> plain (p +:+ s) = true.
Proof. by destruct p. Qed.

Lemma strip_String s : strip_backslash (String BACKSLASH s) = s.
Proof. done. Qed.

Lemma strip_escape s : plain_rest s = true -> strip_backslash (escape_id s) = s.
Proof.
  destruct s as [|c s]; [done|]. cbn [plain_rest escape_id]. intros H.
  rewrite H. destruct (Ascii.eqb c DOLLAR); cbn [andb negb].
  - cbn [strip_backslash]. by destruct (Ascii.eqb c BACKSLASH).
  - done.
Qed.

Lemma substr_from_app p s : substr_from (p +:+ s) (String.length p) = Some s.
Proof. induction p as [|c p IH]; [by destruct s|]. exact IH. Qed.

Lemma prefix_app p s : String.prefix p (p +:+ s) = true.
Proof.
  induction p as [|c p IH]; [by destruct s|]. simpl.
  destruct (ascii_dec c c) as [_|n]; [exact IH|by destruct n].
Qed.

Lemma prefix_inv p s : String.prefix p s = true -> exists t, s = p +:+ t.
Proof.
  revert s. induction p as [|c p IH]; intros s H; [by exists s|].
  destruct s as [|d s]; [done|]. simpl in H. destruct (ascii_dec c d) as [->|]; [|done].
  destruct (IH s H) as [t ->]. by exists t.
Qed.

Lemma str_app_inj p s t : p +:+ s = p +:+ t -> s = t.
Proof. induction p as [|c p IH]; [done|]. cbn. intros [= H]. by apply IH. Qed.

Lemma str_app_nil p : p +:+ "" = p.
Proof. induction p as [|c p IH]; [done|]. exact (f_equal (String c) IH). Qed.

Lemma substr_from_past p s :
  substr_from (p +:+ s) (S (String.length p)) = match s with String _ rest => Some rest | EmptyString => None end.
Proof. induction p as [|d p IH]; [by destruct s as [|? []]|exact IH]. Qed.

(** The partner of the module [\<prefix><rest>] is [\<other prefix><rest>]. *)
Lemma partner_rest rest top pre other_top other_prefix :
  plain pre = true -> plain other_prefix = true -> plain_rest rest = true ->
  String BACKSLASH (pre +:+ rest) <> top ->
  partner (String BACKSLASH (pre +:+ rest)) top pre other_top other_prefix =
  Some (String BACKSLASH (other_prefix +:+ rest)).
Proof.
  intros Hp Ho Hr Ht. unfold partner, get_orignal_mod_name.
  destruct (String.eqb_spec (String BACKSLASH (pre +:+ rest)) top); [done|].
  rewrite escape_plain by done. unfold begins_with.
  change (String BACKSLASH (pre +:+ rest)) with (String BACKSLASH pre +:+ rest) at 1.
  rewrite prefix_app, strip_String, substr_from_app. cbn [fmap option_fmap option_map mbind option_bind].
  rewrite strip_escape by done. by rewrite escape_plain by (by apply plain_app).
Qed.

(** A module on a side, other than the top, is the escaped prefix and a rest. *)
Lemma on_side_inv name top pre :
  plain pre = true -> on_side name top pre = true -> name <> top ->
  exists rest, name = String BACKSLASH (pre +:+ rest).
Proof.
  intros Hp H Ht. unfold on_side in H. apply orb_true_iff in H as [H|H%String.eqb_eq]; [|done].
  unfold begins_with in H. rewrite escape_plain in H by done.
  apply prefix_inv in H as [t ->]. by exists t.
Qed.

Lemma on_side_rest rest top pre :
  plain pre = true -> on_side (String BACKSLASH (pre +:+ rest)) top pre = true.
Proof.
  intros Hp. unfold on_side, begins_with. rewrite escape_plain by done.
  change (String BACKSLASH (pre +:+ rest)) with (String BACKSLASH pre +:+ rest).
  by rewrite prefix_app.
Qed.

(** C35: for plain prefixes, the partner of a module whose name continues its
    prefix without a backslash is on the other side and has that module as its
    own partner, and no other module of the side has the same partner. *)
Theorem partner_involutive gold_top gate_top gp kp rest rest' :
  plain gp = true -> plain kp = true -> plain_rest rest = true -> plain_rest rest' = true ->
  let g := String BACKSLASH (gp +:+ rest) in
  let k := String BACKSLASH (kp +:+ rest) in
  g <> gold_top -> k <> gate_top ->
  partner g gold_top gp gate_top kp = Some k /\
  partner k gate_top kp gold_top gp = Some g /\
  on_side k gate_top kp = true /\
  (String BACKSLASH (gp +:+ rest') <> gold_top ->
   partner (String BACKSLASH (gp +:+ rest')) gold_top gp gate_top kp = Some k -> rest' = rest).
Proof.
  intros Hg Hk Hr Hr' g k Ng Nk. split_and!.
  - by apply partner_rest.
  - by apply partner_rest.
  - by apply on_side_rest.
  - intros N. rewrite partner_rest by done. intros [= E]. by apply str_app_inj in E.
Qed.

Lemma partner_involutive_witness :
  partner "\gold.alu" "\gold" "gold." "\gate" "gate." = Some "\gate.alu" /\
  partner "\gate.alu" "\gate" "gate." "\gold" "gold." = Some "\gold.alu".
Proof.
  destruct (partner_involutive "\gold" "\gate" "gold." "gate." "alu" "alu"
              eq_refl eq_refl eq_refl eq_refl ltac:(done) ltac:(done)) as (H1 & H2 & _).
  split; [exact H1|exact H2].
Defined.

Lemma on_side_escaped p s top : on_side (String BACKSLASH (p +:+ s)) top (String BACKSLASH p) = true.
Proof.
  unfold on_side, begins_with. change (escape_id (String BACKSLASH p)) with (String BACKSLASH p).
  change (String BACKSLASH (p +:+ s)) with (String BACKSLASH p +:+ s). by rewrite prefix_app.
Qed.

(** [substr] counts the backslash of an escaped prefix, which the stripped name
    no longer has. *)
Lemma original_escaped p s top :
  String BACKSLASH (p +:+ s) <> top ->
  get_orignal_mod_name (String BACKSLASH (p +:+ s)) top (String BACKSLASH p) =
  escape_id <$> match s with String _ rest => Some rest | EmptyString => None end.
Proof.
  intros Ht. unfold get_orignal_mod_name, begins_with. change (escape_id (String BACKSLASH p)) with (String BACKSLASH p).
  destruct (String.eqb_spec (String BACKSLASH (p +:+ s)) top); [done|].
  change (String BACKSLASH (p +:+ s)) with (String BACKSLASH p +:+ s) at 1. rewrite prefix_app, strip_String.
  change (String.length (String BACKSLASH p)) with (S (String.length p)). by rewrite substr_from_past.
Qed.



Fixpoint str_forallb (f : ascii -> bool) (s : string) : bool :=
  match s with EmptyString => true | String c s => f c && str_forallb f s end.

Lemma str_map_length f s : String.length (str_map f s) = String.length s.
Proof. induction s as [|c s IH]; [done|]. cbn. by rewrite IH. Qed.

Lemma str_map_forallb f g s : (forall c, f (g c) = true) -> str_forallb f (str_map g s) = true.
Proof. intros H. induction s as [|c s IH]; [done|]. cbn. by rewrite H, IH. Qed.

Lemma str_map_id f g s :
  (forall c, f c = true -> g c = c) -> str_forallb f s = true -> str_map g s = s.
Proof.
  intros H. induction s as [|c s IH]; [done|]. cbn. intros [Hc Hs]%andb_true_iff.
  by rewrite H, IH.
Qed.

Lemma sanitize_char c : filename_char (if filename_char c then c else UNDERSCORE) = true.
Proof. by destruct (filename_char c) eqn:E. Qed.

(** [sanitize_filename] yields only letters, digits, ['_'], ['-'] and ['.'],
    never a path separator, keeps the length, leaves such names alone and is
    therefore idempotent. *)
Theorem sanitize_filename_safe s :
  str_forallb filename_char (sanitize_filename s) = true /\
  before_last SLASH (sanitize_filename s) = None /\
  String.length (sanitize_filename s) = String.length s /\
  (str_forallb filename_char s = true -> sanitize_filename s = s) /\
  sanitize_filename (sanitize_filename s) = sanitize_filename s.
Proof.
  assert (Hid : forall s, str_forallb filename_char s = true -> sanitize_filename s = s).
  { intros t. apply str_map_id. by intros c ->. }
  assert (Hok : str_forallb filename_char (sanitize_filename s) = true)
    by apply str_map_forallb, sanitize_char.
  assert (Hsl : forall t, str_forallb filename_char t = true -> before_last SLASH t = None).
  { induction t as [|c t IH]; [done|]. cbn [str_forallb before_last]. intros [Hc Ht]%andb_true_iff. rewrite IH by done.
    destruct (Ascii.eqb_spec c SLASH) as [->|]; [|done]. by vm_compute in Hc. }
  split_and!; [done|by apply Hsl|apply str_map_length|by apply Hid|by apply Hid].
Qed.

(** Pair ids are not unique: two different pairs of module names with the
    same id share their records in the telemetry maps. *)
Theorem pair_id_collision :
  get_pair_id "\x__vs" "\q" = get_pair_id "\x" "\vs__q" /\
  (forall g k k', get_pair_id g k = get_pair_id g k' -> strip_backslash k = strip_backslash k').
Proof.
  split; [done|]. intros g k k' H. unfold get_pair_id in H.
  apply str_app_inj in H. by apply (str_app_inj "__vs__") in H.
Qed.
