(* ===== verification/Dict.v ===== *)
(** * The contents of a hashlib container ([kernel/hashlib.h])

    A [dict] keeps its entries in a vector in insertion order; erasing moves the
    last entry into the hole, and iteration runs from the last entry to the
    first.  This file models that observable behaviour on the entry list; the
    hash table that finds the entries is in [Hashlib.v].  A [pool] is a
    dictionary to [unit]: the class [pool] of the source repeats the code. *)

From S2P Require Import Prelude.

(** The entry vector of a [dict]. *)
Abbreviation dict K V := (list (K * V)).
Abbreviation pool K := (list (K * unit)).

Section Dict.
Context {K V : Type} `{EqDecision K}.

(** The position of a key: what [do_lookup] returns, [None] for -1. *)
Fixpoint dict_index (d : dict K V) (k : K) : option nat :=
  match d with
  | [] => None
  | e :: d => if bool_decide (e.1 = k) then Some O else S <$> dict_index d k
  end.

Definition dict_find (d : dict K V) (k : K) : option V :=
  i ← dict_index d k; snd <$> d !! i.

Definition dict_count (d : dict K V) (k : K) : bool := bool_decide (is_Some (dict_index d k)).

(** [insert]: keeps the entry of a known key. *)
Definition dict_insert (d : dict K V) (k : K) (v : V) : dict K V :=
  match dict_index d k with Some _ => d | None => d ++ [(k, v)] end.

(** [d[k] = v] *)
Definition dict_set (d : dict K V) (k : K) (v : V) : dict K V :=
  match dict_index d k with Some i => <[i := (k, v)]> d | None => d ++ [(k, v)] end.

(** [do_erase]: the last entry takes the place of the erased one. *)
Definition dict_erase_at (d : dict K V) (i : nat) : dict K V :=
  match last d with
  | Some e => take (length d - 1) (<[i := e]> d)
  | None => d
  end.

Definition dict_erase (d : dict K V) (k : K) : dict K V :=
  match dict_index d k with Some i => dict_erase_at d i | None => d end.

(** The order of [for (auto &it : d)]. *)
Definition dict_iter (d : dict K V) : list (K * V) := reverse d.

Definition keys (d : dict K V) : list K := d.*1.

(** Each key has one entry. *)
Definition dict_wf (d : dict K V) : Prop := NoDup (keys d).

Lemma dict_index_Some d k i :
  dict_index d k = Some i -> exists v, d !! i = Some (k, v) /\ (i < length d)%nat.
Proof.
  revert i. induction d as [|[k' v'] d IH]; intros i; [done|]. cbn.
  case_bool_decide as E.
  - intros [= <-]. subst. exists v'. split; [done|]. lia.
  - destruct (dict_index d k) as [j|]; [|done]. intros [= <-].
    destruct (IH j eq_refl) as (v & Hv & Hl). exists v. split; [done|]. lia.
Qed.

Lemma dict_index_None d k : dict_index d k = None <-> k ∉ keys d.
Proof.
  unfold keys. induction d as [|[k' v'] d IH]; [cbn; split; [set_solver|done]|].
  rewrite fmap_cons, not_elem_of_cons. cbn. case_bool_decide as E.
  - split; [done|]. intros [? _]. congruence.
  - destruct (dict_index d k); cbn.
    + split; [done|]. intros [_ H]. by apply IH in H.
    + split; [|done]. intros _. split; [congruence|]. by apply IH.
Qed.

Lemma dict_index_lookup d k v i : dict_wf d -> d !! i = Some (k, v) -> dict_index d k = Some i.
Proof.
  unfold dict_wf, keys. intros Hwf Hi.
  destruct (dict_index d k) as [j|] eqn:E.
  - apply dict_index_Some in E as (v' & Hj & _). f_equal.
    apply (NoDup_lookup (d.*1) j i k Hwf);
      rewrite list_lookup_fmap; [by rewrite Hj|by rewrite Hi].
  - exfalso. apply dict_index_None in E. apply E. unfold keys. apply list_elem_of_fmap.
    exists (k, v). split; [done|]. by apply list_elem_of_lookup_2 in Hi.
Qed.

(** [find] on the entries is the lookup of the finite relation they list. *)
Lemma dict_find_elem d k v : dict_wf d -> dict_find d k = Some v <-> (k, v) ∈ d.
Proof.
  intros Hwf. unfold dict_find. rewrite list_elem_of_lookup. split.
  - destruct (dict_index d k) as [i|] eqn:E; [|done]. cbn.
    apply dict_index_Some in E as (v' & Hv & _). rewrite Hv. cbn. intros [= <-]. by exists i.
  - intros [i Hi]. rewrite (dict_index_lookup _ _ _ _ Hwf Hi). cbn. by rewrite Hi.
Qed.

Lemma dict_find_None d k : dict_find d k = None <-> k ∉ keys d.
Proof.
  rewrite <- dict_index_None. unfold dict_find. destruct (dict_index d k) as [i|] eqn:E; [|done].
  apply dict_index_Some in E as (v & Hv & _). cbn. rewrite Hv. done.
Qed.

Lemma dict_count_spec d k : dict_count d k = true <-> k ∈ keys d.
Proof.
  unfold dict_count. rewrite bool_decide_eq_true. destruct (dict_index d k) as [i|] eqn:E.
  - split; [|by eexists]. intros _. apply dict_index_Some in E as (v & Hv & _).
    unfold keys. apply list_elem_of_fmap. exists (k, v). split; [done|].
    by apply list_elem_of_lookup_2 in Hv.
  - split; [by intros [? ?]|]. intros H. by apply dict_index_None in E.
Qed.

Lemma dict_count_false d k : dict_count d k = false <-> k ∉ keys d.
Proof. rewrite <- dict_count_spec. by destruct (dict_count d k). Qed.

Lemma keys_set d k v :
  keys (dict_set d k v) = match dict_index d k with Some _ => keys d | None => keys d ++ [k] end.
Proof.
  unfold dict_set, keys. destruct (dict_index d k) as [i|] eqn:E.
  - apply dict_index_Some in E as (v' & Hv & _). rewrite list_fmap_insert. cbn.
    rewrite list_insert_id; [done|]. by rewrite list_lookup_fmap, Hv.
  - by rewrite fmap_app.
Qed.

Lemma keys_insert d k v :
  keys (dict_insert d k v) = match dict_index d k with Some _ => keys d | None => keys d ++ [k] end.
Proof. unfold dict_insert, keys. destruct (dict_index d k); [done|]. by rewrite fmap_app. Qed.

Lemma wf_snoc (l : list K) k : NoDup l -> k ∉ l -> NoDup (l ++ [k]).
Proof.
  intros. apply NoDup_app. split_and!; [done| |apply NoDup_singleton].
  intros x Hx Hy. apply list_elem_of_singleton in Hy. congruence.
Qed.

Lemma dict_wf_set d k v : dict_wf d -> dict_wf (dict_set d k v).
Proof.
  unfold dict_wf. intros H. rewrite keys_set. destruct (dict_index d k) eqn:E; [done|].
  apply dict_index_None in E. by apply wf_snoc.
Qed.

Lemma dict_wf_insert d k v : dict_wf d -> dict_wf (dict_insert d k v).
Proof.
  unfold dict_wf. intros H. rewrite keys_insert. destruct (dict_index d k) eqn:E; [done|].
  apply dict_index_None in E. by apply wf_snoc.
Qed.

(** What is left after an erase, up to order: everything but the erased entry. *)
Lemma dict_erase_at_perm d i e :
  d !! i = Some e -> d ≡ₚ e :: dict_erase_at d i.
Proof.
  intros Hi. unfold dict_erase_at. pose proof (lookup_lt_Some _ _ _ Hi) as Hl.
  destruct (last d) as [x|] eqn:El; [|apply last_None in El; subst; cbn in Hl; lia].
  apply last_Some in El as [d' ->]. rewrite length_app in Hl |- *. cbn in Hl |- *.
  replace (length d' + 1 - 1)%nat with (length d') by lia.
  destruct (decide (i = length d')) as [->|].
  - rewrite list_lookup_middle in Hi by done. injection Hi as <-.
    rewrite insert_app_r_alt by lia. rewrite Nat.sub_diag. cbn.
    rewrite take_app_length. by rewrite Permutation_app_comm.
  - rewrite lookup_app_l in Hi by lia. rewrite insert_app_l by lia.
    rewrite take_app_le, take_ge by (rewrite ?length_insert; lia).
    rewrite insert_take_drop by lia. rewrite <- (take_drop_middle d' i e) at 1 by done.
    rewrite Permutation_app_comm. cbn.
    rewrite <- !Permutation_middle. rewrite Permutation_swap. by do 2 f_equiv.
Qed.

Lemma dict_erase_perm d k v :
  dict_wf d -> dict_find d k = Some v -> d ≡ₚ (k, v) :: dict_erase d k.
Proof.
  intros Hwf. unfold dict_find, dict_erase. destruct (dict_index d k) as [i|] eqn:E; [|done].
  apply dict_index_Some in E as (v' & Hv & _). cbn. rewrite Hv. intros [= <-].
  by apply dict_erase_at_perm.
Qed.

Lemma dict_wf_erase d k : dict_wf d -> dict_wf (dict_erase d k).
Proof.
  intros Hwf. destruct (dict_find d k) as [v|] eqn:E.
  - pose proof (dict_erase_perm _ _ _ Hwf E) as P. unfold dict_wf, keys in *.
    rewrite P in Hwf. cbn in Hwf. by apply NoDup_cons in Hwf as [_ ?].
  - apply dict_find_None, dict_index_None in E. unfold dict_erase. by rewrite E.
Qed.

Lemma dict_find_perm d d' k : dict_wf d -> d ≡ₚ d' -> dict_find d k = dict_find d' k.
Proof.
  intros Hwf P. assert (Hwf' : dict_wf d') by (unfold dict_wf, keys in *; by rewrite <- P).
  destruct (dict_find d k) as [v|] eqn:E; symmetry.
  - apply dict_find_elem in E; [|done]. apply dict_find_elem; [done|]. by rewrite <- P.
  - apply dict_find_None. apply dict_find_None in E. unfold keys in *. by rewrite <- P.
Qed.

Lemma dict_find_snoc d k v k' :
  k ∉ keys d -> dict_find (d ++ [(k, v)]) k' = if decide (k = k') then Some v else dict_find d k'.
Proof.
  unfold dict_find, keys. induction d as [|[a b] d IH]; intros Hk.
  - cbn. case_decide; case_bool_decide; done.
  - rewrite fmap_cons, not_elem_of_cons in Hk. destruct Hk as [Hk1 Hk2]. cbn in Hk1 |- *.
    case_bool_decide as E; cbn.
    + case_decide; [congruence|done].
    + specialize (IH Hk2). destruct (dict_index (d ++ [(k, v)]) k'), (dict_index d k'); exact IH.
Qed.

Lemma dict_find_set d k v k' :
  dict_wf d -> dict_find (dict_set d k v) k' = if decide (k = k') then Some v else dict_find d k'.
Proof.
  intros Hwf. pose proof (dict_wf_set d k v Hwf) as Hwf'. unfold dict_set in *.
  destruct (dict_index d k) as [i|] eqn:E; [|by apply dict_find_snoc, dict_index_None].
  apply dict_index_Some in E as (w & Hw & Hl). case_decide as Ek.
  - subst. apply dict_find_elem; [done|]. apply list_elem_of_lookup. exists i.
    by apply list_lookup_insert_eq.
  - destruct (dict_find d k') as [u|] eqn:Eu.
    + apply dict_find_elem in Eu; [|done]. apply dict_find_elem; [done|].
      apply list_elem_of_lookup in Eu as [j Hj]. apply list_elem_of_lookup. exists j.
      destruct (decide (i = j)) as [->|]; [simplify_eq|by rewrite list_lookup_insert_ne].
    + apply dict_find_None in Eu. apply dict_find_None. unfold keys in *.
      rewrite list_fmap_insert. cbn. rewrite list_insert_id; [done|]. by rewrite list_lookup_fmap, Hw.
Qed.

Lemma dict_find_insert d k v k' :
  dict_find (dict_insert d k v) k' =
  if decide (k = k' /\ k ∉ keys d) then Some v else dict_find d k'.
Proof.
  unfold dict_insert. destruct (dict_index d k) as [i|] eqn:E.
  - rewrite decide_False; [done|]. intros [_ H]. apply dict_index_None in H. congruence.
  - apply dict_index_None in E. rewrite dict_find_snoc by done.
    destruct (decide (k = k')) as [->|];
      [by rewrite decide_True|by rewrite decide_False by naive_solver].
Qed.

Lemma dict_find_erase d k k' :
  dict_wf d -> dict_find (dict_erase d k) k' = if decide (k = k') then None else dict_find d k'.
Proof.
  intros Hwf. destruct (dict_find d k) as [v|] eqn:E.
  - pose proof (dict_erase_perm _ _ _ Hwf E) as P.
    rewrite (dict_find_perm d _ k' Hwf P).
    assert (Hn : k ∉ keys (dict_erase d k)).
    { unfold dict_wf, keys in *. rewrite P in Hwf. cbn in Hwf. by apply NoDup_cons in Hwf as [? _]. }
    case_decide as Ek; [subst; by apply dict_find_None|].
    unfold dict_find. cbn. rewrite bool_decide_false by done.
    by destruct (dict_index (dict_erase d k) k').
  - pose proof E as E'. apply dict_find_None, dict_index_None in E'. unfold dict_erase. rewrite E'.
    case_decide; [by subst|done].
Qed.

(** The finite map a container stands for. *)
Lemma keys_erase d k x : dict_wf d -> x ∈ keys (dict_erase d k) <-> x <> k /\ x ∈ keys d.
Proof.
  intros Hwf. pose proof (dict_find_erase d k x Hwf) as H.
  assert (Hk : forall d', x ∈ keys d' <-> dict_find d' x <> None).
  { intros d'. pose proof (dict_find_None d' x). destruct (decide (x ∈ keys d')); tauto. }
  rewrite !Hk, H. case_decide; naive_solver.
Qed.

Lemma keys_set_elem d k v x : x ∈ keys (dict_set d k v) <-> x = k \/ x ∈ keys d.
Proof.
  rewrite keys_set. destruct (dict_index d k) as [i|] eqn:E; [|set_solver].
  split; [tauto|]. intros [->|]; [|done]. apply dict_index_Some in E as (w & Hw & _).
  unfold keys. apply list_elem_of_fmap. exists (k, w). split; [done|]. by apply list_elem_of_lookup_2 in Hw.
Qed.

Lemma keys_insert_elem d k v x : x ∈ keys (dict_insert d k v) <-> x = k \/ x ∈ keys d.
Proof. rewrite keys_insert, <- (keys_set d k v). apply keys_set_elem. Qed.
End Dict.

(** Automation for the membership and well-formedness side conditions. *)
Create HintDb dict.
#[export] Hint Resolve dict_wf_set dict_wf_insert dict_wf_erase : dict.
