(* ===== verification/HashFn.v ===== *)
(** * The hash function of hashlib ([kernel/hashlib.h])

    The 32-bit hasher, its instance for integers and strings, and the table of
    table sizes.  Words are integers kept below 2^32 (2^64 for [hash64]). *)

From S2P Require Import Prelude.

Definition u32 (z : Z) : Z := z mod 2 ^ 32.

(** [static uint32_t fudge], set by [set_fudge], is an argument. *)
Definition hashtable_size_trigger : Z := 2.
Definition hashtable_size_factor : Z := 3.

Definition mkhash_xorshift (a : Z) : Z :=
  let a := Z.lxor a (u32 (Z.shiftl a 13)) in
  let a := Z.lxor a (Z.shiftr a 17) in
  Z.lxor a (u32 (Z.shiftl a 5)).

(** [((a << 5) + a) ^ b] *)
Definition djb2_xor (a b : Z) : Z := Z.lxor (u32 (u32 (Z.shiftl a 5) + a)) b.

Definition hasher_init : Z := 5381.

Definition hash32 (fudge state i : Z) : Z := mkhash_xorshift (Z.lxor fudge (djb2_xor i state)).

Definition hash64 (fudge state i : Z) : Z :=
  let state := djb2_xor (Z.land i (2 ^ 32 - 1)) state in
  let state := djb2_xor (u32 (Z.shiftr i 32)) state in
  mkhash_xorshift (Z.lxor fudge state).

(** Eight bytes read by [memcpy], least significant first; fewer at the end. *)
Fixpoint word64 (s : string) (n : nat) : Z * string :=
  match n, s with
  | S n, String c s =>
      let '(v, rest) := word64 s n in (Z.of_N (N_of_ascii c) + 256 * v, rest)
  | _, _ => (0, s)
  end.

(** [hash_into] of a string: words of eight bytes while more than eight are
    left, then the rest; the fuel bounds the number of words. *)
Fixpoint hash_string (fuel : nat) (fudge state : Z) (s : string) : Z :=
  let '(v, rest) := word64 s 8 in
  match fuel with
  | O => hash64 fudge state v
  | S fuel => if (8 <? String.length s)%nat then hash_string fuel fudge (hash64 fudge state v) rest
              else hash64 fudge state v
  end.

Definition run_hash (fudge : Z) (s : string) : Z := hash_string (String.length s) fudge hasher_init s.

Definition zero_and_some_primes : list Z :=
  [0; 23; 29; 37; 47; 59; 79; 101; 127; 163; 211; 269; 337; 431; 541; 677;
   853; 1069; 1361; 1709; 2137; 2677; 3347; 4201; 5261; 6577; 8231; 10289;
   12889; 16127; 20161; 25219; 31531; 39419; 49277; 61603; 77017; 96281;
   120371; 150473; 188107; 235159; 293957; 367453; 459317; 574157; 717697;
   897133; 1121423; 1401791; 1752239; 2190299; 2737937; 3422429; 4278037;
   5347553; 6684443; 8355563; 10444457; 13055587; 16319519; 20399411;
   25499291; 31874149; 39842687; 49803361; 62254207; 77817767; 97272239;
   121590311; 151987889; 189984863; 237481091; 296851369; 371064217;
   463830313; 579787991; 724735009; 905918777; 1132398479; 1415498113;
   1769372713; 2211715897; 2764644887; 3455806139].

(** [unsigned int] has four bytes: beyond the table the function throws. *)
Definition hashtable_size (min_size : Z) : option Z :=
  find (fun p => min_size <=? p) zero_and_some_primes.

(** ** Ranges *)

Lemma u32_range z : 0 <= u32 z < 2 ^ 32.
Proof. unfold u32. by apply Z.mod_pos_bound. Qed.

Lemma lxor_range a b n : 0 <= n -> 0 <= a < 2 ^ n -> 0 <= b < 2 ^ n -> 0 <= Z.lxor a b < 2 ^ n.
Proof.
  intros Hn Ha Hb. split; [apply Z.lxor_nonneg; split; lia|].
  destruct (decide (Z.lxor a b = 0)) as [->|Hz]; [lia|].
  assert (0 <= Z.lxor a b) by (apply Z.lxor_nonneg; split; lia).
  apply Z.log2_lt_pow2; [lia|].
  eapply Z.le_lt_trans; [apply Z.log2_lxor; lia|].
  assert (Hlog : forall c, 0 <= c < 2 ^ n -> c <> 0 -> Z.log2 c < n)
    by (intros c Hc Hc0; apply Z.log2_lt_pow2; lia).
  destruct (decide (a = 0)) as [->|], (decide (b = 0)) as [->|]; try done.
  - rewrite Z.lxor_0_l in *. apply Z.max_lub_lt; [|by apply Hlog].
    change (Z.log2 0) with 0. destruct (decide (n = 0)) as [->|]; [cbn in Hb; lia|lia].
  - rewrite Z.lxor_0_r in *. apply Z.max_lub_lt; [by apply Hlog|].
    change (Z.log2 0) with 0. destruct (decide (n = 0)) as [->|]; [cbn in Ha; lia|lia].
  - apply Z.max_lub_lt; by apply Hlog.
Qed.

Lemma mkhash_xorshift_range a : 0 <= a < 2 ^ 32 -> 0 <= mkhash_xorshift a < 2 ^ 32.
Proof.
  intros Ha. unfold mkhash_xorshift.
  assert (Hr : forall z, 0 <= z < 2 ^ 32 -> 0 <= Z.shiftr z 17 < 2 ^ 32).
  { intros z Hz. rewrite Z.shiftr_div_pow2 by lia. zdiv. }
  apply lxor_range; [lia| |apply u32_range].
  apply lxor_range; [lia| |apply Hr]; apply lxor_range; try lia; apply u32_range.
Qed.

Lemma hash32_range fudge s i :
  0 <= fudge < 2 ^ 32 -> 0 <= s < 2 ^ 32 -> 0 <= hash32 fudge s i < 2 ^ 32.
Proof.
  intros Hf Hs. apply mkhash_xorshift_range, lxor_range; [lia|done|].
  apply lxor_range; [lia|apply u32_range|done].
Qed.

Lemma hash64_range fudge s i :
  0 <= fudge < 2 ^ 32 -> 0 <= s < 2 ^ 32 -> 0 <= hash64 fudge s i < 2 ^ 32.
Proof.
  intros Hf Hs. apply mkhash_xorshift_range, lxor_range; [lia|done|].
  apply lxor_range; [lia|apply u32_range|]. apply lxor_range; [lia|apply u32_range|done].
Qed.

(** A hash is a 32-bit word. *)
Lemma run_hash_range fudge s : 0 <= fudge < 2 ^ 32 -> 0 <= run_hash fudge s < 2 ^ 32.
Proof.
  intros Hf. unfold run_hash.
  assert (H : forall n st t, 0 <= st < 2 ^ 32 -> 0 <= hash_string n fudge st t < 2 ^ 32).
  { induction n as [|n IH]; intros st t Hst; cbn [hash_string]; destruct (word64 t 8) as [v rest].
    - by apply hash64_range.
    - case_match; [|by apply hash64_range]. by apply IH, hash64_range. }
  apply H. unfold hasher_init. lia.
Qed.

(** The fuel of [run_hash] is enough: more does not change the result. *)
Lemma word64_rest s n : String.length (snd (word64 s n)) = (String.length s - n)%nat.
Proof.
  revert n. induction s as [|c s IH]; intros [|n]; try done.
  cbn. specialize (IH n). destruct (word64 s n). done.
Qed.

Lemma hash_string_fuel n m fudge st s :
  (String.length s <= n)%nat -> (n <= m)%nat -> hash_string n fudge st s = hash_string m fudge st s.
Proof.
  revert m st s. induction n as [|n IH]; intros m st s Hl Hm.
  - destruct m as [|m]; [done|]. cbn [hash_string]. destruct (word64 s 8).
    destruct (Nat.ltb_spec 8 (String.length s)); [lia|done].
  - destruct m as [|m]; [lia|]. cbn [hash_string].
    pose proof (word64_rest s 8) as Hr. destruct (word64 s 8) as [v rest]. cbn in Hr.
    destruct (Nat.ltb_spec 8 (String.length s)); [|done]. apply IH; lia.
Qed.
