(* ===== verification/Hashlib.v ===== *)
(** * The hash table of [dict] ([kernel/hashlib.h], class [dict])

    The entry vector with its [next] links, the bucket array [hashtable] and the
    private operations on them.  Indices are C++ [int]s with -1 for none;
    [None] is a failed [do_assert], an out-of-range access or the
    [length_error] of [hashtable_size].  The capacity of the entry vector at the
    point of a rehash is an argument of the operations that may rehash.  The
    class [pool] repeats this code with the key as the entry. *)

From S2P Require Import Prelude Dict HashFn.

Section Hashlib.
Context {K V : Type} `{EqDecision K}.
(** [ops.hash(key).yield()] *)
Variable hash : K -> Z.

Record entry_t := mkEntry { udata : K * V; next : Z }.
Record table := mkTable { hashtable : list Z; ents : list entry_t }.

Definition empty_table : table := mkTable [] [].

Definition do_assert (b : bool) : option unit := if b then Some tt else None.

Definition do_hash (t : table) (key : K) : Z :=
  match hashtable t with [] => 0 | _ => hash key mod Z.of_nat (length (hashtable t)) end.

(** [v[i]] for an index that must be in range. *)
Definition at_ {A} (l : list A) (i : Z) : option A := if i <? 0 then None else l !! Z.to_nat i.
Definition store {A} (l : list A) (i : Z) (x : A) : option (list A) :=
  if (0 <=? i) && (i <? Z.of_nat (length l)) then Some (<[Z.to_nat i := x]> l) else None.

Definition set_next (es : list entry_t) (k : Z) (n : Z) : option (list entry_t) :=
  e ← at_ es k; store es k (mkEntry (udata e) n).

(** The loop of [do_rehash]: entry [i] becomes the head of its bucket. *)
Fixpoint rehash_loop (size : nat) (es : list entry_t) (i : nat) (ht : list Z)
    : option (list entry_t * list Z) :=
  match es with
  | [] => Some ([], ht)
  | e :: es =>
      _ ← do_assert ((-1 <=? next e) && (next e <? Z.of_nat size));
      let h := hash (udata e).1 mod Z.of_nat (length ht) in
      n ← at_ ht h;
      ht ← store ht h (Z.of_nat i);
      '(es, ht) ← rehash_loop size es (S i) ht;
      Some (mkEntry (udata e) n :: es, ht)
  end.

Definition do_rehash (capacity : nat) (t : table) : option table :=
  n ← hashtable_size (u32 (Z.of_nat capacity * hashtable_size_factor));
  '(es, ht) ← rehash_loop (length (ents t)) (ents t) 0 (replicate (Z.to_nat n) (-1));
  Some (mkTable ht es).

(** [while (index >= 0 && entries[index].first != key) index = entries[index].next] *)
Fixpoint lookup_walk (fuel : nat) (es : list entry_t) (key : K) (index : Z) : option Z :=
  if index <? 0 then Some index
  else e ← at_ es index;
       if decide ((udata e).1 = key) then Some index
       else _ ← do_assert ((-1 <=? next e) && (next e <? Z.of_nat (length es)));
            match fuel with O => None | S fuel => lookup_walk fuel es key (next e) end.

Definition do_lookup_internal (t : table) (key : K) (h : Z) : option Z :=
  index ← at_ (hashtable t) h; lookup_walk (length (ents t)) (ents t) key index.

Definition do_lookup_no_rehash (t : table) (key : K) (h : Z) : option Z :=
  match hashtable t with [] => Some (-1) | _ => do_lookup_internal t key h end.

(** The state, the position and the (updated) hash. *)
Definition do_lookup (capacity : nat) (t : table) (key : K) (h : Z) : option (table * Z * Z) :=
  match hashtable t with
  | [] => Some (t, -1, h)
  | _ =>
      '(t, h) ←
        (if Z.of_nat (length (hashtable t)) <? Z.of_nat (length (ents t)) * hashtable_size_trigger
         then t ← do_rehash capacity t; Some (t, do_hash t key)
         else Some (t, h));
      i ← do_lookup_internal t key h;
      Some (t, i, h)
  end.

Definition do_insert (capacity : nat) (t : table) (value : K * V) (h : Z) : option (table * Z) :=
  t' ← match hashtable t with
       | [] => do_rehash capacity (mkTable [] (ents t ++ [mkEntry value (-1)]))
       | _ =>
           n ← at_ (hashtable t) h;
           let es := ents t ++ [mkEntry value n] in
           ht ← store (hashtable t) h (Z.of_nat (length es) - 1);
           Some (mkTable ht es)
       end;
  Some (t', Z.of_nat (length (ents t')) - 1).

(** [while (entries[k].next != index) k = entries[k].next] *)
Fixpoint pred_walk (fuel : nat) (es : list entry_t) (index k : Z) : option Z :=
  e ← at_ es k;
  if next e =? index then Some k
  else match fuel with
       | O => None
       | S fuel => _ ← do_assert ((0 <=? next e) && (next e <? Z.of_nat (length es)));
                   pred_walk fuel es index (next e)
       end.

(** Redirect the link to [index] in the bucket [h] to [target]. *)
Definition relink (t : table) (h index target : Z) : option table :=
  k ← at_ (hashtable t) h;
  _ ← do_assert ((0 <=? k) && (k <? Z.of_nat (length (ents t))));
  if k =? index
  then ht ← store (hashtable t) h target; Some (mkTable ht (ents t))
  else k ← pred_walk (length (ents t)) (ents t) index k;
       es ← set_next (ents t) k target; Some (mkTable (hashtable t) es).

Definition do_erase (t : table) (index h : Z) : option (table * Z) :=
  _ ← do_assert (index <? Z.of_nat (length (ents t)));
  match hashtable t with
  | [] => Some (t, 0)
  | _ =>
      if index <? 0 then Some (t, 0)
      else
        e ← at_ (ents t) index;
        t ← relink t h index (next e);
        let back_idx := Z.of_nat (length (ents t)) - 1 in
        t ← (if index =? back_idx then Some t
             else back ← at_ (ents t) back_idx;
                  t ← relink t (do_hash t (udata back).1) back_idx index;
                  back ← at_ (ents t) back_idx;
                  es ← store (ents t) index back;
                  Some (mkTable (hashtable t) es));
        let es := take (length (ents t) - 1) (ents t) in
        Some (mkTable (match es with [] => [] | _ => hashtable t end) es, 1)
  end.

(** ** The public operations *)

Definition ht_insert (cap1 cap2 : nat) (t : table) (k : K) (v : V) : option (table * bool) :=
  '(t, i, h) ← do_lookup cap1 t k (do_hash t k);
  if 0 <=? i then Some (t, false)
  else '(t, _) ← do_insert cap2 t (k, v) h; Some (t, true).

(** [d[k] = v]; a new entry is first made with the default value. *)
Definition ht_set (cap1 cap2 : nat) (dflt : V) (t : table) (k : K) (v : V) : option table :=
  '(t, i, h) ← do_lookup cap1 t k (do_hash t k);
  '(t, i) ← (if i <? 0 then do_insert cap2 t (k, dflt) h else Some (t, i));
  e ← at_ (ents t) i;
  es ← store (ents t) i (mkEntry ((udata e).1, v) (next e));
  Some (mkTable (hashtable t) es).

Definition ht_erase (cap : nat) (t : table) (k : K) : option (table * Z) :=
  '(t, i, h) ← do_lookup cap t k (do_hash t k);
  do_erase t i h.

Definition ht_find (cap : nat) (t : table) (k : K) : option (table * option V) :=
  '(t, i, _) ← do_lookup cap t k (do_hash t k);
  if i <? 0 then Some (t, None) else e ← at_ (ents t) i; Some (t, Some (udata e).2).

Definition ht_count (t : table) (k : K) : option bool :=
  i ← do_lookup_no_rehash t k (do_hash t k); Some (0 <=? i).
End Hashlib.
