(* ===== verification/HashlibSpec.v ===== *)
(** * The hash table implements the entry list ([kernel/hashlib.h])

    Every operation of [Hashlib.v] succeeds on a well-formed table, keeps it
    well-formed, and acts on the entry vector as the operation of [Dict.v]:
    same entries in the same order, so the same lookups and iteration order. *)

From S2P Require Import Prelude Dict HashFn Hashlib.

Section HashlibSpec.
Context {K V : Type} `{EqDecision K}.
Variable hash : K -> Z.

Abbreviation entry := (@entry_t K V).
Abbreviation tbl := (@table K V).

(** The entries a table holds, in order. *)
Definition contents (t : tbl) : dict K V := udata <$> ents t.

(** [l] lists the indices met from [start] along the links. *)
Fixpoint chain (es : list entry) (start : Z) (l : list nat) : Prop :=
  match l with
  | [] => start = -1
  | i :: l => start = Z.of_nat i /\ exists e, es !! i = Some e /\ chain es (next e) l
  end.

(** Bucket of an entry in a table of [n] buckets. *)
Definition bucket (n : nat) (e : entry) : Z := hash (udata e).1 mod Z.of_nat n.

(** Each bucket links exactly the entries of [P] that hash to it, once. *)
Definition buckets (P : nat -> Prop) (es : list entry) (ht : list Z) : Prop :=
  forall h start, ht !! h = Some start ->
  exists l, chain es start l /\ NoDup l /\
    forall i, i ∈ l <-> P i /\ exists e, es !! i = Some e /\ bucket (length ht) e = Z.of_nat h.

Definition everything (i : nat) : Prop := True.

Record ht_wf (t : tbl) : Prop := {
  wf_keys : dict_wf (contents t);
  wf_empty : hashtable t = [] -> ents t = [];
  wf_buckets : buckets everything (ents t) (hashtable t)
}.

Lemma at_nat {A} (l : list A) (i : nat) : at_ l (Z.of_nat i) = l !! i.
Proof. unfold at_. destruct (Z.ltb_spec (Z.of_nat i) 0); [lia|]. by rewrite Nat2Z.id. Qed.

Lemma store_nat {A} (l : list A) (i : nat) x :
  (i < length l)%nat -> store l (Z.of_nat i) x = Some (<[i := x]> l).
Proof.
  intros Hi. unfold store. destruct (Z.leb_spec 0 (Z.of_nat i)); [|lia].
  destruct (Z.ltb_spec (Z.of_nat i) (Z.of_nat (length l))); [|lia]. by rewrite Nat2Z.id.
Qed.

Lemma chain_mono es es' start l :
  chain es start l ->
  (forall i e, i ∈ l -> es !! i = Some e -> exists e', es' !! i = Some e' /\ next e' = next e) ->
  chain es' start l.
Proof.
  revert start. induction l as [|i l IH]; intros start; [done|].
  intros (-> & e & He & Hc) Hm. split; [done|].
  destruct (Hm i e ltac:(left) He) as (e' & He' & Hn). exists e'. split; [done|]. rewrite Hn.
  apply IH; [done|]. intros j x Hj. apply Hm. by right.
Qed.

Lemma chain_elem es start l i : chain es start l -> i ∈ l -> exists e, es !! i = Some e.
Proof.
  revert start. induction l as [|j l IH]; intros start; [intros _ H; by apply not_elem_of_nil in H|].
  intros (_ & e & He & Hc) [->|Hi]%elem_of_cons; [by exists e|]. by eapply IH.
Qed.

Lemma chain_start es start l :
  chain es start l -> -1 <= start < Z.of_nat (length es).
Proof.
  destruct l as [|i l]; cbn; [intros ->; lia|]. intros (-> & e & He & _).
  apply lookup_lt_Some in He. lia.
Qed.

Lemma chain_next es start l i e : chain es start l -> i ∈ l -> es !! i = Some e ->
  -1 <= next e < Z.of_nat (length es).
Proof.
  revert start. induction l as [|j l IH]; intros start; [intros _ H; by apply not_elem_of_nil in H|].
  intros (_ & e' & He & Hc) [->|Hi]%elem_of_cons Hi'; [|by eapply IH].
  simplify_eq. by eapply chain_start.
Qed.

Lemma mod_bucket n k : (0 < n)%nat -> exists h, (h < n)%nat /\ hash k mod Z.of_nat n = Z.of_nat h.
Proof.
  intros Hn. pose proof (Z.mod_pos_bound (hash k) (Z.of_nat n) ltac:(lia)).
  exists (Z.to_nat (hash k mod Z.of_nat n)). split; lia.
Qed.

(** The links of a well-formed table stay in range. *)
Lemma buckets_next es ht i e :
  (0 < length ht)%nat -> buckets everything es ht -> es !! i = Some e ->
  -1 <= next e < Z.of_nat (length es).
Proof.
  intros Hn HB Hi. destruct (mod_bucket (length ht) (udata e).1 Hn) as (h & Hh & Eh).
  destruct (lookup_lt_is_Some_2 ht h Hh) as [start Hs].
  destruct (HB h start Hs) as (l & Hc & _ & Hl).
  eapply chain_next; [exact Hc| |exact Hi]. apply Hl. split; [done|]. by exists e.
Qed.

(** ** Prepending an entry to its bucket *)

Lemma buckets_push es ht v h start :
  buckets everything es ht -> ht !! h = Some start ->
  hash v.1 mod Z.of_nat (length ht) = Z.of_nat h ->
  buckets everything (es ++ [mkEntry v start]) (<[h := Z.of_nat (length es)]> ht).
Proof.
  intros HB Hs Hv h' start'. rewrite length_insert. intros Hs'.
  assert (Hmono : forall s l, chain es s l -> chain (es ++ [mkEntry v start]) s l).
  { intros s l Hc. eapply chain_mono; [exact Hc|]. intros i e _ He. exists e.
    by rewrite lookup_app_l by (by eapply lookup_lt_Some). }
  destruct (decide (h = h')) as [<-|Ne].
  - rewrite list_lookup_insert_eq in Hs' by (by eapply lookup_lt_Some). injection Hs' as <-.
    destruct (HB h start Hs) as (l & Hc & Hnd & Hl). exists (length es :: l). split_and!.
    + split; [done|]. exists (mkEntry v start). rewrite list_lookup_middle by done.
      split; [done|]. by apply Hmono.
    + constructor; [|done]. intros Hin. destruct (chain_elem _ _ _ _ Hc Hin) as [e He].
      apply lookup_lt_Some in He. lia.
    + intros i. rewrite elem_of_cons, Hl. split.
      * intros [->|(_ & e & He & Eb)]; (split; [done|]).
        -- exists (mkEntry v start). by rewrite list_lookup_middle by done.
        -- exists e. by rewrite lookup_app_l by (by eapply lookup_lt_Some).
      * intros (_ & e & He & Eb). apply lookup_snoc_Some in He as [[_ He]|[-> <-]]; [|by left].
        right. split; [done|]. by exists e.
  - rewrite list_lookup_insert_ne in Hs' by done.
    destruct (HB h' start' Hs') as (l & Hc & Hnd & Hl). exists l. split_and!; [by apply Hmono|done|].
    intros i. rewrite Hl. split; intros (_ & e & He & Eb); (split; [done|]); exists e.
    + by rewrite lookup_app_l by (by eapply lookup_lt_Some).
    + apply lookup_snoc_Some in He as [[_ He]|[-> <-]]; [done|].
      unfold bucket in Eb. cbn in Eb. exfalso. apply Ne. lia.
Qed.

(** ** Rehashing *)

Lemma rehash_loop_ok size es pre ht :
  (0 < length ht)%nat -> buckets everything pre ht ->
  Forall (fun e : entry => -1 <= next e < Z.of_nat size) es ->
  exists es' ht', rehash_loop hash size es (length pre) ht = Some (es', ht') /\
    udata <$> es' = udata <$> es /\ length ht' = length ht /\ buckets everything (pre ++ es') ht'.
Proof.
  intros Hn HB HF. revert pre ht Hn HB. induction HF as [|e es He HF IH]; intros pre ht Hn HB.
  - exists [], ht. rewrite app_nil_r. done.
  - cbn [rehash_loop]. unfold do_assert.
    destruct (Z.leb_spec (-1) (next e)), (Z.ltb_spec (next e) (Z.of_nat size)); try lia.
    cbn [andb mbind option_bind].
    destruct (mod_bucket (length ht) (udata e).1 Hn) as (h & Hh & Eh). rewrite Eh, at_nat.
    destruct (lookup_lt_is_Some_2 ht h Hh) as [start Hs]. rewrite Hs. cbn [mbind option_bind].
    rewrite store_nat by done. cbn [mbind option_bind].
    destruct (IH (pre ++ [mkEntry (udata e) start]) (<[h := Z.of_nat (length pre)]> ht))
      as (es' & ht' & E & Eu & El & HB').
    + by rewrite length_insert.
    + by apply buckets_push.
    + rewrite length_app in E. cbn in E. rewrite Nat.add_1_r in E. rewrite E.
      cbn [mbind option_bind]. eexists _, ht'. split; [done|].
      rewrite length_insert in El. rewrite !fmap_cons, Eu. split_and!; [done|done|].
      by rewrite <- app_assoc in HB'.
Qed.

(** A table size that the prime table provides. *)
Definition fits (cap : nat) : Prop := (0 < cap)%nat /\ Z.of_nat cap * hashtable_size_factor <= 3455806139.

Lemma hashtable_size_fits cap :
  fits cap ->
  exists n, hashtable_size (u32 (Z.of_nat cap * hashtable_size_factor)) = Some n /\
    Z.of_nat cap * hashtable_size_factor <= n.
Proof.
  intros [Hc Hm]. unfold hashtable_size_factor in *. unfold u32. rewrite Z.mod_small by lia.
  unfold hashtable_size. destruct (find _ _) as [n|] eqn:E.
  - exists n. split; [done|]. apply find_some in E as [_ E%Z.leb_le]. lia.
  - exfalso. apply (find_none _ _) with (x := 3455806139) in E; [|by right; vm_compute; auto 100].
    apply Z.leb_gt in E. lia.
Qed.

Lemma do_rehash_ok cap t :
  fits cap -> Forall (fun e : entry => -1 <= next e < Z.of_nat (length (ents t))) (ents t) ->
  exists t', do_rehash hash cap t = Some t' /\ contents t' = contents t /\
    hashtable t' <> [] /\ buckets everything (ents t') (hashtable t').
Proof.
  intros Hf HF. unfold do_rehash. destruct (hashtable_size_fits cap Hf) as (n & -> & Hn).
  cbn [mbind option_bind]. destruct Hf as [Hc _]. unfold hashtable_size_factor in Hn.
  destruct (rehash_loop_ok (length (ents t)) (ents t) [] (replicate (Z.to_nat n) (-1)))
    as (es' & ht' & E & Eu & El & HB).
  - rewrite length_replicate. lia.
  - intros h start Hs. apply lookup_replicate in Hs as [-> _]. exists []. split; [done|].
    split; [constructor|]. intros i. split; [intros Hi; by apply not_elem_of_nil in Hi|].
    by intros (_ & e & He & _).
  - done.
  - cbn [length] in E. rewrite E. cbn [mbind option_bind]. eexists. split; [done|].
    split; [exact Eu|]. split; [|exact HB].
    cbn. intros ->. rewrite length_replicate in El. cbn in El. lia.
Qed.

Lemma wf_next t : ht_wf t -> Forall (fun e : entry => -1 <= next e < Z.of_nat (length (ents t))) (ents t).
Proof.
  intros [_ He HB]. apply Forall_forall. intros e Hin.
  apply list_elem_of_lookup in Hin as [i Hi].
  destruct (hashtable t) as [|x ht] eqn:E; [by rewrite He in Hi|].
  eapply buckets_next; [|exact HB|exact Hi]. cbn. lia.
Qed.

Lemma do_rehash_wf cap t :
  fits cap -> ht_wf t ->
  exists t', do_rehash hash cap t = Some t' /\ contents t' = contents t /\ hashtable t' <> [] /\ ht_wf t'.
Proof.
  intros Hf Hwf. destruct (do_rehash_ok cap t Hf (wf_next t Hwf)) as (t' & E & Ec & Hne & HB).
  exists t'. split_and!; [done|done|done|]. split; [|done|done].
  rewrite Ec. apply Hwf.
Qed.

(** ** Lookup *)

(** The position as the code returns it. *)
Definition index_of (o : option nat) : Z := match o with Some i => Z.of_nat i | None => -1 end.

Lemma lookup_walk_ok es key start l fuel :
  chain es start l -> (length l <= fuel)%nat ->
  exists i, lookup_walk fuel es key start = Some i /\
    ((i = -1 /\ forall j e, j ∈ l -> es !! j = Some e -> (udata e).1 <> key) \/
     (exists j e, i = Z.of_nat j /\ j ∈ l /\ es !! j = Some e /\ (udata e).1 = key)).
Proof.
  revert start fuel. induction l as [|j l IH]; intros start fuel.
  - cbn. intros -> _. destruct fuel; cbn; exists (-1); (split; [done|]); left;
      (split; [done|]); intros j e Hj; by apply not_elem_of_nil in Hj.
  - cbn. intros (-> & e & He & Hc) Hf. destruct fuel as [|fuel]; [lia|].
    cbn [lookup_walk]. destruct (Z.ltb_spec (Z.of_nat j) 0); [lia|].
    rewrite at_nat, He. cbn [mbind option_bind]. case_decide as Ek.
    + exists (Z.of_nat j). split; [done|]. right. exists j, e. split_and!; [done|left|done|done].
    + pose proof (chain_start _ _ _ Hc) as Hr. unfold do_assert.
      destruct (Z.leb_spec (-1) (next e)), (Z.ltb_spec (next e) (Z.of_nat (length es))); try lia.
      cbn [andb mbind option_bind].
      destruct (IH (next e) fuel Hc ltac:(lia)) as (i & -> & [[-> Hn]|(j' & e' & -> & Hj & He' & Ek')]).
      * exists (-1). split; [done|]. left. split; [done|].
        intros j' e' [->|Hj']%elem_of_cons He'; [by simplify_eq|by eapply Hn].
      * exists (Z.of_nat j'). split; [done|]. right. exists j', e'. split_and!; [done|by right|done|done].
Qed.

Lemma NoDup_bounded (l : list nat) n : NoDup l -> (forall i, i ∈ l -> (i < n)%nat) -> (length l <= n)%nat.
Proof.
  intros Hd Hb. rewrite <- (length_seq n 0). apply submseteq_length, NoDup_submseteq; [done|].
  intros i Hi. apply elem_of_seq. specialize (Hb i Hi). lia.
Qed.

Lemma contents_lookup t i e : ents t !! i = Some e -> contents t !! i = Some (udata e).
Proof. intros Hi. unfold contents. by rewrite list_lookup_fmap, Hi. Qed.

Lemma contents_lookup_inv t i kv : contents t !! i = Some kv -> exists e, ents t !! i = Some e /\ udata e = kv.
Proof.
  unfold contents. rewrite list_lookup_fmap. destruct (ents t !! i) as [e|]; [|done].
  intros [= <-]. by exists e.
Qed.

Lemma do_hash_nonempty (t : tbl) key :
  hashtable t <> [] -> do_hash hash t key = hash key mod Z.of_nat (length (hashtable t)).
Proof. unfold do_hash. by destruct (hashtable t). Qed.

Lemma do_lookup_internal_ok t key :
  ht_wf t -> hashtable t <> [] ->
  do_lookup_internal t key (do_hash hash t key) = Some (index_of (dict_index (contents t) key)).
Proof.
  intros Hwf Hne. unfold do_lookup_internal. rewrite do_hash_nonempty by done.
  assert (Hn : (0 < length (hashtable t))%nat) by (destruct (hashtable t); [done|cbn; lia]).
  destruct (mod_bucket (length (hashtable t)) key Hn) as (h & Hh & Eh). rewrite Eh, at_nat.
  destruct (lookup_lt_is_Some_2 (hashtable t) h Hh) as [start Hs]. rewrite Hs. cbn [mbind option_bind].
  destruct (wf_buckets _ Hwf h start Hs) as (l & Hc & Hd & Hl).
  destruct (lookup_walk_ok (ents t) key start l (length (ents t)) Hc) as (i & -> & Hi).
  { apply NoDup_bounded; [done|]. intros i Hi. destruct (chain_elem _ _ _ _ Hc Hi) as [e He].
    by apply lookup_lt_Some in He. }
  f_equal. destruct Hi as [[-> Hn']|(j & e & -> & Hj & He & Ek)].
  - destruct (dict_index (contents t) key) as [j|] eqn:E; [|done]. exfalso.
    apply dict_index_Some in E as (v & Hj & _). apply contents_lookup_inv in Hj as (e & He & Eu).
    apply (Hn' j e); [|done|by rewrite Eu]. apply Hl. split; [done|]. exists e. split; [done|].
    unfold bucket. by rewrite Eu.
  - rewrite (dict_index_lookup (contents t) key (udata e).2 j); [done|apply Hwf|].
    rewrite (contents_lookup _ _ _ He). subst key. by destruct (udata e).
Qed.

Lemma contents_nil t : ht_wf t -> hashtable t = [] -> contents t = [].
Proof. intros Hwf E. unfold contents. by rewrite (wf_empty _ Hwf E). Qed.

Lemma do_lookup_ok cap t key :
  fits cap -> ht_wf t ->
  exists t' h, do_lookup hash cap t key (do_hash hash t key) =
      Some (t', index_of (dict_index (contents t) key), h) /\
    ht_wf t' /\ contents t' = contents t /\ h = do_hash hash t' key /\
    (hashtable t = [] -> t' = t) /\ (hashtable t <> [] -> hashtable t' <> []).
Proof.
  intros Hf Hwf. unfold do_lookup. destruct (hashtable t) as [|x ht] eqn:E.
  - exists t, (do_hash hash t key). rewrite (contents_nil t Hwf E). cbn. split_and!; done.
  - rewrite <- E. assert (Hne : hashtable t <> []) by (by rewrite E).
    destruct (Z.of_nat (length (hashtable t)) <? _).
    + destruct (do_rehash_wf cap t Hf Hwf) as (t' & -> & Ec & Hne' & Hwf'). cbn [mbind option_bind].
      rewrite do_lookup_internal_ok by done. cbn [mbind option_bind].
      exists t', (do_hash hash t' key). rewrite Ec. split_and!; done.
    + cbn [mbind option_bind]. rewrite do_lookup_internal_ok by done. cbn [mbind option_bind].
      exists t, (do_hash hash t key). split_and!; done.
Qed.

Lemma ht_count_ok t key : ht_wf t -> ht_count hash t key = Some (dict_count (contents t) key).
Proof.
  intros Hwf. unfold ht_count, do_lookup_no_rehash, dict_count. destruct (hashtable t) as [|x ht] eqn:E.
  - by rewrite (contents_nil t Hwf E).
  - rewrite do_lookup_internal_ok by (done || by rewrite E). cbn [mbind option_bind]. f_equal.
    destruct (dict_index (contents t) key); cbn; [|done].
    destruct (Z.leb_spec 0 (Z.of_nat n)); [done|lia].
Qed.

(** ** Insertion *)

Lemma dict_wf_snoc (d : dict K V) k v : dict_wf d -> k ∉ keys d -> dict_wf (d ++ [(k, v)]).
Proof. unfold dict_wf, keys. intros. rewrite fmap_app. by apply wf_snoc. Qed.

Lemma do_insert_ok cap t k v :
  fits cap -> ht_wf t -> k ∉ keys (contents t) ->
  exists t', do_insert hash cap t (k, v) (do_hash hash t k) = Some (t', Z.of_nat (length (ents t))) /\
    ht_wf t' /\ contents t' = contents t ++ [(k, v)].
Proof.
  intros Hf Hwf Hk. unfold do_insert. destruct (hashtable t) as [|x ht] eqn:E.
  - rewrite (wf_empty _ Hwf E). cbn [app].
    destruct (do_rehash_ok cap (mkTable [] [mkEntry (k, v) (-1)]) Hf) as (t' & -> & Ec & Hne & HB).
    { cbn. constructor; [cbn; lia|constructor]. }
    cbn [mbind option_bind]. exists t'. rewrite (contents_nil t Hwf E). cbn in Ec.
    assert (El : length (ents t') = 1%nat).
    { apply (f_equal length) in Ec. unfold contents in Ec. by rewrite length_fmap in Ec. }
    rewrite El. split_and!; [done| |done]. split; [|done|done].
    rewrite Ec. apply NoDup_singleton.
  - assert (Hne : hashtable t <> []) by (by rewrite E). rewrite <- E.
    rewrite do_hash_nonempty by done.
    assert (Hn : (0 < length (hashtable t))%nat) by (rewrite E; cbn; lia).
    destruct (mod_bucket (length (hashtable t)) k Hn) as (h & Hh & Eh). rewrite Eh, at_nat.
    destruct (lookup_lt_is_Some_2 (hashtable t) h Hh) as [start Hs]. rewrite Hs. cbn [mbind option_bind].
    rewrite store_nat by done. cbn [mbind option_bind ents hashtable]. rewrite length_app. cbn [length].
    replace (Z.of_nat (length (ents t) + 1) - 1) with (Z.of_nat (length (ents t))) by lia.
    eexists. split; [done|]. unfold contents. cbn [ents]. rewrite fmap_app. split; [|done].
    split; unfold contents; cbn [ents hashtable].
    + rewrite fmap_app. apply dict_wf_snoc; [apply Hwf|done].
    + intros E'. apply (f_equal length) in E'. rewrite length_insert in E'. cbn in E'. lia.
    + apply buckets_push; [apply Hwf|done|done].
Qed.

(** ** Erasing *)

Lemma pred_walk_ok es start l0 p x l2 fuel :
  chain es start (l0 ++ p :: x :: l2) -> NoDup (l0 ++ p :: x :: l2) -> (length l0 <= fuel)%nat ->
  pred_walk fuel es (Z.of_nat x) start = Some (Z.of_nat p).
Proof.
  revert start fuel. induction l0 as [|j l0 IH]; intros start fuel; cbn [app chain].
  - intros (-> & e & He & Hx & _) _ _. destruct fuel; cbn [pred_walk]; rewrite at_nat, He;
      cbn [mbind option_bind]; by rewrite Hx, Z.eqb_refl.
  - intros (-> & e & He & Hc) Hd Hf. destruct fuel as [|fuel]; [cbn in Hf; lia|].
    apply NoDup_cons in Hd as [Hj Hd].
    cbn [pred_walk]. rewrite at_nat, He. cbn [mbind option_bind].
    assert (Hne : next e <> Z.of_nat x).
    { intros En. destruct l0 as [|a l0]; cbn [app chain] in Hc; destruct Hc as (En' & _);
        rewrite En in En'; apply Nat2Z.inj in En'; subst.
      - apply NoDup_cons in Hd as [Hd _]. apply Hd. left.
      - apply NoDup_cons in Hd as [Hd _]. apply Hd. rewrite elem_of_app, !elem_of_cons. auto. }
    destruct (Z.eqb_spec (next e) (Z.of_nat x)); [done|].
    assert (Hr : 0 <= next e < Z.of_nat (length es)).
    { pose proof (chain_start _ _ _ Hc). destruct l0; cbn in Hc; destruct Hc as [Eq _]; lia. }
    unfold do_assert. destruct (Z.leb_spec 0 (next e)), (Z.ltb_spec (next e) (Z.of_nat (length es))); try lia.
    cbn [andb mbind option_bind]. apply IH; [done|done|cbn in Hf; lia].
Qed.

(** Redirecting the link to [x] splices the list after it. *)
Lemma chain_splice es es' start l0 p e l l' target :
  chain es start (l0 ++ p :: l) -> es !! p = Some e -> es' !! p = Some (mkEntry (udata e) target) ->
  (forall j, j ∈ l0 -> es' !! j = es !! j) ->
  chain es' target l' -> chain es' start (l0 ++ p :: l').
Proof.
  revert start. induction l0 as [|j l0 IH]; intros start; cbn [app chain].
  - intros (-> & _) He He' _ Hc. split; [done|]. by eexists.
  - intros (-> & e0 & He0 & Hc) He He' Hs Hc'. split; [done|]. exists e0.
    split; [by rewrite Hs by left|]. apply IH; [done|done|done| |done].
    intros k Hk. apply Hs. by right.
Qed.

Lemma relink_ok (t : tbl) h start l1 x l2 target :
  hashtable t !! h = Some start -> chain (ents t) start (l1 ++ x :: l2) -> NoDup (l1 ++ x :: l2) ->
  exists t', relink t (Z.of_nat h) (Z.of_nat x) target = Some t' /\
    length (hashtable t') = length (hashtable t) /\ contents t' = contents t /\
    (forall h', h' <> h -> hashtable t' !! h' = hashtable t !! h') /\
    (forall i, i ∉ l1 -> ents t' !! i = ents t !! i) /\
    (exists start', hashtable t' !! h = Some start' /\
       forall es'' l', (forall j, j ∈ l1 -> es'' !! j = ents t' !! j) ->
         chain es'' target l' -> chain es'' start' (l1 ++ l')).
Proof.
  intros Hs Hc Hd. unfold relink. rewrite at_nat, Hs. cbn [mbind option_bind].
  assert (Hr : 0 <= start < Z.of_nat (length (ents t))).
  { pose proof (chain_start _ _ _ Hc). destruct l1; cbn in Hc; destruct Hc as [Eq _]; lia. }
  unfold do_assert. destruct (Z.leb_spec 0 start), (Z.ltb_spec start (Z.of_nat (length (ents t)))); try lia.
  cbn [andb mbind option_bind]. pose proof (lookup_lt_Some _ _ _ Hs) as Hh.
  destruct l1 as [|p l1 _] using rev_ind.
  - cbn in Hc. destruct Hc as (-> & _). rewrite Z.eqb_refl, store_nat by done. cbn [mbind option_bind].
    eexists. split; [done|]. cbn [hashtable ents]. split_and!; [by rewrite length_insert|done| |done|].
    + intros h' Hh'. by rewrite list_lookup_insert_ne.
    + exists target. rewrite list_lookup_insert_eq by done. by split.
  - rewrite <- app_assoc in Hc, Hd. cbn [app] in Hc, Hd.
    assert (Hne : start <> Z.of_nat x).
    { intros ->. destruct l1 as [|a l1]; cbn in Hc; destruct Hc as [E _]; apply Nat2Z.inj in E; subst.
      - apply NoDup_cons in Hd as [Hd _]. apply Hd. left.
      - apply NoDup_cons in Hd as [Hd _]. apply Hd. rewrite elem_of_app, !elem_of_cons. auto. }
    destruct (Z.eqb_spec start (Z.of_nat x)); [done|].
    destruct (chain_elem _ _ _ p Hc) as [e He]; [rewrite elem_of_app, elem_of_cons; auto|].
    rewrite (pred_walk_ok _ _ _ _ _ _ _ Hc Hd).
    2: { etrans; [|apply (NoDup_bounded (l1 ++ p :: x :: l2)); [done|]].
         - rewrite length_app. lia.
         - intros i Hi. destruct (chain_elem _ _ _ _ Hc Hi) as [e' He']. by apply lookup_lt_Some in He'. }
    cbn [mbind option_bind]. pose proof (lookup_lt_Some _ _ _ He) as Hp.
    unfold set_next. rewrite at_nat, He. cbn [mbind option_bind]. rewrite store_nat by done.
    cbn [mbind option_bind]. eexists. split; [done|]. cbn [hashtable ents].
    assert (Hp1 : p ∉ l1) by (apply NoDup_app in Hd as (_ & Hd & _); intros Hin; apply (Hd p Hin); left).
    split_and!; [done| |done| |].
    + unfold contents. cbn [ents]. rewrite list_fmap_insert. cbn. rewrite list_insert_id; [done|].
      by rewrite list_lookup_fmap, He.
    + intros i Hi. rewrite list_lookup_insert_ne; [done|]. intros ->. apply Hi.
      rewrite elem_of_app, list_elem_of_singleton. auto.
    + exists start. split; [done|]. intros es'' l' Hsame Hc'. rewrite <- app_assoc. cbn [app].
      eapply chain_splice; [exact Hc|exact He| | |exact Hc'].
      * rewrite Hsame by (rewrite elem_of_app, list_elem_of_singleton; auto).
        by rewrite list_lookup_insert_eq.
      * intros j Hj. rewrite Hsame by (rewrite elem_of_app; auto).
        rewrite list_lookup_insert_ne; [done|]. intros ->. done.
Qed.

(** Membership of a bucket only depends on the contents. *)
Lemma bucket_contents (t t' : tbl) i n h :
  contents t' = contents t ->
  (exists e, ents t !! i = Some e /\ bucket n e = Z.of_nat h) <->
  (exists e, ents t' !! i = Some e /\ bucket n e = Z.of_nat h).
Proof.
  assert (Himp : forall t t' : tbl, contents t' = contents t ->
    (exists e, ents t !! i = Some e /\ bucket n e = Z.of_nat h) ->
    (exists e, ents t' !! i = Some e /\ bucket n e = Z.of_nat h)).
  { intros t1 t2 Ec (e & He & Hb). apply contents_lookup in He. rewrite <- Ec in He.
    apply contents_lookup_inv in He as (e' & He' & Eu). exists e'. split; [done|].
    unfold bucket in *. by rewrite Eu. }
  intros Ec. split; apply Himp; done.
Qed.

Lemma chain_agree es es' start l :
  (forall j, j ∈ l -> es' !! j = es !! j) -> chain es start l -> chain es' start l.
Proof.
  intros Ha Hc. eapply chain_mono; [exact Hc|]. intros i e Hi He. exists e. by rewrite Ha.
Qed.

(** Taking an entry out of its bucket. *)
Lemma unlink_ok (P : nat -> Prop) (t : tbl) x e h :
  buckets P (ents t) (hashtable t) -> P x -> ents t !! x = Some e ->
  (h < length (hashtable t))%nat -> bucket (length (hashtable t)) e = Z.of_nat h ->
  exists t', relink t (Z.of_nat h) (Z.of_nat x) (next e) = Some t' /\
    length (hashtable t') = length (hashtable t) /\ contents t' = contents t /\
    ents t' !! x = Some e /\
    buckets (fun j => P j /\ j <> x) (ents t') (hashtable t').
Proof.
  intros HB Px Hx Hh Hb. destruct (lookup_lt_is_Some_2 (hashtable t) h Hh) as [start Hs].
  destruct (HB h start Hs) as (l & Hc & Hd & Hl).
  assert (Hin : x ∈ l) by (apply Hl; split; [done|by exists e]).
  apply list_elem_of_split in Hin as (l1 & l2 & ->).
  destruct (relink_ok t h start l1 x l2 (next e) Hs Hc Hd)
    as (t' & E & El & Ec & Hht & Hen & start' & Hs' & Hsplice).
  assert (Hd' : NoDup (l1 ++ l2) /\ x ∉ l1 ++ l2).
  { rewrite <- Permutation_middle in Hd. apply NoDup_cons in Hd as [? ?]. done. }
  destruct Hd' as [Hd' Hx12].
  assert (Hc2 : chain (ents t) (next e) l2).
  { clear -Hc Hx. revert start Hc. induction l1 as [|a l1 IH]; intros start; cbn.
    - intros (_ & e' & He' & Hc). by simplify_eq.
    - intros (_ & e' & _ & Hc). by eapply IH. }
  exists t'. split_and!; [done|done|done| |].
  { rewrite Hen; [done|]. intros ?. apply Hx12. rewrite elem_of_app. auto. }
  intros h' s' Hh'. rewrite El. destruct (decide (h' = h)) as [->|Ne].
  - simplify_eq. exists (l1 ++ l2). split_and!; [|done|].
    + apply Hsplice; [done|]. eapply chain_agree; [|exact Hc2]. intros j Hj. apply Hen.
      intros Hj1. apply NoDup_app in Hd' as (_ & Hdis & _). by eapply Hdis.
    + intros j. rewrite <- (bucket_contents t t') by done. specialize (Hl j).
      rewrite elem_of_app, elem_of_cons in Hl. rewrite elem_of_app in Hx12 |- *.
      destruct (decide (j = x)) as [->|]; tauto.
  - rewrite Hht in Hh' by done. destruct (HB h' s' Hh') as (l' & Hc' & Hdl' & Hl').
    assert (Hdisj : forall j, j ∈ l' -> j ∉ l1 ++ x :: l2).
    { intros j [_ (e1 & He1 & Hb1)]%Hl' [_ (e2 & He2 & Hb2)]%Hl. simplify_eq. rewrite Hb1 in Hb2. lia. }
    exists l'. split_and!; [|done|].
    + eapply chain_agree; [|exact Hc']. intros j Hj. apply Hen. intros ?.
      apply (Hdisj j Hj). rewrite elem_of_app. auto.
    + intros j. rewrite <- (bucket_contents t t') by done. rewrite Hl'. split; [|tauto].
      intros [HP Hj]. split; [|done]. split; [done|]. intros ->.
      apply (Hdisj x); [by apply Hl'|]. rewrite elem_of_app, elem_of_cons. auto.
Qed.

(** Moving the entry [b] into the slot [i], which is in no bucket. *)
Lemma move_ok (P : nat -> Prop) (t : tbl) i b e h :
  buckets P (ents t) (hashtable t) -> P b -> ~ P i -> (i < length (ents t))%nat ->
  ents t !! b = Some e -> (h < length (hashtable t))%nat ->
  bucket (length (hashtable t)) e = Z.of_nat h ->
  exists t', relink t (Z.of_nat h) (Z.of_nat b) (Z.of_nat i) = Some t' /\
    length (hashtable t') = length (hashtable t) /\ contents t' = contents t /\
    ents t' !! b = Some e /\
    buckets (fun j => (P j /\ j <> b) \/ j = i) (<[i := e]> (ents t')) (hashtable t').
Proof.
  intros HB Pb Pi Hi He Hh Hb. destruct (lookup_lt_is_Some_2 (hashtable t) h Hh) as [start Hs].
  destruct (HB h start Hs) as (l & Hc & Hd & Hl).
  assert (Hin : b ∈ l) by (apply Hl; split; [done|by exists e]).
  apply list_elem_of_split in Hin as (l1 & l2 & ->).
  destruct (relink_ok t h start l1 b l2 (Z.of_nat i) Hs Hc Hd)
    as (t' & E & El & Ec & Hht & Hen & start' & Hs' & Hsplice).
  assert (Hd' : NoDup (l1 ++ l2) /\ b ∉ l1 ++ l2).
  { rewrite <- Permutation_middle in Hd. apply NoDup_cons in Hd as [? ?]. done. }
  destruct Hd' as [Hd' Hb12].
  assert (Hi12 : i ∉ l1 ++ b :: l2) by (intros [? _]%Hl; done).
  assert (Hlen : length (ents t') = length (ents t)).
  { apply (f_equal length) in Ec. unfold contents in Ec. by rewrite !length_fmap in Ec. }
  assert (Hc2 : chain (ents t) (next e) l2).
  { clear -Hc He. revert start Hc. induction l1 as [|a l1 IH]; intros start; cbn.
    - intros (_ & e' & He' & Hc). by simplify_eq.
    - intros (_ & e' & _ & Hc). by eapply IH. }
  assert (Hagree : forall j, j ∉ l1 -> j <> i -> <[i := e]> (ents t') !! j = ents t !! j).
  { intros j Hj1 Hji. rewrite list_lookup_insert_ne by done. by apply Hen. }
  assert (Hbk : forall j n h', j <> i ->
    (exists e', ents t !! j = Some e' /\ bucket n e' = Z.of_nat h') <->
    (exists e', <[i := e]> (ents t') !! j = Some e' /\ bucket n e' = Z.of_nat h')).
  { intros j n h' Hj. rewrite list_lookup_insert_ne by done. by apply bucket_contents. }
  exists t'. split_and!; [done|done|done| |].
  { rewrite Hen; [done|]. intros ?. apply Hb12. rewrite elem_of_app. auto. }
  intros h' s' Hh'. rewrite El. destruct (decide (h' = h)) as [->|Ne].
  - simplify_eq. exists (l1 ++ i :: l2). rewrite elem_of_app, elem_of_cons in Hi12. split_and!.
    + apply Hsplice.
      * intros j Hj. rewrite list_lookup_insert_ne; [done|]. intros <-. tauto.
      * split; [done|]. exists e. rewrite list_lookup_insert_eq by lia. split; [done|].
        eapply chain_agree; [|exact Hc2]. intros j Hj. apply Hagree; [|intros ->; tauto].
        intros Hj1. apply NoDup_app in Hd' as (_ & Hdis & _). by eapply Hdis.
    + rewrite <- Permutation_middle. constructor; [|done]. rewrite elem_of_app. tauto.
    + intros j. specialize (Hl j). rewrite elem_of_app, elem_of_cons in Hl |- *.
      rewrite elem_of_app in Hb12. destruct (decide (j = i)) as [->|Hji].
      * split; [|tauto]. intros _. split; [by right|]. exists e. by rewrite list_lookup_insert_eq by lia.
      * rewrite <- Hbk by done. destruct (decide (j = b)) as [->|]; [|tauto].
        split; [tauto|]. intros [[[_ ?]|?] _]; done.
  - rewrite Hht in Hh' by done. destruct (HB h' s' Hh') as (l' & Hc' & Hdl' & Hl').
    assert (Hdisj : forall j, j ∈ l' -> j ∉ l1 ++ b :: l2).
    { intros j [_ (e1 & He1 & Hb1)]%Hl' [_ (e2 & He2 & Hb2)]%Hl. simplify_eq. rewrite Hb1 in Hb2. lia. }
    assert (Hil' : i ∉ l') by (intros [? _]%Hl'; done).
    exists l'. split_and!; [|done|].
    + eapply chain_agree; [|exact Hc']. intros j Hj. apply Hagree; [|intros ->; done].
      intros ?. apply (Hdisj j Hj). rewrite elem_of_app. auto.
    + intros j. destruct (decide (j = i)) as [->|Hji].
      * split; [done|]. intros [_ (e' & He' & Hb')]. rewrite list_lookup_insert_eq in He' by lia.
        simplify_eq. rewrite Hb in Hb'. lia.
      * rewrite <- Hbk by done. rewrite Hl'. split; [|tauto]. intros [HP Hj]. split; [|done].
        left. split; [done|]. intros ->. apply (Hdisj b); [by apply Hl'|].
        rewrite elem_of_app, elem_of_cons. auto.
Qed.

(** Dropping the last slot, which is in no bucket. *)
Lemma buckets_pop (P : nat -> Prop) es ht n :
  buckets P es ht -> length es = S n -> (forall j, P j <-> j <> n) ->
  buckets everything (take n es) ht.
Proof.
  intros HB Hl HP h start Hs. destruct (HB h start Hs) as (l & Hc & Hd & Hin).
  assert (Hlt : forall j, j ∈ l -> (j < n)%nat).
  { intros j [Hj%HP (e & He & _)]%Hin. apply lookup_lt_Some in He. lia. }
  exists l. split_and!; [|done|].
  - eapply chain_agree; [|exact Hc]. intros j Hj. apply lookup_take_lt. by apply Hlt.
  - intros j. rewrite Hin, HP. split.
    + intros (Hj & e & He & Hb). split; [done|]. exists e. split; [|done].
      rewrite lookup_take_lt; [done|]. apply lookup_lt_Some in He. lia.
    + intros (_ & e & He & Hb). apply lookup_take_Some in He as [He Hj].
      split; [lia|]. by exists e.
Qed.

Lemma contents_take (t : tbl) n : udata <$> take n (ents t) = take n (contents t).
Proof. unfold contents. by rewrite fmap_take. Qed.

(** A table whose entries are popped down to none is cleared. *)
Lemma pop_wf (P : nat -> Prop) es ht n d :
  ht <> [] -> buckets P es ht -> length es = S n -> (forall j, P j <-> j <> n) ->
  take n (udata <$> es) = d -> dict_wf d ->
  let t := mkTable (match take n es with [] => [] | _ => ht end) (take n es) in
  ht_wf t /\ contents t = d.
Proof.
  intros Hne HB Hl HP Hd Hwf. cbv zeta.
  assert (Hc : contents (mkTable (match take n es with [] => [] | _ => ht end) (take n es)) = d)
    by (unfold contents; cbn [ents]; by rewrite fmap_take).
  split; [|exact Hc]. split.
  - by rewrite Hc.
  - cbn. by destruct (take n es).
  - cbn [ents hashtable]. destruct (take n es) eqn:E; [intros h s Hs; done|].
    rewrite <- E. by eapply buckets_pop.
Qed.

Lemma dict_wf_erase_at (d : dict K V) i e : dict_wf d -> d !! i = Some e -> dict_wf (dict_erase_at d i).
Proof.
  intros Hwf Hi. pose proof (dict_erase_at_perm d i e Hi) as P. unfold dict_wf, keys in *.
  rewrite P in Hwf. cbn in Hwf. by apply NoDup_cons in Hwf as [_ ?].
Qed.

Lemma do_erase_ok t i k v :
  ht_wf t -> contents t !! i = Some (k, v) ->
  exists t', do_erase hash t (Z.of_nat i) (do_hash hash t k) = Some (t', 1) /\
    ht_wf t' /\ contents t' = dict_erase_at (contents t) i.
Proof.
  intros Hwf Hi. pose proof (dict_wf_erase_at _ _ _ (wf_keys _ Hwf) Hi) as Hwf'.
  apply contents_lookup_inv in Hi as (e & He & Eu).
  pose proof (lookup_lt_Some _ _ _ He) as Hil.
  assert (Hne : hashtable t <> []).
  { intros E. rewrite (wf_empty _ Hwf E) in He. done. }
  assert (Hn : (0 < length (hashtable t))%nat) by (destruct (hashtable t); [done|cbn; lia]).
  unfold do_erase, do_assert. destruct (Z.ltb_spec (Z.of_nat i) (Z.of_nat (length (ents t)))); [|lia].
  cbn [mbind option_bind]. destruct (hashtable t) as [|x0 ht0] eqn:Eht; [done|]. rewrite <- Eht in *.
  clear x0 ht0 Eht. destruct (Z.ltb_spec (Z.of_nat i) 0); [lia|].
  rewrite at_nat, He, do_hash_nonempty by done. cbn [mbind option_bind].
  destruct (mod_bucket (length (hashtable t)) k Hn) as (h & Hh & Eh). rewrite Eh.
  assert (Hb : bucket (length (hashtable t)) e = Z.of_nat h) by (unfold bucket; by rewrite Eu).
  destruct (unlink_ok everything t i e h (wf_buckets _ Hwf) I He Hh Hb)
    as (t1 & -> & El1 & Ec1 & He1 & HB1). cbn [mbind option_bind].
  assert (Hlen1 : length (ents t1) = length (ents t)).
  { apply (f_equal length) in Ec1. unfold contents in Ec1. by rewrite !length_fmap in Ec1. }
  destruct (length (ents t)) as [|n] eqn:En; [lia|].
  assert (Hne1 : hashtable t1 <> []) by (intros E; rewrite E in El1; cbn in El1; lia).
  assert (Hd : dict_erase_at (contents t) i =
    match contents t !! n with Some b => take n (<[i := b]> (contents t)) | None => contents t end).
  { unfold dict_erase_at. rewrite last_lookup. unfold contents at 1 3. rewrite !length_fmap, En.
    cbn [Nat.pred]. replace (S n - 1)%nat with n by lia. done. }
  replace (Z.of_nat (length (ents t1)) - 1) with (Z.of_nat n) by lia.
  destruct (Z.eqb_spec (Z.of_nat i) (Z.of_nat n)) as [Ein|Ein].
  - apply Nat2Z.inj in Ein. subst i. cbn [mbind option_bind]. rewrite Hlen1.
    replace (S n - 1)%nat with n by lia. eexists. split; [done|].
    apply (pop_wf (fun j => everything j /\ j <> n)); [done|done|done|unfold everything; tauto| |done].
    rewrite Hd, (contents_lookup _ _ _ He).
    change (udata <$> ents t1) with (contents t1). rewrite Ec1.
    by rewrite list_insert_id by (by apply contents_lookup).
  - destruct (lookup_lt_is_Some_2 (ents t1) n ltac:(lia)) as [eb Heb].
    rewrite at_nat, Heb. cbn [mbind option_bind]. rewrite do_hash_nonempty by done.
    destruct (mod_bucket (length (hashtable t1)) (udata eb).1 ltac:(lia)) as (hb & Hhb & Ehb).
    rewrite Ehb.
    destruct (move_ok (fun j => everything j /\ j <> i) t1 i n eb hb HB1)
      as (t2 & -> & El2 & Ec2 & He2 & HB2); [split; [done|lia]|tauto|lia|done|done|done|].
    cbn [mbind option_bind]. rewrite at_nat, He2. cbn [mbind option_bind].
    assert (Hlen2 : length (ents t2) = S n).
    { apply (f_equal length) in Ec2. unfold contents in Ec2. rewrite !length_fmap in Ec2. lia. }
    rewrite store_nat by lia. cbn [mbind option_bind hashtable ents]. rewrite length_insert, Hlen2.
    replace (S n - 1)%nat with n by lia. eexists. split; [done|].
    eapply pop_wf; [|exact HB2| |intros j; unfold everything; cbv beta| |done].
    + intros E. rewrite E in El2. cbn in El2. lia.
    + by rewrite length_insert.
    + destruct (decide (j = i)) as [->|]; [|tauto]. split; [lia|tauto].
    + rewrite Hd, list_fmap_insert. change (udata <$> ents t2) with (contents t2).
      rewrite Ec2, <- Ec1. by rewrite (contents_lookup _ _ _ Heb), Ec1.
Qed.

(** ** The public operations *)

Lemma empty_table_wf : ht_wf empty_table.
Proof. split; [constructor|done|]. intros h s Hs. done. Qed.

Lemma dict_index_absent (d : dict K V) k : dict_index d k = None -> k ∉ keys d.
Proof. apply dict_index_None. Qed.

Lemma ht_insert_ok cap1 cap2 t k v :
  fits cap1 -> fits cap2 -> ht_wf t ->
  exists t', ht_insert hash cap1 cap2 t k v = Some (t', negb (dict_count (contents t) k)) /\
    ht_wf t' /\ contents t' = dict_insert (contents t) k v.
Proof.
  intros F1 F2 Hwf. unfold ht_insert, dict_insert, dict_count.
  destruct (do_lookup_ok cap1 t k F1 Hwf) as (t1 & h & -> & Hwf1 & Ec & -> & _).
  cbn [mbind option_bind]. destruct (dict_index (contents t) k) as [i|] eqn:E; cbn [index_of].
  - destruct (Z.leb_spec 0 (Z.of_nat i)); [|lia]. by exists t1.
  - cbn. destruct (do_insert_ok cap2 t1 k v F2 Hwf1) as (t2 & -> & Hwf2 & Ec2).
    { rewrite Ec. by apply dict_index_None. }
    cbn [mbind option_bind]. exists t2. rewrite Ec2, Ec. done.
Qed.

(** Overwriting the value of an entry keeps all links. *)
Lemma update_value_wf (t : tbl) i e k v v' :
  ht_wf t -> ents t !! i = Some e -> udata e = (k, v) ->
  let t' := mkTable (hashtable t) (<[i := mkEntry (k, v') (next e)]> (ents t)) in
  ht_wf t' /\ contents t' = <[i := (k, v')]> (contents t).
Proof.
  intros Hwf He Eu. cbv zeta. set (es := <[i := mkEntry (k, v') (next e)]> (ents t)).
  pose proof (lookup_lt_Some _ _ _ He) as Hi.
  assert (Hc : contents (mkTable (hashtable t) es) = <[i := (k, v')]> (contents t))
    by (unfold contents, es; cbn [ents]; by rewrite list_fmap_insert).
  split; [|done]. split.
  - rewrite Hc. unfold dict_wf, keys. rewrite list_fmap_insert. cbn.
    rewrite list_insert_id; [apply Hwf|]. by rewrite list_lookup_fmap, (contents_lookup _ _ _ He), Eu.
  - cbn. intros E. unfold es. by rewrite (wf_empty _ Hwf E).
  - cbn [hashtable ents]. intros h s Hs. destruct (wf_buckets _ Hwf h s Hs) as (l & Hch & Hd & Hl).
    assert (Hes : forall j x, ents t !! j = Some x -> exists x', es !! j = Some x' /\
              next x' = next x /\ (udata x').1 = (udata x).1).
    { intros j x Hj. unfold es. destruct (decide (i = j)) as [<-|].
      - rewrite list_lookup_insert_eq by done. simplify_eq. eexists. split; [done|]. by rewrite Eu.
      - rewrite list_lookup_insert_ne by done. by exists x. }
    exists l. split_and!; [|done|].
    + eapply chain_mono; [exact Hch|]. intros j x _ Hj. destruct (Hes j x Hj) as (x' & ? & ? & _).
      by exists x'.
    + intros j. rewrite Hl. split; intros (_ & x & Hx & Hb); (split; [done|]).
      * destruct (Hes j x Hx) as (x' & Hx' & _ & Ek). exists x'. split; [done|].
        unfold bucket in *. by rewrite Ek.
      * unfold es in Hx. destruct (decide (i = j)) as [<-|].
        -- rewrite list_lookup_insert_eq in Hx by done. injection Hx as <-. exists e.
           split; [done|]. unfold bucket in *. cbn in Hb. by rewrite Eu.
        -- rewrite list_lookup_insert_ne in Hx by done. by exists x.
Qed.

Lemma ht_set_ok cap1 cap2 dflt t k v :
  fits cap1 -> fits cap2 -> ht_wf t ->
  exists t', ht_set hash cap1 cap2 dflt t k v = Some t' /\
    ht_wf t' /\ contents t' = dict_set (contents t) k v.
Proof.
  intros F1 F2 Hwf. unfold ht_set, dict_set.
  destruct (do_lookup_ok cap1 t k F1 Hwf) as (t1 & h & -> & Hwf1 & Ec & -> & _).
  cbn [mbind option_bind].
  assert (Hupd : forall (t2 : tbl) i w, ht_wf t2 -> contents t2 !! i = Some (k, w) ->
    exists t', (e ← at_ (ents t2) (Z.of_nat i);
                es ← store (ents t2) (Z.of_nat i) (mkEntry ((udata e).1, v) (next e));
                Some (mkTable (hashtable t2) es)) = Some t' /\
      ht_wf t' /\ contents t' = <[i := (k, v)]> (contents t2)).
  { intros t2 i w Hwf2 Hi. apply contents_lookup_inv in Hi as (e & He & Eu).
    rewrite at_nat, He. cbn [mbind option_bind]. rewrite store_nat by (by eapply lookup_lt_Some).
    cbn [mbind option_bind]. rewrite Eu. cbn. eexists. split; [done|]. by apply (update_value_wf t2 i e k w v). }
  destruct (dict_index (contents t) k) as [i|] eqn:E; cbn [index_of].
  - destruct (Z.ltb_spec (Z.of_nat i) 0); [lia|]. cbn [mbind option_bind].
    apply dict_index_Some in E as (w & Hw & _). rewrite <- Ec in Hw |- *. by apply (Hupd t1 i w).
  - cbn. destruct (do_insert_ok cap2 t1 k dflt F2 Hwf1) as (t2 & -> & Hwf2 & Ec2).
    { rewrite Ec. by apply dict_index_None. }
    cbn [mbind option_bind].
    assert (El : length (ents t1) = length (contents t1)) by (unfold contents; by rewrite length_fmap).
    rewrite El. destruct (Hupd t2 (length (contents t1)) dflt Hwf2) as (t3 & -> & Hwf3 & Ec3).
    { rewrite Ec2. by apply list_lookup_middle. }
    exists t3. split_and!; [done|done|]. rewrite Ec3, Ec2, Ec.
    rewrite insert_app_r_alt by lia. by rewrite Nat.sub_diag.
Qed.

Lemma ht_erase_ok cap t k :
  fits cap -> ht_wf t ->
  exists t', ht_erase hash cap t k = Some (t', Z.b2z (dict_count (contents t) k)) /\
    ht_wf t' /\ contents t' = dict_erase (contents t) k.
Proof.
  intros F Hwf. unfold ht_erase, dict_erase, dict_count.
  destruct (do_lookup_ok cap t k F Hwf) as (t1 & h & -> & Hwf1 & Ec & -> & He & Hne).
  cbn [mbind option_bind]. destruct (dict_index (contents t) k) as [i|] eqn:E; cbn [index_of].
  - apply dict_index_Some in E as (v & Hv & _). rewrite <- Ec in Hv |- *.
    destruct (do_erase_ok t1 i k v Hwf1 Hv) as (t2 & -> & Hwf2 & Ec2). by exists t2.
  - exists t1. unfold do_erase, do_assert. destruct (Z.ltb_spec (-1) (Z.of_nat (length (ents t1)))); [|lia].
    cbn. destruct (hashtable t1); done.
Qed.

Lemma ht_find_ok cap t k :
  fits cap -> ht_wf t ->
  exists t', ht_find hash cap t k = Some (t', dict_find (contents t) k) /\
    ht_wf t' /\ contents t' = contents t.
Proof.
  intros F Hwf. unfold ht_find, dict_find.
  destruct (do_lookup_ok cap t k F Hwf) as (t1 & h & -> & Hwf1 & Ec & _).
  cbn [mbind option_bind]. destruct (dict_index (contents t) k) as [i|] eqn:E; cbn [index_of].
  - destruct (Z.ltb_spec (Z.of_nat i) 0); [lia|]. apply dict_index_Some in E as (v & Hv & _).
    rewrite <- Ec in Hv. destruct (contents_lookup_inv _ _ _ Hv) as (e & He & Eu).
    rewrite at_nat, He. cbn [mbind option_bind]. exists t1. rewrite <- Ec, Hv, Eu. done.
  - by exists t1.
Qed.
End HashlibSpec.

(** ** Sequences of operations *)

(** An operation with the capacities of the entry vector while it runs. *)
Inductive dict_op (K V : Type) :=
  | OpInsert (cap1 cap2 : nat) (k : K) (v : V)
  | OpSet (cap1 cap2 : nat) (dflt : V) (k : K) (v : V)
  | OpErase (cap : nat) (k : K)
  | OpFind (cap : nat) (k : K)
  | OpCount (k : K).
Arguments OpInsert {K V}. Arguments OpSet {K V}. Arguments OpErase {K V}.
Arguments OpFind {K V}. Arguments OpCount {K V}.

(** What an operation returns. *)
Inductive dict_answer (V : Type) := AnsBool (b : bool) | AnsValue (o : option V) | AnsNone.
Arguments AnsBool {V}. Arguments AnsValue {V}. Arguments AnsNone {V}.

Section Runs.
Context {K V : Type} `{EqDecision K}.
Variable hash : K -> Z.

Definition op_fits (op : dict_op K V) : Prop :=
  match op with
  | OpInsert c1 c2 _ _ | OpSet c1 c2 _ _ _ => fits c1 /\ fits c2
  | OpErase c _ | OpFind c _ => fits c
  | OpCount _ => True
  end.

(** One operation on the hash table. *)
Definition ht_step (t : @table K V) (op : dict_op K V) : option (@table K V * dict_answer V) :=
  match op with
  | OpInsert c1 c2 k v => '(t, b) ← ht_insert hash c1 c2 t k v; Some (t, AnsBool b)
  | OpSet c1 c2 dflt k v => t ← ht_set hash c1 c2 dflt t k v; Some (t, AnsNone)
  | OpErase c k => '(t, n) ← ht_erase hash c t k; Some (t, AnsBool (n =? 1))
  | OpFind c k => '(t, o) ← ht_find hash c t k; Some (t, AnsValue o)
  | OpCount k => b ← ht_count hash t k; Some (t, AnsBool b)
  end.

(** The same operation on the entry list. *)
Definition dict_step (d : dict K V) (op : dict_op K V) : dict K V * dict_answer V :=
  match op with
  | OpInsert _ _ k v => (dict_insert d k v, AnsBool (negb (dict_count d k)))
  | OpSet _ _ _ k v => (dict_set d k v, AnsNone)
  | OpErase _ k => (dict_erase d k, AnsBool (dict_count d k))
  | OpFind _ k => (d, AnsValue (dict_find d k))
  | OpCount k => (d, AnsBool (dict_count d k))
  end.

Fixpoint ht_run (t : @table K V) (ops : list (dict_op K V)) : option (@table K V * list (dict_answer V)) :=
  match ops with
  | [] => Some (t, [])
  | op :: ops => '(t, a) ← ht_step t op; '(t, l) ← ht_run t ops; Some (t, a :: l)
  end.

Fixpoint dict_run (d : dict K V) (ops : list (dict_op K V)) : dict K V * list (dict_answer V) :=
  match ops with
  | [] => (d, [])
  | op :: ops => let '(d, a) := dict_step d op in let '(d, l) := dict_run d ops in (d, a :: l)
  end.

Lemma ht_step_ok t op :
  op_fits op -> ht_wf hash t ->
  exists t', ht_step t op = Some (t', (dict_step (contents t) op).2) /\
    ht_wf hash t' /\ contents t' = (dict_step (contents t) op).1.
Proof.
  destruct op as [c1 c2 k v|c1 c2 dflt k v|c k|c k|k]; cbn [op_fits ht_step dict_step fst snd].
  - intros [F1 F2] Hwf. destruct (ht_insert_ok hash c1 c2 t k v F1 F2 Hwf) as (t' & -> & ?). by exists t'.
  - intros [F1 F2] Hwf. destruct (ht_set_ok hash c1 c2 dflt t k v F1 F2 Hwf) as (t' & -> & ?). by exists t'.
  - intros F Hwf. destruct (ht_erase_ok hash c t k F Hwf) as (t' & -> & ?). exists t'.
    split; [|done]. cbn. by destruct (dict_count (contents t) k).
  - intros F Hwf. destruct (ht_find_ok hash c t k F Hwf) as (t' & -> & ?). by exists t'.
  - intros _ Hwf. rewrite ht_count_ok by done. by exists t.
Qed.

Lemma ht_run_ok t ops :
  Forall op_fits ops -> ht_wf hash t ->
  exists t', ht_run t ops = Some (t', (dict_run (contents t) ops).2) /\
    ht_wf hash t' /\ contents t' = (dict_run (contents t) ops).1.
Proof.
  intros HF. revert t. induction HF as [|op ops Ho HF IH]; intros t Hwf; [by exists t|].
  destruct (ht_step_ok t op Ho Hwf) as (t1 & E1 & Hwf1 & Ec1).
  destruct (IH t1 Hwf1) as (t2 & E2 & Hwf2 & Ec2). cbn [ht_run dict_run].
  rewrite E1. cbn [mbind option_bind]. rewrite E2. cbn [mbind option_bind].
  rewrite Ec1 in *. destruct (dict_step (contents t) op) as [d a]. cbn in *.
  destruct (dict_run d ops) as [d' l]. cbn in *. by exists t2.
Qed.
End Runs.

(** C4: the hash table of [dict] refines its entry list: for every hash
    function, every sequence of insertions, assignments, erasures, lookups and
    membership tests from the empty table runs without a failed assertion or
    an out-of-range access, gives the answers of the entry list and ends with
    exactly its entries in its order; only a capacity beyond the prime table
    (1.15 billion entries) makes it throw. *)
Theorem hashtable_refines_entries {K V : Type} `{EqDecision K} (hash : K -> Z) (ops : list (dict_op K V)) :
  Forall op_fits ops ->
  exists t, ht_run hash empty_table ops = Some (t, (dict_run [] ops).2) /\
    contents t = (dict_run [] ops).1 /\ ht_wf hash t.
Proof.
  intros HF. destruct (ht_run_ok hash empty_table ops HF (empty_table_wf hash)) as (t & E & Hwf & Ec).
  by exists t.
Qed.

(** With a constant hash function all entries share a bucket; the erase moves
    the last entry. *)
Lemma hashtable_refines_entries_witness :
  exists t, ht_run (K:=nat) (V:=bool) (fun _ => 7) empty_table
      [OpSet 1 1 false 5%nat true; OpInsert 1 2 6%nat false; OpInsert 2 4 8%nat true; OpErase 4 5%nat;
       OpFind 4 8%nat; OpCount 5%nat] =
    Some (t, [AnsNone; AnsBool true; AnsBool true; AnsBool true; AnsValue (Some true); AnsBool false]) /\
    contents t = [(8%nat, true); (6%nat, false)].
Proof.
  destruct (hashtable_refines_entries (K:=nat) (V:=bool) (fun _ => 7)
      [OpSet 1 1 false 5%nat true; OpInsert 1 2 6%nat false; OpInsert 2 4 8%nat true; OpErase 4 5%nat;
       OpFind 4 8%nat; OpCount 5%nat]) as (t & E & Ec & _).
  { rewrite !Forall_cons. unfold op_fits, fits, hashtable_size_factor. split_and!; try lia. constructor. }
  exists t. split; [exact E|exact Ec].
Defined.
