(* ===== verification/Shared.v ===== *)
(** * Data shared by the checker's parts ([passes/guide/check/shared.h], [core.cc])

    The records the checker passes around, JSON values and their conversions.
    [double] is IEEE binary64 with rounding to nearest even.  Of a module the
    model keeps the fields the pairing, the proof plan and the reports look at. *)

From Stdlib Require Export SpecFloat.
From S2P Require Import Prelude GuideNames Dict.

Local Open Scope string_scope.
Local Open Scope list_scope.
Local Open Scope Z_scope.

(** ** Doubles *)

Abbreviation double := spec_float.
Definition d_add : double -> double -> double := SFadd 53 1024.
Definition d_mul : double -> double -> double := SFmul 53 1024.
Definition d_le : double -> double -> bool := SFleb.
Definition d_lt : double -> double -> bool := SFltb.
Definition d_eq : double -> double -> bool := SFeqb.

(** The conversion of an [int]. *)
Definition d_of_Z (z : Z) : double := binary_normalize 53 1024 z 0 false.
Definition d_of_bool (b : bool) : double := d_of_Z (Z.b2z b).

(** ** The order of doubles *)

(** [a < b] compares (sign, exponent, mantissa) with zeros and infinities in
    their places; NaN is below nothing. *)
Definition d_key (x : double) : option (Z * Z * Z) :=
  match x with
  | S754_nan => None
  | S754_infinity true => Some (-2, 0, 0)
  | S754_infinity false => Some (2, 0, 0)
  | S754_zero _ => Some (0, 0, 0)
  | S754_finite true m e => Some (-1, - e, - Zpos m)
  | S754_finite false m e => Some (1, e, Zpos m)
  end.

Definition key_lt (a b : Z * Z * Z) : bool :=
  let '(s1, e1, m1) := a in
  let '(s2, e2, m2) := b in
  (s1 <? s2) || ((s1 =? s2) && ((e1 <? e2) || ((e1 =? e2) && (m1 <? m2)))).

Lemma d_lt_key x y :
  d_lt x y = match d_key x, d_key y with Some a, Some b => key_lt a b | _, _ => false end.
Proof.
  destruct x as [s1|s1| |s1 m1 e1], y as [s2|s2| |s2 m2 e2]; try destruct s1; try destruct s2; try done;
    unfold d_lt, SFltb, SFcompare, d_key, key_lt; cbn [andb orb].
  - change (-1 <? -1) with false. change (-1 =? -1) with true. cbn [andb orb].
    destruct (Z.compare_spec e1 e2), (Z.ltb_spec (- e1) (- e2)), (Z.eqb_spec (- e1) (- e2)),
      (Z.ltb_spec (Zneg m1) (Zneg m2)); try lia; try done; cbn [andb orb];
      change (Pos.compare_cont Eq m1 m2) with (Pos.compare m1 m2); destruct (Pos.compare_spec m1 m2); try lia; done.
  - change (1 <? 1) with false. change (1 =? 1) with true. cbn [andb orb].
    destruct (Z.compare_spec e1 e2), (Z.ltb_spec e1 e2), (Z.eqb_spec e1 e2),
      (Z.ltb_spec (Zpos m1) (Zpos m2)); try lia; try done; cbn [andb orb];
      change (Pos.compare_cont Eq m1 m2) with (Pos.compare m1 m2); destruct (Pos.compare_spec m1 m2); try lia; done.
Qed.

Lemma key_lt_spec s1 e1 m1 s2 e2 m2 :
  key_lt (s1, e1, m1) (s2, e2, m2) = true <->
  s1 < s2 \/ (s1 = s2 /\ (e1 < e2 \/ (e1 = e2 /\ m1 < m2))).
Proof. unfold key_lt. rewrite !orb_true_iff, !andb_true_iff, orb_true_iff, andb_true_iff, !Z.ltb_lt, !Z.eqb_eq. tauto. Qed.

Lemma d_lt_trans x y z : d_lt x y = true -> d_lt y z = true -> d_lt x z = true.
Proof.
  rewrite !d_lt_key. destruct (d_key x) as [[[??]?]|], (d_key y) as [[[??]?]|], (d_key z) as [[[??]?]|]; try done.
  rewrite !key_lt_spec. lia.
Qed.

Lemma d_lt_asym x y : d_lt x y = true -> d_lt y x = false.
Proof.
  intros Hxy. apply not_true_is_false. revert Hxy. rewrite !d_lt_key.
  destruct (d_key x) as [[[??]?]|], (d_key y) as [[[??]?]|]; try done.
  rewrite !key_lt_spec. lia.
Qed.

Lemma d_eq_sym x y : d_eq x y = d_eq y x.
Proof.
  unfold d_eq, SFeqb, SFcompare.
  destruct x as [s1|s1| |s1 m1 e1], y as [s2|s2| |s2 m2 e2]; try destruct s1; try destruct s2; try done;
    rewrite (Z.compare_antisym e1 e2); destruct (e1 ?= e2); cbn [CompOpp]; try done;
    change (Pos.compare_cont Eq m1 m2) with (Pos.compare m1 m2);
    change (Pos.compare_cont Eq m2 m1) with (Pos.compare m2 m1);
    rewrite (Pos.compare_antisym m1 m2); by destruct (Pos.compare m1 m2).
Qed.

(** ** Records of [shared.h] *)

Record PairRecord := mkPairRecord {
  pr_pair_id : string; pr_gold_mod : string; pr_gate_mod : string;
  gold_dff_cnt : Z; gate_dff_cnt : Z; has_submodule : bool;
  retimed : bool; mul_touched : bool; bb_const_in_cnt : Z
}.

Record MatchStats := mkMatchStats {
  exact_total : Z; pi_cnt : Z; po_cnt : Z; dff_cnt : Z; dff_po_cnt : Z; subckt_cnt : Z;
  unmatched_gold : Z; unmatched_gate : Z; match_file : string
}.

Inductive ActionKind := CEC_MAP | CEC_NOMAP | DSEC_MAP | DSEC_NOMAP.

#[global] Instance ActionKind_eq_dec : EqDecision ActionKind.
Proof. solve_decision. Defined.

Definition get_action_name (action : ActionKind) : string :=
  match action with
  | CEC_MAP => "cec_map" | CEC_NOMAP => "cec_nomap"
  | DSEC_MAP => "dsec_map" | DSEC_NOMAP => "dsec_nomap"
  end.

(** The newline character. *)
Definition newline : string := String "010" "".

Definition empty_MatchStats : MatchStats := mkMatchStats 0 0 0 0 0 0 0 0 "".

(** A pair record with the initial values of the fields that count. *)
Definition new_PairRecord (pair_id gold_mod gate_mod : string) : PairRecord :=
  mkPairRecord pair_id gold_mod gate_mod 0 0 false false false 0.

Record RunRecord := mkRunRecord {
  rr_pair_id : string; rr_action : string; rr_exit_status : Z; rr_result_code : Z;
  rr_proof_outcome : string; rr_runtime_ms : double; rr_log_file : string
}.

Record CommandResult := mkCommandResult {
  exit_status : Z; raw_result_code : Z; result_code : Z; proof_outcome : string;
  runtime_ms : double; output : string; log_file : string
}.

Definition empty_CommandResult : CommandResult :=
  mkCommandResult (-1) 0 0 "" (d_of_Z 0) "" "".

Record SeqCheckConfig := mkSeqCheckConfig {
  k_induct : Z; step_skip : Z; weak_mode : bool; no_init : bool
}.

Record MlDumpConfig := mkMlDumpConfig {
  dump_sched : bool; dump_match : bool; dump_fail : bool;
  sched_jsonl : string; match_jsonl : string; fail_jsonl : string
}.

(** ** Modules *)

(** A port wire: [width], [port_input], [port_output], [port_id]. *)
Record PWire := mkPWire { w_width : Z; w_in : bool; w_out : bool; w_port_id : Z }.

(** A cell: its name and type. *)
Record DCell := mkDCell { c_name : string; c_type : string }.

(** A module, as far as the pairing and the proof plan look at it, in
    iteration order; the flags are the [blackbox] and [whitebox] attributes. *)
Record DMod := mkDMod {
  d_name : string; d_blackbox : bool; d_whitebox : bool; d_wires : list PWire; d_cells : list DCell
}.

Definition get_blackbox_attribute (md : DMod) : bool := d_blackbox md || d_whitebox md.

Abbreviation design := (list DMod).

(** [design->module(name)] *)
Definition design_module (d : design) (name : string) : option DMod :=
  find (fun m => String.eqb (d_name m) name) d.

Definition has_module (d : design) (name : string) : bool :=
  match design_module d name with Some _ => true | None => false end.

(** ** JSON ([libs/json11]) *)

(** The values of [json11::Json]; an object lists its members (the map of the
    library keeps them sorted by key: so does a parsed object; the written ones
    are listed as the source writes them). *)
#[warnings="-register-all"]
Inductive Json :=
| JNull
| JBool (b : bool)
| JInt (z : Z)
| JDouble (d : double)
| JString (s : string)
| JArray (l : list Json)
| JObject (l : list (string * Json)).

Record GuideTelemetry := mkGuideTelemetry {
  pair_match_stats : gmap string MatchStats;
  pair_records : gmap string PairRecord;
  pair_applied_sugs : dict string Z;
  retimed_mods : pool string;
  multiplier_mods : pool string;
  divider_mods : pool string;
  match_suggestions : list Json
}.

Definition object_items (j : Json) : list (string * Json) :=
  match j with JObject l => l | _ => [] end.
Definition array_items (j : Json) : list Json := match j with JArray l => l | _ => [] end.
Definition string_value (j : Json) : string := match j with JString s => s | _ => "" end.
Definition is_array (j : Json) : bool := match j with JArray _ => true | _ => false end.
Definition is_object (j : Json) : bool := match j with JObject _ => true | _ => false end.

Definition member (j : Json) (key : string) : option Json := dict_find (object_items j) key.

Definition match_stats_to_json (stats : MatchStats) : Json := JObject [
  ("exact_total", JInt (exact_total stats)); ("pi_cnt", JInt (pi_cnt stats));
  ("po_cnt", JInt (po_cnt stats)); ("dff_cnt", JInt (dff_cnt stats));
  ("dff_po_cnt", JInt (dff_po_cnt stats)); ("subckt_cnt", JInt (subckt_cnt stats));
  ("unmatched_gold", JInt (unmatched_gold stats)); ("unmatched_gate", JInt (unmatched_gate stats));
  ("match_file", JString (match_file stats))].

Definition pair_record_to_json (record : PairRecord) : Json := JObject [
  ("pair_id", JString (pr_pair_id record)); ("gold_mod", JString (pr_gold_mod record));
  ("gate_mod", JString (pr_gate_mod record)); ("gold_dff_cnt", JInt (gold_dff_cnt record));
  ("gate_dff_cnt", JInt (gate_dff_cnt record)); ("has_submodule", JBool (has_submodule record));
  ("retimed", JBool (retimed record)); ("mul_touched", JBool (mul_touched record));
  ("bb_const_in_cnt", JInt (bb_const_in_cnt record))].

Definition run_record_to_json (record : RunRecord) : Json := JObject [
  ("pair_id", JString (rr_pair_id record)); ("action", JString (rr_action record));
  ("exit_status", JInt (rr_exit_status record)); ("result_code", JInt (rr_result_code record));
  ("proof_outcome", JString (rr_proof_outcome record)); ("runtime_ms", JDouble (rr_runtime_ms record));
  ("log_file", JString (rr_log_file record))].

Definition string_array_to_json (values : list string) : Json := JArray (JString <$> values).

(** ** Reading text with the C library *)

(** [fgets] into a buffer of [size] bytes, up to the end of the file: lines keep
    their newline, a longer line comes in pieces of [size - 1] bytes.  [acc] is
    the piece read so far in reverse, [n] the room left in the buffer. *)
Fixpoint fgets_pieces (size : nat) (s : string) (acc : list ascii) (n : nat) : list (list ascii) :=
  match s with
  | EmptyString => match acc with [] => [] | _ => [reverse acc] end
  | String c s =>
      match n with
      | O => if Ascii.eqb c "010" then reverse acc :: [c] :: fgets_pieces size s [] (size - 1)
             else reverse acc :: fgets_pieces size s [c] (size - 2)
      | S n => if Ascii.eqb c "010" then reverse (c :: acc) :: fgets_pieces size s [] (size - 1)
               else fgets_pieces size s (c :: acc) n
      end
  end.
Definition fgets_lines (size : nat) (s : string) : list (list ascii) := fgets_pieces size s [] (size - 1).

(** A character buffer as a string: up to the first null byte. *)
Fixpoint c_string (l : list ascii) : list ascii :=
  match l with [] => [] | c :: l => if Ascii.eqb c Ascii.zero then [] else c :: c_string l end.

(** [s.find(p) != npos] *)
Fixpoint contains (s p : string) : bool :=
  String.prefix p s || match s with String _ s => contains s p | EmptyString => false end.

Lemma prefix_spec p s : String.prefix p s = true <-> exists t, s = p +:+ t.
Proof.
  revert s. induction p as [|c p IH]; intros s.
  - split; [by exists s|]. intros _. by destruct s.
  - destruct s as [|d s].
    + split; [done|]. intros [t Ht]. done.
    + simpl. destruct (ascii_dec c d) as [->|Hc].
      * rewrite IH. split; intros [t Ht]; exists t; [by rewrite Ht|by injection Ht].
      * split; [done|]. intros [t [= ? ?]]. congruence.
Qed.

Lemma contains_spec s p : contains s p = true <-> exists a b, s = a +:+ p +:+ b.
Proof.
  revert p. induction s as [|c s IH]; intros p; cbn [contains].
  - rewrite orb_false_r, prefix_spec. split.
    + intros [t ->]. by exists "", t.
    + intros (a & b & Hab). destruct a; [by exists b|done].
  - rewrite orb_true_iff, prefix_spec, IH. split.
    + intros [[t ->]|(a & b & ->)]; [by exists "", t|by exists (String c a), b].
    + intros ([|d a] & b & Hab); [left; by exists b|right]. injection Hab as -> ->. by exists a, b.
Qed.

Lemma string_app_assoc (a b c : string) : (a +:+ b) +:+ c = a +:+ (b +:+ c).
Proof. induction a as [|x a IH]; [done|]. exact (f_equal (String x) IH). Qed.

Lemma contains_trans s p q : contains s p = true -> contains p q = true -> contains s q = true.
Proof.
  rewrite !contains_spec. intros (a & b & ->) (c & d & ->). exists (a +:+ c), (d +:+ b).
  by rewrite !string_app_assoc.
Qed.
