(* ===== verification/ModMap.v ===== *)
(** * Pairing the modules of the two designs ([hier_mod_map], [core.cc])

    The design is the list of its modules in iteration order.  Modules are paired
    by name, then by the external guidance file, then by their port signature;
    the state threaded through the phases is the [ModMap] of the source.  [None]
    is the exception of [substr] (see [GuideNames]). *)

From stdpp Require Import sorting pretty.
From S2P Require Import Prelude GuideNames Dict Shared.

Local Open Scope string_scope.
Local Open Scope list_scope.
Local Open Scope Z_scope.

Record ModMap := mkModMap {
  mod_map_gold : dict string string;
  mod_map_gate : dict string string;
  mapped_mods_gold : pool string;
  mapped_mods_gate : pool string;
  unmapped_mods_gate : pool string;
  unmapped_mods_gold : pool string
}.

Definition empty_ModMap : ModMap := mkModMap [] [] [] [] [] [].

(** The fields of [CheckConfig] the pairing reads. *)
Record NameConf := mkNameConf {
  gold_top : string; gate_top : string; gold_prefix : string; gate_prefix : string
}.

Definition pool_add (p : pool string) (k : string) : pool string := dict_insert p k tt.

(** ** By name *)

Definition gold_step (d : design) (c : NameConf) (mm : ModMap) (m : DMod) : option ModMap :=
  if on_side (d_name m) (gold_top c) (gold_prefix c) then
    gate_name ← partner (d_name m) (gold_top c) (gold_prefix c) (gate_top c) (gate_prefix c);
    Some (if has_module d gate_name
          then mkModMap (dict_set (mod_map_gold mm) (d_name m) gate_name) (mod_map_gate mm)
                 (pool_add (mapped_mods_gold mm) (d_name m)) (pool_add (mapped_mods_gate mm) gate_name)
                 (unmapped_mods_gate mm) (unmapped_mods_gold mm)
          else mkModMap (mod_map_gold mm) (mod_map_gate mm) (mapped_mods_gold mm) (mapped_mods_gate mm)
                 (unmapped_mods_gate mm) (pool_add (unmapped_mods_gold mm) (d_name m)))
  else Some mm.

Definition gate_step (d : design) (c : NameConf) (mm : ModMap) (m : DMod) : option ModMap :=
  if on_side (d_name m) (gate_top c) (gate_prefix c) then
    gold_name ← partner (d_name m) (gate_top c) (gate_prefix c) (gold_top c) (gold_prefix c);
    Some (if has_module d gold_name
          then mkModMap (mod_map_gold mm) (dict_set (mod_map_gate mm) gold_name (d_name m))
                 (pool_add (mapped_mods_gold mm) gold_name) (pool_add (mapped_mods_gate mm) (d_name m))
                 (unmapped_mods_gate mm) (unmapped_mods_gold mm)
          else mkModMap (mod_map_gold mm) (mod_map_gate mm) (mapped_mods_gold mm) (mapped_mods_gate mm)
                 (pool_add (unmapped_mods_gate mm) (d_name m)) (unmapped_mods_gold mm))
  else Some mm.

(** A loop whose body may throw. *)
Fixpoint for_opt {A S} (f : S -> A -> option S) (s : S) (l : list A) : option S :=
  match l with [] => Some s | x :: l => s' ← f s x; for_opt f s' l end.

(** The log loop reads the pair of every mapped gold module with [operator[]],
    which inserts the null name for a key that is missing. *)
Definition log_pairs (mm : ModMap) : ModMap :=
  mkModMap (fold_left (fun d k => dict_insert d k "") (dict_iter (mapped_mods_gold mm)).*1 (mod_map_gold mm))
    (mod_map_gate mm) (mapped_mods_gold mm) (mapped_mods_gate mm)
    (unmapped_mods_gate mm) (unmapped_mods_gold mm).

Definition map_by_name (d : design) (c : NameConf) : option ModMap :=
  mm ← for_opt (gold_step d c) empty_ModMap d;
  mm ← for_opt (gate_step d c) mm d;
  Some (log_pairs mm).

(** ** By the external guidance file *)

Definition is_newline (c : ascii) : bool := Ascii.eqb c "010" || Ascii.eqb c "013".
Definition is_space (c : ascii) : bool :=
  Ascii.eqb c " " || in_range c "009" "013".

Fixpoint drop_while (p : ascii -> bool) (l : list ascii) : list ascii :=
  match l with [] => [] | c :: l' => if p c then drop_while p l' else l end.

(** Drop the trailing newlines and carriage returns. *)
Definition chomp (l : list ascii) : list ascii := reverse (drop_while is_newline (reverse l)).

(** The tokens [iss >> x] reads one after the other. *)
Fixpoint tokens (l acc : list ascii) : list (list ascii) :=
  match l with
  | [] => match acc with [] => [] | _ => [reverse acc] end
  | c :: l =>
      if is_space c then match acc with [] => tokens l [] | _ => reverse acc :: tokens l [] end
      else tokens l (c :: acc)
  end.

Definition external_line (d : design) (mm : ModMap) (buf : list ascii) : ModMap :=
  let line := chomp (c_string buf) in
  if match line with [] => true | c :: _ => Ascii.eqb c "#" end then mm
  else if existsb (fun c => Ascii.eqb c ".") line then mm
  else match tokens line [] with
  | gold_name :: gate_name :: _ =>
      let gld := escape_id (String.string_of_list_ascii gold_name) in
      let gte := escape_id (String.string_of_list_ascii gate_name) in
      if negb (has_module d gld) || negb (has_module d gte) then mm
      else if dict_count (mapped_mods_gold mm) gld || dict_count (mapped_mods_gate mm) gte then mm
      else mkModMap (dict_set (mod_map_gold mm) gld gte) (mod_map_gate mm)
             (pool_add (mapped_mods_gold mm) gld) (pool_add (mapped_mods_gate mm) gte)
             (dict_erase (unmapped_mods_gate mm) gte) (dict_erase (unmapped_mods_gold mm) gld)
  | _ => mm
  end.

(** [None]: no external file was given or it cannot be opened. *)
Definition map_external (d : design) (file : option string) (mm : ModMap) : ModMap :=
  match file with
  | None => mm
  | Some content => fold_left (external_line d) (fgets_lines 4096 content) mm
  end.

(** ** By port signature *)

Definition sig_widths (l : list Z) : string :=
  fold_left (fun sig w => sig +:+ "_" +:+ pretty w) (merge_sort Z.le l) "".

Definition make_sig (m : DMod) : string :=
  let ports := filter (fun w => w_port_id w <> 0) (d_wires m) in
  "in" +:+ sig_widths (w_width <$> filter (fun w => w_in w = true) ports) +:+
  "|out" +:+ sig_widths (w_width <$> filter (fun w => w_out w = true) ports).

(** [gate_sigs[sig].push_back(gn)] *)
Definition push_sig (d : design) (sigs : dict string (list string)) (gn : string)
    : dict string (list string) :=
  match design_module d gn with
  | Some gm => let s := make_sig gm in
               dict_set sigs s (default [] (dict_find sigs s) ++ [gn])
  | None => sigs
  end.

(** One unmapped gold module takes the first free gate module of its signature. *)
Definition struct_step (d : design)
    (st : ModMap * dict string (list string) * list (string * string)) (gld : string) :=
  let '(mm, sigs, matched) := st in
  match design_module d gld with
  | None => st
  | Some gm =>
      let s := make_sig gm in
      match dict_find sigs s with
      | Some (gname :: rest) =>
          (mkModMap (dict_set (mod_map_gold mm) gld gname) (mod_map_gate mm)
             (pool_add (mapped_mods_gold mm) gld) (pool_add (mapped_mods_gate mm) gname)
             (unmapped_mods_gate mm) (unmapped_mods_gold mm),
           dict_set sigs s rest, matched ++ [(gld, gname)])
      | _ => st
      end
  end.

Definition map_structural (d : design) (mm : ModMap) : ModMap :=
  match unmapped_mods_gold mm, unmapped_mods_gate mm with
  | [], _ | _, [] => mm
  | ug, uk =>
      let sigs := fold_left (push_sig d) (dict_iter uk).*1 [] in
      let '(mm, _, matched) := fold_left (struct_step d) (dict_iter ug).*1 (mm, sigs, []) in
      mkModMap (mod_map_gold mm) (mod_map_gate mm) (mapped_mods_gold mm) (mapped_mods_gate mm)
        (fold_left dict_erase matched.*2 (unmapped_mods_gate mm))
        (fold_left dict_erase matched.*1 (unmapped_mods_gold mm))
  end.

Definition hier_mod_map (d : design) (c : NameConf) (external : option string) : option ModMap :=
  mm ← map_by_name d c;
  Some (map_structural d (map_external d external mm)).

(** ** The pairing by name *)

(** The names the pairing is meant for: plain prefixes that the top modules do
    not carry themselves, followed by a rest without a backslash. *)
Definition regular_name (pre name : string) : bool :=
  if begins_with name (String BACKSLASH pre)
  then match substr_from name (S (String.length pre)) with Some rest => plain_rest rest | None => true end
  else true.

Definition regular (d : design) (c : NameConf) : bool :=
  plain (gold_prefix c) && plain (gate_prefix c) &&
  negb (begins_with (gold_top c) (String BACKSLASH (gold_prefix c))) &&
  negb (begins_with (gate_top c) (String BACKSLASH (gate_prefix c))) &&
  forallb (fun m => regular_name (gold_prefix c) (d_name m) && regular_name (gate_prefix c) (d_name m)) d.

(** The configuration seen from the other side. *)
Definition swap_conf (c : NameConf) : NameConf :=
  mkNameConf (gate_top c) (gold_top c) (gate_prefix c) (gold_prefix c).

Definition gold_partner (c : NameConf) (g : string) : option string :=
  partner g (gold_top c) (gold_prefix c) (gate_top c) (gate_prefix c).

(** Two modules of the design that the naming scheme pairs. *)
Definition paired (d : design) (c : NameConf) (g k : string) : Prop :=
  has_module d g = true /\ has_module d k = true /\
  on_side g (gold_top c) (gold_prefix c) = true /\ gold_partner c g = Some k.

Lemma has_module_elem d m : m ∈ d -> has_module d (d_name m) = true.
Proof.
  intros H. unfold has_module, design_module. destruct (find _ d) eqn:E; [done|].
  apply list_elem_of_In in H. apply (find_none _ _ E) in H. by rewrite String.eqb_refl in H.
Qed.

Lemma has_module_inv d g : has_module d g = true -> exists m, m ∈ d /\ d_name m = g.
Proof.
  unfold has_module, design_module. destruct (find _ d) as [m|] eqn:E; [|done]. intros _.
  apply find_some in E as [E1 E2%String.eqb_eq]. exists m. by rewrite list_elem_of_In.
Qed.

Lemma regular_swap d c : regular d c = true -> regular d (swap_conf c) = true.
Proof.
  unfold regular, swap_conf. cbn. rewrite !andb_true_iff. intros [[[[? ?] ?] ?] HF].
  split_and!; try done. rewrite forallb_forall in HF |- *. intros m Hm.
  specialize (HF m Hm). by rewrite andb_comm.
Qed.

(** The partner of a regular module exists, is on the other side and is mapped back. *)
Lemma gold_partner_regular d c g :
  regular d c = true -> has_module d g = true ->
  on_side g (gold_top c) (gold_prefix c) = true ->
  exists k, gold_partner c g = Some k /\
    on_side k (gate_top c) (gate_prefix c) = true /\ gold_partner (swap_conf c) k = Some g.
Proof.
  unfold regular. rewrite !andb_true_iff, !negb_true_iff. intros [[[[Hg Hk] Tg] Tk] HF] Hm Hs.
  unfold gold_partner, swap_conf. cbn.
  destruct (decide (g = gold_top c)) as [->|Ng].
  - exists (gate_top c). unfold partner. rewrite !String.eqb_refl.
    split_and!; [done| |done]. unfold on_side. by rewrite String.eqb_refl, orb_true_r.
  - destruct (on_side_inv _ _ _ Hg Hs Ng) as [rest ->].
    apply has_module_inv in Hm as (m & Hm & En). rewrite forallb_forall in HF.
    apply list_elem_of_In, HF in Hm. apply andb_true_iff in Hm as [Hr _]. rewrite En in Hr.
    assert (Hrest : plain_rest rest = true).
    { unfold regular_name, begins_with in Hr.
      change (String BACKSLASH (gold_prefix c +:+ rest)) with (String BACKSLASH (gold_prefix c) +:+ rest) in Hr.
      rewrite prefix_app in Hr.
      change (S (String.length (gold_prefix c))) with (String.length (String BACKSLASH (gold_prefix c))) in Hr.
      by rewrite substr_from_app in Hr. }
    assert (Nk : String BACKSLASH (gate_prefix c +:+ rest) <> gate_top c).
    { intros E. unfold begins_with in Tk. rewrite <- E in Tk.
      change (String BACKSLASH (gate_prefix c +:+ rest)) with (String BACKSLASH (gate_prefix c) +:+ rest) in Tk.
      by rewrite prefix_app in Tk. }
    exists (String BACKSLASH (gate_prefix c +:+ rest)).
    rewrite !partner_rest by done. split_and!; [done|by apply on_side_rest|done].
Qed.

Lemma paired_swap d c g k : regular d c = true -> paired d c g k <-> paired d (swap_conf c) k g.
Proof.
  assert (H : forall c g k, regular d c = true -> paired d c g k -> paired d (swap_conf c) k g).
  { intros c' g' k' Hr (Hg & Hk & Hs & Hp).
    destruct (gold_partner_regular d c' g' Hr Hg Hs) as (k0 & E & Hs' & Hp').
    rewrite Hp in E. injection E as <-. done. }
  intros Hr. split; [by apply H|]. intros Hp. apply H in Hp; [|by apply regular_swap].
  by destruct c.
Qed.

Lemma paired_fun d c g k k' : paired d c g k -> paired d c g k' -> k = k'.
Proof. intros (_ & _ & _ & E) (_ & _ & _ & E'). congruence. Qed.

Lemma paired_inj d c g g' k : regular d c = true -> paired d c g k -> paired d c g' k -> g = g'.
Proof.
  intros Hr H1%paired_swap H2%paired_swap; [|done..]. by apply (paired_fun _ _ _ _ _ H1 H2).
Qed.

Lemma for_opt_inv {A S} (f : S -> A -> option S) (P : S -> Prop) l s :
  (forall s x, x ∈ l -> P s -> exists s', f s x = Some s' /\ P s') -> P s ->
  exists s', for_opt f s l = Some s' /\ P s'.
Proof.
  revert s. induction l as [|x l IH]; intros s Hf Hs; [by exists s|]. cbn.
  destruct (Hf s x ltac:(left) Hs) as (s' & -> & Hs'). cbn. apply IH; [|done].
  intros. apply Hf; [by right|done].
Qed.

(** Project the fields of the states in the goal. *)
Ltac mm_proj :=
  cbn [mod_map_gold mod_map_gate mapped_mods_gold mapped_mods_gate unmapped_mods_gate unmapped_mods_gold].

(** What the two loops by name establish. *)
Record by_name (d : design) (c : NameConf) (mm : ModMap) : Prop := {
  bn_wf : dict_wf (mod_map_gold mm);
  bn_pools : dict_wf (unmapped_mods_gold mm) /\ dict_wf (unmapped_mods_gate mm);
  bn_map : forall g k, dict_find (mod_map_gold mm) g = Some k ->
             paired d c g k /\ k ∈ keys (mapped_mods_gate mm) /\ g ∈ keys (mapped_mods_gold mm);
  bn_gold : forall g, g ∈ keys (mapped_mods_gold mm) -> exists k, paired d c g k;
  bn_gate : forall k, k ∈ keys (mapped_mods_gate mm) -> exists g, paired d c g k;
  bn_ugold : forall g, g ∈ keys (unmapped_mods_gold mm) -> has_module d g = true /\ forall k, ~ paired d c g k;
  bn_ugate : forall k, k ∈ keys (unmapped_mods_gate mm) -> has_module d k = true /\ forall g, ~ paired d c g k
}.

Lemma by_name_empty d c : by_name d c empty_ModMap.
Proof. split; mm_proj; try (intros ? H; by apply not_elem_of_nil in H); try split; try constructor; done. Qed.

Lemma gold_step_by_name d c mm m :
  regular d c = true -> m ∈ d -> by_name d c mm ->
  exists mm', gold_step d c mm m = Some mm' /\ by_name d c mm'.
Proof.
  intros Hr Hm [W [P1 P2] M G K UG UK]. unfold gold_step.
  pose proof (has_module_elem _ _ Hm) as Hg. set (g := d_name m) in *.
  destruct (on_side g (gold_top c) (gold_prefix c)) eqn:Hs; [|by eexists].
  destruct (gold_partner_regular d c g Hr Hg Hs) as (k & Hp & _). unfold gold_partner in Hp.
  rewrite Hp. cbn [mbind option_bind]. eexists. split; [done|].
  destruct (has_module d k) eqn:Hk.
  - assert (HP : paired d c g k) by done. split; mm_proj; auto with dict.
    + intros g' k'. rewrite dict_find_set by done. unfold pool_add. rewrite !keys_insert_elem.
      case_decide as E; [intros [= <-]; subst; auto|].
      intros H. destruct (M _ _ H) as (? & ? & ?). auto.
    + intros g' H. unfold pool_add in H. apply keys_insert_elem in H as [->|H]; eauto.
    + intros k' H. unfold pool_add in H. apply keys_insert_elem in H as [->|H]; eauto.
  - split; mm_proj; auto with dict.
    + split; [by apply dict_wf_insert|done].
    + intros g' H. unfold pool_add in H. apply keys_insert_elem in H as [->|H]; [|auto].
      split; [done|]. intros k' (_ & Hk' & _ & Hp'). unfold gold_partner in Hp'. congruence.
Qed.

Lemma gate_step_by_name d c mm m :
  regular d c = true -> m ∈ d -> by_name d c mm ->
  exists mm', gate_step d c mm m = Some mm' /\ by_name d c mm' /\ mod_map_gold mm' = mod_map_gold mm.
Proof.
  intros Hr Hm [W [P1 P2] M G K UG UK]. unfold gate_step.
  pose proof (has_module_elem _ _ Hm) as Hk. set (k := d_name m) in *.
  destruct (on_side k (gate_top c) (gate_prefix c)) eqn:Hs; [|by eexists].
  destruct (gold_partner_regular d (swap_conf c) k (regular_swap _ _ Hr) Hk Hs) as (g & Hp & _).
  unfold gold_partner in Hp. cbn in Hp. rewrite Hp. cbn [mbind option_bind]. eexists. split; [done|].
  destruct (has_module d g) eqn:Hg; (split; [|done]).
  - assert (HP : paired d c g k) by (apply paired_swap; [done|]; done). split; mm_proj; auto.
    + intros g' k' H. destruct (M _ _ H) as (? & ? & ?). unfold pool_add. rewrite !keys_insert_elem. auto.
    + intros g' H. unfold pool_add in H. apply keys_insert_elem in H as [->|H]; eauto.
    + intros k' H. unfold pool_add in H. apply keys_insert_elem in H as [->|H]; eauto.
  - split; mm_proj; auto with dict.
    + split; [done|by apply dict_wf_insert].
    + intros k' H. unfold pool_add in H. apply keys_insert_elem in H as [->|H]; [|auto].
      split; [done|]. intros g' Hp'. apply paired_swap in Hp'; [|done].
      destruct Hp' as (_ & Hg' & _ & Hp''). unfold gold_partner in Hp''. cbn in Hp''. congruence.
Qed.

(** Every module of a list whose partner exists has been recorded. *)
Definition recorded (d : design) (c : NameConf) (mm : ModMap) (l : design) : Prop :=
  forall m k, m ∈ l -> paired d c (d_name m) k -> dict_find (mod_map_gold mm) (d_name m) = Some k.

Lemma gold_loop_by_name d c l mm :
  regular d c = true -> (forall m, m ∈ l -> m ∈ d) -> by_name d c mm ->
  exists mm', for_opt (gold_step d c) mm l = Some mm' /\ by_name d c mm' /\
    recorded d c mm' l /\
    (forall g k, dict_find (mod_map_gold mm) g = Some k -> dict_find (mod_map_gold mm') g = Some k).
Proof.
  intros Hr. revert mm. induction l as [|m l IH]; intros mm Hl Hb.
  - exists mm. split_and!; [done|done|intros m k Hm; by apply not_elem_of_nil in Hm|done].
  - destruct (gold_step_by_name d c mm m Hr ltac:(apply Hl; by left) Hb) as (mm1 & E1 & Hb1).
    destruct (IH mm1 ltac:(intros; apply Hl; by right) Hb1) as (mm2 & E2 & Hb2 & Hrec & Hmono).
    assert (H1 : forall g k, dict_find (mod_map_gold mm) g = Some k -> dict_find (mod_map_gold mm1) g = Some k).
    { intros g k Hf. destruct (bn_map _ _ _ Hb _ _ Hf) as [Hp _].
      unfold gold_step in E1. destruct (on_side _ _ _); [|by injection E1 as <-].
      destruct (partner _ _ _ _ _) as [k1|] eqn:Ep; [|done]. cbn [mbind option_bind] in E1.
      injection E1 as <-. destruct (has_module d k1); [|done]. mm_proj.
      rewrite dict_find_set by apply Hb. case_decide as E; [|done]. subst g.
      destruct Hp as (_ & _ & _ & Hp). unfold gold_partner in Hp. congruence. }
    exists mm2. split_and!; [cbn; by rewrite E1|done| |].
    + intros m' k Hm' Hp. apply elem_of_cons in Hm' as [->|Hm']; [|by apply Hrec].
      apply Hmono. destruct Hp as (Hg & Hk & Hs & Hp). unfold gold_partner in Hp.
      unfold gold_step in E1. rewrite Hs, Hp in E1. cbn [mbind option_bind] in E1.
      injection E1 as <-. rewrite Hk. mm_proj. rewrite dict_find_set by apply Hb. by rewrite decide_True.
    + intros g k Hf. by apply Hmono, H1.
Qed.

Lemma log_pairs_id d c mm :
  by_name d c mm -> recorded d c mm d -> log_pairs mm = mm.
Proof.
  intros Hb Hrec. destruct mm as [mg mk pg pk uk ug]. unfold log_pairs. mm_proj. f_equal.
  assert (H : forall l, (forall k, k ∈ l -> is_Some (dict_index mg k)) ->
            fold_left (fun d k => dict_insert d k "") l mg = mg).
  { induction l as [|k l IH]; intros Hl; [done|]. cbn [fold_left]. unfold dict_insert at 2.
    destruct (Hl k ltac:(left)) as [i ->]. apply IH. intros; apply Hl; by right. }
  apply H. intros g Hg. unfold dict_iter in Hg. rewrite fmap_reverse, elem_of_reverse in Hg.
  destruct (bn_gold _ _ _ Hb g Hg) as [k Hp].
  destruct (has_module_inv d g (proj1 Hp)) as (m & Hm & <-).
  specialize (Hrec m k Hm Hp). cbn in Hrec. unfold dict_find in Hrec.
  destruct (dict_index mg (d_name m)); [by eexists|done].
Qed.

Lemma map_by_name_spec d c :
  regular d c = true ->
  exists mm, map_by_name d c = Some mm /\ by_name d c mm /\
    (forall g k, dict_find (mod_map_gold mm) g = Some k <-> paired d c g k).
Proof.
  intros Hr. unfold map_by_name.
  destruct (gold_loop_by_name d c d empty_ModMap Hr ltac:(done) (by_name_empty _ _))
    as (mm1 & -> & Hb1 & Hrec & _). cbn [mbind option_bind].
  destruct (for_opt_inv (gate_step d c)
    (fun mm => by_name d c mm /\ mod_map_gold mm = mod_map_gold mm1) d mm1) as (mm2 & -> & Hb2 & E2).
  { intros mm m Hm [Hb E]. destruct (gate_step_by_name d c mm m Hr Hm Hb) as (mm' & -> & Hb' & E').
    eexists. split; [done|]. split; [done|congruence]. }
  { done. }
  cbn [mbind option_bind].
  assert (Hrec2 : recorded d c mm2 d) by (unfold recorded; by rewrite E2).
  exists mm2. split_and!; [by rewrite (log_pairs_id d c)|done|].
  intros g k. split; [apply (bn_map _ _ _ Hb2)|]. intros Hp.
  destruct (has_module_inv d g (proj1 Hp)) as (m & Hm & <-). by apply Hrec2.
Qed.

(** ** The pairing stays one-to-one *)

(** The pairs recorded so far, against the sets of mapped modules. *)
Record one_to_one (d : design) (mm : ModMap) : Prop := {
  oo_wf : dict_wf (mod_map_gold mm);
  oo_map : forall g k, dict_find (mod_map_gold mm) g = Some k ->
             has_module d g = true /\ has_module d k = true /\
             g ∈ keys (mapped_mods_gold mm) /\ k ∈ keys (mapped_mods_gate mm);
  oo_inj : forall g g' k, dict_find (mod_map_gold mm) g = Some k ->
             dict_find (mod_map_gold mm) g' = Some k -> g = g'
}.

(** The unmapped modules are not mapped. *)
Record unmapped_ok (d : design) (mm : ModMap) : Prop := {
  un_wf : dict_wf (unmapped_mods_gold mm) /\ dict_wf (unmapped_mods_gate mm);
  un_gold : forall g, g ∈ keys (unmapped_mods_gold mm) ->
              has_module d g = true /\ g ∉ keys (mapped_mods_gold mm);
  un_gate : forall k, k ∈ keys (unmapped_mods_gate mm) ->
              has_module d k = true /\ k ∉ keys (mapped_mods_gate mm)
}.

Lemma by_name_one_to_one d c mm :
  regular d c = true -> by_name d c mm ->
  (forall g k, dict_find (mod_map_gold mm) g = Some k <-> paired d c g k) ->
  one_to_one d mm /\ unmapped_ok d mm.
Proof.
  intros Hr Hb Hm. split; split.
  - apply Hb.
  - intros g k Hf. destruct (bn_map _ _ _ Hb _ _ Hf) as (Hp & ? & ?).
    destruct Hp as (? & ? & _). done.
  - intros g g' k H1%Hm H2%Hm. by apply (paired_inj d c g g' k Hr).
  - apply Hb.
  - intros g Hg. destruct (bn_ugold _ _ _ Hb g Hg) as [? Hn]. split; [done|].
    intros [k Hp]%(bn_gold _ _ _ Hb). by apply (Hn k).
  - intros k Hk. destruct (bn_ugate _ _ _ Hb k Hk) as [? Hn]. split; [done|].
    intros [g Hp]%(bn_gate _ _ _ Hb). by apply (Hn g).
Qed.

(** Recording a pair of modules that are both free. *)
Lemma one_to_one_add d mm g k uk ug :
  one_to_one d mm -> has_module d g = true -> has_module d k = true ->
  g ∉ keys (mapped_mods_gold mm) -> k ∉ keys (mapped_mods_gate mm) ->
  one_to_one d (mkModMap (dict_set (mod_map_gold mm) g k) (mod_map_gate mm)
    (pool_add (mapped_mods_gold mm) g) (pool_add (mapped_mods_gate mm) k) uk ug) /\
  (forall g' k', dict_find (mod_map_gold mm) g' = Some k' ->
     dict_find (dict_set (mod_map_gold mm) g k) g' = Some k').
Proof.
  intros [W M I] Hg Hk Ng Nk. split; [split; mm_proj|].
  - by apply dict_wf_set.
  - intros g' k'. rewrite dict_find_set by done. unfold pool_add. rewrite !keys_insert_elem.
    case_decide as E; [intros [= <-]; subst; auto|].
    intros H. destruct (M _ _ H) as (? & ? & ? & ?). auto.
  - intros g1 g2 k'. rewrite !dict_find_set by done.
    repeat case_decide; subst; try done.
    + intros [= <-] Hf. by destruct (M _ _ Hf) as (_ & _ & _ & ?).
    + intros Hf [= <-]. by destruct (M _ _ Hf) as (_ & _ & _ & ?).
    + apply I.
  - intros g' k' H. rewrite dict_find_set by done. case_decide as E; [|done].
    subst. by destruct (M _ _ H) as (_ & _ & ? & _).
Qed.

Definition extends (mm mm' : ModMap) : Prop :=
  forall g k, dict_find (mod_map_gold mm) g = Some k -> dict_find (mod_map_gold mm') g = Some k.

#[global] Instance extends_preorder : PreOrder extends.
Proof. split; [by intros ? ?|]. intros x y z H1 H2 g k Hf. by apply H2, H1. Qed.

Lemma external_line_ok d mm buf :
  one_to_one d mm -> unmapped_ok d mm ->
  let mm' := external_line d mm buf in
  one_to_one d mm' /\ unmapped_ok d mm' /\ extends mm mm'.
Proof.
  intros H U. cbv zeta. unfold external_line.
  assert (Hid : one_to_one d mm /\ unmapped_ok d mm /\ extends mm mm) by (split_and!; [done|done|reflexivity]).
  destruct (match chomp (c_string buf) with [] => true | c :: _ => Ascii.eqb c "#" end); [exact Hid|].
  destruct (existsb _ _); [exact Hid|].
  destruct (tokens _ _) as [|gn [|kn ts]]; [exact Hid|exact Hid|].
  set (g := escape_id _). set (k := escape_id (String.string_of_list_ascii kn)).
  destruct (has_module d g) eqn:Hg; [|exact Hid]. destruct (has_module d k) eqn:Hk; [|exact Hid].
  cbn [negb orb]. destruct (dict_count (mapped_mods_gold mm) g) eqn:Cg; [exact Hid|].
  destruct (dict_count (mapped_mods_gate mm) k) eqn:Ck; [exact Hid|]. cbn [orb].
  apply dict_count_false in Cg, Ck. destruct U as [[U1 U2] UG UK].
  destruct (one_to_one_add d mm g k (dict_erase (unmapped_mods_gate mm) k)
    (dict_erase (unmapped_mods_gold mm) g) H Hg Hk Cg Ck) as [Ho He].
  split_and!; [done| |done]. split; mm_proj; auto with dict; unfold pool_add.
  - intros g' H'. rewrite keys_insert_elem. apply keys_erase in H' as [Hn Hu]; [|done].
    destruct (UG g' Hu). split; [done|]. by intros [?|?].
  - intros k' H'. rewrite keys_insert_elem. apply keys_erase in H' as [Hn Hu]; [|done].
    destruct (UK k' Hu). split; [done|]. by intros [?|?].
Qed.

Lemma map_external_ok d file mm :
  one_to_one d mm -> unmapped_ok d mm ->
  let mm' := map_external d file mm in
  one_to_one d mm' /\ unmapped_ok d mm' /\ extends mm mm'.
Proof.
  intros Ho Uo. cbv zeta. destruct file as [content|]; cbn; [|split_and!; [done|done|reflexivity]].
  generalize (fgets_lines 4096 content) as l. intros l. revert mm Ho Uo.
  induction l as [|b l IH]; intros mm H U; cbn; [split_and!; [done|done|reflexivity]|].
  destruct (external_line_ok d mm b H U) as (H1 & U1 & E1).
  destruct (IH _ H1 U1) as (H2 & U2 & E2). split_and!; [done|done|]. by etrans.
Qed.

(** *** The structural phase *)

(** The gate modules still offered under some signature. *)
Definition offered (sigs : dict string (list string)) : list string := concat sigs.*2.

Lemma offered_set sigs s l :
  offered (dict_set sigs s l) ++ default [] (dict_find sigs s) ≡ₚ l ++ offered sigs.
Proof.
  unfold offered, dict_set, dict_find. destruct (dict_index sigs s) as [i|] eqn:E.
  - apply dict_index_Some in E as (l0 & Hi & Hl). cbn. rewrite Hi. cbn.
    rewrite insert_take_drop by done. rewrite <- (take_drop_middle sigs i (s, l0)) at 3 by done.
    rewrite !fmap_app, !fmap_cons, !concat_app. cbn. solve_Permutation.
  - cbn. rewrite fmap_app, concat_app. cbn. solve_Permutation.
Qed.

Lemma offered_push d sigs gn :
  has_module d gn = true -> offered (push_sig d sigs gn) ≡ₚ gn :: offered sigs.
Proof.
  unfold has_module, push_sig. destruct (design_module d gn) as [gm|]; [|done]. intros _. cbv zeta.
  pose proof (offered_set sigs (make_sig gm) (default [] (dict_find sigs (make_sig gm)) ++ [gn])) as P.
  set (x := default [] (dict_find sigs (make_sig gm))) in *.
  apply (Permutation_app_inv_r x). rewrite P. solve_Permutation.
Qed.

Lemma offered_collect d l sigs :
  (forall k, k ∈ l -> has_module d k = true) ->
  offered (fold_left (push_sig d) l sigs) ≡ₚ l ++ offered sigs.
Proof.
  revert sigs. induction l as [|k l IH]; intros sigs Hl; [done|]. cbn.
  etrans; [apply IH; intros; apply Hl; by right|]. rewrite offered_push by (apply Hl; left). solve_Permutation.
Qed.

(** The state of the greedy loop: the offered gate modules and the gold modules
    still to come are free and without repetition. *)
Record struct_inv (d : design) (mm : ModMap) (sigs : dict string (list string)) (gs : list string) : Prop := {
  si_pairs : one_to_one d mm;
  si_offered : NoDup (offered sigs) /\
    forall k, k ∈ offered sigs -> has_module d k = true /\ k ∉ keys (mapped_mods_gate mm);
  si_golds : NoDup gs /\
    forall g, g ∈ gs -> has_module d g = true /\ g ∉ keys (mapped_mods_gold mm)
}.

Lemma struct_loop_inv d gs mm sigs matched :
  struct_inv d mm sigs gs ->
  let '(mm', _, _) := fold_left (struct_step d) gs (mm, sigs, matched) in
  one_to_one d mm' /\ extends mm mm'.
Proof.
  revert mm sigs matched. induction gs as [|g gs IH]; intros mm sigs matched [H [ON OF] [GN GF]].
  - split; [done|reflexivity].
  - apply NoDup_cons in GN as [Ng GN]. cbn [fold_left].
    assert (Hskip : struct_inv d mm sigs gs).
    { split; [done|done|]. split; [done|]. intros g' Hg'. apply GF. by right. }
    destruct (GF g ltac:(left)) as [Hg Hgm]. unfold struct_step at 2.
    destruct (design_module d g) as [gm|]; [|by apply IH].
    destruct (dict_find sigs (make_sig gm)) as [[|k rest]|] eqn:E; [by apply IH| |by apply IH].
    pose proof (offered_set sigs (make_sig gm) rest) as P. rewrite E in P. cbn in P.
    assert (P' : offered sigs ≡ₚ k :: offered (dict_set sigs (make_sig gm) rest)).
    { apply (Permutation_app_inv_l rest). rewrite <- P. solve_Permutation. }
    rewrite P' in ON. apply NoDup_cons in ON as [Nk ON].
    destruct (OF k ltac:(rewrite P'; by left)) as [Hk Hkm].
    destruct (one_to_one_add d mm g k (unmapped_mods_gate mm) (unmapped_mods_gold mm) H Hg Hk Hgm Hkm)
      as [H' He].
    match goal with |- context [fold_left _ gs (?m, ?s, ?l)] => specialize (IH m s l) end.
    destruct (fold_left _ _ _) as [[mm' s'] l']. destruct IH as [H1 H2].
    + split; [done|split; [done|]|split; [done|]]; mm_proj; unfold pool_add.
      * intros k' Hk'. rewrite keys_insert_elem.
        destruct (OF k' ltac:(rewrite P'; by right)). split; [done|]. intros [->|]; done.
      * intros g' Hg'. rewrite keys_insert_elem. destruct (GF g' ltac:(by right)).
        split; [done|]. intros [->|]; done.
    + split; [done|]. intros g' k' Hf. by apply H2, He.
Qed.

Lemma dict_iter_keys {V} (p : dict string V) x : x ∈ (dict_iter p).*1 <-> x ∈ keys p.
Proof. unfold dict_iter, keys. by rewrite fmap_reverse, elem_of_reverse. Qed.

Lemma dict_iter_NoDup {V} (p : dict string V) : dict_wf p -> NoDup (dict_iter p).*1.
Proof. unfold dict_wf, dict_iter, keys. by rewrite fmap_reverse, reverse_Permutation. Qed.

Lemma map_structural_ok d mm :
  one_to_one d mm -> unmapped_ok d mm ->
  one_to_one d (map_structural d mm) /\ extends mm (map_structural d mm).
Proof.
  intros H [[U1 U2] UG UK]. unfold map_structural.
  destruct (unmapped_mods_gold mm) as [|g0 ug] eqn:Eg; [by split|].
  destruct (unmapped_mods_gate mm) as [|k0 uk] eqn:Ek; [by split|].
  rewrite <- Eg, <- Ek in *. clear Eg Ek.
  pose proof (struct_loop_inv d (dict_iter (unmapped_mods_gold mm)).*1 mm
    (fold_left (push_sig d) (dict_iter (unmapped_mods_gate mm)).*1 []) []) as L.
  destruct (fold_left (struct_step d) _ _) as [[mm' s'] l'].
  assert (P : offered (fold_left (push_sig d) (dict_iter (unmapped_mods_gate mm)).*1 []) ≡ₚ
              (dict_iter (unmapped_mods_gate mm)).*1).
  { rewrite offered_collect; [|intros k Hk; exact (proj1 (UK k (proj1 (dict_iter_keys _ k) Hk)))].
    cbn. by rewrite app_nil_r. }
  destruct L as [[W M I] He].
  - split; [done| |].
    + rewrite P. split; [by apply dict_iter_NoDup|]. intros k Hk. rewrite P in Hk.
      by apply UK, dict_iter_keys.
    + split; [by apply dict_iter_NoDup|]. intros g Hg. by apply UG, dict_iter_keys.
  - split; [by split|exact He].
Qed.

(** What the three phases of [hier_mod_map] establish together. *)
Lemma hier_mod_map_pairs d c file :
  regular d c = true ->
  exists mm, hier_mod_map d c file = Some mm /\
    (forall g k, dict_find (mod_map_gold mm) g = Some k ->
       has_module d g = true /\ has_module d k = true) /\
    (forall g g' k, dict_find (mod_map_gold mm) g = Some k ->
       dict_find (mod_map_gold mm) g' = Some k -> g = g') /\
    (forall g k, has_module d g = true -> has_module d k = true ->
       on_side g (gold_top c) (gold_prefix c) = true ->
       partner g (gold_top c) (gold_prefix c) (gate_top c) (gate_prefix c) = Some k ->
       dict_find (mod_map_gold mm) g = Some k).
Proof.
  intros Hr. unfold hier_mod_map.
  destruct (map_by_name_spec d c Hr) as (mm & -> & Hb & Hm). cbn [mbind option_bind].
  destruct (by_name_one_to_one d c mm Hr Hb Hm) as [H U].
  destruct (map_external_ok d file mm H U) as (H1 & U1 & E1).
  destruct (map_structural_ok d _ H1 U1) as [[W M I] E2].
  eexists. split; [done|]. split_and!.
  - intros g k Hf. by destruct (M _ _ Hf) as (? & ? & _).
  - exact I.
  - intros g k Hg Hk Hs Hp. apply E2, E1, Hm. done.
Qed.

(** C3: with regular names the pairing never throws and is one-to-one: each gold
    module has at most one gate module and no gate module two gold modules, all
    of them modules of the design; every pair the naming scheme defines is in
    it, and the guidance file and the port signatures only add pairs of modules
    that had none. *)
Theorem hier_mod_map_one_to_one d c file :
  regular d c = true ->
  exists mm, hier_mod_map d c file = Some mm /\
    (forall g k, dict_find (mod_map_gold mm) g = Some k ->
       has_module d g = true /\ has_module d k = true) /\
    (forall g g' k, dict_find (mod_map_gold mm) g = Some k ->
       dict_find (mod_map_gold mm) g' = Some k -> g = g') /\
    (forall g k, has_module d g = true -> has_module d k = true ->
       on_side g (gold_top c) (gold_prefix c) = true ->
       partner g (gold_top c) (gold_prefix c) (gate_top c) (gate_prefix c) = Some k ->
       dict_find (mod_map_gold mm) g = Some k).
Proof. apply hier_mod_map_pairs. Qed.

(** A design with a pair by name, and a pair that only the ports reveal. *)
Definition small_port (i o : bool) (w : Z) : PWire := mkPWire w i o 1.
Definition small_design : design :=
  [mkDMod "\gold" false false [] []; mkDMod "\gold.a" false false [small_port true false 3; small_port false true 4] [];
   mkDMod "\gold.b" false false [] []; mkDMod "\gate" false false [] [];
   mkDMod "\gate.a2" false false [small_port true false 3; small_port false true 4] []; mkDMod "\gate.b" false false [] []].
Definition small_conf : NameConf := mkNameConf "\gold" "\gate" "gold." "gate.".

Lemma hier_mod_map_one_to_one_witness :
  exists mm, hier_mod_map small_design small_conf None = Some mm /\
    dict_find (mod_map_gold mm) "\gold.b" = Some "\gate.b" /\
    dict_find (mod_map_gold mm) "\gold.a" = Some "\gate.a2".
Proof.
  destruct (hier_mod_map_one_to_one small_design small_conf None eq_refl) as (mm & E & _ & _ & H).
  exists mm. split; [exact E|]. split; [by apply H|].
  vm_compute in E. injection E as <-. reflexivity.
Defined.
