(* ===== verification/Sched.v ===== *)
(** * The learned scheduler model ([passes/guide/check/scheduler.cc])

    Features of a module pair, the prediction of a decision tree and the cost of
    a proof action.  [None] is a run that does not end. *)

From S2P Require Import Prelude Dict Shared.

Local Open Scope string_scope.
Local Open Scope list_scope.
Local Open Scope Z_scope.

(** ** [scheduler.h] *)

Record GuideSchedLinearAction := mkLinear { bias : double; weights : dict string double }.

Record GuideSchedTreeNode := mkNode {
  feature_index : Z; threshold : double; left_ : Z; right_ : Z; value : double; is_leaf : bool
}.

Record GuideSchedModel := mkSchedModel {
  loaded : bool; model_path : string; model_type : string; feature_names : list string;
  base_score : double; learning_rate : double;
  linear_actions : dict string GuideSchedLinearAction;
  trees : list (list GuideSchedTreeNode)
}.

(** [GuideSchedModel()] *)
Definition new_sched_model : GuideSchedModel :=
  mkSchedModel false "" "" [] (d_of_Z 0) (d_of_Z 1) [] [].

Record GuideMatchModel := mkMatchModel {
  mm_loaded : bool; mm_path : string; mm_model_type : string; mm_feature_names : list string;
  mm_base_score : double; mm_learning_rate : double; mm_trees : list (list GuideSchedTreeNode)
}.

(** ** Features *)

Definition scheduler_pair_features (pair_record : PairRecord) (match_stats : MatchStats)
    : dict string double :=
  let features := [] in
  let features := dict_set features "has_dff"
    (d_of_bool (negb (gold_dff_cnt pair_record =? 0) || negb (gate_dff_cnt pair_record =? 0))) in
  let features := dict_set features "gold_dff_cnt" (d_of_Z (gold_dff_cnt pair_record)) in
  let features := dict_set features "gate_dff_cnt" (d_of_Z (gate_dff_cnt pair_record)) in
  let features := dict_set features "has_submodule" (d_of_bool (has_submodule pair_record)) in
  let features := dict_set features "exact_total" (d_of_Z (exact_total match_stats)) in
  let features := dict_set features "pi_cnt" (d_of_Z (pi_cnt match_stats)) in
  let features := dict_set features "po_cnt" (d_of_Z (po_cnt match_stats)) in
  let features := dict_set features "dff_cnt" (d_of_Z (dff_cnt match_stats)) in
  let features := dict_set features "dff_po_cnt" (d_of_Z (dff_po_cnt match_stats)) in
  let features := dict_set features "subckt_cnt" (d_of_Z (subckt_cnt match_stats)) in
  let features := dict_set features "unmatched_gold" (d_of_Z (unmatched_gold match_stats)) in
  let features := dict_set features "unmatched_gate" (d_of_Z (unmatched_gate match_stats)) in
  let features := dict_set features "retimed" (d_of_bool (retimed pair_record)) in
  let features := dict_set features "mul_touched" (d_of_bool (mul_touched pair_record)) in
  dict_set features "bb_const_in_cnt" (d_of_Z (bb_const_in_cnt pair_record)).

Definition scheduler_context_features (action : string) (pair_record : PairRecord)
    (match_stats : MatchStats) : dict string double :=
  let isa a := String.eqb action a in
  let features := scheduler_pair_features pair_record match_stats in
  let features := dict_set features "act_cec_map" (d_of_bool (isa "cec_map")) in
  let features := dict_set features "act_cec_nomap" (d_of_bool (isa "cec_nomap")) in
  let features := dict_set features "act_dsec_map" (d_of_bool (isa "dsec_map")) in
  let features := dict_set features "act_dsec_nomap" (d_of_bool (isa "dsec_nomap")) in
  let features := dict_set features "is_dsec" (d_of_bool (isa "dsec_map" || isa "dsec_nomap")) in
  dict_set features "use_map" (d_of_bool (isa "cec_map" || isa "dsec_map")).

(** ** Prediction *)

(** The loop of [tree_predict] from a node index. *)
Fixpoint tree_loop (fuel : nat) (tree : list GuideSchedTreeNode) (features : list double)
    (node_index : Z) : option double :=
  if (0 <=? node_index) && (node_index <? Z.of_nat (length tree)) then
    node ← tree !! Z.to_nat node_index;
    if is_leaf node then Some (value node)
    else
      let feature_value :=
        if (0 <=? feature_index node) && (feature_index node <? Z.of_nat (length features))
        then default (d_of_Z 0) (features !! Z.to_nat (feature_index node)) else d_of_Z 0 in
      match fuel with
      | O => None
      | S fuel => tree_loop fuel tree features
                    (if d_le feature_value (threshold node) then left_ node else right_ node)
      end
  else Some (d_of_Z 0).

Definition tree_predict (tree : list GuideSchedTreeNode) (features : list double) : option double :=
  tree_loop (length tree) tree features 0.

(** [features[i] = features_by_name.at(feature_names[i])], 0 for unknown names. *)
Definition feature_vector (names : list string) (features_by_name : dict string double) : list double :=
  (fun name => default (d_of_Z 0) (dict_find features_by_name name)) <$> names.

Fixpoint add_trees (trees : list (list GuideSchedTreeNode)) (features : list double) (cost : double)
    : option double :=
  match trees with
  | [] => Some cost
  | tree :: trees => p ← tree_predict tree features; add_trees trees features (d_add cost p)
  end.

Definition predict_sched_cost (model : GuideSchedModel) (action : string)
    (pair_record : PairRecord) (match_stats : MatchStats) : option double :=
  if negb (loaded model) then Some (d_of_Z 0)
  else if String.eqb (model_type model) "guide_sched_linear_v1" then
    match dict_find (linear_actions model) action with
    | None => Some (d_of_Z 0)
    | Some act =>
        let features := scheduler_context_features action pair_record match_stats in
        Some (fold_left (fun cost w => d_add cost (d_mul (snd w) (default (d_of_Z 0) (dict_find features (fst w)))))
                (dict_iter (weights act)) (bias act))
    end
  else
    add_trees (trees model)
      (feature_vector (feature_names model) (scheduler_context_features action pair_record match_stats))
      (base_score model).

(** ** Loading a model

    The file system and the JSON parser are arguments: the contents of a file,
    [None] when it cannot be opened, and the value of a text, [None] for an error. *)

(** [json[key]] *)
Definition json_at (j : Json) (key : string) : Json := default JNull (member j key).

(** The truncation of a [double] (an [int] that overflows is undefined in C++). *)
Definition d_trunc (d : double) : Z :=
  match d with
  | S754_finite s m e =>
      let a := if 0 <=? e then Zpos m * 2 ^ e else Zpos m / 2 ^ (- e) in if s then - a else a
  | _ => 0
  end.

Definition int_value (j : Json) : Z := match j with JInt z => z | JDouble d => d_trunc d | _ => 0 end.
Definition number_value (j : Json) : double := match j with JInt z => d_of_Z z | JDouble d => d | _ => d_of_Z 0 end.
Definition bool_value (j : Json) : bool := match j with JBool b => b | _ => false end.

Definition tree_node_of_json (j : Json) : GuideSchedTreeNode :=
  mkNode (int_value (json_at j "feature_index")) (number_value (json_at j "threshold"))
    (int_value (json_at j "left")) (int_value (json_at j "right"))
    (number_value (json_at j "value")) (bool_value (json_at j "is_leaf")).

(** [None]: the tree is empty. *)
Definition tree_of_json (j : Json) : option (list GuideSchedTreeNode) :=
  match array_items (json_at j "nodes") with
  | [] => None
  | nodes => Some (tree_node_of_json <$> nodes)
  end.

(** The strings of the array of feature names. *)
Definition names_of_json (j : Json) : list string :=
  omap (fun item => match item with JString s => Some s | _ => None end) (array_items (json_at j "feature_names")).

Section Load.
Context (read : string -> option string) (parse : string -> option Json).

(** The parsed file; [None] is [log_error]. *)
Definition load_json (path : string) : option Json := read path ≫= parse.

(** The parts both kinds of model take from the file: the type, the names, the
    score, the rate and the trees. *)
Definition load_tree_model_common (path expected_type : string)
    : option (string * list string * double * double * list (list GuideSchedTreeNode)) :=
  json ← load_json path;
  let model_type := string_value (json_at json "model_type") in
  if negb (String.eqb model_type expected_type) then None
  else
    trees ← mapM tree_of_json (array_items (json_at json "trees"));
    Some (model_type, names_of_json json, number_value (json_at json "base_score"),
          number_value (json_at json "learning_rate"), trees).

(** One entry of [actions] of a linear model. *)
Definition linear_action_of_json (j : Json) : GuideSchedLinearAction :=
  mkLinear (number_value (json_at j "bias"))
    (fold_left (fun d w => dict_set d (fst w) (number_value (snd w))) (object_items (json_at j "weights")) []).

(** The result and the model; [None] is [log_error]. *)
Definition load_sched_model (path : string) (model : GuideSchedModel) : option (bool * GuideSchedModel) :=
  if String.eqb path "" then Some (false, model)
  else if loaded model && String.eqb (model_path model) path then Some (true, model)
  else if String.eqb (model_type model) "guide_sched_linear_v1" then
    json ← load_json path;
    Some (true, mkSchedModel true path (string_value (json_at json "model_type")) (names_of_json json)
      (number_value (json_at json "base_score")) (number_value (json_at json "learning_rate"))
      (fold_left (fun d it => dict_set d (fst it) (linear_action_of_json (snd it))) (object_items (json_at json "actions")) [])
      [])
  else
    '(ty, names, base, rate, trees) ← load_tree_model_common path "guide_sched_gbdt_v1";
    Some (true, mkSchedModel true path ty names base rate [] trees).

Definition load_match_model (path : string) (model : GuideMatchModel) : option (bool * GuideMatchModel) :=
  if String.eqb path "" then Some (false, model)
  else if mm_loaded model && String.eqb (mm_path model) path then Some (true, model)
  else
    '(ty, names, base, rate, trees) ← load_tree_model_common path "guide_match_gbdt_v1";
    Some (true, mkMatchModel true path ty names base rate trees).

(** A model the pass can load is a tree model: [execute] starts from a fresh
    [GuideSchedModel], whose empty type sends every file to the tree loader, so a
    linear model is refused and the linear branches of [load_sched_model] and
    [predict_sched_cost] are never taken. *)
Theorem loaded_model_is_tree path ok model :
  load_sched_model path new_sched_model = Some (ok, model) -> loaded model = true ->
  model_type model = "guide_sched_gbdt_v1" /\ linear_actions model = [] /\
  Forall (fun tree => tree <> []) (trees model).
Proof.
  unfold load_sched_model. cbn [loaded new_sched_model model_type andb].
  destruct (String.eqb path ""); [by intros [= <- <-]|].
  destruct (String.eqb "" _) eqn:E0; [done|]. unfold load_tree_model_common.
  destruct (load_json path) as [json|]; cbn [mbind option_bind]; [|done].
  destruct (String.eqb_spec (string_value (json_at json "model_type")) "guide_sched_gbdt_v1") as [Et|]; cbn [negb]; [|done].
  destruct (mapM tree_of_json _) as [ts|] eqn:Em; cbn [mbind option_bind]; [|done].
  intros [= <- <-] _. cbn. split; [done|]. split; [done|].
  apply mapM_Some in Em. induction Em as [|j t js ts Ht Hts IH]; constructor; [|done].
  unfold tree_of_json in Ht. destruct (array_items _) as [|n ns]; [done|]. by injection Ht as <-.
Qed.
End Load.

Definition stump_json : Json := JObject [
  ("model_type", JString "guide_sched_gbdt_v1"); ("feature_names", JArray [JString "has_dff"]);
  ("base_score", JInt 1);
  ("trees", JArray [JObject [("nodes", JArray [JObject [("is_leaf", JBool true); ("value", JInt 3)]])]])].

Lemma loaded_model_is_tree_witness :
  exists model, load_sched_model Some (fun _ => Some stump_json) "m.json" new_sched_model = Some (true, model) /\
    length (trees model) = 1%nat /\ model_type model = "guide_sched_gbdt_v1".
Proof.
  assert (E : exists model, load_sched_model Some (fun _ => Some stump_json) "m.json" new_sched_model = Some (true, model) /\
                            loaded model = true /\ length (trees model) = 1%nat)
    by (eexists; vm_compute; repeat split).
  destruct E as (model & E & Hl & Ht). exists model. split; [exact E|]. split; [exact Ht|].
  exact (proj1 (loaded_model_is_tree Some (fun _ => Some stump_json) "m.json" true model E Hl)).
Defined.

(** ** Termination *)

(** A tree in topological order: every child comes after its parent or is no
    node at all. *)
Definition child_ok (n i : nat) (child : Z) : bool :=
  (child <? 0) || (Z.of_nat n <=? child) || (Z.of_nat i <? child).

Definition tree_ok (tree : list GuideSchedTreeNode) : bool :=
  forallb (fun p => is_leaf (snd p) ||
                    (child_ok (length tree) (fst p) (left_ (snd p)) &&
                     child_ok (length tree) (fst p) (right_ (snd p))))
    (zip (seq 0 (length tree)) tree).

Lemma tree_ok_node tree i node :
  tree_ok tree = true -> tree !! i = Some node ->
  is_leaf node = true \/
  (child_ok (length tree) i (left_ node) = true /\ child_ok (length tree) i (right_ node) = true).
Proof.
  unfold tree_ok. rewrite forallb_forall. intros HF Hi.
  assert (Hin : In (i, node) (zip (seq 0 (length tree)) tree)).
  { apply list_elem_of_In, list_elem_of_lookup. exists i. apply lookup_zip_with_Some.
    exists i, node. split; [done|]. split; [|done].
    rewrite lookup_seq_lt by (by eapply lookup_lt_Some). done. }
  apply HF in Hin. cbn in Hin. apply orb_true_iff in Hin as [?|?%andb_true_iff]; auto.
Qed.

Lemma tree_loop_out fuel tree features i :
  (i < 0 \/ Z.of_nat (length tree) <= i) -> tree_loop fuel tree features i = Some (d_of_Z 0).
Proof.
  intros Hi. destruct fuel; cbn; destruct (Z.leb_spec 0 i), (Z.ltb_spec i (Z.of_nat (length tree))); try lia; done.
Qed.

Lemma tree_loop_total tree features : tree_ok tree = true ->
  forall fuel i, (length tree <= fuel + i)%nat ->
  exists v, tree_loop fuel tree features (Z.of_nat i) = Some v /\
    (v = d_of_Z 0 \/ exists j node, tree !! j = Some node /\ is_leaf node = true /\ v = value node).
Proof.
  intros Hok. induction fuel as [|fuel IH]; intros i Hf.
  - rewrite tree_loop_out by lia. eauto.
  - cbn [tree_loop]. destruct (Z.leb_spec 0 (Z.of_nat i)); [|lia].
    destruct (Z.ltb_spec (Z.of_nat i) (Z.of_nat (length tree))); [|eauto]. cbn [andb].
    rewrite Nat2Z.id. destruct (lookup_lt_is_Some_2 tree i ltac:(lia)) as [node Hn]. rewrite Hn.
    cbn [mbind option_bind]. destruct (is_leaf node) eqn:El; [by eauto 10|].
    destruct (tree_ok_node _ _ _ Hok Hn) as [?|[HL HR]]; [congruence|].
    assert (Hc : forall c, child_ok (length tree) i c = true ->
              exists v, tree_loop fuel tree features c = Some v /\
                (v = d_of_Z 0 \/ exists j node, tree !! j = Some node /\ is_leaf node = true /\ v = value node)).
    { intros c Hc. unfold child_ok in Hc. rewrite !orb_true_iff, Z.ltb_lt, Z.leb_le, Z.ltb_lt in Hc.
      destruct (decide (0 <= c < Z.of_nat (length tree))) as [Hr|Hr].
      - rewrite <- (Z2Nat.id c) by lia. apply IH. lia.
      - rewrite tree_loop_out by lia. eauto. }
    cbv zeta. case_match; by apply Hc.
Qed.

(** C30: on a tree whose children follow their parents, [tree_predict] ends
    within one step per node and returns the value of a leaf (or 0 when it
    leaves the tree), for every feature vector, NaN included. *)
Theorem tree_predict_total tree features :
  tree_ok tree = true ->
  exists v, tree_predict tree features = Some v /\
    (v = d_of_Z 0 \/ exists j node, tree !! j = Some node /\ is_leaf node = true /\ v = value node).
Proof. intros Hok. apply (tree_loop_total tree features Hok (length tree) 0). lia. Qed.

Definition stump (v1 v2 : Z) : list GuideSchedTreeNode :=
  [mkNode 0 (d_of_Z 5) 1 2 (d_of_Z 0) false;
   mkNode (-1) (d_of_Z 0) (-1) (-1) (d_of_Z v1) true; mkNode (-1) (d_of_Z 0) (-1) (-1) (d_of_Z v2) true].

Lemma tree_predict_total_witness :
  tree_predict (stump 10 20) [d_of_Z 5] = Some (d_of_Z 10) /\
  exists v, tree_predict (stump 10 20) [S754_nan] = Some v /\
    (v = d_of_Z 0 \/ exists j node, stump 10 20 !! j = Some node /\ is_leaf node = true /\ v = value node).
Proof. split; [reflexivity|]. exact (tree_predict_total (stump 10 20) [S754_nan] eq_refl). Defined.

(** A model file can make the prediction run forever: a node that is no leaf
    and omits its children gets the children 0 and 0 from the JSON reader, and as
    node 0 it is visited again and again, whatever the fuel. *)
Theorem tree_predict_self_loop fuel features :
  tree_loop fuel [tree_node_of_json (JObject [("is_leaf", JBool false)])] features 0 = None.
Proof.
  change (tree_node_of_json _) with (mkNode 0 (d_of_Z 0) 0 0 (d_of_Z 0) false).
  induction fuel as [|fuel IH]; [done|].
  assert (Hstep : exists i, i = 0 /\
    tree_loop (S fuel) [mkNode 0 (d_of_Z 0) 0 0 (d_of_Z 0) false] features 0 =
    tree_loop fuel [mkNode 0 (d_of_Z 0) 0 0 (d_of_Z 0) false] features i).
  { eexists (if d_le _ (d_of_Z 0) then 0 else 0). split; [by case_match|reflexivity]. }
  by destruct Hstep as (i & -> & ->).
Qed.
