(* ===== verification/Effects.v ===== *)
(** * Effects of the checker

    The checker runs external programs, appends lines to JSONL files and stops
    with [log_error].  Its effects are a state monad: [None] is the end of the
    process by [log_error], the state keeps what was done before.  The operating
    system is a record of operations on an abstract world, an argument of every
    definition that uses it. *)

From S2P Require Import Prelude Dict Shared.

Local Open Scope string_scope.
Local Open Scope list_scope.
Local Open Scope Z_scope.

(** How a process ended ([WIFEXITED], [WEXITSTATUS]). *)
Inductive wait_status := Exited (code : Z) | Signalled.

(** [popen], reading the pipe to its end and [pclose]: [None] when [popen]
    fails, else the bytes written, the status and the elapsed milliseconds.
    [fopen] for appending and for writing; the lines an open file gets until it
    is closed; a file that holds one JSON value (false: it cannot be opened). *)
Record Host (W : Type) := mkHost {
  h_popen : W -> string -> W * option (string * wait_status * double);
  h_create_directory : W -> string -> W * bool;
  h_make_temp_file : W -> string -> W * string;
  h_base_tmpdir : string;
  h_open_append : W -> string -> W * bool;
  h_open_write : W -> string -> W * bool;
  h_put_lines : W -> string -> list string -> W;
  h_write_json : W -> string -> Json -> W * bool;
  h_executable : W -> string -> bool;
  h_self_dirname : string;
  h_program_prefix : string
}.
Arguments h_popen {W}.
Arguments h_create_directory {W}.
Arguments h_make_temp_file {W}.
Arguments h_base_tmpdir {W}.
Arguments h_open_append {W}.
Arguments h_open_write {W}.
Arguments h_put_lines {W}.
Arguments h_write_json {W}.
Arguments h_executable {W}.
Arguments h_self_dirname {W}.
Arguments h_program_prefix {W}.

(** The state of the process: the world, the telemetry [conf.telemetry] points
    to, the fingerprints already written per file ([seen]), the lines appended to
    JSONL files and the commands that were run with their results, both in order
    (the last is a history, no part of the program reads it). *)
Record GState (W : Type) := mkGState {
  world : W;
  telemetry : option GuideTelemetry;
  seen : dict string (pool string);
  jsonl : list (string * Json);
  calls : list (string * CommandResult)
}.
Arguments mkGState {W}.
Arguments world {W}.
Arguments telemetry {W}.
Arguments seen {W}.
Arguments jsonl {W}.
Arguments calls {W}.

Section Monad.
Context {W : Type}.

Definition M (A : Type) : Type := GState W -> GState W * option A.

Definition ret {A} (a : A) : M A := fun s => (s, Some a).
Definition bind {A B} (m : M A) (f : A -> M B) : M B := fun s =>
  match m s with (s, Some a) => f a s | (s, None) => (s, None) end.
Definition log_error {A} : M A := fun s => (s, None).
Definition get : M (GState W) := fun s => (s, Some s).

(** An operation of the world. *)
Definition on_world {A} (f : W -> W * A) : M A := fun s =>
  let '(w, a) := f (world s) in
  (mkGState w (telemetry s) (seen s) (jsonl s) (calls s), Some a).
Definition set_telemetry (t : option GuideTelemetry) : M unit := fun s =>
  (mkGState (world s) t (seen s) (jsonl s) (calls s), Some tt).
Definition set_seen (d : dict string (pool string)) : M unit := fun s =>
  (mkGState (world s) (telemetry s) d (jsonl s) (calls s), Some tt).
Definition add_jsonl (path : string) (j : Json) : M unit := fun s =>
  (mkGState (world s) (telemetry s) (seen s) (jsonl s ++ [(path, j)]) (calls s), Some tt).
Definition add_call (cmd : string) (r : CommandResult) : M unit := fun s =>
  (mkGState (world s) (telemetry s) (seen s) (jsonl s) (calls s ++ [(cmd, r)]), Some tt).

(** ** Specifications

    [always R m]: whatever [m] returns, or where it stops, the states before and
    after are related by [R]; [returns Q m]: when [m] returns, its result and
    the states before and after satisfy [Q]. *)
Definition always (R : GState W -> GState W -> Prop) {A} (m : M A) : Prop :=
  forall s, R s (fst (m s)).
Definition returns {A} (Q : GState W -> A -> GState W -> Prop) (m : M A) : Prop :=
  forall s s' a, m s = (s', Some a) -> Q s a s'.

Lemma always_ret R {A} (a : A) : (forall s, R s s) -> always R (ret a).
Proof. intros H s. apply H. Qed.

Lemma always_error R {A} : (forall s, R s s) -> always R (@log_error A).
Proof. intros H s. apply H. Qed.

Lemma always_get R : (forall s, R s s) -> always R get.
Proof. intros H s. apply H. Qed.

Lemma always_bind R {A B} (m : M A) (f : A -> M B) :
  (forall s1 s2 s3, R s1 s2 -> R s2 s3 -> R s1 s3) ->
  always R m -> (forall a, always R (f a)) -> always R (bind m f).
Proof.
  intros HT Hm Hf s. unfold bind. specialize (Hm s). destruct (m s) as [s' [a|]]; [|done].
  eapply HT; [exact Hm|]. apply Hf.
Qed.

Lemma bind_inv {A B} (m : M A) (f : A -> M B) s s' b :
  bind m f s = (s', Some b) -> exists s1 a, m s = (s1, Some a) /\ f a s1 = (s', Some b).
Proof. unfold bind. destruct (m s) as [s1 [a|]]; [|done]. eauto. Qed.

(** The history of the commands only grows. *)
Definition extends (s s' : GState W) : Prop := exists l, calls s' = calls s ++ l.

#[export] Instance extends_preorder : PreOrder extends.
Proof.
  split.
  - intros s. exists []. by rewrite app_nil_r.
  - intros s1 s2 s3 [l1 H1] [l2 H2]. exists (l1 ++ l2). by rewrite H2, H1, app_assoc.
Qed.
End Monad.

Arguments M W A : clear implicits.

Declare Scope guide_scope.
Delimit Scope guide_scope with guide.
Notation "'let!' x := m 'in' k" := (bind m (fun x => k))
  (at level 10, x name, m at level 200, k at level 200) : guide_scope.
Notation "'do!' m 'then' k" := (bind m (fun _ => k))
  (at level 10, m at level 200, k at level 200) : guide_scope.
