(* ===== verification/FailExec.v ===== *)
(** * Running the external engines and reporting failures
    ([passes/guide/check/fail_exec.cc])

    Capturing a command, classifying its output, the failure packets written to
    a JSONL file (each fingerprint once per file) and the hints derived from a
    packet by rules.  [infer_proof_outcome] and [failure_teacher] classify by
    the first known clue found in the output. *)

From stdpp Require Import pretty.
From S2P Require Import Prelude GuideNames Dict HashFn Shared Sched Effects.

Local Open Scope string_scope.
Local Open Scope list_scope.
Local Open Scope Z_scope.
Local Open Scope guide_scope.

(** The fields of [CheckConfig] the engines read; [conf.telemetry] is in the
    state. *)
Record CheckConfig := mkCheckConfig {
  abc_exe_file : string; tempdir_name : string;
  cc_design : design; gold_mod : DMod; gate_mod : DMod;
  seq_check_cfg : SeqCheckConfig; dump_cfg : MlDumpConfig;
  sched_model : option GuideSchedModel
}.

Record FailureTeacher := mkTeacher {
  cls : string; matched_clues : list string; step_ids : list string
}.

Record FailurePacket := mkPacket {
  fp_packet_id : string; fp_design : string; fp_pair_id : string; fp_engine : string;
  fp_scope : string; fp_stage : string; fp_action : string; fp_clues : list string;
  fp_pair : PairRecord; fp_match : MatchStats; fp_exit_status : Z; fp_raw_result_code : Z;
  fp_result_code : Z; fp_proof_outcome : string; fp_runtime_ms : double; fp_log_file : string;
  fp_fingerprint : string; fp_trace : list RunRecord
}.

(** ** Clues *)

Definition add_unique_clue (clues : list string) (clue : string) : list string :=
  if existsb (fun it => String.eqb it clue) clues then clues else clues ++ [clue].

Definition known_clues : list string := [
  "Networks are NOT EQUIVALENT after structural hashing";
  "Networks are NOT EQUIVALENT after SAT";
  "Networks are NOT EQUIVALENT after fraiging";
  "Networks are NOT EQUIVALENT after partitioning";
  "Networks are NOT EQUIVALENT after framing";
  "Networks are NOT EQUIVALENT after simulation";
  "Networks are NOT EQUIVALENT. Output";
  "Networks are NOT EQUIVALENT";
  "Miter computation has failed";
  "BMC-Induct failed in weak mode";
  "BMC-Induct failed in BMC phase";
  "BMC-Induct failed in Induct phase";
  "Amulet Verify failed";
  "DivVerify failed"].

Definition extract_failure_clues (out : string) : list string :=
  fold_left (fun clues clue => if contains out clue then add_unique_clue clues clue else clues)
    known_clues [].

Definition partition_unsafe_why (command_result : CommandResult) : string :=
  let out := output command_result in
  if contains out "Constant-0 drivers added to" then "constant_completed_nets"
  else if contains out "Name map: applied 0" then "name_map_not_applied"
  else if contains out "Networks are equivalent after structural hashing." then "structural_hash_only"
  else "".

Definition blocked_clue (clue : string) : bool :=
  String.eqb clue "Miter computation has failed" ||
  String.eqb clue "BMC-Induct failed in weak mode" ||
  String.eqb clue "BMC-Induct failed in BMC phase" ||
  String.eqb clue "BMC-Induct failed in Induct phase" ||
  String.eqb clue "Amulet Verify failed" ||
  String.eqb clue "DivVerify failed".

Definition infer_proof_outcome (result : CommandResult) (clues : list string) : string :=
  if existsb (fun clue => contains clue "Networks are NOT EQUIVALENT") clues then "not_equivalent"
  else if contains (output result) "Networks are equivalent" then "equivalent"
  else if existsb blocked_clue clues then "blocked"
  else
    let out_lc := str_map tolower (output result) in
    if (exit_status result =? 124) || contains out_lc "timeout" then "timeout"
    else if negb (exit_status result =? 0) then "tool_error"
    else "unknown".

(** The tests of the loop of [failure_teacher] on one clue. *)
Definition clue_teacher (clue : string) : option FailureTeacher :=
  if String.eqb clue "Miter computation has failed"
  then Some (mkTeacher "abc_miter_failed" [clue] ["retry_cec_nomap"; "inspect_match_density"; "replay_failing_action"]) else
  if String.eqb clue "Networks are NOT EQUIVALENT after structural hashing"
  then Some (mkTeacher "abc_not_equivalent_struct_hash" [clue] ["inspect_match_density"; "inspect_counterexample"; "replay_failing_action"]) else
  if String.eqb clue "Networks are NOT EQUIVALENT after SAT"
  then Some (mkTeacher "abc_not_equivalent_sat" [clue] ["inspect_counterexample"; "inspect_upstream_transforms"; "replay_failing_action"]) else
  if String.eqb clue "Networks are NOT EQUIVALENT after fraiging"
  then Some (mkTeacher "abc_not_equivalent_fraiging" [clue] ["inspect_counterexample"; "inspect_upstream_transforms"; "replay_failing_action"]) else
  if String.eqb clue "Networks are NOT EQUIVALENT after partitioning"
  then Some (mkTeacher "abc_not_equivalent_partitioning" [clue] ["inspect_partition_boundary"; "inspect_counterexample"; "replay_failing_action"]) else
  if String.eqb clue "Networks are NOT EQUIVALENT after framing"
  then Some (mkTeacher "abc_not_equivalent_framing" [clue] ["inspect_counterexample"; "inspect_retime_pair"; "replay_failing_action"]) else
  if String.eqb clue "Networks are NOT EQUIVALENT after simulation"
  then Some (mkTeacher "abc_not_equivalent_simulation" [clue] ["inspect_counterexample"; "inspect_upstream_transforms"; "replay_failing_action"]) else
  if String.eqb clue "Networks are NOT EQUIVALENT. Output" || String.eqb clue "Networks are NOT EQUIVALENT"
  then Some (mkTeacher "abc_not_equivalent_generic" [clue] ["inspect_counterexample"; "inspect_upstream_transforms"; "replay_failing_action"]) else
  if String.eqb clue "BMC-Induct failed in weak mode"
  then Some (mkTeacher "bmc_weak_failed" [clue] ["increase_bmc_skip"; "increase_bmc_k"; "inspect_retime_pair"]) else
  if String.eqb clue "BMC-Induct failed in BMC phase"
  then Some (mkTeacher "bmc_bmc_phase_failed" [clue] ["increase_bmc_skip"; "increase_bmc_k"; "inspect_retime_pair"]) else
  if String.eqb clue "BMC-Induct failed in Induct phase"
  then Some (mkTeacher "bmc_induct_phase_failed" [clue] ["increase_bmc_k"; "inspect_retime_pair"; "replay_failing_action"]) else
  if String.eqb clue "Amulet Verify failed"
  then Some (mkTeacher "amulet_verify_failed" [clue] ["check_multiplier_sign_width"; "check_blackboxing_path"; "replay_failing_action"]) else
  if String.eqb clue "DivVerify failed"
  then Some (mkTeacher "divverify_verify_failed" [clue] ["check_divider_sign_width"; "check_blackboxing_path"; "replay_failing_action"]) else None.

Fixpoint first_teacher (clues : list string) : option FailureTeacher :=
  match clues with
  | [] => None
  | clue :: clues => match clue_teacher clue with Some t => Some t | None => first_teacher clues end
  end.

Definition failure_teacher (result : CommandResult) (clues : list string) : FailureTeacher :=
  match first_teacher clues with
  | Some t => t
  | None =>
      if String.eqb (log_file result) ""
      then mkTeacher "missing_log_or_parse_error" [] ["inspect_command_log"; "replay_failing_action"]
      else if negb (exit_status result =? 0)
      then mkTeacher "tool_exit_nonzero" [] ["inspect_command_log"; "replay_failing_action"]
      else mkTeacher "unknown" [] ["inspect_command_log"; "replay_failing_action"]
  end.

(** ** Packets *)

Definition packet_key (pair_id stage action proof_outcome : string) (raw_result_code : Z)
    (clues : list string) : string :=
  fold_left (fun joined clue => joined +:+ "|" +:+ clue) clues
    (pair_id +:+ "|" +:+ stage +:+ "|" +:+ action +:+ "|" +:+ proof_outcome +:+ "|" +:+
     pretty raw_result_code).

(** [%016llx] *)
Definition hex_digit (z : Z) : ascii :=
  ascii_of_N (Z.to_N (if z <? 10 then 48 + z else 87 + z)).
Fixpoint hex (n : nat) (z : Z) (acc : string) : string :=
  match n with O => acc | S n => hex n (z / 16) (String (hex_digit (z mod 16)) acc) end.

Definition packet_id_from_key (fudge : Z) (key : string) : string :=
  "fp_" +:+ hex 16 (run_hash fudge key) "".

Definition packet_fingerprint (packet_id log_file : string) : string := packet_id +:+ "|" +:+ log_file.

Definition packet_engine (stage : string) : string :=
  if String.eqb stage "ABC" then "abc"
  else if String.eqb stage "BMC" then "bmc"
  else if String.eqb stage "AMULET" then "amulet"
  else if String.eqb stage "DIVVERIFY" then "divverify"
  else if String.eqb stage "REGION" then "abc"
  else "unknown".

Definition packet_scope (stage : string) : string :=
  if String.eqb stage "BMC" then "bmc"
  else if String.eqb stage "AMULET" then "multiplier_subcheck"
  else if String.eqb stage "DIVVERIFY" then "divider_subcheck"
  else if String.eqb stage "REGION" then "region_local"
  else "pair".

Definition dff_types : list string :=
  ["$ff"; "$dff"; "$dffe"; "$_DFF_P_"; "$_DFF_N_"; "$_DFFE_PN"; "$_DFFE_PP"].

Definition is_dff (gate_side : bool) (type : string) : bool :=
  existsb (String.eqb type) dff_types || (gate_side && contains type "DFF").

Definition module_has_dff (md : DMod) (gate_side : bool) : bool :=
  existsb (fun cell => is_dff gate_side (c_type cell)) (d_cells md).

Definition count_module_dffs (md : DMod) (gate_side : bool) : Z :=
  fold_left (fun count cell => if is_dff gate_side (c_type cell) then count + 1 else count) (d_cells md) 0.

Definition module_has_submodule (d : design) (md : DMod) : bool :=
  existsb (fun cell => match design_module d (c_type cell) with
                       | Some submod => negb (d_blackbox submod)
                       | None => false
                       end) (d_cells md).

Definition touched (p : pool string) (gold gate : string) : bool := dict_count p gold || dict_count p gate.

Definition packet_pair_record (conf : CheckConfig) (t : option GuideTelemetry) : PairRecord :=
  let gold := d_name (gold_mod conf) in
  let gate := d_name (gate_mod conf) in
  let pair_id := get_pair_id gold gate in
  match t ≫= (fun t => pair_records t !! pair_id) with
  | Some r => r
  | None =>
      mkPairRecord pair_id (strip_backslash gold) (strip_backslash gate)
        (count_module_dffs (gold_mod conf) false) (count_module_dffs (gate_mod conf) true)
        (module_has_submodule (cc_design conf) (gold_mod conf))
        (match t with Some t => touched (retimed_mods t) gold gate | None => false end)
        (match t with Some t => touched (multiplier_mods t) gold gate | None => false end) 0
  end.

Definition get_match_stats (conf : CheckConfig) (t : option GuideTelemetry) : MatchStats :=
  default empty_MatchStats
    (t ≫= (fun t => pair_match_stats t !! get_pair_id (d_name (gold_mod conf)) (d_name (gate_mod conf)))).

Definition typed_match_total (stats : MatchStats) : Z :=
  pi_cnt stats + po_cnt stats + dff_cnt stats + dff_po_cnt stats + subckt_cnt stats.

Definition trace_to_json (trace : list RunRecord) : Json := JArray (run_record_to_json <$> trace).

(** The last two of the recent actions. *)
Definition last_2_actions (recent : list string) : list string := drop (length recent - 2) recent.

Definition teacher_json (t : FailureTeacher) : Json := JObject [
  ("class", JString (cls t)); ("matched_clues", string_array_to_json (matched_clues t));
  ("allowed_step_ids", string_array_to_json (step_ids t))].

Definition packet_json (p : FailurePacket) (teacher : FailureTeacher) : Json :=
  let recent := rr_action <$> fp_trace p in
  JObject [
    ("schema_version", JInt 1); ("packet_id", JString (fp_packet_id p)); ("design", JString (fp_design p));
    ("gold_mod", JString (pr_gold_mod (fp_pair p))); ("gate_mod", JString (pr_gate_mod (fp_pair p)));
    ("pair_id", JString (fp_pair_id p)); ("engine", JString (fp_engine p)); ("scope", JString (fp_scope p));
    ("pair", pair_record_to_json (fp_pair p)); ("stage", JString (fp_stage p));
    ("action", JString (fp_action p)); ("clues", string_array_to_json (fp_clues p));
    ("match", match_stats_to_json (fp_match p));
    ("has_dff", JBool (negb (gold_dff_cnt (fp_pair p) =? 0) || negb (gate_dff_cnt (fp_pair p) =? 0)));
    ("has_submodule", JBool (has_submodule (fp_pair p)));
    ("exact_match_cnt", JInt (exact_total (fp_match p)));
    ("typed_match_cnt", JInt (typed_match_total (fp_match p)));
    ("exit_status", JInt (fp_exit_status p)); ("raw_result_code", JInt (fp_raw_result_code p));
    ("result_code", JInt (fp_result_code p)); ("proof_outcome", JString (fp_proof_outcome p));
    ("runtime_ms", JDouble (fp_runtime_ms p)); ("log_file", JString (fp_log_file p));
    ("fingerprint", JString (fp_fingerprint p)); ("trace", trace_to_json (fp_trace p));
    ("recent_actions", string_array_to_json recent);
    ("last_2_actions", string_array_to_json (last_2_actions recent));
    ("teacher_class", JString (cls teacher)); ("next_steps", string_array_to_json (step_ids teacher));
    ("teacher", teacher_json teacher)].

(** ** Effects *)

Section Exec.
Context {W : Type} (H : Host W) (fudge : Z).

Definition append_jsonl (path : string) (json : Json) : M W unit :=
  if String.eqb path "" then ret tt
  else let! ok := on_world (fun w => h_open_append H w path) in
       if ok then add_jsonl path json else log_error.

Definition make_command_log_file (tempdir tag : string) : M W string :=
  let dir_name := if String.eqb tempdir "" then h_base_tmpdir H else tempdir in
  on_world (fun w => h_make_temp_file H w (dir_name +:+ "/" +:+ sanitize_filename tag +:+ "-XXXXXX.log")).

Definition failure_log_dir (c : MlDumpConfig) : M W string :=
  if negb (dump_fail c) || String.eqb (fail_jsonl c) "" then ret ""
  else let dir_name := path_dirname (fail_jsonl c) +:+ "/failure_logs" in
       let! ok := on_world (fun w => h_create_directory H w dir_name) in
       if ok then ret dir_name else log_error.

Definition resolve_yosys_smtbmc_executable (w : W) : string :=
  let local := h_self_dirname H +:+ h_program_prefix H +:+ "yosys-smtbmc" in
  if h_executable H w local then local else "yosys-smtbmc".

(** What [result.output += buffer] collects from the pipe. *)
Definition pipe_output (bytes : string) : string :=
  String.string_of_list_ascii (concat (c_string <$> fgets_lines 1024 bytes)).

Definition exec_capture (cmd tempdir tag log_dir : string) : M W CommandResult :=
  let! log_file :=
    if negb (String.eqb log_dir "") then
      let! ok := on_world (fun w => h_create_directory H w log_dir) in
      if ok then on_world (fun w => h_make_temp_file H w
                             (log_dir +:+ "/" +:+ sanitize_filename tag +:+ "-XXXXXX.log"))
      else log_error
    else make_command_log_file tempdir tag in
  let! r := on_world (fun w => h_popen H w (cmd +:+ " 2>&1")) in
  match r with
  | None => log_error
  | Some (bytes, status, ms) =>
      let result := mkCommandResult (match status with Exited c => c | Signalled => -1 end)
                      0 0 "" ms (pipe_output bytes) log_file in
      do! add_call cmd result then ret result
  end.

Definition with_codes (r : CommandResult) (code : Z) (outcome : string) : CommandResult :=
  mkCommandResult (exit_status r) code code outcome (runtime_ms r) (output r) (log_file r).

(** The overload with one target output: the flag [correct] and the capture. *)
Definition exectue_and_check (cmd target_output tempdir tag log_dir : string)
    : M W (bool * CommandResult) :=
  let! result := exec_capture cmd tempdir tag log_dir in
  let correct := contains (output result) target_output in
  ret (correct, with_codes result (Z.b2z correct)
                  (if correct then "equivalent"
                   else infer_proof_outcome result (extract_failure_clues (output result)))).

(** The code of the first target found in the output, 0 when there is none. *)
Fixpoint target_code (out : string) (target_result : list (string * Z)) : Z :=
  match target_result with
  | [] => 0
  | it :: rest => if contains out (fst it) then snd it else target_code out rest
  end.

(** The overload with a table of outputs; the caller reads the exit status from
    the capture. *)
Definition exectue_and_check_table (cmd : string) (target_result : list (string * Z))
    (tempdir tag log_dir : string) : M W CommandResult :=
  let! r := exec_capture cmd tempdir tag log_dir in
  let result := target_code (output r) target_result in
  ret (with_codes r result (infer_proof_outcome r (extract_failure_clues (output r)))).

Definition exec_cmd (cmd tempdir tag log_dir : string) : M W CommandResult :=
  let! result := exec_capture cmd tempdir tag log_dir in
  ret (with_codes result (exit_status result)
         (infer_proof_outcome result (extract_failure_clues (output result)))).

(** [seen[jsonl_path]] creates the entry of a new file. *)
Definition should_emit_failure_packet (jsonl_path fp : string) : M W bool :=
  if String.eqb jsonl_path "" then ret true
  else
    let! s := get in
    let seen := dict_insert (seen s) jsonl_path [] in
    let fps := default [] (dict_find seen jsonl_path) in
    if dict_count fps fp then do! set_seen seen then ret false
    else do! set_seen (dict_set seen jsonl_path (dict_insert fps fp tt)) then ret true.

Definition outcome_of (r : CommandResult) (clues : list string) : string :=
  if String.eqb (proof_outcome r) "" then infer_proof_outcome r clues else proof_outcome r.

Definition emit_packet (path : string) (p : FailurePacket) (teacher : FailureTeacher) : M W unit :=
  let! ok := should_emit_failure_packet path (fp_fingerprint p) in
  if ok then append_jsonl path (packet_json p teacher) else ret tt.

Definition make_packet (design_name stage action : string) (pair : PairRecord) (mstats : MatchStats)
    (r : CommandResult) (trace : list RunRecord) : FailurePacket :=
  let clues := extract_failure_clues (output r) in
  let outcome := outcome_of r clues in
  let packet_id := packet_id_from_key fudge
    (packet_key (pr_pair_id pair) stage action outcome (raw_result_code r) clues) in
  mkPacket packet_id design_name (pr_pair_id pair) (packet_engine stage) (packet_scope stage) stage
    action clues pair mstats (exit_status r) (raw_result_code r) (result_code r) outcome
    (runtime_ms r) (log_file r) (packet_fingerprint packet_id (log_file r)) trace.

Definition emit_failure_packet (conf : CheckConfig) (stage action : string) (r : CommandResult)
    (trace : list RunRecord) : M W unit :=
  if negb (dump_fail (dump_cfg conf)) || String.eqb (fail_jsonl (dump_cfg conf)) "" then ret tt
  else
    let! s := get in
    let p := make_packet (strip_backslash (d_name (gold_mod conf))) stage action
               (packet_pair_record conf (telemetry s)) (get_match_stats conf (telemetry s)) r trace in
    emit_packet (fail_jsonl (dump_cfg conf)) p (failure_teacher r (fp_clues p)).

(** The overload without a configuration. *)
Definition emit_failure_packet_named (c : MlDumpConfig) (pair_id stage action gold gate : string)
    (r : CommandResult) : M W unit :=
  if negb (dump_fail c) || String.eqb (fail_jsonl c) "" then ret tt
  else
    let p := make_packet gold stage action (new_PairRecord pair_id gold gate) empty_MatchStats r [] in
    emit_packet (fail_jsonl c) p (failure_teacher r (fp_clues p)).
End Exec.

(** ** Hints *)

Definition HINT_CONFIDENCE : dict string string := [
  ("abc_miter_failed", "medium");
  ("abc_not_equivalent_struct_hash", "high");
  ("abc_not_equivalent_sat", "high");
  ("abc_not_equivalent_fraiging", "high");
  ("abc_not_equivalent_partitioning", "medium");
  ("abc_not_equivalent_framing", "high");
  ("abc_not_equivalent_simulation", "high");
  ("abc_not_equivalent_generic", "medium");
  ("bmc_weak_failed", "medium");
  ("bmc_bmc_phase_failed", "medium");
  ("bmc_induct_phase_failed", "medium");
  ("amulet_verify_failed", "high");
  ("divverify_verify_failed", "high");
  ("tool_exit_nonzero", "low");
  ("missing_log_or_parse_error", "low");
  ("unknown", "low")].

Definition HINT_LIKELY_CAUSES : dict string (list string) := [
  ("abc_miter_failed", ["ABC could not build a usable miter for this pair";
     "the current match density may be too sparse or misleading";
     "the mapped fallback path may not fit this pair"]);
  ("abc_not_equivalent_struct_hash", ["a shallow mismatch is already visible before deeper proof phases";
     "boundary naming or cutpoint alignment may be off";
     "the pair may contain a real combinational mismatch"]);
  ("abc_not_equivalent_sat", ["SAT found a concrete mismatch after structural hashing did not settle the pair";
     "the mismatch is likely semantic rather than purely syntactic";
     "the failing cone is often small enough to inspect directly"]);
  ("abc_not_equivalent_fraiging", ["fraiging detected a concrete mismatch after structural hashing did not settle the pair";
     "the mismatch likely comes from a functional difference in the mapped pair";
     "the fraiging-sensitive cone should be inspected before changing matching"]);
  ("abc_not_equivalent_partitioning", ["partition-level proof detected a concrete mismatch";
     "the partition boundary assumptions may not hold for this pair";
     "inspect the partition cutpoints and boundary naming before changing policy"]);
  ("abc_not_equivalent_framing", ["sequential framing detected a concrete mismatch";
     "retimed or framed structure may be misaligned on this pair";
     "inspect retimed alignment and sequential framing before changing proof path"]);
  ("abc_not_equivalent_simulation", ["simulation found a counterexample on this pair";
     "the mismatch is concrete and reproducible";
     "the counterexample-bearing signals should be replayed before changing policy"]);
  ("abc_not_equivalent_generic", ["the proof engines found a concrete mismatch on this pair";
     "upstream transforms or matching may have misaligned the pair";
     "the failing cone should be replayed before changing policy"]);
  ("bmc_weak_failed", ["weak-mode induction did not close with the current warmup";
     "retimed structure may need different skip or depth settings";
     "sequential alignment may still be off on this pair"]);
  ("bmc_bmc_phase_failed", ["the BMC phase did not close within the current warmup/depth budget";
     "retimed structure may still need more skip or depth";
     "the trace should be replayed before changing proof policy"]);
  ("bmc_induct_phase_failed", ["the induction step failed even after the bounded phase ran";
     "the pair may need a different retime or warmup setup";
     "proof depth may still be too small for this pair"]);
  ("amulet_verify_failed", ["the multiplier-specific flow rejected the current candidate";
     "signedness or width assumptions may be wrong";
     "the blackboxing or substitute path may not match the extracted cone"]);
  ("divverify_verify_failed", ["the divider-specific flow rejected the current candidate";
     "signedness or width assumptions may be wrong";
     "the signature file may not match the extracted divider"]);
  ("tool_exit_nonzero", ["the external tool exited unsuccessfully before a clear clue was extracted";
     "the command log is needed before changing the classification"]);
  ("missing_log_or_parse_error", ["the packet did not retain enough logging to classify the failure cleanly";
     "the command should be replayed to recover the missing context"]);
  ("unknown", ["the packet does not match a known failure class yet";
     "the command log needs manual inspection"])].

Definition HINT_STEP_REASON : dict string string := [
  ("retry_cec_nomap",
   "Retry the pair without the current name map to see whether mapping sparsity is blocking the proof path.");
  ("retry_dsec_map",
   "Escalate to the sequential engine on the mapped pair when combinational checks are inconclusive.");
  ("inspect_match_density",
   "Inspect exact and typed match counts before changing the proof flow.");
  ("increase_bmc_skip",
   "Give the BMC warmup more room before concluding the sequential proof path is blocked.");
  ("increase_bmc_k",
   "Increase the search depth so the failing sequential proof has a chance to settle.");
  ("inspect_retime_pair",
   "Inspect retimed structure and warmup alignment on this module pair.");
  ("check_multiplier_sign_width",
   "Check multiplier signedness and width assumptions against the extracted cone.");
  ("check_divider_sign_width",
   "Check divider signedness and width assumptions against the extracted cone.");
  ("check_blackboxing_path",
   "Verify the multiplier blackboxing/substitution path before changing the proof result.");
  ("replay_failing_action",
   "Replay the exact failing action with the captured log to confirm the failure mode.");
  ("inspect_counterexample",
   "Inspect the earliest counterexample-bearing signals before changing transforms or matching.");
  ("inspect_upstream_transforms",
   "Check whether preprocessing or structural rewrites changed the behavior or proof contract.");
  ("inspect_partition_boundary",
   "Inspect partition boundary assumptions before trusting a local mismatch.");
  ("inspect_command_log",
   "Read the captured command log before changing policy or classification.")].

Definition json_string_val (obj : Json) (key fallback : string) : string :=
  match member obj key with Some (JString s) => s | _ => fallback end.

Definition json_val (obj : Json) (key : string) : Json := default JNull (member obj key).

Definition hint_summarize (packet : Json) : string :=
  let tc := json_string_val packet "teacher_class" "unknown" in
  let action := json_string_val packet "action" "unknown_action" in
  let stage := json_string_val packet "stage" "UNKNOWN" in
  let pid := json_string_val packet "pair_id" "unknown_pair" in
  let proof_outcome := json_string_val packet "proof_outcome" "unknown" in
  if String.eqb tc "abc_miter_failed" then
    stage +:+ " blocked on " +:+ pid +:+ " while running " +:+ action +:+ "; ABC could not build a usable miter." else
  if String.eqb tc "abc_not_equivalent_struct_hash" then
    stage +:+ " reported a mismatch for " +:+ pid +:+ " during structural hashing while running " +:+ action +:+ "." else
  if String.eqb tc "abc_not_equivalent_sat" then
    stage +:+ " reported a mismatch for " +:+ pid +:+ " after SAT while running " +:+ action +:+ "." else
  if String.eqb tc "abc_not_equivalent_fraiging" then
    stage +:+ " reported a mismatch for " +:+ pid +:+ " after fraiging while running " +:+ action +:+ "." else
  if String.eqb tc "abc_not_equivalent_partitioning" then
    stage +:+ " reported a mismatch for " +:+ pid +:+ " after partitioning while running " +:+ action +:+ "." else
  if String.eqb tc "abc_not_equivalent_framing" then
    stage +:+ " reported a mismatch for " +:+ pid +:+ " after framing while running " +:+ action +:+ "." else
  if String.eqb tc "abc_not_equivalent_simulation" then
    stage +:+ " reported a mismatch for " +:+ pid +:+ " after simulation while running " +:+ action +:+ "." else
  if String.eqb tc "abc_not_equivalent_generic" then
    stage +:+ " reported a mismatch for " +:+ pid +:+ " while running " +:+ action +:+ "; replay the failing pair before changing heuristics." else
  if String.eqb tc "bmc_weak_failed" then
    stage +:+ " blocked for " +:+ pid +:+ " while running " +:+ action +:+ "; weak-mode induction did not close." else
  if String.eqb tc "bmc_bmc_phase_failed" then
    stage +:+ " blocked for " +:+ pid +:+ " while running " +:+ action +:+ "; the bounded phase did not close cleanly." else
  if String.eqb tc "bmc_induct_phase_failed" then
    stage +:+ " blocked for " +:+ pid +:+ " while running " +:+ action +:+ "; the induction phase failed." else
  if String.eqb tc "amulet_verify_failed" then
    stage +:+ " blocked for " +:+ pid +:+ " while running " +:+ action +:+ "; the multiplier-specific verification path rejected the candidate." else
  if String.eqb tc "divverify_verify_failed" then
    stage +:+ " blocked for " +:+ pid +:+ " while running " +:+ action +:+ "; the divider-specific verification path rejected the candidate." else
  if String.eqb tc "tool_exit_nonzero" then
    stage +:+ " hit a tool-side execution error for " +:+ pid +:+ " while running " +:+ action +:+ "." else
  if String.eqb tc "missing_log_or_parse_error" then
    stage +:+ " failed for " +:+ pid +:+ " while running " +:+ action +:+ "; the packet is missing enough log context for a clean classification." else
  if String.eqb proof_outcome "timeout" then
    stage +:+ " timed out for " +:+ pid +:+ " while running " +:+ action +:+ "."
  else match array_items (json_val packet "clues") with
  | clue :: _ => stage +:+ " failed for " +:+ pid +:+ " while running " +:+ action +:+
                 "; primary clue: " +:+ string_value clue +:+ "."
  | [] => stage +:+ " failed for " +:+ pid +:+ " while running " +:+ action +:+
          "; inspect the captured log before changing the proof path."
  end.

Definition hint_step_obj (rank : Z) (sid : string) : Json :=
  JObject [("id", JString sid); ("rank", JInt rank);
           ("reason", JString (default "Inspect the captured failure context before changing the proof path."
                                 (dict_find HINT_STEP_REASON sid)))].

Definition hint_step_objs (step_ids : list string) : Json :=
  JArray (imap (fun i sid => hint_step_obj (Z.of_nat i + 1) sid) step_ids).

Definition packet_steps (packet : Json) : list string :=
  let teacher := json_val packet "teacher" in
  let step_ids :=
    if is_object teacher && is_array (json_val teacher "allowed_step_ids")
    then string_value <$> array_items (json_val teacher "allowed_step_ids")
    else string_value <$> array_items (json_val packet "next_steps") in
  match step_ids with [] => ["inspect_command_log"; "replay_failing_action"] | _ => step_ids end.

(** [None]: [HINT_LIKELY_CAUSES.at("unknown")] throws. *)
Definition failure_hint_from_packet (packet : Json) : option Json :=
  let tc := json_string_val packet "teacher_class" "unknown" in
  let confidence := default "low" (dict_find HINT_CONFIDENCE tc) in
  causes ← match dict_find HINT_LIKELY_CAUSES tc with
           | Some causes => Some causes
           | None => dict_find HINT_LIKELY_CAUSES "unknown"
           end;
  Some (JObject [
    ("packet_id", json_val packet "packet_id"); ("pair_id", json_val packet "pair_id");
    ("scope", json_val packet "scope"); ("engine", json_val packet "engine");
    ("stage", json_val packet "stage"); ("action", json_val packet "action");
    ("proof_outcome", json_val packet "proof_outcome"); ("failure_kind", JString tc);
    ("confidence", JString confidence); ("hint_summary", JString (hint_summarize packet));
    ("likely_causes", string_array_to_json causes); ("next_steps", hint_step_objs (packet_steps packet));
    ("teacher", json_val packet "teacher")]).

(** ** Classification *)

Lemma existsb_eqb x (l : list string) : existsb (fun it => String.eqb it x) l = bool_decide (x ∈ l).
Proof.
  apply eq_true_iff_eq. rewrite existsb_exists, bool_decide_eq_true. split.
  - intros (y & Hy & <-%String.eqb_eq). by apply list_elem_of_In.
  - intros Hx%list_elem_of_In. exists x. by rewrite String.eqb_refl.
Qed.

(** The clues are the known ones found in the output, in the order of the table. *)
Lemma extract_clues_filter out :
  extract_failure_clues out = filter (fun clue => contains out clue = true) known_clues.
Proof.
  unfold extract_failure_clues. assert (Hnd : NoDup known_clues) by (apply (bool_decide_unpack _); reflexivity).
  revert Hnd. generalize known_clues as ks.
  assert (Hgen : forall ks acc, NoDup ks -> (forall k, k ∈ ks -> k ∉ acc) ->
    fold_left (fun clues clue => if contains out clue then add_unique_clue clues clue else clues) ks acc =
    acc ++ filter (fun clue => contains out clue = true) ks).
  { induction ks as [|k ks IH]; intros acc Hnd Hacc; [by rewrite app_nil_r|].
    apply NoDup_cons in Hnd as [Hk Hnd]. cbn [fold_left]. rewrite filter_cons.
    destruct (contains out k) eqn:E.
    - unfold add_unique_clue. rewrite existsb_eqb, bool_decide_false by (apply Hacc; left).
      rewrite IH; [by rewrite <- app_assoc|done|]. intros x Hx. rewrite elem_of_app, list_elem_of_singleton.
      intros [Hx'| ->]; [|done]. eapply Hacc; [by right|done].
    - rewrite IH; [done|done|]. intros x Hx. apply Hacc. by right. }
  intros ks Hnd. rewrite Hgen; [done|done|]. intros k _. set_solver.
Qed.

Lemma elem_of_clues out clue :
  clue ∈ extract_failure_clues out <-> contains out clue = true /\ clue ∈ known_clues.
Proof. by rewrite extract_clues_filter, list_elem_of_filter. Qed.

Lemma clue_teacher_known clue : clue ∈ known_clues -> exists t, clue_teacher clue = Some t /\ matched_clues t = [clue].
Proof.
  intros Hin. apply (proj1 (Forall_forall (fun c => exists t, clue_teacher c = Some t /\ matched_clues t = [c]) known_clues)); [|done].
  unfold known_clues. repeat (constructor; [eexists; split; reflexivity|]). constructor.
Qed.

(** The classes a command can get, each with the class names and steps the tables know. *)
Definition teacher_ok (t : FailureTeacher) : bool :=
  match dict_find HINT_CONFIDENCE (cls t), dict_find HINT_LIKELY_CAUSES (cls t) with
  | Some _, Some (_ :: _) => true
  | _, _ => false
  end && match step_ids t with [] => false | _ => true end &&
  forallb (fun s => match dict_find HINT_STEP_REASON s with Some _ => true | None => false end) (step_ids t).

Lemma clue_teacher_ok clue t : clue_teacher clue = Some t -> teacher_ok t = true.
Proof.
  unfold clue_teacher. intros Hc.
  repeat (match type of Hc with (if ?b then _ else _) = _ => destruct b; [injection Hc as <-; reflexivity|] end).
  done.
Qed.

Lemma first_teacher_ok clues t : first_teacher clues = Some t -> teacher_ok t = true.
Proof.
  induction clues as [|c clues IH]; [done|]. cbn [first_teacher].
  destruct (clue_teacher c) eqn:E; [|done]. intros [= <-]. by eapply clue_teacher_ok.
Qed.

Lemma failure_teacher_ok r clues : teacher_ok (failure_teacher r clues) = true.
Proof.
  unfold failure_teacher. destruct (first_teacher clues) eqn:E; [by eapply first_teacher_ok|].
  destruct (String.eqb (log_file r) ""); [reflexivity|].
  destruct (exit_status r =? 0); reflexivity.
Qed.

Lemma first_teacher_filter out ks :
  (forall k, k ∈ ks -> k ∈ known_clues) ->
  first_teacher (filter (fun clue => contains out clue = true) ks) = find (contains out) ks ≫= clue_teacher.
Proof.
  induction ks as [|k ks IH]; intros Hks; [done|]. rewrite filter_cons. cbn [find].
  destruct (contains out k).
  - rewrite decide_True by done. destruct (clue_teacher_known k) as (t & Ht & _); [apply Hks; left|].
    cbn [first_teacher mbind option_bind]. by rewrite Ht.
  - rewrite decide_False by done. apply IH. intros x Hx. apply Hks. by right.
Qed.

(** C28: the teacher of a captured command is decided by the first clue of the
    table found in its output, which is the clue it reports; without a clue the
    log file and the exit status decide. *)
Theorem teacher_first_clue r :
  let t := failure_teacher r (extract_failure_clues (output r)) in
  match find (contains (output r)) known_clues with
  | Some clue => clue_teacher clue = Some t /\ matched_clues t = [clue]
  | None => matched_clues t = [] /\
            cls t = if String.eqb (log_file r) "" then "missing_log_or_parse_error"
                    else if exit_status r =? 0 then "unknown" else "tool_exit_nonzero"
  end.
Proof.
  cbv zeta. unfold failure_teacher. rewrite extract_clues_filter, first_teacher_filter by done.
  destruct (find _ _) as [clue|] eqn:E; cbn [mbind option_bind].
  - apply find_some in E as [Hin _]. apply list_elem_of_In in Hin.
    destruct (clue_teacher_known _ Hin) as (t & Ht & Hm). by rewrite Ht.
  - by destruct (String.eqb _ _), (exit_status r =? 0).
Qed.

(** The words of the engines that [infer_proof_outcome] looks for. *)
Definition blocked_words : list string :=
  ["Miter computation has failed"; "BMC-Induct failed in weak mode"; "BMC-Induct failed in BMC phase";
   "BMC-Induct failed in Induct phase"; "Amulet Verify failed"; "DivVerify failed"].

Lemma blocked_clue_words clue : blocked_clue clue = true <-> clue ∈ blocked_words.
Proof.
  unfold blocked_clue, blocked_words. rewrite !orb_true_iff, !String.eqb_eq, !elem_of_cons, elem_of_nil. tauto.
Qed.

Lemma not_equivalent_clue out :
  existsb (fun clue => contains clue "Networks are NOT EQUIVALENT") (extract_failure_clues out) =
  contains out "Networks are NOT EQUIVALENT".
Proof.
  apply eq_true_iff_eq. rewrite existsb_exists. split.
  - intros (clue & Hin%list_elem_of_In%elem_of_clues & Hc). eapply contains_trans; [|exact Hc]. apply Hin.
  - intros Hc. exists "Networks are NOT EQUIVALENT". split; [|reflexivity].
    apply list_elem_of_In, elem_of_clues. split; [done|]. by apply (bool_decide_unpack _).
Qed.

Lemma blocked_clues out :
  existsb blocked_clue (extract_failure_clues out) = existsb (contains out) blocked_words.
Proof.
  apply eq_true_iff_eq. rewrite !existsb_exists. split.
  - intros (clue & [Hc _]%list_elem_of_In%elem_of_clues & Hb%blocked_clue_words).
    exists clue. by rewrite <- list_elem_of_In.
  - intros (w & Hw%list_elem_of_In & Hc). exists w. rewrite <- list_elem_of_In, elem_of_clues, blocked_clue_words.
    split; [|done]. split; [done|]. revert w Hw Hc.
    assert (Hsub : Forall (fun w => w ∈ known_clues) blocked_words)
      by (unfold blocked_words; repeat (constructor; [by apply (bool_decide_unpack _)|]); constructor).
    intros w Hw _. by apply (proj1 (Forall_forall _ _) Hsub).
Qed.

(** C27: the outcome of a command in terms of its output: a report of
    inequivalence wins over everything, then a report of equivalence, then the
    words of a blocked engine, then a timeout and the exit status; so
    "equivalent" is never inferred from an output that reports inequivalence. *)
Theorem proof_outcome_spec r :
  infer_proof_outcome r (extract_failure_clues (output r)) =
    if contains (output r) "Networks are NOT EQUIVALENT" then "not_equivalent"
    else if contains (output r) "Networks are equivalent" then "equivalent"
    else if existsb (contains (output r)) blocked_words then "blocked"
    else if (exit_status r =? 124) || contains (str_map tolower (output r)) "timeout" then "timeout"
    else if exit_status r =? 0 then "unknown" else "tool_error".
Proof.
  unfold infer_proof_outcome. rewrite not_equivalent_clue, blocked_clues.
  repeat (case_match; try done).
Qed.

(** ** Hints of a packet *)

Lemma array_strings l : string_value <$> array_items (string_array_to_json l) = l.
Proof. unfold string_array_to_json. cbn [array_items]. rewrite <- list_fmap_compose. by apply list_fmap_id. Qed.

Lemma packet_class p t : json_string_val (packet_json p t) "teacher_class" "unknown" = cls t.
Proof. reflexivity. Qed.

Lemma packet_teacher p t : json_val (packet_json p t) "teacher" = teacher_json t.
Proof. reflexivity. Qed.

Lemma packet_steps_teacher p t : step_ids t <> [] -> packet_steps (packet_json p t) = step_ids t.
Proof.
  intros Hs. unfold packet_steps. rewrite packet_teacher.
  change (json_val (teacher_json t) "allowed_step_ids") with (string_array_to_json (step_ids t)).
  cbn [is_object is_array teacher_json andb string_array_to_json].
  change (JArray (JString <$> step_ids t)) with (string_array_to_json (step_ids t)).
  rewrite array_strings. by destruct (step_ids t).
Qed.

(** C29: the hint of a packet the checker writes never falls back on a default:
    the tables give its class a confidence and at least one cause, and the next
    steps are those of the teacher, ranked from 1, each with its reason. *)
Theorem hint_of_packet p r clues :
  let t := failure_teacher r clues in
  exists hint conf causes reasons,
    failure_hint_from_packet (packet_json p t) = Some hint /\
    member hint "failure_kind" = Some (JString (cls t)) /\
    dict_find HINT_CONFIDENCE (cls t) = Some conf /\ member hint "confidence" = Some (JString conf) /\
    dict_find HINT_LIKELY_CAUSES (cls t) = Some causes /\ causes <> [] /\
    member hint "likely_causes" = Some (string_array_to_json causes) /\
    step_ids t <> [] /\ mapM (dict_find HINT_STEP_REASON) (step_ids t) = Some reasons /\
    member hint "next_steps" = Some (JArray (imap (fun i '(sid, reason) =>
      JObject [("id", JString sid); ("rank", JInt (Z.of_nat i + 1)); ("reason", JString reason)])
      (zip (step_ids t) reasons))).
Proof.
  cbv zeta. set (t := failure_teacher r clues).
  pose proof (failure_teacher_ok r clues) as Hok. fold t in Hok. unfold teacher_ok in Hok.
  apply andb_true_iff in Hok as [[Hct Hst]%andb_true_iff Hre].
  destruct (dict_find HINT_CONFIDENCE (cls t)) as [conf|] eqn:Ec; [|done].
  destruct (dict_find HINT_LIKELY_CAUSES (cls t)) as [[|c0 causes]|] eqn:El; [done| |done].
  assert (Hs : step_ids t <> []) by (by destruct (step_ids t)).
  destruct (proj2 (mapM_is_Some (dict_find HINT_STEP_REASON) (step_ids t))) as [reasons Hr].
  { apply Forall_forall. intros s Hin%list_elem_of_In. rewrite forallb_forall in Hre.
    specialize (Hre s Hin). unfold compose. destruct (dict_find HINT_STEP_REASON s); [by eexists|done]. }
  unfold failure_hint_from_packet. rewrite packet_class, Ec, El. cbn [mbind option_bind default].
  eexists _, conf, (c0 :: causes), reasons.
  split; [reflexivity|]. split; [reflexivity|]. split; [done|]. split; [reflexivity|].
  split; [done|]. split; [done|]. split; [reflexivity|]. split; [done|]. split; [exact Hr|].
  rewrite packet_steps_teacher by done. change (member _ "next_steps") with (Some (hint_step_objs (step_ids t))).
  unfold hint_step_objs. do 2 f_equal. apply mapM_Some in Hr. clear -Hr.
  assert (Hgen : forall f g : nat -> nat, (forall i, f i = g i) -> forall l l',
    Forall2 (fun s v => dict_find HINT_STEP_REASON s = Some v) l l' ->
    imap (fun i sid => hint_step_obj (Z.of_nat (f i) + 1) sid) l =
    imap (fun i '(sid, reason) => JObject [("id", JString sid); ("rank", JInt (Z.of_nat (g i) + 1));
                                            ("reason", JString reason)]) (zip l l')).
  { intros f g Hfg l l' HF. revert f g Hfg. induction HF as [|s v l l' Hsv HF IH]; intros f g Hfg; [done|].
    cbn [zip zip_with]. rewrite !imap_cons. f_equal; [unfold hint_step_obj; by rewrite Hsv, Hfg|].
    apply (IH (fun i => f (S i)) (fun i => g (S i))). intros i. apply Hfg. }
  by apply (Hgen id id).
Qed.
