(* ===== verification/FailPackets.v ===== *)
(** * Failure packets are written once ([passes/guide/check/fail_exec.cc])

    A run of the checker requests packets one after the other; the lines that
    reach each file are the requested ones without repetitions. *)

From S2P Require Import Prelude GuideNames Dict Shared Effects FailExec.

Local Open Scope string_scope.
Local Open Scope list_scope.
Local Open Scope Z_scope.
Local Open Scope guide_scope.

Inductive emission :=
| Emission (conf : CheckConfig) (stage action : string) (r : CommandResult) (trace : list RunRecord)
| NamedEmission (c : MlDumpConfig) (pair_id stage action gold gate : string) (r : CommandResult).

Definition run_emission {W} (H : Host W) (fudge : Z) (e : emission) : M W unit :=
  match e with
  | Emission conf stage action r trace => emit_failure_packet H fudge conf stage action r trace
  | NamedEmission c pair_id stage action gold gate r =>
      emit_failure_packet_named H fudge c pair_id stage action gold gate r
  end.

Fixpoint emit_all {W} (H : Host W) (fudge : Z) (l : list emission) : M W unit :=
  match l with [] => ret tt | e :: l => do! run_emission H fudge e then emit_all H fudge l end.

Definition emission_conf (e : emission) : MlDumpConfig :=
  match e with Emission conf _ _ _ _ => dump_cfg conf | NamedEmission c _ _ _ _ _ _ => c end.

(** The packet an emission asks for. *)
Definition emission_packet (fudge : Z) (t : option GuideTelemetry) (e : emission) : FailurePacket :=
  match e with
  | Emission conf stage action r trace =>
      make_packet fudge (strip_backslash (d_name (gold_mod conf))) stage action
        (packet_pair_record conf t) (get_match_stats conf t) r trace
  | NamedEmission c pair_id stage action gold gate r =>
      make_packet fudge gold stage action (new_PairRecord pair_id gold gate) empty_MatchStats r []
  end.

Definition emission_result (e : emission) : CommandResult :=
  match e with Emission _ _ _ r _ => r | NamedEmission _ _ _ _ _ _ r => r end.

Definition emission_on (e : emission) : bool :=
  dump_fail (emission_conf e) && negb (String.eqb (fail_jsonl (emission_conf e)) "").

(** The fingerprints requested for a file, and those of the lines written to it. *)
Definition requested (fudge : Z) (t : option GuideTelemetry) (path : string) (e : emission) : option string :=
  if emission_on e && String.eqb (fail_jsonl (emission_conf e)) path
  then Some (fp_fingerprint (emission_packet fudge t e)) else None.

Definition line_fingerprint (path : string) (line : string * Json) : option string :=
  if String.eqb line.1 path
  then match member line.2 "fingerprint" with Some (JString s) => Some s | _ => None end else None.

Definition written {W} (path : string) (s : GState W) : list string := omap (line_fingerprint path) (jsonl s).

Definition seen_fps {W} (s : GState W) (path : string) : list string :=
  keys (default [] (dict_find (seen s) path)).

Definition packets_inv {W} (s : GState W) : Prop :=
  dict_wf (seen s) /\ forall path, written path s = seen_fps s path.

Lemma run_emission_on {W} (H : Host W) fudge e s : emission_on e = true ->
  run_emission H fudge e s =
  emit_packet H (fail_jsonl (emission_conf e)) (emission_packet fudge (telemetry s) e)
    (failure_teacher (emission_result e) (fp_clues (emission_packet fudge (telemetry s) e))) s.
Proof.
  unfold emission_on. intros Hon.
  destruct e as [conf ? ? ? ?|c ? ? ? ? ? ?]; cbn [emission_conf run_emission] in *;
    unfold emit_failure_packet, emit_failure_packet_named; by destruct (dump_fail _), (String.eqb _ _).
Qed.

Lemma run_emission_off {W} (H : Host W) fudge e s :
  emission_on e = false -> run_emission H fudge e s = (s, Some tt).
Proof.
  unfold emission_on. intros Hon.
  destruct e as [conf ? ? ? ?|c ? ? ? ? ? ?]; cbn [emission_conf run_emission] in *;
    unfold emit_failure_packet, emit_failure_packet_named; by destruct (dump_fail _), (String.eqb _ _).
Qed.

Lemma add_unique_in l x : x ∈ l -> add_unique_clue l x = l.
Proof. intros Hx. unfold add_unique_clue. by rewrite existsb_eqb, bool_decide_true. Qed.

Lemma add_unique_new l x : x ∉ l -> add_unique_clue l x = l ++ [x].
Proof. intros Hx. unfold add_unique_clue. by rewrite existsb_eqb, bool_decide_false. Qed.

Lemma NoDup_add_unique l x : NoDup l -> NoDup (add_unique_clue l x).
Proof.
  intros Hl. destruct (decide (x ∈ l)) as [Hx|Hx]; [by rewrite add_unique_in|].
  rewrite add_unique_new by done. by apply wf_snoc.
Qed.

Lemma keys_insert_unique (d : pool string) x : keys (dict_insert d x tt) = add_unique_clue (keys d) x.
Proof.
  rewrite keys_insert. destruct (dict_index d x) eqn:E.
  - rewrite add_unique_in; [done|]. apply dict_count_spec. unfold dict_count. by rewrite E.
  - rewrite add_unique_new; [done|]. by apply dict_index_None.
Qed.

(** [should_emit_failure_packet]: the answer and the new table. *)
Lemma should_emit_spec {W} path fp (s : GState W) : path <> "" -> dict_wf (seen s) ->
  exists d, dict_wf d /\ should_emit_failure_packet path fp s =
              (mkGState (world s) (telemetry s) d (jsonl s) (calls s), Some (negb (bool_decide (fp ∈ seen_fps s path)))) /\
    forall q, keys (default [] (dict_find d q)) =
              if decide (q = path) then add_unique_clue (seen_fps s path) fp else seen_fps s q.
Proof.
  intros Hp Hwf. unfold should_emit_failure_packet, bind, get, set_seen, ret.
  destruct (String.eqb_spec path ""); [done|].
  set (d0 := dict_insert (seen s) path []).
  assert (Hwf0 : dict_wf d0) by by apply dict_wf_insert.
  assert (Hd0 : forall q, default [] (dict_find d0 q) = default [] (dict_find (seen s) q)).
  { intros q. unfold d0. rewrite dict_find_insert. case_decide as Hq; [|done].
    destruct Hq as [<- Hk]. apply dict_find_None in Hk. by rewrite Hk. }
  rewrite Hd0. fold (seen_fps s path). unfold seen_fps at 1.
  destruct (dict_count _ fp) eqn:E.
  - apply dict_count_spec in E. rewrite bool_decide_true by exact E. exists d0. do 2 (split; [done|]).
    intros q. rewrite Hd0. case_decide; [subst; by rewrite add_unique_in|done].
  - apply dict_count_false in E. rewrite bool_decide_false by exact E. eexists. split; [by apply dict_wf_set|]. split; [done|].
    intros q. rewrite dict_find_set by done. destruct (decide (q = path)) as [->|Hq].
    + rewrite decide_True by done. cbn [default from_option id]. by rewrite keys_insert_unique.
    + by rewrite decide_False, Hd0 by congruence.
Qed.

Lemma line_packet path p t q :
  line_fingerprint q (path, packet_json p t) = if String.eqb path q then Some (fp_fingerprint p) else None.
Proof. reflexivity. Qed.

Lemma written_snoc {W} q w t d (l : list (string * Json)) c line :
  written (W:=W) q (mkGState w t d (l ++ [line]) c) =
  omap (line_fingerprint q) l ++ match line_fingerprint q line with Some x => [x] | None => [] end.
Proof. unfold written. cbn [jsonl]. rewrite omap_app. cbn. by destruct (line_fingerprint q line). Qed.

(** One packet: either it is recorded, once, or the process stops and the files
    are as before. *)
Lemma emit_packet_spec {W} (H : Host W) path p t (s : GState W) :
  path <> "" -> packets_inv s ->
  let s' := fst (emit_packet H path p t s) in
  telemetry s' = telemetry s /\
  match snd (emit_packet H path p t s) with
  | Some _ => packets_inv s' /\
      forall q, written q s' = if String.eqb path q then add_unique_clue (written q s) (fp_fingerprint p)
                               else written q s
  | None => forall q, written q s' = written q s
  end.
Proof.
  intros Hp [Hwf Hinv]. unfold emit_packet, bind.
  destruct (should_emit_spec path (fp_fingerprint p) s Hp Hwf) as (d & Hd & -> & Hk).
  set (fp := fp_fingerprint p) in *. rewrite <- Hinv.
  assert (Hsame : forall q (w : W) d, written q (mkGState w (telemetry s) d (jsonl s) (calls s)) = written q s) by done.
  destruct (decide (fp ∈ written path s)) as [Hin|Hnew]; [rewrite bool_decide_true by done|rewrite bool_decide_false by done];
    cbn [negb].
  - cbn [ret fst snd telemetry]. split; [done|].
    assert (Hw : forall q, written q s = if String.eqb path q then add_unique_clue (written q s) fp else written q s).
    { intros q. destruct (String.eqb_spec path q); [subst; by rewrite add_unique_in|done]. }
    split; [split; [done|]|done]. intros q. rewrite Hsame. unfold seen_fps at 1. cbn [seen]. rewrite Hk.
    case_decide; [subst|by rewrite Hinv]. rewrite <- Hinv. by rewrite add_unique_in.
  - unfold append_jsonl, bind, on_world. destruct (String.eqb_spec path ""); [done|]. cbn [world].
    destruct (h_open_append H (world s) path) as [w ok]. destruct ok; [|done].
    cbn [add_jsonl world telemetry seen jsonl calls fst snd]. split; [done|].
    assert (Hw : forall q, written q (mkGState w (telemetry s) d (jsonl s ++ [(path, packet_json p t)]) (calls s)) =
                 if String.eqb path q then add_unique_clue (written q s) fp else written q s).
    { intros q. rewrite written_snoc, line_packet. destruct (String.eqb_spec path q) as [<-|];
        [by rewrite add_unique_new|by rewrite app_nil_r]. }
    split; [split; [done|]|exact Hw]. intros q. rewrite Hw. unfold seen_fps. cbn [seen]. rewrite Hk, <- !Hinv.
    destruct (String.eqb_spec path q), (decide (q = path)); congruence.
Qed.

Lemma omap_requested fudge t q e l :
  omap (requested fudge t q) (e :: l) =
  (if emission_on e && String.eqb (fail_jsonl (emission_conf e)) q
   then [fp_fingerprint (emission_packet fudge t e)] else []) ++ omap (requested fudge t q) l.
Proof. cbn [omap list_omap]. unfold requested at 1. by destruct (_ && _). Qed.

Lemma emit_all_spec {W} (H : Host W) fudge l : forall s : GState W, packets_inv s ->
  (forall q, NoDup (written q s)) ->
  (forall q, NoDup (written q (fst (emit_all H fudge l s)))) /\
  (snd (emit_all H fudge l s) = Some tt -> forall q,
     written q (fst (emit_all H fudge l s)) =
     fold_left add_unique_clue (omap (requested fudge (telemetry s) q) l) (written q s)).
Proof.
  induction l as [|e l IH]; intros s Hinv Hnd; [done|]. cbn [emit_all]. unfold bind at 1 2 3.
  destruct (emission_on e) eqn:Eon.
  - rewrite run_emission_on by done.
    set (p := emission_packet fudge (telemetry s) e). set (t := failure_teacher _ _).
    assert (Hp : fail_jsonl (emission_conf e) <> "").
    { unfold emission_on in Eon. apply andb_true_iff in Eon as [_ En].
      by destruct (String.eqb_spec (fail_jsonl (emission_conf e)) ""). }
    pose proof (emit_packet_spec H _ p t s Hp Hinv) as (Ht & Hs).
    destruct (emit_packet H _ p t s) as [s1 [[]|]]; cbn [fst snd] in *.
    + destruct Hs as [Hinv1 Hw]. destruct (IH s1 Hinv1) as [IH1 IH2].
      { intros q. rewrite Hw. destruct (String.eqb _ _); [by apply NoDup_add_unique|done]. }
      split; [done|]. intros Hok q. rewrite (IH2 Hok), Hw, Ht, omap_requested, Eon. cbn [andb].
      by destruct (String.eqb _ q).
    + split; [|done]. intros q. by rewrite Hs.
  - rewrite run_emission_off by done. destruct (IH s Hinv Hnd) as [IH1 IH2]. split; [done|].
    intros Hok q. by rewrite (IH2 Hok), omap_requested, Eon.
Qed.

(** C8: over any sequence of packet requests from the start of the process,
    every file holds each fingerprint at most once, also when the process stops
    half way; and a run that ends has written to each file the fingerprints
    requested for it, each once, in the order of the first requests. *)
Theorem failure_packets_unique {W} (H : Host W) fudge l w t c :
  let s := mkGState w t [] [] c in
  let s' := fst (emit_all H fudge l s) in
  (forall path, NoDup (written path s')) /\
  (snd (emit_all H fudge l s) = Some tt -> forall path,
     written path s' = fold_left add_unique_clue (omap (requested fudge t path) l) []).
Proof.
  apply (emit_all_spec H fudge l (mkGState w t [] [] c)).
  - split; [by apply NoDup_nil_2|done].
  - intros q. apply NoDup_nil_2.
Qed.

Definition quiet_host : Host unit :=
  mkHost unit (fun w _ => (w, None)) (fun w _ => (w, true)) (fun w n => (w, n)) "/tmp"
    (fun w _ => (w, true)) (fun w _ => (w, true)) (fun w _ _ => w) (fun w _ _ => (w, true)) (fun _ _ => false) "" "".

Definition fail_dump : MlDumpConfig := mkMlDumpConfig false false true "" "" "f.jsonl".
Definition timeout_result : CommandResult := mkCommandResult 124 0 0 "" (d_of_Z 0) "Timeout" "a.log".

Lemma failure_packets_unique_witness :
  let req := NamedEmission fail_dump "p" "ABC" "cec_map" "g" "h" timeout_result in
  let s := mkGState tt None [] [] [] in
  snd (emit_all quiet_host 0 [req; req] s) = Some tt /\
  written "f.jsonl" (fst (emit_all quiet_host 0 [req; req] s)) =
  fold_left add_unique_clue (omap (requested 0 None "f.jsonl") [req; req]) [] /\
  length (written "f.jsonl" (fst (emit_all quiet_host 0 [req; req] s))) = 1%nat.
Proof.
  cbv zeta. set (req := NamedEmission _ _ _ _ _ _ _).
  assert (Hok : snd (emit_all quiet_host 0 [req; req] (mkGState tt None [] [] [])) = Some tt)
    by (vm_compute; reflexivity).
  split; [exact Hok|]. split; [|vm_compute; reflexivity].
  exact (proj2 (failure_packets_unique quiet_host 0 [req; req] tt None []) Hok "f.jsonl").
Defined.

(** C36: a second report of the same failure is dropped, whatever it adds: the
    fingerprint does not depend on the trace.  [abc_cec_module] reports an action
    that failed to execute at once, without the trace, and again after the plan
    with the trace, so the trace of such a failure never reaches the file. *)
Theorem trace_report_dropped {W} (H : Host W) fudge conf stage action r tr (s s1 : GState W) :
  packets_inv s ->
  run_emission H fudge (Emission conf stage action r []) s = (s1, Some tt) ->
  exists s2, run_emission H fudge (Emission conf stage action r tr) s1 = (s2, Some tt) /\ jsonl s2 = jsonl s1.
Proof.
  intros Hinv E. set (e := Emission conf stage action r []) in E. set (e' := Emission conf stage action r tr).
  destruct (emission_on e) eqn:Eon; [|exists s1; split; [by apply (run_emission_off H fudge e')|done]].
  rewrite run_emission_on in E by done. rewrite (run_emission_on H fudge e') by exact Eon.
  assert (Hp : fail_jsonl (emission_conf e) <> "").
  { unfold emission_on in Eon. apply andb_true_iff in Eon as [_ En].
    by destruct (String.eqb_spec (fail_jsonl (emission_conf e)) ""). }
  set (t := failure_teacher _ _) in E.
  pose proof (emit_packet_spec H _ (emission_packet fudge (telemetry s) e) t s Hp Hinv) as (Ht & Hs).
  rewrite E in Ht, Hs. cbn [fst snd] in Ht, Hs. destruct Hs as [[Hwf1 Hinv1] Hw]. rewrite Ht.
  unfold emit_packet, bind.
  destruct (should_emit_spec (fail_jsonl (emission_conf e'))
              (fp_fingerprint (emission_packet fudge (telemetry s) e')) s1 Hp Hwf1) as (d & _ & -> & _).
  rewrite bool_decide_true; [by eexists|]. rewrite <- Hinv1, Hw. cbn [emission_conf e e'].
  rewrite String.eqb_refl. change (emission_packet fudge (telemetry s) e') with
    (emission_packet fudge (telemetry s) (Emission conf stage action r tr)).
  unfold add_unique_clue. rewrite existsb_eqb. case_bool_decide; [done|]. apply elem_of_app. by right; left.
Qed.

Lemma trace_report_dropped_witness :
  let conf := mkCheckConfig "abc" "/tmp" [] (mkDMod "\gold" false false [] []) (mkDMod "\gate" false false [] [])
                (mkSeqCheckConfig 20 0 false false) fail_dump None in
  let tr := [mkRunRecord "p" "cec_map" 124 0 "blocked" (d_of_Z 0) "a.log"] in
  let s := mkGState tt None [] [] [] in
  exists s1, run_emission quiet_host 0 (Emission conf "ABC" "cec_map" timeout_result []) s = (s1, Some tt) /\
  exists s2, run_emission quiet_host 0 (Emission conf "ABC" "cec_map" timeout_result tr) s1 = (s2, Some tt) /\
             jsonl s2 = jsonl s1.
Proof.
  cbv zeta. set (conf := mkCheckConfig _ _ _ _ _ _ _ _). set (tr := [_]). set (s := mkGState tt None [] [] []).
  assert (E : exists s1, run_emission quiet_host 0 (Emission conf "ABC" "cec_map" timeout_result []) s = (s1, Some tt))
    by (eexists; vm_compute; reflexivity).
  destruct E as (s1 & E). exists s1. split; [exact E|].
  refine (trace_report_dropped quiet_host 0 conf "ABC" "cec_map" timeout_result tr s s1 _ E).
  split; [by apply NoDup_nil_2|done].
Defined.
