(* ===== verification/AbcPlan.v ===== *)
(** * The proof plan of a module pair ([abc_cec_module], [bmcinduct_check] of
    [passes/guide/check/core.cc])

    ABC actions are run in the heuristic or the learned order until one reports
    equivalence.  The dumps to BLIF and SMT2 run Yosys passes on a copy of the
    design: they are arguments ([Dumper]) that return the file written. *)

From stdpp Require Import pretty.
From S2P Require Import Prelude GuideNames Dict Shared Sched Effects FailExec.

Local Open Scope string_scope.
Local Open Scope list_scope.
Local Open Scope Z_scope.
Local Open Scope guide_scope.

(** [dump_blif_module]: the file and the number of constant inputs inserted for
    black boxes; [dump_smt2]: the file. *)
Record Dumper (W : Type) := mkDumper {
  dump_blif_module : W -> DMod -> W * (string * Z);
  dump_smt2 : W -> DMod * DMod -> W * string
}.
Arguments dump_blif_module {W}.
Arguments dump_smt2 {W}.

(** ** The plan *)

Definition heuristic_abc_plan : list ActionKind := [CEC_MAP; CEC_NOMAP; DSEC_MAP; DSEC_NOMAP].

Definition ranked_lt (lhs rhs : double * ActionKind) : bool :=
  if negb (d_eq (fst lhs) (fst rhs)) then d_lt (fst lhs) (fst rhs)
  else String.ltb (get_action_name (snd lhs)) (get_action_name (snd rhs)).

(** [std::sort] with a comparison. *)
Fixpoint sort_insert {A} (lt : A -> A -> bool) (x : A) (l : list A) : list A :=
  match l with
  | [] => [x]
  | y :: l' => if lt x y then x :: l else y :: sort_insert lt x l'
  end.
Definition std_sort {A} (lt : A -> A -> bool) (l : list A) : list A :=
  fold_left (fun acc x => sort_insert lt x acc) l [].

(** [None]: a prediction does not end. *)
Definition rank_actions (model : GuideSchedModel) (pair_rec : PairRecord) (mstats : MatchStats)
    : option (list (double * ActionKind)) :=
  mapM (fun action => c ← predict_sched_cost model (get_action_name action) pair_rec mstats; Some (c, action))
    heuristic_abc_plan.

Definition use_model (m : option GuideSchedModel) : bool :=
  match m with Some m => loaded m | None => false end.

Definition learned_abc_plan (m : option GuideSchedModel) (pair_rec : PairRecord) (mstats : MatchStats)
    : option (list ActionKind) :=
  match m with
  | Some model =>
      if loaded model
      then ranked ← rank_actions model pair_rec mstats; Some (snd <$> std_sort ranked_lt ranked)
      else Some heuristic_abc_plan
  | None => Some heuristic_abc_plan
  end.

(** ** One action *)

Definition abc_command (action : ActionKind) (match_file gold_file gate_file : string) : string :=
  match action with
  | CEC_MAP => "cec -M " +:+ match_file +:+ " " +:+ gate_file +:+ " " +:+ gold_file
  | CEC_NOMAP => "cec -n " +:+ gate_file +:+ " " +:+ gold_file
  | DSEC_MAP => "dsec -M " +:+ match_file +:+ " " +:+ gate_file +:+ " " +:+ gold_file
  | DSEC_NOMAP => "dsec -n " +:+ gate_file +:+ " " +:+ gold_file
  end.

Definition out2result : list (string * Z) :=
  [("Networks are equivalent", 1); ("Networks are NOT EQUIVALENT", 2); ("Miter computation has failed", 3)].

Definition action_outcome (rc status : Z) (old : string) : string :=
  if rc =? 1 then "equivalent"
  else if rc =? 2 then "not_equivalent"
  else if rc =? 3 then "blocked"
  else if rc =? 0 then "blocked"
  else if negb (status =? 0) then "tool_error"
  else old.

Section Plan.
Context {W : Type} (H : Host W) (D : Dumper W) (fudge : Z).
Context (conf : CheckConfig) (fatal : bool).

Definition pair_id_of : string := get_pair_id (d_name (gold_mod conf)) (d_name (gate_mod conf)).

Definition abc_shell (abc_cmd : string) : string := abc_exe_file conf +:+ " -c '" +:+ abc_cmd +:+ "'".

Definition run_abc_action (match_file gold_file gate_file : string) (action : ActionKind)
    : M W (CommandResult * RunRecord) :=
  let act := get_action_name action in
  let! log_dir := failure_log_dir H (dump_cfg conf) in
  let! r := exectue_and_check_table H (abc_shell (abc_command action match_file gold_file gate_file))
              out2result (tempdir_name conf) ("abc-" +:+ sanitize_filename pair_id_of +:+ "-" +:+ act) log_dir in
  let rc := result_code r in
  let cmd_res := with_codes r rc (action_outcome rc (exit_status r) (proof_outcome r)) in
  let rec := mkRunRecord pair_id_of act (exit_status r) rc (proof_outcome cmd_res) (runtime_ms r) (log_file r) in
  if negb (exit_status r =? 0) || (rc =? 0) then
    do! emit_failure_packet H fudge conf "ABC" act cmd_res [] then
    if fatal then log_error else ret (cmd_res, rec)
  else ret (cmd_res, rec).

(** ** The loop over the plan *)

Record PlanState := mkPlanState {
  ran_dsec_map : bool; prev_result : Z; solved : bool;
  last_cmd : CommandResult; last_act : string; trace : list RunRecord
}.

Definition plan_start : PlanState := mkPlanState false 0 false empty_CommandResult "" [].

(** The [continue]s of the loop. *)
Definition skip_action (has_dff exhaustive strict_order : bool) (st : PlanState) (action : ActionKind) : bool :=
  (negb has_dff && match action with DSEC_MAP | DSEC_NOMAP => true | _ => false end) ||
  (negb exhaustive && negb strict_order &&
   match action with
   | CEC_MAP => false
   | CEC_NOMAP => negb (prev_result st =? 3)
   | DSEC_MAP => negb ((prev_result st =? 2) || (prev_result st =? 3))
   | DSEC_NOMAP => negb (ran_dsec_map st) || negb (prev_result st =? 3)
   end).

Definition plan_record (st : PlanState) (action : ActionKind) (r : CommandResult) (rec : RunRecord) : PlanState :=
  mkPlanState (ran_dsec_map st || match action with DSEC_MAP => true | _ => false end) (rr_result_code rec)
    (solved st || (rr_result_code rec =? 1)) r (rr_action rec) (trace st ++ [rec]).

Fixpoint plan_loop (run : ActionKind -> M W (CommandResult * RunRecord)) (has_dff exhaustive strict_order : bool)
    (plan : list ActionKind) (st : PlanState) : M W PlanState :=
  match plan with
  | [] => ret st
  | action :: plan =>
      if skip_action has_dff exhaustive strict_order st action
      then plan_loop run has_dff exhaustive strict_order plan st
      else
        let! res := run action in
        let st := plan_record st action (fst res) (snd res) in
        if (rr_result_code (snd res) =? 1) && negb exhaustive then ret st
        else plan_loop run has_dff exhaustive strict_order plan st
  end.

Definition pair_has_dff (rec : PairRecord) : bool := negb (gold_dff_cnt rec =? 0) || negb (gate_dff_cnt rec =? 0).

Definition run_abc_plan (pair_rec : PairRecord) (plan : list ActionKind)
    (match_file gold_file gate_file : string) : M W PlanState :=
  plan_loop (run_abc_action match_file gold_file gate_file) (pair_has_dff pair_rec)
    (dump_sched (dump_cfg conf)) (use_model (sched_model conf)) plan plan_start.

(** ** The sample for the scheduler *)

(** The label: the solved action with the least run time, the first of them. *)
Definition best_step (best : option (double * string)) (rec : RunRecord) : option (double * string) :=
  if (rr_result_code rec =? 1) &&
     match best with None => true | Some (best_runtime, _) => d_lt (rr_runtime_ms rec) best_runtime end
  then Some (rr_runtime_ms rec, rr_action rec) else best.

Definition best_action (trace : list RunRecord) : string :=
  match fold_left best_step trace None with Some (_, a) => a | None => "" end.

Definition dump_sched_sample (pair_rec : PairRecord) (mstats : MatchStats) (trace : list RunRecord) : M W unit :=
  if negb (dump_sched (dump_cfg conf)) || String.eqb (sched_jsonl (dump_cfg conf)) "" then ret tt
  else append_jsonl H (sched_jsonl (dump_cfg conf)) (JObject [
    ("pair", pair_record_to_json pair_rec); ("match", match_stats_to_json mstats);
    ("actions", JArray (run_record_to_json <$> trace));
    ("label_best_action", JString (best_action trace))]).

(** ** [abc_cec_module] *)

Definition collect_pair_record (t : option GuideTelemetry) (bbconsts : Z) : PairRecord :=
  let gold := d_name (gold_mod conf) in
  let gate := d_name (gate_mod conf) in
  mkPairRecord pair_id_of (strip_backslash gold) (strip_backslash gate)
    (count_module_dffs (gold_mod conf) false) (count_module_dffs (gate_mod conf) true)
    (module_has_submodule (cc_design conf) (gold_mod conf))
    (match t with Some t => touched (retimed_mods t) gold gate | None => false end)
    (match t with Some t => touched (multiplier_mods t) gold gate | None => false end) bbconsts.

Definition add_pair_record (rec : PairRecord) (t : GuideTelemetry) : GuideTelemetry :=
  mkGuideTelemetry (pair_match_stats t) (<[pr_pair_id rec := rec]> (pair_records t))
    (pair_applied_sugs t) (retimed_mods t) (multiplier_mods t) (divider_mods t) (match_suggestions t).

Definition match_file_name : string :=
  tempdir_name conf +:+ "/match_" +:+ unescape_id (d_name (gold_mod conf)) +:+ "_" +:+
  unescape_id (d_name (gate_mod conf)) +:+ ".txt".

(** The result and what [*deciding_result] is set to. *)
Definition abc_cec_module : M W (bool * CommandResult) :=
  let! gold := on_world (fun w => dump_blif_module D w (gold_mod conf)) in
  let! gate := on_world (fun w => dump_blif_module D w (gate_mod conf)) in
  let! s := get in
  let pair_rec := collect_pair_record (telemetry s) (snd gold + snd gate) in
  do! set_telemetry (add_pair_record pair_rec <$> telemetry s) then
  let! s := get in
  let mstats := get_match_stats conf (telemetry s) in
  match learned_abc_plan (sched_model conf) pair_rec mstats with
  | None => log_error
  | Some plan =>
      let! st := run_abc_plan pair_rec plan match_file_name (fst gold) (fst gate) in
      do! dump_sched_sample pair_rec mstats (trace st) then
      do! (if negb (solved st) && negb (String.eqb (last_act st) "")
           then emit_failure_packet H fudge conf "ABC" (last_act st) (last_cmd st) (trace st)
           else ret tt) then
      ret (solved st, last_cmd st)
  end.

(** ** [bmcinduct_check] *)

Definition add_output (r : CommandResult) (text : string) : CommandResult :=
  mkCommandResult (exit_status r) (raw_result_code r) (result_code r) (proof_outcome r) (runtime_ms r)
    (output r +:+ text) (log_file r).

(** One run of [yosys-smtbmc]; a failure is reported under [action]. *)
Definition smtbmc_phase (log_dir cmd tag action text : string) : M W bool :=
  let! r := exec_cmd H cmd (tempdir_name conf) (tag +:+ sanitize_filename pair_id_of) log_dir in
  if negb (exit_status r =? 0) then
    do! emit_failure_packet H fudge conf "BMC" action (add_output r text) [] then ret false
  else ret true.

Definition smtbmc_cmd (exe : string) : string :=
  exe +:+ " " +:+ (if no_init (seq_check_cfg conf) then "-noinit " else "") +:+
  "-m " +:+ strip_backslash (d_name (gold_mod conf)) +:+ "_vs_" +:+ strip_backslash (d_name (gate_mod conf)) +:+ " ".

Definition smt_range : string :=
  pretty (step_skip (seq_check_cfg conf)) +:+ ":" +:+ pretty (k_induct (seq_check_cfg conf)) +:+ " ".

Definition weak_cmd (exe smt2_file : string) : string := smtbmc_cmd exe +:+ "-i -t " +:+ smt_range +:+ smt2_file.
Definition bmc_cmd (exe smt2_file : string) : string := smtbmc_cmd exe +:+ " -t " +:+ smt_range +:+ smt2_file.
Definition induct_cmd (exe smt2_file : string) : string :=
  smtbmc_cmd exe +:+ " -i -t " +:+ pretty (k_induct (seq_check_cfg conf)) +:+ " " +:+ smt2_file.

Definition bmcinduct_check : M W bool :=
  let! smt2_file := on_world (fun w => dump_smt2 D w (gold_mod conf, gate_mod conf)) in
  let! s := get in
  let exe := resolve_yosys_smtbmc_executable H (world s) in
  let! log_dir := failure_log_dir H (dump_cfg conf) in
  if weak_mode (seq_check_cfg conf) then
    smtbmc_phase log_dir (weak_cmd exe smt2_file) "smtbmc-weak-" "weak"
      ("BMC-Induct failed in weak mode." +:+ newline)
  else
    let! ok := smtbmc_phase log_dir (bmc_cmd exe smt2_file) "smtbmc-bmc-" "bmc"
                 ("BMC-Induct failed in BMC phase." +:+ newline) in
    if ok then
      smtbmc_phase log_dir (induct_cmd exe smt2_file) "smtbmc-induct-" "induct"
        ("BMC-Induct failed in Induct phase." +:+ newline)
    else ret false.
End Plan.
