(* ===== verification/AbcPlanSpec.v ===== *)
(** * Properties of the proof plan ([AbcPlan.v]) *)

From Stdlib Require Import Sorted.
From S2P Require Import Prelude GuideNames Dict Shared Sched Effects FailExec AbcPlan.

Local Open Scope string_scope.
Local Open Scope list_scope.
Local Open Scope Z_scope.
Local Open Scope guide_scope.

(** ** Effects that run no command *)

Definition keeps_calls {W} (s s' : GState W) : Prop := calls s' = calls s.

Create HintDb calls discriminated.

Ltac same_calls :=
  repeat first
    [ solve [auto with calls]
    | match goal with
      | |- always keeps_calls (bind _ _) => apply always_bind; [unfold keeps_calls; congruence| |intros ?]
      | |- always keeps_calls (if ?b then _ else _) => destruct b
      | |- always keeps_calls (match ?o with Some _ => _ | None => _ end) => destruct o
      end
    | intros ?; reflexivity ].

Section Calls.
Context {W : Type} (H : Host W) (fudge : Z).

Lemma on_world_calls {A} (f : W -> W * A) : always keeps_calls (on_world f).
Proof. intros s. unfold on_world. by destruct (f (world s)). Qed.
Hint Resolve on_world_calls : calls.

Lemma failure_log_dir_calls c : always keeps_calls (failure_log_dir H c).
Proof. unfold failure_log_dir. same_calls. Qed.
Hint Resolve failure_log_dir_calls : calls.

Lemma append_jsonl_calls path j : always keeps_calls (append_jsonl H path j).
Proof. unfold append_jsonl. same_calls. Qed.
Hint Resolve append_jsonl_calls : calls.

Lemma emit_packet_calls path p t : always keeps_calls (emit_packet H path p t).
Proof.
  unfold emit_packet, should_emit_failure_packet. same_calls.
Qed.
Hint Resolve emit_packet_calls : calls.

Lemma emit_failure_packet_calls conf stage action r tr :
  always keeps_calls (emit_failure_packet H fudge conf stage action r tr).
Proof. unfold emit_failure_packet. same_calls. Qed.
Hint Resolve emit_failure_packet_calls : calls.

Lemma calls_of {A} (m : M W A) s s' o : always keeps_calls m -> m s = (s', o) -> calls s' = calls s.
Proof. intros Hm E. specialize (Hm s). by rewrite E in Hm. Qed.

(** A captured command is the one command recorded. *)
Lemma exec_capture_calls cmd tempdir tag log_dir s s' r :
  exec_capture H cmd tempdir tag log_dir s = (s', Some r) ->
  calls s' = calls s ++ [(cmd, r)].
Proof.
  intros (s1 & lf & E1 & E)%bind_inv.
  apply calls_of in E1; [|unfold make_command_log_file; same_calls].
  apply bind_inv in E as (s2 & res & E2 & E). apply calls_of in E2; [|apply on_world_calls].
  destruct res as [[[bytes status] ms]|]; [|done].
  apply bind_inv in E as (s3 & [] & E3 & E). injection E as -> <-. injection E3 as <-.
  cbn [calls]. congruence.
Qed.

Lemma exec_table_calls cmd targets tempdir tag log_dir s s' r0 :
  exectue_and_check_table H cmd targets tempdir tag log_dir s = (s', Some r0) ->
  exists r, calls s' = calls s ++ [(cmd, r)] /\ output r0 = output r /\ exit_status r0 = exit_status r /\
    result_code r0 = target_code (output r) targets.
Proof.
  intros (s1 & r & E1 & E)%bind_inv. injection E as -> <-. exists r.
  split; [by eapply exec_capture_calls|done].
Qed.
End Calls.

#[export] Hint Resolve on_world_calls failure_log_dir_calls append_jsonl_calls emit_packet_calls
  emit_failure_packet_calls : calls.

(** The codes of the table of outputs. *)
Lemma out2result_codes out : target_code out out2result ∈ [0; 1; 2; 3].
Proof. unfold out2result. cbn [target_code fst snd]. repeat case_match; by apply (bool_decide_unpack _). Qed.

Lemma out2result_equivalent out :
  target_code out out2result = 1 <-> contains out "Networks are equivalent" = true.
Proof. unfold out2result. cbn [target_code fst snd]. repeat case_match; split; congruence. Qed.

Section Action.
Context {W : Type} (H : Host W) (fudge : Z) (conf : CheckConfig) (fatal : bool).

(** One action runs its ABC command; what it returns is read off the output. *)
Definition action_ran (match_file gold_file gate_file : string) (action : ActionKind)
    (s : GState W) (res : CommandResult * RunRecord) (s' : GState W) : Prop :=
  exists r, calls s' = calls s ++ [(abc_shell conf (abc_command action match_file gold_file gate_file), r)] /\
    rr_action res.2 = get_action_name action /\
    rr_exit_status res.2 = exit_status r /\
    rr_result_code res.2 = target_code (output r) out2result /\
    output res.1 = output r /\ exit_status res.1 = exit_status r /\
    (fatal = true -> exit_status r = 0 /\ rr_result_code res.2 <> 0).

Lemma run_abc_action_spec mf gf kf action :
  returns (action_ran mf gf kf action) (run_abc_action H fudge conf fatal mf gf kf action).
Proof.
  intros s s' res (s1 & log_dir & E1 & E)%bind_inv.
  apply calls_of in E1; [|same_calls].
  apply bind_inv in E as (s2 & r0 & E2 & E).
  apply exec_table_calls in E2 as (r & E2 & Ho & He & Hrc).
  exists r. rewrite <- Ho, <- He, <- Hrc in *. cbv zeta in E. rewrite <- E1, <- E2. clear E1 E2 Ho Hrc.
  set (r1 := with_codes _ _ _) in E. set (rec := mkRunRecord _ _ _ _ _ _ _) in E.
  destruct (negb (exit_status r0 =? 0) || _) eqn:Eb.
  - apply bind_inv in E as (s3 & [] & E3 & E). apply calls_of in E3; [|same_calls].
    destruct fatal; [done|]. injection E as -> <-. by repeat split.
  - injection E as -> <-. repeat (split; [done|]). intros _.
    by apply orb_false_iff in Eb as [Ee%negb_false_iff%Z.eqb_eq Er%Z.eqb_neq].
Qed.
End Action.

(** ** The loop *)

Section Loop.
Context {W : Type} (run : ActionKind -> M W (CommandResult * RunRecord)).
Context (has_dff exhaustive strict_order : bool).

(** One turn of the loop that runs its action. *)
Lemma plan_loop_run plan action st s s' st' :
  skip_action has_dff exhaustive strict_order st action = false ->
  plan_loop run has_dff exhaustive strict_order (action :: plan) st s = (s', Some st') ->
  exists res s1, run action s = (s1, Some res) /\
    (if (rr_result_code res.2 =? 1) && negb exhaustive
     then s' = s1 /\ st' = plan_record st action res.1 res.2
     else plan_loop run has_dff exhaustive strict_order plan (plan_record st action res.1 res.2) s1 = (s', Some st')).
Proof.
  cbn [plan_loop]. intros -> (s1 & res & E1 & E)%bind_inv. exists res, s1. split; [done|].
  destruct (_ && _); [by injection E as -> <-|done].
Qed.

(** A relation on the states, the plan state and the history that every turn
    keeps holds at the end. *)
Lemma plan_loop_inv (P : GState W -> PlanState -> Prop) :
  (forall action st s s1 res, P s st -> skip_action has_dff exhaustive strict_order st action = false ->
     run action s = (s1, Some res) -> P s1 (plan_record st action res.1 res.2)) ->
  forall plan st s s' st', P s st ->
    plan_loop run has_dff exhaustive strict_order plan st s = (s', Some st') -> P s' st'.
Proof.
  intros Hstep. induction plan as [|action plan IH]; intros st s s' st' HP E.
  - by injection E as -> <-.
  - destruct (skip_action has_dff exhaustive strict_order st action) eqn:Es.
    + cbn [plan_loop] in E. rewrite Es in E. by eapply IH.
    + apply plan_loop_run in E as (res & s1 & E1 & E); [|done].
      assert (HP1 : P s1 (plan_record st action res.1 res.2)) by by eapply Hstep.
      destruct (_ && _); [by destruct E as [-> ->]|by eapply IH].
Qed.
End Loop.

Section Cec.
Context {W : Type} (H : Host W) (D : Dumper W) (fudge : Z) (conf : CheckConfig) (fatal : bool).

(** What the commands run so far say about the plan state. *)
Definition plan_sound (mf gf kf : string) (s0 s : GState W) (st : PlanState) : Prop :=
  exists l, calls s = calls s0 ++ l /\
    (solved st = true <-> exists c, c ∈ l /\ contains (output c.2) "Networks are equivalent" = true) /\
    (fatal = true -> Forall (fun c => exit_status c.2 = 0 /\ target_code (output c.2) out2result <> 0) l) /\
    Forall (fun c => exists action, c.1 = abc_shell conf (abc_command action mf gf kf)) l.

Lemma run_abc_plan_sound rec plan mf gf kf s s' st :
  run_abc_plan H fudge conf fatal rec plan mf gf kf s = (s', Some st) -> plan_sound mf gf kf s s' st.
Proof.
  intros E. revert E. apply plan_loop_inv.
  2: { exists []. rewrite app_nil_r. split; [done|]. split; [|done]. split; [done|]. by intros (? & ?%elem_of_nil & _). }
  intros action st0 s1 s2 res (l & Hl & Hsol & Hfat & Hcmd) _ E.
  apply run_abc_action_spec in E as (r & Hc & _ & _ & Hrc & _ & _ & Hf).
  eexists (l ++ [_]). split; [by rewrite Hc, Hl, app_assoc|]. split; [|split].
  - cbn [plan_record solved]. rewrite orb_true_iff, Hsol, Z.eqb_eq, Hrc, out2result_equivalent.
    split.
    + intros [(c & Hin & Ho)|Ho]; [exists c; split; [by apply elem_of_app; left|done]|]. eexists. split; [by apply elem_of_app; right; left|done].
    + intros (c & [Hin| ->%list_elem_of_singleton]%elem_of_app & Ho); [left; by exists c|by right].
  - intros Hft. apply Forall_app. split; [by apply Hfat|]. apply Forall_singleton. cbn [snd].
    rewrite <- Hrc. by apply Hf.
  - apply Forall_app. split; [done|]. apply Forall_singleton. by exists action.
Qed.
End Cec.

(** A file the dumper wrote for a module. *)
Definition dumped_as {W} (D : Dumper W) (md : DMod) (file : string) : Prop :=
  exists w, file = fst (snd (dump_blif_module D w md)).

Lemma dump_dumped {W} (D : Dumper W) md s s' r :
  on_world (fun w => dump_blif_module D w md) s = (s', Some r) -> dumped_as D md (fst r).
Proof. unfold on_world. intros E. exists (world s). destruct (dump_blif_module D (world s) md). by injection E as _ <-. Qed.

(** What [abc_cec_module] did and answered. *)
Definition cec_sound {W} (D : Dumper W) (conf : CheckConfig) (fatal ok : bool) (l : list (string * CommandResult)) : Prop :=
  exists gold_file gate_file,
    dumped_as D (gold_mod conf) gold_file /\ dumped_as D (gate_mod conf) gate_file /\
    (ok = true <-> exists c, c ∈ l /\ contains (output c.2) "Networks are equivalent" = true) /\
    (fatal = true -> Forall (fun c => exit_status c.2 = 0 /\ target_code (output c.2) out2result <> 0) l) /\
    Forall (fun c => exists action,
      c.1 = abc_shell conf (abc_command action (match_file_name conf) gold_file gate_file)) l.

Lemma abc_cec_module_sound {W} (H : Host W) (D : Dumper W) fudge conf fatal s s' ok deciding :
  abc_cec_module H D fudge conf fatal s = (s', Some (ok, deciding)) ->
  exists l, calls s' = calls s ++ l /\ cec_sound D conf fatal ok l.
Proof.
  intros (s1 & gold & E1 & E)%bind_inv. pose proof (dump_dumped _ _ _ _ _ E1) as Hg. apply calls_of in E1; [|same_calls].
  apply bind_inv in E as (s2 & gate & E2 & E). pose proof (dump_dumped _ _ _ _ _ E2) as Hk. apply calls_of in E2; [|same_calls].
  apply bind_inv in E as (s2' & s2'' & E2' & E). injection E2' as -> <-.
  apply bind_inv in E as (s3 & [] & E3 & E). injection E3 as <-.
  apply bind_inv in E as (s4 & s4' & E4 & E). injection E4 as <- <-.
  cbv zeta in E. destruct (learned_abc_plan _ _ _) as [plan|]; [|done].
  apply bind_inv in E as (s5 & st & E5 & E). apply run_abc_plan_sound in E5 as (l & Hl & Hok & Hfat & Hcmd).
  apply bind_inv in E as (s6 & [] & E6 & E). apply calls_of in E6; [|unfold dump_sched_sample; same_calls].
  apply bind_inv in E as (s7 & [] & E7 & E). apply calls_of in E7; [|same_calls].
  injection E as -> <- <-. cbn [calls] in Hl. exists l. split; [congruence|]. by exists gold.1, gate.1.
Qed.

(** C2: [abc_cec_module] answers that a pair is equivalent exactly when one of
    the ABC commands it ran printed "Networks are equivalent"; every command it
    ran is one of the four actions on the dumped files, and in the fatal mode
    (the default) an answer means that each of them ended with status 0 and
    one of the three known verdicts. *)
Theorem abc_cec_sound {W} (H : Host W) (D : Dumper W) fudge conf fatal s s' ok deciding :
  abc_cec_module H D fudge conf fatal s = (s', Some (ok, deciding)) ->
  exists l, calls s' = calls s ++ l /\
  exists gold_file gate_file,
    dumped_as D (gold_mod conf) gold_file /\ dumped_as D (gate_mod conf) gate_file /\
    (ok = true <-> exists c, c ∈ l /\ contains (output c.2) "Networks are equivalent" = true) /\
    (fatal = true -> Forall (fun c => exit_status c.2 = 0 /\ target_code (output c.2) out2result <> 0) l) /\
    Forall (fun c => exists action,
      c.1 = abc_shell conf (abc_command action (match_file_name conf) gold_file gate_file)) l.
Proof. apply abc_cec_module_sound. Qed.

(** A host on which every command prints [out] and ends with [code]; its world
    is the list of the answers still to be given. *)
Definition script_host : Host (list (string * Z)) :=
  mkHost (list (string * Z))
    (fun w _ => match w with
                | (out, code) :: w => (w, Some (out, Exited code, d_of_Z 5))
                | [] => ([], Some ("", Signalled, d_of_Z 0))
                end)
    (fun w _ => (w, true)) (fun w n => (w, n)) "/tmp"
    (fun w _ => (w, true)) (fun w _ => (w, true)) (fun w _ _ => w) (fun w _ _ => (w, true)) (fun _ _ => false) "" "".

Definition plain_dumper {W} : Dumper W :=
  mkDumper W (fun w m => (w, (d_name m +:+ ".blif", 0))) (fun w p => (w, "pair.smt2")).

Definition dff_pair (dump : MlDumpConfig) (m : option GuideSchedModel) : CheckConfig :=
  mkCheckConfig "abc" "/tmp" [] (mkDMod "\gold" false false [] [mkDCell "\r" "$dff"]) (mkDMod "\gate" false false [] [])
    (mkSeqCheckConfig 20 0 false false) dump m.

Definition no_dump : MlDumpConfig := mkMlDumpConfig false false false "" "" "".

Lemma abc_cec_sound_witness :
  let s := mkGState [("Miter computation has failed", 0); ("Networks are equivalent", 0)] None [] [] [] in
  let r := abc_cec_module script_host plain_dumper 0 (dff_pair no_dump None) true s in
  exists l, calls (fst r) = [] ++ l /\
  exists gold_file gate_file,
    dumped_as (W := list (string * Z)) plain_dumper (gold_mod (dff_pair no_dump None)) gold_file /\
    dumped_as (W := list (string * Z)) plain_dumper (gate_mod (dff_pair no_dump None)) gate_file /\
    (true = true <-> exists c, c ∈ l /\ contains (output c.2) "Networks are equivalent" = true) /\
    (true = true -> Forall (fun c => exit_status c.2 = 0 /\ target_code (output c.2) out2result <> 0) l) /\
    Forall (fun c => exists action,
      c.1 = abc_shell (dff_pair no_dump None)
              (abc_command action (match_file_name (dff_pair no_dump None)) gold_file gate_file)) l.
Proof.
  cbv zeta. set (s := mkGState _ _ _ _ _).
  assert (E : exists s' d, abc_cec_module script_host plain_dumper 0 (dff_pair no_dump None) true s = (s', Some (true, d)))
    by (eexists _, _; vm_compute; reflexivity).
  destruct E as (s' & d & E). pose proof (abc_cec_sound script_host plain_dumper 0 (dff_pair no_dump None) true s s' true d E) as Hs. rewrite E. exact Hs.
Defined.

(** ** The default policy *)

(** The next action after the last one and its result code. *)
Definition heuristic_next (has_dff : bool) (h : list (ActionKind * Z)) : option ActionKind :=
  match last h with
  | None => Some CEC_MAP
  | Some (CEC_MAP, rc) =>
      if rc =? 3 then Some CEC_NOMAP else if (rc =? 2) && has_dff then Some DSEC_MAP else None
  | Some (CEC_NOMAP, rc) =>
      if ((rc =? 2) || (rc =? 3)) && has_dff then Some DSEC_MAP else None
  | Some (DSEC_MAP, rc) => if rc =? 3 then Some DSEC_NOMAP else None
  | Some (DSEC_NOMAP, _) => None
  end.

(** A history made by a policy, from the history [h] on, to its end. *)
Fixpoint follows (next : list (ActionKind * Z) -> option ActionKind) (h rest : list (ActionKind * Z)) : Prop :=
  match rest with
  | [] => next h = None
  | x :: rest => next h = Some x.1 /\ follows next (h ++ [x]) rest
  end.

Definition codes (t : list RunRecord) : list (string * Z) :=
  (fun r => (rr_action r, rr_result_code r)) <$> t.

Definition named (h : list (ActionKind * Z)) : list (string * Z) :=
  (fun x => (get_action_name x.1, x.2)) <$> h.

Section Policy.
Context {W : Type} (run : ActionKind -> M W (CommandResult * RunRecord)).
Context (Hrun : forall action s s' res, run action s = (s', Some res) -> rr_action res.2 = get_action_name action).

Lemma plan_loop_cases has_dff exhaustive strict_order plan action st s s' st' :
  plan_loop run has_dff exhaustive strict_order (action :: plan) st s = (s', Some st') ->
  (skip_action has_dff exhaustive strict_order st action = true /\
     plan_loop run has_dff exhaustive strict_order plan st s = (s', Some st')) \/
  (skip_action has_dff exhaustive strict_order st action = false /\
     exists res s1, rr_action res.2 = get_action_name action /\
       ((rr_result_code res.2 = 1 /\ exhaustive = false /\ st' = plan_record st action res.1 res.2) \/
        ((rr_result_code res.2 <> 1 \/ exhaustive = true) /\
         plan_loop run has_dff exhaustive strict_order plan (plan_record st action res.1 res.2) s1 = (s', Some st')))).
Proof.
  intros E. destruct (skip_action has_dff exhaustive strict_order st action) eqn:Es.
  - left. split; [done|]. cbn [plan_loop] in E. by rewrite Es in E.
  - right. split; [done|]. apply plan_loop_run in E as (res & s1 & E1 & E); [|done].
    exists res, s1. split; [by eapply Hrun|].
    destruct (Z.eqb_spec (rr_result_code res.2) 1) as [E1'|E1'], exhaustive; cbn [andb negb] in E; try (right; by auto).
    left. by destruct E.
Qed.

(** What the skip tests say, once the codes are compared with 2 and 3. *)
Ltac skip_tests :=
  repeat match goal with
  | S : skip_action _ _ _ _ _ = _ |- _ => cbn in S
  | S : _ || _ = false |- _ => apply orb_false_iff in S as [? ?]
  | S : negb _ = true |- _ => apply negb_true_iff in S
  | S : negb _ = false |- _ => apply negb_false_iff in S
  end.

(** Unroll a run over a concrete plan. *)
Ltac unroll :=
  lazymatch goal with
  | E : plan_loop _ _ _ _ [] _ _ = _ |- _ => injection E as _ <-
  | E : plan_loop _ _ _ _ (_ :: _) _ _ = _ |- _ =>
      let S := fresh "S" in let r := fresh "r" in let s := fresh "s" in
      let N := fresh "N" in let C := fresh "C" in let E' := fresh "E" in
      apply plan_loop_cases in E as [[S E']|[S (r & s & N & [(C & _ & ->)|[_ E']])]];
      skip_tests; try discriminate; unroll
  | _ => idtac
  end.

(** The history a plan state comes from. *)
Ltac history st :=
  lazymatch st with
  | plan_start => constr:(@nil (ActionKind * Z))
  | plan_record ?st ?a _ (snd ?r) => let h := history st in constr:(h ++ [(a, rr_result_code (snd r))])
  end.

Lemma heuristic_trace has_dff s s' st :
  plan_loop run has_dff false false heuristic_abc_plan plan_start s = (s', Some st) ->
  exists h, codes (trace st) = named h /\ follows (heuristic_next has_dff) [] h.
Proof.
  unfold heuristic_abc_plan. intros E. destruct has_dff; unroll.
  all: match goal with |- exists h, codes (trace ?st) = _ /\ _ => let h := history st in exists h end.
  all: cbn in *; split; [congruence|]; repeat (split; [|]).
  all: repeat match goal with S : _ = _ :> bool |- _ =>
         rewrite ?orb_true_iff, ?orb_false_iff, ?Z.eqb_eq, ?Z.eqb_neq in S; revert S end; intros.
  all: repeat match goal with |- context [?a =? ?b] => destruct (Z.eqb_spec a b); cbn end; first [done|exfalso; lia].
Qed.

(** Every allowed action of the plan was run, in order, unless one solved the
    pair before. *)
Definition allowed (has_dff : bool) (action : ActionKind) : bool :=
  has_dff || match action with DSEC_MAP | DSEC_NOMAP => false | _ => true end.

Lemma skip_allowed has_dff exhaustive strict_order st action :
  exhaustive || strict_order = true ->
  skip_action has_dff exhaustive strict_order st action = negb (allowed has_dff action).
Proof. by destruct has_dff, exhaustive, strict_order, action. Qed.

Lemma full_trace has_dff exhaustive strict_order plan :
  exhaustive || strict_order = true ->
  forall st s s' st', plan_loop run has_dff exhaustive strict_order plan st s = (s', Some st') ->
  exists ran rest,
    List.filter (allowed has_dff) plan = ran ++ rest /\
    rr_action <$> trace st' = (rr_action <$> trace st) ++ (get_action_name <$> ran) /\
    (rest <> [] -> exhaustive = false /\ solved st' = true /\
       exists r, last (trace st') = Some r /\ rr_result_code r = 1).
Proof.
  intros Hmode. induction plan as [|a plan IH]; intros st s s' st' E.
  - injection E as _ <-. exists [], []. cbn. by rewrite app_nil_r.
  - apply plan_loop_cases in E as [[S E]|[S (r & s1 & N & [(C & -> & ->)|[_ E]])]];
      rewrite skip_allowed in S by done; cbn [List.filter].
    + apply negb_true_iff in S. rewrite S. by eapply IH.
    + apply negb_false_iff in S. rewrite S. exists [a], (List.filter (allowed has_dff) plan).
      split; [done|]. cbn [plan_record trace solved]. rewrite fmap_app. cbn. rewrite N. split; [done|].
      intros _. split; [done|]. rewrite C, orb_true_r. split; [done|]. exists r.2. by rewrite last_snoc.
    + apply negb_false_iff in S. rewrite S. apply IH in E as (ran & rest & Hf & Ht & Hr).
      exists (a :: ran), rest. split; [by rewrite Hf|]. split; [|done].
      rewrite Ht. cbn [plan_record trace]. rewrite fmap_app, <- app_assoc. cbn. by rewrite N.
Qed.
End Policy.

Lemma run_abc_action_named {W} (H : Host W) fudge conf fatal mf gf kf action s s' res :
  run_abc_action H fudge conf fatal mf gf kf action s = (s', Some res) ->
  rr_action res.2 = get_action_name action.
Proof. intros E. apply run_abc_action_spec in E as (r & _ & Hn & _). exact Hn. Qed.

(** C7: without a scheduler model and without sampling, the actions a pair gets
    follow the escalation policy [heuristic_next], which looks only at the last
    action and its verdict: mapped CEC first; unmapped CEC only after a blocked
    miter; DSEC only with flip-flops and after a mismatch or a blocked miter;
    unmapped DSEC only after a blocked mapped DSEC; nothing after a proof. *)
Theorem abc_default_policy {W} (H : Host W) fudge conf fatal rec mf gf kf s s' st :
  dump_sched (dump_cfg conf) = false -> use_model (sched_model conf) = false ->
  run_abc_plan H fudge conf fatal rec heuristic_abc_plan mf gf kf s = (s', Some st) ->
  exists h, codes (trace st) = named h /\ follows (heuristic_next (pair_has_dff rec)) [] h.
Proof.
  unfold run_abc_plan. intros -> ->. apply heuristic_trace. intros ????. apply run_abc_action_named.
Qed.

Definition dff_record : PairRecord := mkPairRecord "p" "gold" "gate" 1 0 false false false 0.

Lemma abc_default_policy_witness :
  let s := mkGState [("Miter computation has failed", 0); ("Networks are NOT EQUIVALENT", 0);
                     ("Networks are equivalent", 0)] None [] [] [] in
  exists st, snd (run_abc_plan script_host 0 (dff_pair no_dump None) true dff_record heuristic_abc_plan
                    "m" "g" "k" s) = Some st /\
    codes (trace st) = [("cec_map", 3); ("cec_nomap", 2); ("dsec_map", 1)] /\
    exists h, codes (trace st) = named h /\ follows (heuristic_next true) [] h.
Proof.
  cbv zeta. set (s := mkGState _ _ _ _ _).
  assert (E : exists s' st, run_abc_plan script_host 0 (dff_pair no_dump None) true dff_record heuristic_abc_plan
                              "m" "g" "k" s = (s', Some st) /\
                            codes (trace st) = [("cec_map", 3); ("cec_nomap", 2); ("dsec_map", 1)])
    by (eexists _, _; vm_compute; split; reflexivity).
  destruct E as (s' & st & E & Hc). exists st. rewrite E. split; [done|]. split; [exact Hc|].
  exact (abc_default_policy script_host 0 (dff_pair no_dump None) true dff_record "m" "g" "k" s s' st eq_refl eq_refl E).
Defined.

(** C25: with a scheduler model or while sampling, no action is given up: the
    actions that apply to the pair (no DSEC without flip-flops) are run in the
    order of the plan, and a run stops before the last of them only outside
    sampling and right after an action that proved the pair. *)
Theorem abc_plan_complete {W} (H : Host W) fudge conf fatal rec plan mf gf kf s s' st :
  dump_sched (dump_cfg conf) || use_model (sched_model conf) = true ->
  run_abc_plan H fudge conf fatal rec plan mf gf kf s = (s', Some st) ->
  exists ran rest,
    List.filter (allowed (pair_has_dff rec)) plan = ran ++ rest /\
    rr_action <$> trace st = get_action_name <$> ran /\
    (rest <> [] -> dump_sched (dump_cfg conf) = false /\ solved st = true /\
       exists r, last (trace st) = Some r /\ rr_result_code r = 1).
Proof.
  unfold run_abc_plan. intros Hmode. apply full_trace; [|done]. intros ????. apply run_abc_action_named.
Qed.

Definition sampling : MlDumpConfig := mkMlDumpConfig true false false "s.jsonl" "" "".

Lemma abc_plan_complete_witness :
  let s := mkGState [("Networks are equivalent", 0); ("Networks are NOT EQUIVALENT", 0);
                     ("Networks are NOT EQUIVALENT", 0); ("Networks are NOT EQUIVALENT", 0)] None [] [] [] in
  exists st, snd (run_abc_plan script_host 0 (dff_pair sampling None) true dff_record heuristic_abc_plan
                    "m" "g" "k" s) = Some st /\
    exists ran rest,
      List.filter (allowed true) heuristic_abc_plan = ran ++ rest /\
      rr_action <$> trace st = get_action_name <$> ran /\
      (rest <> [] -> true = false /\ solved st = true /\
         exists r, last (trace st) = Some r /\ rr_result_code r = 1).
Proof.
  cbv zeta. set (s := mkGState _ _ _ _ _).
  assert (E : exists s' st, run_abc_plan script_host 0 (dff_pair sampling None) true dff_record heuristic_abc_plan
                              "m" "g" "k" s = (s', Some st))
    by (eexists _, _; vm_compute; reflexivity).
  destruct E as (s' & st & E). exists st. rewrite E. split; [done|].
  exact (abc_plan_complete script_host 0 (dff_pair sampling None) true dff_record heuristic_abc_plan "m" "g" "k" s s' st eq_refl E).
Defined.

(** ** The learned order *)

Lemma sort_insert_perm {A} (lt : A -> A -> bool) x l : sort_insert lt x l ≡ₚ x :: l.
Proof.
  induction l as [|y l IH]; [done|]. cbn [sort_insert]. destruct (lt x y); [done|]. rewrite IH. apply Permutation_swap.
Qed.

Lemma std_sort_perm {A} (lt : A -> A -> bool) l : std_sort lt l ≡ₚ l.
Proof.
  unfold std_sort. rewrite <- (app_nil_r l) at 2. generalize (@nil A) as acc.
  induction l as [|x l IH]; intros acc; [done|]. cbn [fold_left]. rewrite IH, sort_insert_perm.
  by rewrite <- Permutation_middle.
Qed.

Section Sort.
Context {A : Type} (lt : A -> A -> bool) (lt_asym : forall x y, lt x y = true -> lt y x = false).

Lemma sort_insert_hd x y l :
  HdRel (fun a b => lt b a = false) y l -> lt x y = false -> HdRel (fun a b => lt b a = false) y (sort_insert lt x l).
Proof. intros Hl Hx. destruct l as [|z l]; cbn [sort_insert]; [by constructor|]. destruct (lt x z); constructor; [done|]. by inversion Hl. Qed.

Lemma sort_insert_sorted x l :
  Sorted (fun a b => lt b a = false) l -> Sorted (fun a b => lt b a = false) (sort_insert lt x l).
Proof.
  induction 1 as [|y l Hl IH Hd]; cbn [sort_insert]; [by repeat constructor|].
  destruct (lt x y) eqn:E.
  - constructor; [by constructor|]. constructor. by apply lt_asym.
  - constructor; [done|]. by apply sort_insert_hd.
Qed.

Lemma std_sort_sorted l : Sorted (fun a b => lt b a = false) (std_sort lt l).
Proof.
  unfold std_sort. assert (Hacc : Sorted (fun a b => lt b a = false) []) by constructor. revert Hacc.
  generalize (@nil A) as acc. induction l as [|x l IH]; intros acc Hacc; [done|].
  cbn [fold_left]. by apply IH, sort_insert_sorted.
Qed.
End Sort.

Lemma ranked_lt_asym x y : ranked_lt x y = true -> ranked_lt y x = false.
Proof.
  unfold ranked_lt. rewrite (d_eq_sym (fst y) (fst x)). destruct (d_eq (fst x) (fst y)); cbn [negb].
  - by destruct (snd x), (snd y).
  - apply d_lt_asym.
Qed.

(** C26: the plan of a loaded model holds each of the four actions once, in the
    order of their predicted costs, equal costs by name: no action has a smaller
    rank than the one before it.  (A cost that is no number is outside the
    contract of [std::sort].) *)
Theorem learned_plan_sorted model rec mstats plan :
  loaded model = true -> learned_abc_plan (Some model) rec mstats = Some plan ->
  plan ≡ₚ heuristic_abc_plan /\
  exists ranked, plan = snd <$> ranked /\
    Forall (fun x => predict_sched_cost model (get_action_name (snd x)) rec mstats = Some (fst x)) ranked /\
    Sorted (fun a b => ranked_lt b a = false) ranked.
Proof.
  unfold learned_abc_plan. intros ->. destruct (rank_actions model rec mstats) as [ranked|] eqn:E; [|done].
  cbn [mbind option_bind]. intros [= <-]. unfold rank_actions in E. apply mapM_Some in E.
  assert (Hr : Forall2 (fun a x => snd x = a /\
            predict_sched_cost model (get_action_name (snd x)) rec mstats = Some (fst x)) heuristic_abc_plan ranked).
  { eapply Forall2_impl; [exact E|]. intros a [c a']. cbn [fst snd].
    destruct (predict_sched_cost _ _ _ _) as [c'|] eqn:Ep; [|done]. intros [= <- <-]. done. }
  split.
  - rewrite std_sort_perm. replace heuristic_abc_plan with (snd <$> ranked); [done|].
    clear E. induction Hr as [|a x l l' [<- _] _ IH]; [done|]. rewrite fmap_cons. by rewrite IH.
  - exists (std_sort ranked_lt ranked). split; [done|]. split; [|apply std_sort_sorted, ranked_lt_asym].
    rewrite std_sort_perm. clear E. induction Hr as [|a x l l' [_ Hx] _ IH]; by constructor.
Qed.

(** A linear model that prefers DSEC. *)
Definition dsec_model : GuideSchedModel :=
  mkSchedModel true "linear.json" "guide_sched_linear_v1" [] (d_of_Z 0) (d_of_Z 1)
    [("cec_map", mkLinear (d_of_Z 3) [("has_dff", d_of_Z 4)]); ("cec_nomap", mkLinear (d_of_Z 3) []);
     ("dsec_map", mkLinear (d_of_Z 1) []); ("dsec_nomap", mkLinear (d_of_Z 3) [])] [].

Lemma learned_plan_sorted_witness :
  learned_abc_plan (Some dsec_model) dff_record empty_MatchStats =
    Some [DSEC_MAP; CEC_NOMAP; DSEC_NOMAP; CEC_MAP] /\
  [DSEC_MAP; CEC_NOMAP; DSEC_NOMAP; CEC_MAP] ≡ₚ heuristic_abc_plan.
Proof.
  assert (E : learned_abc_plan (Some dsec_model) dff_record empty_MatchStats =
              Some [DSEC_MAP; CEC_NOMAP; DSEC_NOMAP; CEC_MAP]) by (vm_compute; reflexivity).
  split; [exact E|]. exact (proj1 (learned_plan_sorted dsec_model dff_record empty_MatchStats _ eq_refl E)).
Defined.

(** ** The label of a sample *)

(** C31: the label of a sample is the name of a run that proved the pair, and no
    run that proved the pair took less time; it is empty when no run did. *)
Theorem best_action_minimal tr :
  match List.filter (fun r => rr_result_code r =? 1) tr with
  | [] => best_action tr = ""
  | proofs => exists r, r ∈ proofs /\ best_action tr = rr_action r /\
                forall r', r' ∈ proofs -> d_lt (rr_runtime_ms r') (rr_runtime_ms r) = false
  end.
Proof.
  unfold best_action.
  assert (Hinv : match fold_left best_step tr None with
    | None => List.filter (fun r => rr_result_code r =? 1) tr = []
    | Some (t, a) => exists r, r ∈ List.filter (fun r => rr_result_code r =? 1) tr /\ t = rr_runtime_ms r /\ a = rr_action r /\
        forall r', r' ∈ List.filter (fun r => rr_result_code r =? 1) tr -> d_lt (rr_runtime_ms r') t = false
    end).
  { induction tr as [|x tr IH] using rev_ind; [done|].
    rewrite fold_left_app, List.filter_app. cbn [fold_left List.filter]. unfold best_step at 1.
    destruct (rr_result_code x =? 1) eqn:Ex; cbn [andb]; [|rewrite app_nil_r; exact IH].
    destruct (fold_left best_step tr None) as [[t a]|].
    - destruct IH as (r & Hr & -> & -> & Hmin). destruct (d_lt (rr_runtime_ms x) (rr_runtime_ms r)) eqn:Elt.
      + exists x. split; [by apply elem_of_app; right; left|]. do 2 (split; [done|]).
        intros r' [Hr'| ->%list_elem_of_singleton]%elem_of_app.
        * apply not_true_is_false. intros Hlt. specialize (Hmin r' Hr').
          by rewrite (d_lt_trans _ _ _ Hlt Elt) in Hmin.
        * apply not_true_is_false. intros Hlt. by rewrite (d_lt_asym _ _ Hlt) in Hlt.
      + exists r. split; [by apply elem_of_app; left|]. do 2 (split; [done|]).
        intros r' [Hr'| ->%list_elem_of_singleton]%elem_of_app; [by apply Hmin|done].
    - rewrite IH. exists x. split; [by left|]. do 2 (split; [done|]). intros r' ->%list_elem_of_singleton.
      apply not_true_is_false. intros Hlt. by rewrite (d_lt_asym _ _ Hlt) in Hlt. }
  destruct (fold_left best_step tr None) as [[t a]|]; [|by rewrite Hinv].
  destruct Hinv as (r & Hr & -> & -> & Hmin).
  destruct (List.filter _ tr); [by apply elem_of_nil in Hr|]. by exists r.
Qed.

(** ** Bounded model checking and induction *)

Lemma smtbmc_phase_spec {W} (H : Host W) fudge conf log_dir cmd tag action text s s' ok :
  smtbmc_phase H fudge conf log_dir cmd tag action text s = (s', Some ok) ->
  exists r, calls s' = calls s ++ [(cmd, r)] /\ ok = (exit_status r =? 0).
Proof.
  intros (s1 & r0 & (s1' & r & E1 & E2)%bind_inv & E)%bind_inv.
  injection E2 as -> <-. apply exec_capture_calls in E1. cbn [with_codes exit_status] in E.
  exists r. destruct (exit_status r =? 0); cbn [negb] in E; [by injection E as -> <-|].
  apply bind_inv in E as (s2 & [] & E2 & E). apply calls_of in E2; [|same_calls].
  injection E as -> <-. split; [congruence|done].
Qed.

(** C24: [bmcinduct_check] proves a pair only by commands that ended with status
    0: one combined run in weak mode, else the bounded run and then, if it
    succeeded, the induction run; it runs no other command. *)
Theorem bmcinduct_spec {W} (H : Host W) (D : Dumper W) fudge conf s s' ok :
  bmcinduct_check H D fudge conf s = (s', Some ok) ->
  exists exe smt2_file,
    if weak_mode (seq_check_cfg conf)
    then exists r, calls s' = calls s ++ [(weak_cmd conf exe smt2_file, r)] /\ ok = (exit_status r =? 0)
    else exists r1,
      if exit_status r1 =? 0
      then exists r2, calls s' = calls s ++ [(bmc_cmd conf exe smt2_file, r1); (induct_cmd conf exe smt2_file, r2)] /\
                      ok = (exit_status r2 =? 0)
      else calls s' = calls s ++ [(bmc_cmd conf exe smt2_file, r1)] /\ ok = false.
Proof.
  intros (s1 & smt2_file & E1 & E)%bind_inv. apply calls_of in E1; [|same_calls].
  apply bind_inv in E as (s1' & s1'' & E1' & E). injection E1' as -> <-. cbv zeta in E.
  apply bind_inv in E as (s2 & log_dir & E2 & E). apply calls_of in E2; [|same_calls].
  set (exe := resolve_yosys_smtbmc_executable H (world s1')) in E. exists exe, smt2_file.
  rewrite <- E1, <- E2. destruct (weak_mode _); [by apply smtbmc_phase_spec in E|].
  apply bind_inv in E as (s3 & ok1 & E3 & E). apply smtbmc_phase_spec in E3 as (r1 & Hc & ->). exists r1.
  destruct (exit_status r1 =? 0).
  - apply smtbmc_phase_spec in E as (r2 & Hc2 & ->). exists r2. split; [|done].
    by rewrite Hc2, Hc, <- app_assoc.
  - by injection E as -> <-.
Qed.

Lemma bmcinduct_spec_witness :
  let s := mkGState [("ok", 0); ("failed", 1)] None [] [] [] in
  let r := bmcinduct_check script_host plain_dumper 0 (dff_pair no_dump None) s in
  snd r = Some false /\
  exists exe smt2_file, exists r1,
    if exit_status r1 =? 0
    then exists r2, calls (fst r) = [] ++ [(bmc_cmd (dff_pair no_dump None) exe smt2_file, r1);
                                           (induct_cmd (dff_pair no_dump None) exe smt2_file, r2)] /\
                    false = (exit_status r2 =? 0)
    else calls (fst r) = [] ++ [(bmc_cmd (dff_pair no_dump None) exe smt2_file, r1)] /\ false = false.
Proof.
  cbv zeta. set (s := mkGState _ _ _ _ _).
  assert (E : exists s', bmcinduct_check script_host plain_dumper 0 (dff_pair no_dump None) s = (s', Some false))
    by (eexists; vm_compute; reflexivity).
  destruct E as (s' & E). rewrite E. split; [done|].
  exact (bmcinduct_spec script_host plain_dumper 0 (dff_pair no_dump None) s s' false E).
Defined.
