(* ===== verification/Match.v ===== *)
(** * Signal matching ([passes/guide/check/match.cc])

    The cutpoints of a module pair: named signals that occur on both sides,
    signals paired by the guidance file, and suggestions of the matching model
    that pass the gates.  The named signals of the two modules are arguments
    (the result of [build_named_sigs]); a signal bit is an element of [B]. *)

From stdpp Require Import pretty.
From S2P Require Import Prelude GuideNames Dict Shared ModMap Sched Effects FailExec AbcPlan.

Local Open Scope string_scope.
Local Open Scope list_scope.
Local Open Scope Z_scope.
Local Open Scope guide_scope.

Inductive MatchType := NONE | PO | PI | DFF | DFF_PO | SUBCKT_PIPO.

#[global] Instance MatchType_eq_dec : EqDecision MatchType.
Proof. solve_decision. Defined.

Definition type_eqb (a b : MatchType) : bool := bool_decide (a = b).

Definition get_match_type_str (t : MatchType) : string :=
  match t with
  | NONE => "NONE" | PO => "PO" | PI => "PI" | DFF => "DFF" | DFF_PO => "DFF_PO" | SUBCKT_PIPO => "SUBCKT_PIPO"
  end.

Record NamedSig (B : Type) := mkNamedSig { sig : B; ns_type : MatchType; wire_name : string; bit_index : Z }.
Arguments mkNamedSig {B}.
Arguments sig {B}.
Arguments ns_type {B}.
Arguments wire_name {B}.
Arguments bit_index {B}.

(** A cutpoint; flip-flops are named by their cells. *)
Record CutPoint (B : Type) := mkCutPoint {
  cp_name : string; gold_sig : B; gate_sig : B; cp_type : MatchType;
  gold_ff_cell : option string; gate_ff_cell : option string;
  gold_wire_name : string; gold_bit_index : Z; gate_wire_name : string; gate_bit_index : Z
}.
Arguments mkCutPoint {B}.
Arguments cp_name {B}.
Arguments gold_sig {B}.
Arguments gate_sig {B}.
Arguments cp_type {B}.
Arguments gold_ff_cell {B}.
Arguments gate_ff_cell {B}.
Arguments gold_wire_name {B}.
Arguments gold_bit_index {B}.
Arguments gate_wire_name {B}.
Arguments gate_bit_index {B}.

(** ** Statistics and scores *)

Definition update_match_stats (s : MatchStats) (t : MatchType) : MatchStats :=
  let '(mkMatchStats total pi po dff dff_po sub ug uk file) := s in
  match t with
  | PI => mkMatchStats total (pi + 1) po dff dff_po sub ug uk file
  | PO => mkMatchStats total pi (po + 1) dff dff_po sub ug uk file
  | DFF => mkMatchStats total pi po (dff + 1) dff_po sub ug uk file
  | DFF_PO => mkMatchStats total pi po dff (dff_po + 1) sub ug uk file
  | SUBCKT_PIPO => mkMatchStats total pi po dff dff_po (sub + 1) ug uk file
  | NONE => s
  end.

(** [stats.exact_total++] *)
Definition count_exact (s : MatchStats) : MatchStats :=
  let '(mkMatchStats total pi po dff dff_po sub ug uk file) := s in
  mkMatchStats (total + 1) pi po dff dff_po sub ug uk file.

Definition set_unmatched (s : MatchStats) (ug uk : Z) : MatchStats :=
  let '(mkMatchStats total pi po dff dff_po sub _ _ file) := s in
  mkMatchStats total pi po dff dff_po sub ug uk file.

Definition normalize_match_name (id : string) : string :=
  str_map (fun c => if isalnum c then c else UNDERSCORE) (strip_backslash id).

Definition last_match_token (id : string) : string :=
  let name := normalize_match_name id in default name (after_last UNDERSCORE name).

Definition score_match_candidate {B} (gold gate : NamedSig B) : Z :=
  if negb (type_eqb (ns_type gold) (ns_type gate)) then 0
  else
    (if bit_index gold =? bit_index gate then 10 else 0) +
    (if String.eqb (wire_name gold) (wire_name gate) then 100 else 0) +
    (if String.eqb (normalize_match_name (wire_name gold)) (normalize_match_name (wire_name gate)) then 40 else 0) +
    (if String.eqb (last_match_token (wire_name gold)) (last_match_token (wire_name gate)) then 20 else 0).

Definition name_len (id : string) : Z := Z.of_nat (String.length (strip_backslash id)).

Definition match_candidate_features {B} (gold gate : NamedSig B) : dict string double :=
  let norm id := normalize_match_name id in
  let f := [] in
  let f := dict_set f "bit_index_equal" (d_of_bool (bit_index gold =? bit_index gate)) in
  let f := dict_set f "bit_index_absdiff" (d_of_Z (Z.abs (bit_index gold - bit_index gate))) in
  let f := dict_set f "wire_name_exact" (d_of_bool (String.eqb (wire_name gold) (wire_name gate))) in
  let f := dict_set f "wire_name_norm_exact" (d_of_bool (String.eqb (norm (wire_name gold)) (norm (wire_name gate)))) in
  let f := dict_set f "same_last_token"
             (d_of_bool (String.eqb (last_match_token (wire_name gold)) (last_match_token (wire_name gate)))) in
  let f := dict_set f "heuristic_score" (d_of_Z (score_match_candidate gold gate)) in
  let f := dict_set f "gold_name_len" (d_of_Z (name_len (wire_name gold))) in
  let f := dict_set f "gate_name_len" (d_of_Z (name_len (wire_name gate))) in
  let f := dict_set f "name_len_absdiff" (d_of_Z (Z.abs (name_len (wire_name gold) - name_len (wire_name gate)))) in
  let f := dict_set f "type_pi" (d_of_bool (type_eqb (ns_type gold) PI)) in
  let f := dict_set f "type_po" (d_of_bool (type_eqb (ns_type gold) PO)) in
  let f := dict_set f "type_dff" (d_of_bool (type_eqb (ns_type gold) DFF)) in
  let f := dict_set f "type_dff_po" (d_of_bool (type_eqb (ns_type gold) DFF_PO)) in
  dict_set f "type_subckt_pipo" (d_of_bool (type_eqb (ns_type gold) SUBCKT_PIPO)).

(** [None]: a tree of the model does not end. *)
Definition predict_match_score {B} (model : GuideMatchModel) (gold gate : NamedSig B) : option double :=
  if negb (mm_loaded model) then Some (d_of_Z (score_match_candidate gold gate))
  else add_trees (mm_trees model) (feature_vector (mm_feature_names model) (match_candidate_features gold gate))
         (mm_base_score model).

(** ** Files *)

Definition match_suggestions_path (match_jsonl : string) : string :=
  match before_last SLASH match_jsonl with
  | None => "match_suggestions.json"
  | Some dir => dir +:+ "/" +:+ "match_suggestions.json"
  end.

(** The configuration of the matching: the fields of [CheckConfig] it adds, the
    contents of the guidance file and of the accepted suggestions (each [None]
    when there is no such file or, for the former, when it cannot be opened). *)
Record MatchConf := mkMatchConf {
  mc_conf : CheckConfig; accept_sugs_file : string; external_file : option string;
  accepted_sugs : option (list Json); match_model : option GuideMatchModel
}.

Definition match_artifact_dir (c : MatchConf) : string :=
  let dump := dump_cfg (mc_conf c) in
  if dump_match dump && negb (String.eqb (match_jsonl dump) "") then path_dirname (match_jsonl dump)
  else if negb (String.eqb (accept_sugs_file c) "") then path_dirname (accept_sugs_file c)
  else tempdir_name (mc_conf c).

(** ** Suggestions

    The members of the record of a suggestion that the margin gate skips. *)
Definition skip_members : list (string * Json) := [
  ("skip_reason", JString "margin_gate"); ("validator_backend", JString "");
  ("runtime_ms", JDouble (d_of_Z 0)); ("accepted", JBool false);
  ("boundary_map_expected", JInt 0); ("boundary_map_applied", JInt 0);
  ("constant_completed_net_count", JInt 0); ("module_interface_input_count", JInt 0);
  ("state_cut_input_count", JInt 0); ("child_boundary_input_count", JInt 0);
  ("passthrough_alias_input_count", JInt 0); ("slice_or_concat_residual_count", JInt 0);
  ("traceable_residual_input_count", JInt 0); ("promoted_from_trace_count", JInt 0);
  ("constant_completed_promotable_count", JInt 0); ("promoted_from_constant_completion_count", JInt 0);
  ("promoted_internal_boundary_count", JInt 0); ("unresolved_internal_input_count", JInt 0);
  ("unresolved_untraceable_input_count", JInt 0); ("constant_completed_traceable_remaining_count", JInt 0);
  ("constant_completed_traceable_count", JInt 0); ("constant_completed_untraceable_count", JInt 0);
  ("preblif_residual_count", JInt 0); ("preblif_traceable_residual_count", JInt 0);
  ("preblif_promotable_residual_count", JInt 0); ("preblif_untraceable_residual_count", JInt 0);
  ("promoted_from_preblif_residual_count", JInt 0); ("blif_residual_count", JInt 0);
  ("blif_residual_traceable_count", JInt 0); ("blif_residual_promotable_count", JInt 0);
  ("blif_residual_opaque_cell_output_count", JInt 0); ("blif_residual_library_resolved_count", JInt 0);
  ("blif_residual_untraceable_count", JInt 0); ("promoted_from_blif_residual_count", JInt 0);
  ("shell_refinement_iterations", JInt 0); ("promoted_internal_boundary_samples", JArray []);
  ("promoted_from_constant_completion_samples", JArray []); ("unresolved_internal_input_samples", JArray []);
  ("constant_completed_remaining_samples", JArray []); ("constant_completed_samples", JArray []);
  ("preblif_residual_samples", JArray []); ("preblif_promoted_samples", JArray []);
  ("preblif_remaining_samples", JArray []); ("blif_residual_samples", JArray []);
  ("blif_promoted_samples", JArray []); ("blif_remaining_samples", JArray []);
  ("unresolved_internal_boundaries", JInt 0); ("child_boundary_count", JInt 0);
  ("unresolved_child_boundaries", JInt 0)].

(** [candidates] of a gold signal: the score of a gate signal and its name. *)
Definition candidate_lt (lhs rhs : double * string) : bool :=
  if negb (d_eq (fst lhs) (fst rhs)) then d_lt (fst rhs) (fst lhs) else String.ltb (snd lhs) (snd rhs).

(** [conf.telemetry->pair_applied_sugs[pair_id] = n],
    [conf.telemetry->match_suggestions.push_back(suggestion)] *)
Definition set_applied_sugs (t : GuideTelemetry) (pair_id : string) (n : Z) : GuideTelemetry :=
  mkGuideTelemetry (pair_match_stats t) (pair_records t) (dict_set (pair_applied_sugs t) pair_id n)
    (retimed_mods t) (multiplier_mods t) (divider_mods t) (match_suggestions t).
Definition push_suggestion (t : GuideTelemetry) (suggestion : Json) : GuideTelemetry :=
  mkGuideTelemetry (pair_match_stats t) (pair_records t) (pair_applied_sugs t)
    (retimed_mods t) (multiplier_mods t) (divider_mods t) (match_suggestions t ++ [suggestion]).

Definition d_sub : double -> double -> double := SFsub 53 1024.

(** [MatchResult] *)
Record MatchResult (B : Type) := mkMatchResult { mr_cut_points : list (CutPoint B); mr_stats : MatchStats }.
Arguments mkMatchResult {B}.
Arguments mr_cut_points {B}.
Arguments mr_stats {B}.

Section Matching.
Context {B : Type} `{EqDecision B} (log_signal : B -> string).

Definition write_match_line (name : string) (gsig ksig : B) (t : MatchType) : string :=
  "Matched signal " +:+ name +:+ ": gold " +:+ log_signal gsig +:+ " gate " +:+ log_signal ksig +:+
  ", Type " +:+ get_match_type_str t.

(** The signals of the two sides and the flip-flops of their bits. *)
Context (gold gate : dict string (NamedSig B)) (gold_ff gate_ff : dict B string).

(** The state of the matching: the result, the names matched so far and the
    lines of the three files (match, exact, validated), which reach the files
    when these are open. *)
Record MatchState := mkMatchState {
  cut_points : list (CutPoint B); m_stats : MatchStats;
  matched_gold : pool string; matched_gate : pool string;
  f_lines : list string; f_exact_lines : list string; f_validated_lines : list string
}.

(** The cutpoint of two entries, with the flip-flops their bits come from. *)
Definition entry_cutpoint (name : string) (g k : NamedSig B) (t : MatchType) (ff : bool) : CutPoint B :=
  mkCutPoint name (sig g) (sig k) t
    (if ff then dict_find gold_ff (sig g) else None) (if ff then dict_find gate_ff (sig k) else None)
    (wire_name g) (bit_index g) (wire_name k) (bit_index k).

(** Record a match: the names, the counters and the cutpoint. *)
Definition add_match (st : MatchState) (gname kname : string) (cp : CutPoint B) (count_type : bool)
    (lines exact validated : list string) : MatchState :=
  let stats := count_exact (m_stats st) in
  mkMatchState (cut_points st ++ [cp]) (if count_type then update_match_stats stats (cp_type cp) else stats)
    (dict_insert (matched_gold st) gname tt) (dict_insert (matched_gate st) kname tt)
    (f_lines st ++ lines) (f_exact_lines st ++ exact) (f_validated_lines st ++ validated).

Definition recount (st : MatchState) : MatchState :=
  mkMatchState (cut_points st)
    (set_unmatched (m_stats st) (Z.of_nat (length gold) - Z.of_nat (length (matched_gold st)))
       (Z.of_nat (length gate) - Z.of_nat (length (matched_gate st))))
    (matched_gold st) (matched_gate st) (f_lines st) (f_exact_lines st) (f_validated_lines st).

(** *** By name *)

Definition exact_step (st : MatchState) (it : string * NamedSig B) : MatchState :=
  match dict_find gate (fst it) with
  | None => st
  | Some kentry =>
      let gentry := snd it in
      let t := ns_type gentry in
      let line := if type_eqb t NONE then [] else [write_match_line (fst it) (sig gentry) (sig kentry) t] in
      add_match st (fst it) (fst it) (entry_cutpoint (fst it) gentry kentry t true) true line line line
  end.

Definition match_exact (st : MatchState) : MatchState := recount (fold_left exact_step (dict_iter gold) st).

(** *** By the guidance file *)

Definition type_of_string (tstr : string) (t : MatchType) : MatchType :=
  if String.eqb tstr "PI" then PI
  else if String.eqb tstr "PO" then PO
  else if String.eqb tstr "DFF" then DFF
  else if String.eqb tstr "DFF_PO" then DFF_PO
  else if String.eqb tstr "SUBCKT_PIPO" then SUBCKT_PIPO
  else t.

(** The first unmatched signals of the two names. *)
Definition unmatched_named (m : pool string) (n : string) (it : string * NamedSig B) : bool :=
  String.eqb (strip_backslash (fst it)) n && negb (dict_count m (fst it)).

Definition try_pair (tstr : string) (st : MatchState) (gn kn : string) : MatchState :=
  match find (unmatched_named (matched_gold st) gn) (dict_iter gold),
        find (unmatched_named (matched_gate st) kn) (dict_iter gate) with
  | Some ge, Some ke =>
      let t := type_of_string tstr (ns_type (snd ge)) in
      let line := [write_match_line (fst ge) (sig (snd ge)) (sig (snd ke)) t] in
      add_match st (fst ge) (fst ke) (entry_cutpoint (fst ge) (snd ge) (snd ke) t false) false line line []
  | _, _ => st
  end.

(** The part of a name before its last bracket. *)
Definition base_name (n : string) : string := default n (before_last "[" n).

Definition indexed (n : string) (i : nat) : string := n +:+ "[" +:+ pretty (Z.of_nat i) +:+ "]".

(** A line with two names: the names as they are, then the bits 0 to 2047. *)
Definition external_pair (tstr gname kname : string) (st : MatchState) : MatchState :=
  fold_left (fun st i => try_pair tstr st (indexed (base_name gname) i) (indexed (base_name kname) i))
    (seq 0 2048) (try_pair tstr st gname kname).

(** A section header [[gold:gate]]. *)
Definition section_name (line : list ascii) : option string :=
  match line, last line with
  | c :: rest, Some e =>
      if Ascii.eqb c "[" && Ascii.eqb e "]"
      then Some (String.string_of_list_ascii (take (length rest - 1) rest)) else None
  | _, _ => None
  end.

(** One line of the file; the state holds the active section. *)
Definition external_signal_line (pid : string) (acc : MatchState * string) (buf : list ascii) : MatchState * string :=
  let '(st, active_section) := acc in
  let line := chomp (c_string buf) in
  if match line with [] => true | c :: _ => Ascii.eqb c "#" end then acc
  else match section_name line with
  | Some s => (st, s)
  | None =>
      match tokens line [] with
      | gname :: kname :: rest =>
          if negb (String.eqb active_section "") && negb (String.eqb active_section pid) then acc
          else (external_pair (match rest with t :: _ => String.string_of_list_ascii t | [] => "" end)
                  (String.string_of_list_ascii gname) (String.string_of_list_ascii kname) st, active_section)
      | _ => acc
      end
  end.

Definition match_external (file : option string) (gold_mod gate_mod : string) (st : MatchState) : MatchState :=
  match file with
  | None => st
  | Some content =>
      recount (fst (fold_left (external_signal_line (strip_backslash gold_mod +:+ ":" +:+ strip_backslash gate_mod))
                      (fgets_lines 4096 content) (st, "")))
  end.

(** *** Accepted suggestions *)

Context {W : Type} (H : Host W) (c : MatchConf) (gold_mod gate_mod : string).

(** [validate_partition_pair] of the cutpoints selected for a candidate: the
    verdict and the members it adds to the record. *)
Context (validate : list (CutPoint B) -> CutPoint B -> M W (bool * list (string * Json))).

Definition pair_id_m : string := get_pair_id gold_mod gate_mod.
Definition vali_jsonl : string :=
  pair_artifact_path (match_artifact_dir c) "local_validate" gold_mod gate_mod ".jsonl".
Definition sugs_jsonl : string :=
  pair_artifact_path (match_artifact_dir c) "match_suggestions" gold_mod gate_mod ".jsonl".

(** The members every record of a suggestion starts with. *)
Definition validation_record (gold_name type : string) (item : Json) (result : string) (rest : list (string * Json)) : Json :=
  JObject ([("design", JString (strip_backslash (d_name (FailExec.gold_mod (mc_conf c)))));
            ("gold_mod", JString (strip_backslash gold_mod)); ("gate_mod", JString (strip_backslash gate_mod));
            ("pair_id", JString pair_id_m); ("signal_name", JString (strip_backslash gold_name));
            ("match_type", JString type); ("source", JString "ml_raw");
            ("score", JDouble (number_value (json_at item "score")));
            ("margin", JDouble (number_value (json_at item "score_margin")));
            ("validator_result", JString result)] ++ rest).

(** The counters of the phase: applied, validated and rejected suggestions. *)
Record SugCounts := mkSugCounts { applied : Z; validated_dff : Z; rejected_dff : Z }.

Definition is_dff_type (t : MatchType) : bool := match t with DFF | DFF_PO => true | _ => false end.

(** The suggestion is applied. *)
Definition apply_suggestion (st : MatchState) (gold_name gate_name : string) (cp : CutPoint B) : MatchState :=
  let line := [write_match_line gold_name (gold_sig cp) (gate_sig cp) (cp_type cp)] in
  add_match st gold_name gate_name cp true line [] line.

Definition suggestion_step (acc : MatchState * SugCounts) (item : Json) : M W (MatchState * SugCounts) :=
  let '(st, n) := acc in
  if negb (is_object item) then ret acc
  else if negb (String.eqb (string_value (json_at item "pair_id")) pair_id_m) then ret acc
  else if negb (String.eqb (string_value (json_at item "snapshot")) "pre_async") then ret acc
  else
    let gold_name := escape_id (string_value (json_at item "gold_name")) in
    let gate_name := escape_id (string_value (json_at item "suggested_gate_name")) in
    if d_le (number_value (json_at item "score_margin")) (d_of_Z 0) then
      do! append_jsonl H vali_jsonl
            (validation_record gold_name (string_value (json_at item "type")) item "skip" skip_members) then ret acc
    else
      match dict_find gold gold_name, dict_find gate gate_name with
      | Some gentry, Some kentry =>
          if dict_count (matched_gold st) gold_name || dict_count (matched_gate st) gate_name then ret acc
          else if negb (type_eqb (ns_type gentry) (ns_type kentry)) then ret acc
          else if type_eqb (ns_type gentry) NONE then ret acc
          else
            let cp := entry_cutpoint gold_name gentry kentry (ns_type gentry) true in
            if is_dff_type (ns_type gentry) then
              let! vali := validate (cut_points st) cp in
              do! append_jsonl H vali_jsonl
                    (validation_record gold_name (get_match_type_str (ns_type gentry)) item
                       (if fst vali then "pass" else "fail") (snd vali)) then
              ret (if fst vali
                   then (apply_suggestion st gold_name gate_name cp,
                         mkSugCounts (applied n + 1) (validated_dff n + 1) (rejected_dff n))
                   else (st, mkSugCounts (applied n) (validated_dff n) (rejected_dff n + 1)))
            else ret (apply_suggestion st gold_name gate_name cp,
                      mkSugCounts (applied n + 1) (validated_dff n) (rejected_dff n))
      | _, _ => ret acc
      end.

(** A loop of effects. *)
Fixpoint for_each_m {A S} (f : S -> A -> M W S) (s : S) (l : list A) : M W S :=
  match l with [] => ret s | x :: l => let! s' := f s x in for_each_m f s' l end.

(** [if (conf.telemetry != nullptr)]: an update of the telemetry. *)
Definition update_telemetry (f : GuideTelemetry -> GuideTelemetry) : M W unit :=
  let! s := get in match telemetry s with None => ret tt | Some t => set_telemetry (Some (f t)) end.

(** The matches and the number of suggestions applied.  [None] in
    [accepted_sugs] is an error of [load_match_suggestions_file]. *)
Definition match_suggested (emit_match_file : bool) (st : MatchState) : M W (MatchState * Z) :=
  if negb emit_match_file || String.eqb (accept_sugs_file c) "" then ret (st, 0)
  else
    match accepted_sugs c with
    | None => log_error
    | Some items =>
        let! r := for_each_m suggestion_step (st, mkSugCounts 0 0 0) items in
        do! update_telemetry (fun t => if 0 <? applied (snd r) then set_applied_sugs t pair_id_m (applied (snd r)) else t) then
        ret (recount (fst r), applied (snd r))
    end.

(** *** The samples for training and the suggestions *)

(** [conf.match_model->loaded ? predict : score]; [None] does not end. *)
Definition candidate_score (g k : NamedSig B) : option double :=
  match match_model c with
  | Some m => if mm_loaded m then predict_match_score m g k else Some (d_of_Z (score_match_candidate g k))
  | None => Some (d_of_Z (score_match_candidate g k))
  end.

(** The members of a sample that name the pair and the two signals. *)
Definition sample_record (snapshot gold_name gate_name : string) (t : MatchType) (gw kw : string) (gi ki : Z)
    (score : Json) (label : Z) : Json :=
  JObject [("pair_id", JString pair_id_m); ("snapshot", JString snapshot);
           ("gold_mod", JString (strip_backslash gold_mod)); ("gate_mod", JString (strip_backslash gate_mod));
           ("gold_name", JString (strip_backslash gold_name)); ("gate_name", JString (strip_backslash gate_name));
           ("type", JString (get_match_type_str t)); ("gold_wire_name", JString (strip_backslash gw));
           ("gate_wire_name", JString (strip_backslash kw)); ("gold_bit_index", JInt gi);
           ("gate_bit_index", JInt ki); ("score", score); ("label", JInt label)].

(** A gate signal as a candidate of a gold one. *)
Definition candidate_step (jsonl snapshot : string) (st : MatchState) (g : string * NamedSig B)
    (cands : list (double * string)) (k : string * NamedSig B) : M W (list (double * string)) :=
  if dict_count (matched_gate st) (fst k) || type_eqb (ns_type (snd k)) NONE ||
     negb (type_eqb (ns_type (snd g)) (ns_type (snd k))) || negb (bit_index (snd g) =? bit_index (snd k))
  then ret cands
  else
    match candidate_score (snd g) (snd k) with
    | None => log_error
    | Some score =>
        do! append_jsonl H jsonl
              (sample_record snapshot (fst g) (fst k) (ns_type (snd g)) (wire_name (snd g)) (wire_name (snd k))
                 (bit_index (snd g)) (bit_index (snd k)) (JDouble score) 0) then
        ret (cands ++ [(score, fst k)])
    end.

(** The suggestion for a gold signal from its sorted candidates; [None] for no
    suggestion. *)
Definition suggestion_of (snapshot : string) (g : string * NamedSig B) (sorted : list (double * string)) : option Json :=
  match sorted with
  | (top, top_name) :: rest =>
      if d_lt (d_of_Z 0) top then
        e ← dict_find gate top_name;
        let margin := match rest with (second, _) :: _ => d_sub top second | [] => top end in
        Some (JObject [
          ("pair_id", JString pair_id_m); ("snapshot", JString snapshot);
          ("gold_mod", JString (strip_backslash gold_mod)); ("gate_mod", JString (strip_backslash gate_mod));
          ("gold_name", JString (strip_backslash (fst g))); ("gold_wire_name", JString (strip_backslash (wire_name (snd g))));
          ("gold_bit_index", JInt (bit_index (snd g))); ("type", JString (get_match_type_str (ns_type (snd g))));
          ("suggested_gate_name", JString (strip_backslash top_name));
          ("suggested_gate_wire_name", JString (strip_backslash (wire_name e)));
          ("suggested_gate_bit_index", JInt (bit_index e)); ("score", JDouble top); ("score_margin", JInt (d_trunc margin))])
      else None
  | [] => None
  end.

(** One gold signal: a sample for a match ([gate.at] throws when the name is not
    one of the gate side), else its candidates and the suggestion. *)
Definition dump_step (jsonl snapshot : string) (st : MatchState) (sugs : list Json) (g : string * NamedSig B)
    : M W (list Json) :=
  if type_eqb (ns_type (snd g)) NONE then ret sugs
  else if dict_count (matched_gold st) (fst g) then
    match dict_find gate (fst g) with
    | None => log_error
    | Some k =>
        do! append_jsonl H jsonl
              (sample_record snapshot (fst g) (fst g) (ns_type (snd g)) (wire_name (snd g)) (wire_name k)
                 (bit_index (snd g)) (bit_index k) (JInt 1000) 1) then ret sugs
    end
  else
    let! cands := for_each_m (candidate_step jsonl snapshot st g) [] (dict_iter gate) in
    match suggestion_of snapshot g (std_sort candidate_lt cands) with
    | None => ret sugs
    | Some suggestion =>
        do! append_jsonl H sugs_jsonl suggestion then
        do! update_telemetry (fun t => if String.eqb snapshot "pre_async" then push_suggestion t suggestion else t) then
        ret (sugs ++ [suggestion])
    end.

Definition write_match_suggestions (path : string) (suggestions : list Json) : M W unit :=
  let! ok := on_world (fun w => h_write_json H w path (JArray suggestions)) in
  if ok then ret tt else log_error.

Definition dump_samples (snapshot : string) (st : MatchState) : M W unit :=
  if negb (dump_match (dump_cfg (mc_conf c))) then ret tt
  else
    let! suggestions := for_each_m (dump_step (match_jsonl (dump_cfg (mc_conf c))) snapshot st) [] (dict_iter gold) in
    match suggestions with
    | [] => ret tt
    | _ => write_match_suggestions
             (tempdir_name (mc_conf c) +:+ "/match_suggestions_" +:+ snapshot +:+ "_" +:+
              sanitize_filename pair_id_m +:+ ".json") suggestions
    end.

(** ** [match_signals_module] *)

Definition match_file_of : string :=
  tempdir_name (mc_conf c) +:+ "/match_" +:+ unescape_id gold_mod +:+ "_" +:+ unescape_id gate_mod +:+ ".txt".
Definition exact_file : string :=
  pair_artifact_path (match_artifact_dir c) "match_exact" gold_mod gate_mod ".txt".
Definition vali_file : string :=
  pair_artifact_path (match_artifact_dir c) "match_validated" gold_mod gate_mod ".txt".

Definition initial_state : MatchState :=
  mkMatchState [] (mkMatchStats 0 0 0 0 0 0 0 0 match_file_of) [] [] [] [] [].

(** A text file: [fopen] (false: null, the lines go nowhere) and [fclose]. *)
Definition open_file (emit : bool) (path : string) : M W bool :=
  if emit then on_world (fun w => h_open_write H w path) else ret false.
Definition close_file (f : bool) (path : string) (lines : list string) : M W unit :=
  if f then on_world (fun w => (h_put_lines H w path lines, tt)) else ret tt.

Definition match_signals_module (emit_match_file : bool) (snapshot : string) : M W (MatchResult B) :=
  let! f := open_file emit_match_file match_file_of in
  let! f_exact := open_file emit_match_file exact_file in
  let! f_validated := open_file emit_match_file vali_file in
  let st := match_exact initial_state in
  let st := match_external (external_file c) gold_mod gate_mod st in
  let! r := match_suggested emit_match_file st in
  let st := fst r in
  do! close_file f match_file_of (f_lines st) then
  do! close_file f_exact exact_file (f_exact_lines st) then
  do! close_file f_validated vali_file (f_validated_lines st) then
  do! dump_samples snapshot st then
  ret (mkMatchResult (cut_points st) (m_stats st)).
End Matching.

(** ** [match_signals]

    The named signals of a module of the design and the flip-flops of its bits;
    [None] for a name without a module. *)
Section Signals.
Context {B : Type} `{EqDecision B} (log_signal : B -> string).
Context (named_sigs : string -> option (dict string (NamedSig B) * dict B string)).
Context {W : Type} (H : Host W) (c : MatchConf).
Context (validate : string -> string -> list (CutPoint B) -> CutPoint B -> M W (bool * list (string * Json))).

Definition set_pair_stats (t : GuideTelemetry) (pair_id : string) (stats : MatchStats) : GuideTelemetry :=
  mkGuideTelemetry (<[pair_id := stats]> (pair_match_stats t)) (pair_records t) (pair_applied_sugs t)
    (retimed_mods t) (multiplier_mods t) (divider_mods t) (match_suggestions t).

Definition match_pair_step (emit_match_file : bool) (snapshot : string)
    (acc : dict string (list (CutPoint B))) (pair : string * string) : M W (dict string (list (CutPoint B))) :=
  let '(gold, gate) := pair in
  match named_sigs gold, named_sigs gate with
  | Some (gold_sigs, gold_ff), Some (gate_sigs, gate_ff) =>
      let! result := match_signals_module log_signal gold_sigs gate_sigs gold_ff gate_ff H c gold gate
                       (validate gold gate) emit_match_file snapshot in
      do! (if emit_match_file
           then update_telemetry (fun t => set_pair_stats t (get_pair_id gold gate) (mr_stats result))
           else ret tt) then
      ret (dict_set acc gold (mr_cut_points result))
  | _, _ => log_error
  end.

Definition match_signals (mod_map : ModMap) (emit_match_file : bool) (snapshot : string)
    : M W (dict string (list (CutPoint B))) :=
  for_each_m (match_pair_step emit_match_file snapshot) [] (dict_iter (mod_map_gold mod_map)).
End Signals.
