(* ===== verification/MatchSpec.v ===== *)
(** * Properties of the signal matching ([Match.v]) *)

From S2P Require Import Prelude GuideNames Dict Shared ModMap Sched Effects FailExec AbcPlan Match.

Local Open Scope string_scope.
Local Open Scope list_scope.
Local Open Scope Z_scope.
Local Open Scope guide_scope.

Section MatchSpec.
Context {B : Type} `{EqDecision B} (log_signal : B -> string).
Context (gold gate : dict string (NamedSig B)) (gold_ff gate_ff : dict B string).
Context (gold_wf : dict_wf gold) (gate_wf : dict_wf gate).

(** A cutpoint joins the gold signal [p.1] and the gate signal [p.2]. *)
Definition joins (p : string * string) (cp : CutPoint B) : Prop :=
  exists g k, dict_find gold p.1 = Some g /\ dict_find gate p.2 = Some k /\
    cp_name cp = p.1 /\ gold_sig cp = sig g /\ gate_sig cp = sig k /\
    gold_wire_name cp = wire_name g /\ gold_bit_index cp = bit_index g /\
    gate_wire_name cp = wire_name k /\ gate_bit_index cp = bit_index k.

(** The matching so far: [l] lists the pairs of names. *)
Definition match_ok (l : list (string * string)) (st : MatchState (B:=B)) : Prop :=
  keys (matched_gold st) = l.*1 /\ keys (matched_gate st) = l.*2 /\ NoDup l.*1 /\ NoDup l.*2 /\
  Forall2 joins l (cut_points st) /\ exact_total (m_stats st) = Z.of_nat (length l).

(** The counters of the unmatched signals are up to date. *)
Definition counted (l : list (string * string)) (st : MatchState (B:=B)) : Prop :=
  unmatched_gold (m_stats st) = Z.of_nat (length gold) - Z.of_nat (length l) /\
  unmatched_gate (m_stats st) = Z.of_nat (length gate) - Z.of_nat (length l).

Lemma keys_length {K V} (d : dict K V) : length (keys d) = length d.
Proof. unfold keys. apply length_fmap. Qed.

Lemma recount_ok l st : match_ok l st -> match_ok l (recount gold gate st) /\ counted l (recount gold gate st).
Proof.
  intros (Hg & Hk & Hn & Hn' & HF & Ht). unfold match_ok, counted, recount, set_unmatched.
  assert (Hlg : length (matched_gold st) = length l) by (by rewrite <- keys_length, Hg, length_fmap).
  assert (Hlk : length (matched_gate st) = length l) by (by rewrite <- keys_length, Hk, length_fmap).
  destruct (m_stats st). cbn in *. rewrite Hlg, Hlk. by split_and!.
Qed.

Lemma update_stats_total s t : exact_total (update_match_stats s t) = exact_total s.
Proof. by destruct s, t. Qed.

Lemma count_exact_total s : exact_total (count_exact s) = exact_total s + 1.
Proof. by destruct s. Qed.

(** The names a container lists grow by a new key. *)
Lemma keys_insert_new (d : pool string) k : k ∉ keys d -> keys (dict_insert d k tt) = keys d ++ [k].
Proof. intros Hk. rewrite keys_insert. by apply dict_index_None in Hk as ->. Qed.

Lemma add_match_ok l st gname kname g k t ff ct x y z :
  match_ok l st -> gname ∉ l.*1 -> kname ∉ l.*2 ->
  dict_find gold gname = Some g -> dict_find gate kname = Some k ->
  match_ok (l ++ [(gname, kname)])
    (add_match st gname kname (entry_cutpoint gold_ff gate_ff gname g k t ff) ct x y z).
Proof.
  intros (Hg & Hk & Hn & Hn' & HF & Ht) Hng Hnk Eg Ek.
  unfold match_ok, add_match. cbn [matched_gold matched_gate cut_points m_stats].
  rewrite !fmap_app. cbn. split_and!.
  - rewrite keys_insert_new by (by rewrite Hg). by rewrite Hg.
  - rewrite keys_insert_new by (by rewrite Hk). by rewrite Hk.
  - by apply wf_snoc.
  - by apply wf_snoc.
  - apply Forall2_app; [done|]. constructor; [|constructor]. exists g, k. by split_and!.
  - rewrite length_app. cbn. destruct ct; rewrite ?update_stats_total, count_exact_total; lia.
Qed.

(** ** By name *)

Lemma exact_loop its : forall l st,
  NoDup its.*1 ->
  (forall it, it ∈ its -> dict_find gold it.1 = Some it.2 /\ (it.1 ∉ l.*1) /\ (it.1 ∉ l.*2)) ->
  match_ok l st ->
  match_ok (l ++ ((fun it => (it.1, it.1)) <$> (List.filter (fun it => dict_count gate it.1) its)))
    (fold_left (exact_step log_signal gate gold_ff gate_ff) its st).
Proof.
  induction its as [|it its IH]; intros l st Hnd Hits Hok; [by rewrite app_nil_r|].
  rewrite fmap_cons in Hnd. apply NoDup_cons in Hnd as [Hit Hnd]. cbn [fold_left List.filter].
  destruct (Hits it) as (Eg & Hng & Hnk); [by left|].
  unfold exact_step at 2. destruct (dict_find gate it.1) as [k|] eqn:Ek.
  - assert (Hc : dict_count gate it.1 = true).
    { apply not_false_iff_true. intros Hf. apply dict_count_false, dict_find_None in Hf. congruence. }
    rewrite Hc. cbn [fmap list_fmap]. rewrite cons_middle, app_assoc. apply IH; [done| |].
    + intros it' Hin. destruct (Hits it') as (Eg' & Hng' & Hnk'); [by right|]. split; [done|].
      rewrite !fmap_app, !not_elem_of_app. cbn. rewrite !list_elem_of_singleton.
      assert (it'.1 <> it.1) by (intros He; apply Hit; rewrite <- He; by apply list_elem_of_fmap_2). done.
    + destruct it as [n g]. cbn [fst snd] in *. by apply add_match_ok.
  - assert (Hc : dict_count gate it.1 = false) by (by apply dict_count_false, dict_find_None).
    rewrite Hc. apply IH; [done| |done]. intros it' Hin. apply Hits. by right.
Qed.

Definition shared_pairs : list (string * string) :=
  (fun it => (it.1, it.1)) <$> (List.filter (fun it => dict_count gate it.1) (dict_iter gold)).

Lemma shared_pairs_spec n : n ∈ keys gold -> n ∈ keys gate -> (n, n) ∈ shared_pairs.
Proof.
  intros Hg Hk. apply list_elem_of_fmap in Hg as ([n' g] & -> & Hin). apply list_elem_of_fmap.
  exists (n', g). split; [done|]. apply list_elem_of_In, filter_In. split.
  - apply list_elem_of_In. unfold dict_iter. by apply elem_of_reverse.
  - by apply dict_count_spec.
Qed.

Lemma match_exact_ok st :
  match_ok [] st ->
  match_ok shared_pairs (match_exact log_signal gold gate gold_ff gate_ff st) /\
  counted shared_pairs (match_exact log_signal gold gate gold_ff gate_ff st).
Proof.
  intros Hok. apply recount_ok. apply (exact_loop _ []); [by apply dict_iter_NoDup| |done].
  intros [n g] Hin. split_and!; [|apply not_elem_of_nil..].
  apply dict_find_elem; [done|]. unfold dict_iter in Hin. by apply elem_of_reverse.
Qed.

(** ** By the guidance file *)

(** The matching extends the pairs [l]. *)
Definition from (l : list (string * string)) (st : MatchState (B:=B)) : Prop := exists l', match_ok (l ++ l') st.

Lemma fold_left_inv {S A} (P : S -> Prop) (f : S -> A -> S) l :
  (forall s x, P s -> P (f s x)) -> forall s, P s -> P (fold_left f l s).
Proof. intros Hf. induction l as [|x l IH]; intros s Hs; [done|]. cbn. by apply IH, Hf. Qed.

(** A name that is not matched can be added. *)
Lemma add_match_from l st gname kname g k t ff ct x y z :
  from l st -> dict_count (matched_gold st) gname = false -> dict_count (matched_gate st) kname = false ->
  dict_find gold gname = Some g -> dict_find gate kname = Some k ->
  from l (add_match st gname kname (entry_cutpoint gold_ff gate_ff gname g k t ff) ct x y z).
Proof.
  intros [l' Hok] Hg Hk Eg Ek. exists (l' ++ [(gname, kname)]). rewrite app_assoc.
  pose proof Hok as (Kg & Kk & _). apply dict_count_false in Hg, Hk. rewrite Kg in Hg. rewrite Kk in Hk.
  by apply add_match_ok.
Qed.

Lemma find_unmatched (d : dict string (NamedSig B)) m n it :
  dict_wf d -> find (unmatched_named m n) (dict_iter d) = Some it ->
  dict_find d it.1 = Some it.2 /\ dict_count m it.1 = false.
Proof.
  intros Hwf [Hin Hp]%find_some. unfold unmatched_named in Hp. apply andb_prop in Hp as [_ Hc].
  apply negb_true_iff in Hc. split; [|done]. apply dict_find_elem; [done|].
  rewrite <- list_elem_of_In in Hin. unfold dict_iter in Hin. rewrite elem_of_reverse in Hin. by destruct it.
Qed.

Lemma try_pair_from tstr l st gn kn : from l st -> from l (try_pair log_signal gold gate gold_ff gate_ff tstr st gn kn).
Proof.
  intros Hst. unfold try_pair.
  destruct (find _ (dict_iter gold)) as [ge|] eqn:Eg; [|done].
  destruct (find _ (dict_iter gate)) as [ke|] eqn:Ek; [|done].
  apply find_unmatched in Eg as [Eg Cg], Ek as [Ek Ck]; [|done..]. by apply add_match_from.
Qed.

(** The counters are up to date as well. *)
Definition settled (l : list (string * string)) (st : MatchState (B:=B)) : Prop :=
  exists l', match_ok (l ++ l') st /\ counted (l ++ l') st.

Lemma settled_from l st : settled l st -> from l st.
Proof. intros (l' & Hok & _). by exists l'. Qed.

Lemma recount_settled l st : from l st -> settled l (recount gold gate st).
Proof. intros [l' Hok]. exists l'. by apply recount_ok. Qed.

Lemma external_pair_from tstr gn kn l st :
  from l st -> from l (external_pair log_signal gold gate gold_ff gate_ff tstr gn kn st).
Proof.
  intros Hst. unfold external_pair. apply fold_left_inv; [intros|]; by apply try_pair_from.
Qed.

Lemma external_line_from pid l acc buf :
  from l acc.1 -> from l (external_signal_line log_signal gold gate gold_ff gate_ff pid acc buf).1.
Proof.
  destruct acc as [st sec]. cbn [fst]. intros Hst. unfold external_signal_line.
  destruct (match chomp (c_string buf) with [] => true | _ => _ end); [exact Hst|].
  destruct (section_name _); [exact Hst|].
  destruct (tokens _ _) as [|gname [|kname rest]]; [exact Hst..|].
  destruct (negb _ && negb _); [exact Hst|]. cbn [fst]. by apply external_pair_from.
Qed.

Lemma match_external_settled file gm km l st :
  settled l st -> settled l (match_external log_signal gold gate gold_ff gate_ff file gm km st).
Proof.
  intros Hst. destruct file as [content|]; [|done]. apply recount_settled.
  apply (fold_left_inv (fun acc => from l acc.1)); [|by apply settled_from].
  intros. by apply external_line_from.
Qed.

(** ** Accepted suggestions *)

Context {W : Type} (H : Host W) (c : MatchConf) (gold_mod gate_mod : string).
Context (validate : list (CutPoint B) -> CutPoint B -> M W (bool * list (string * Json))).

Lemma for_each_m_inv {A S} (P : S -> Prop) (f : S -> A -> M W S) l :
  (forall st x s s' r, x ∈ l -> P st -> f st x s = (s', Some r) -> P r) ->
  forall st s s' r, P st -> for_each_m f st l s = (s', Some r) -> P r.
Proof.
  induction l as [|x l IH]; intros Hf st s s' r Hst E; cbn in E; [by injection E as _ <-|].
  apply bind_inv in E as (s1 & st1 & E1 & E2). apply (IH) in E2; [done| |].
  - intros. eapply Hf; [by right|done..].
  - eapply Hf; [by left|done..].
Qed.

(** The gates a suggestion of [items] passes when it becomes the cutpoint [cp]
    of the names [p] after the cutpoints [cps]: it names the pair and the snapshot,
    has a positive margin, names the two signals, which are of one type, and local
    validation proved it when the type is that of a flip-flop. *)
Definition gated (items : list Json) (cps : list (CutPoint B)) (p : string * string) (cp : CutPoint B) : Prop :=
  exists item g k, item ∈ items /\
    string_value (json_at item "pair_id") = pair_id_m gold_mod gate_mod /\
    string_value (json_at item "snapshot") = "pre_async" /\
    d_le (number_value (json_at item "score_margin")) (d_of_Z 0) = false /\
    p.1 = escape_id (string_value (json_at item "gold_name")) /\
    p.2 = escape_id (string_value (json_at item "suggested_gate_name")) /\
    dict_find gold p.1 = Some g /\ dict_find gate p.2 = Some k /\
    cp = entry_cutpoint gold_ff gate_ff p.1 g k (ns_type g) true /\
    ns_type g = ns_type k /\ ns_type g <> NONE /\
    (is_dff_type (ns_type g) = true -> exists s s' members, validate cps cp s = (s', Some (true, members))).

Definition step_m := suggestion_step log_signal gold gate gold_ff gate_ff H c gold_mod gate_mod validate.

Lemma type_eqb_spec a b : type_eqb a b = true <-> a = b.
Proof. apply bool_decide_eq_true. Qed.

(** What a step does: nothing to the matching, or a gated match of two signals
    that are not matched. *)
Definition step_effect (items : list Json) (st : MatchState (B:=B)) (n : SugCounts)
    (st' : MatchState (B:=B)) (n' : SugCounts) : Prop :=
  (st' = st /\ applied n' = applied n) \/
  exists gn kn g k x y z, dict_find gold gn = Some g /\ dict_find gate kn = Some k /\
    dict_count (matched_gold st) gn = false /\ dict_count (matched_gate st) kn = false /\
    gated items (cut_points st) (gn, kn) (entry_cutpoint gold_ff gate_ff gn g k (ns_type g) true) /\
    applied n' = applied n + 1 /\
    st' = add_match st gn kn (entry_cutpoint gold_ff gate_ff gn g k (ns_type g) true) true x y z.

Lemma suggestion_step_cases items st n item s s' st' n' :
  item ∈ items -> step_m (st, n) item s = (s', Some (st', n')) -> step_effect items st n st' n'.
Proof.
  intros Hin. unfold step_m, suggestion_step. cbv zeta.
  set (gn := escape_id (string_value (json_at item "gold_name"))).
  set (kn := escape_id (string_value (json_at item "suggested_gate_name"))).
  assert (Hret : forall t, ret (st, n) t = (s', Some (st', n')) -> step_effect items st n st' n').
  { intros t Ht. injection Ht as _ -> ->. by left. }
  destruct (is_object item); cbn [negb]; [|by eapply Hret].
  destruct (String.eqb_spec (string_value (json_at item "pair_id")) (pair_id_m gold_mod gate_mod)) as [Hp|];
    cbn [negb]; [|by eapply Hret].
  destruct (String.eqb_spec (string_value (json_at item "snapshot")) "pre_async") as [Hs|];
    cbn [negb]; [|by eapply Hret].
  destruct (d_le _ _) eqn:Hm.
  { intros E. apply bind_inv in E as (t & u & _ & E). by eapply Hret. }
  destruct (dict_find gold gn) as [g|] eqn:Eg; [|by eapply Hret].
  destruct (dict_find gate kn) as [k|] eqn:Ek; [|by eapply Hret].
  destruct (dict_count (matched_gold st) gn) eqn:Cg; cbn [orb]; [by eapply Hret|].
  destruct (dict_count (matched_gate st) kn) eqn:Ck; [by eapply Hret|].
  destruct (type_eqb (ns_type g) (ns_type k)) eqn:Ht; cbn [negb]; [|by eapply Hret].
  destruct (type_eqb (ns_type g) NONE) eqn:Hn; [by eapply Hret|].
  apply type_eqb_spec in Ht.
  assert (Hnone : ns_type g <> NONE) by (intros Hf; apply type_eqb_spec in Hf; congruence).
  assert (Hg : (is_dff_type (ns_type g) = true -> exists t t' ms,
      validate (cut_points st) (entry_cutpoint gold_ff gate_ff gn g k (ns_type g) true) t = (t', Some (true, ms))) ->
      gated items (cut_points st) (gn, kn) (entry_cutpoint gold_ff gate_ff gn g k (ns_type g) true)).
  { intros Hv. exists item, g, k. by split_and!. }
  assert (Hadd : forall n1, applied n1 = applied n + 1 ->
      (is_dff_type (ns_type g) = true -> exists t t' ms,
        validate (cut_points st) (entry_cutpoint gold_ff gate_ff gn g k (ns_type g) true) t = (t', Some (true, ms))) ->
      step_effect items st n
        (apply_suggestion log_signal st gn kn (entry_cutpoint gold_ff gate_ff gn g k (ns_type g) true)) n1).
  { intros n1 Hn1 Hv. right. exists gn, kn, g, k. do 3 eexists. split_and!; try done. by apply Hg. }
  destruct (is_dff_type (ns_type g)).
  - intros E. apply bind_inv in E as (s1 & [[] ms] & Ev & E); apply bind_inv in E as (s2 & u & _ & E);
      injection E as _ <- <-; [|by left].
    apply Hadd; [done|]. intros _. by exists s, s1, ms.
  - intros E. injection E as _ <- <-. by apply Hadd.
Qed.

(** The pairs of names [l] and their cutpoints [new] are added to [st]: each one is
    gated by what came before, and its two signals were matched neither in [st]
    nor by an earlier one. *)
Definition suggested_pairs (items : list Json) (st : MatchState (B:=B)) (l : list (string * string)) (new : list (CutPoint B)) : Prop :=
  length l = length new /\
  forall i p cp, l !! i = Some p -> new !! i = Some cp ->
    gated items (cut_points st ++ take i new) p cp /\
    (p.1 ∉ keys (matched_gold st) ++ (take i l).*1) /\ (p.2 ∉ keys (matched_gate st) ++ (take i l).*2).

Definition all_gated (items : list Json) (st : MatchState (B:=B)) (acc : MatchState (B:=B) * SugCounts) : Prop :=
  exists l new, cut_points acc.1 = cut_points st ++ new /\ applied acc.2 = Z.of_nat (length new) /\
    keys (matched_gold acc.1) = keys (matched_gold st) ++ l.*1 /\ keys (matched_gate acc.1) = keys (matched_gate st) ++ l.*2 /\
    suggested_pairs items st l new.

Lemma suggested_pairs_snoc items st l new p cp :
  suggested_pairs items st l new -> gated items (cut_points st ++ new) p cp ->
  p.1 ∉ keys (matched_gold st) ++ l.*1 -> p.2 ∉ keys (matched_gate st) ++ l.*2 ->
  suggested_pairs items st (l ++ [p]) (new ++ [cp]).
Proof.
  intros [Hl Hp] Hg Hn Hn'. split; [by rewrite !length_app, Hl|]. intros i q cq Hq Hcq.
  destruct (decide (i < length new)%nat) as [Hlt|Hge].
  - rewrite lookup_app_l in Hq by lia. rewrite lookup_app_l in Hcq by done. rewrite !take_app_le by lia. by apply Hp.
  - assert (i = length new) as -> by (apply lookup_lt_Some in Hcq; rewrite length_app in Hcq; cbn in Hcq; lia).
    rewrite list_lookup_middle in Hcq by done. rewrite <- Hl, list_lookup_middle in Hq by done.
    injection Hq as <-. injection Hcq as <-. rewrite take_app_length, <- Hl, take_app_length. done.
Qed.

Lemma all_gated_step items st acc item s s' r :
  item ∈ items -> all_gated items st acc -> step_m acc item s = (s', Some r) -> all_gated items st r.
Proof.
  destruct acc as [st1 n1], r as [st2 n2]. intros Hin (l & new & Hc & Hn & Hkg & Hkk & Hg) E. cbn [fst snd] in *.
  apply (suggestion_step_cases items) in E as [[-> Hn2]|(gn & kn & g & k & x & y & z & Eg & Ek & Cg & Ck & Hga & Hn2 & ->)];
    [..|done].
  - exists l, new. cbn [fst snd]. rewrite Hn2. by split_and!.
  - apply dict_count_false in Cg, Ck.
    exists (l ++ [(gn, kn)]), (new ++ [entry_cutpoint gold_ff gate_ff gn g k (ns_type g) true]). cbn [fst snd]. unfold add_match.
    cbn [cut_points matched_gold matched_gate]. rewrite !fmap_app. cbn [fmap list_fmap fst snd]. split_and!.
    + by rewrite Hc, app_assoc.
    + rewrite length_app, Hn2, Hn. cbn. lia.
    + by rewrite keys_insert_new, Hkg, app_assoc by done.
    + by rewrite keys_insert_new, Hkk, app_assoc by done.
    + apply suggested_pairs_snoc; [done|by rewrite <- Hc|by rewrite <- Hkg|by rewrite <- Hkk].
Qed.

Lemma settled_step (items : list Json) l acc item s s' r :
  item ∈ items -> from l acc.1 -> step_m acc item s = (s', Some r) -> from l r.1.
Proof.
  destruct acc as [st1 n1], r as [st2 n2]. intros Hin Hf E. cbn [fst] in *.
  apply (suggestion_step_cases items) in E as [[-> _]|(gn & kn & g & k & x & y & z & Eg & Ek & Cg & Ck & _ & _ & ->)];
    [done| |done]. by apply add_match_from.
Qed.

Definition suggested_m := match_suggested log_signal gold gate gold_ff gate_ff H c gold_mod gate_mod validate.

Lemma match_suggested_settled emit l st s s' r :
  settled l st -> suggested_m emit st s = (s', Some r) -> settled l r.1.
Proof.
  intros Hst. unfold suggested_m, match_suggested. destruct (negb emit || _).
  - intros E. by injection E as _ <-.
  - destruct (accepted_sugs c) as [items|]; [|done]. intros E. apply bind_inv in E as (s1 & acc & E & Er).
    apply bind_inv in Er as (s2 & u & _ & Er). injection Er as _ <-. apply recount_settled.
    refine (for_each_m_inv (fun acc : MatchState (B:=B) * SugCounts => from l acc.1) _ items _ _ _ _ _ _ E); [|by apply settled_from].
    intros st0 item t t' r0 Hin. by apply (settled_step items).
Qed.

(** ** The whole matching *)

Definition module_m := match_signals_module log_signal gold gate gold_ff gate_ff H c gold_mod gate_mod validate.

Lemma initial_state_ok : match_ok [] (initial_state c gold_mod gate_mod).
Proof. by repeat constructor. Qed.

Definition before_suggestions : MatchState :=
  match_external log_signal gold gate gold_ff gate_ff (external_file c) gold_mod gate_mod
    (match_exact log_signal gold gate gold_ff gate_ff (initial_state c gold_mod gate_mod)).

Lemma before_settled : settled shared_pairs before_suggestions.
Proof. apply match_external_settled. exists []. rewrite app_nil_r. apply match_exact_ok, initial_state_ok. Qed.

(** A matching that ends: its suggestion phase and the dump, in some states. *)
Lemma module_inv emit snap s s' r :
  module_m emit snap s = (s', Some r) ->
  exists st n s1 s2 s3 s4, suggested_m emit before_suggestions s1 = (s2, Some (st, n)) /\
    dump_samples gold gate H c gold_mod gate_mod snap st s3 = (s4, Some tt) /\
    r = mkMatchResult (cut_points st) (m_stats st).
Proof.
  intros E. do 3 (apply bind_inv in E as (? & ? & _ & E)).
  apply bind_inv in E as (s2 & [st n] & Es & E). do 3 (apply bind_inv in E as (? & ? & _ & E)).
  apply bind_inv in E as (s4 & [] & Ed & E). injection E as _ <-. cbn [fst] in *.
  do 6 eexists. split_and!; [exact Es|exact Ed|done].
Qed.

Lemma module_settled emit snap s s' r :
  module_m emit snap s = (s', Some r) ->
  exists st, settled shared_pairs st /\ r = mkMatchResult (cut_points st) (m_stats st).
Proof.
  intros (st & n & s1 & s2 & _ & _ & Es & _ & ->)%module_inv. exists st. split; [|done].
  apply (match_suggested_settled _ _ _ _ _ _ before_settled Es).
Qed.

(** ** The samples *)

Lemma for_each_m_throws {A S} (f : S -> A -> M W S) (x : A) l :
  (forall st s, snd (f st x s) = None) -> x ∈ l -> forall st s, snd (for_each_m f st l s) = None.
Proof.
  intros Hf. induction l as [|y l IH]; intros Hin st s; [by apply not_elem_of_nil in Hin|].
  cbn [for_each_m]. unfold bind. apply elem_of_cons in Hin as [<-|Hin].
  - specialize (Hf st s). destruct (f st x s) as [s' [r|]]; done.
  - destruct (f st y s) as [s' [r|]]; [by apply IH|done].
Qed.

Lemma dump_throws snap st n g s :
  dump_match (dump_cfg (mc_conf c)) = true -> dict_find gold n = Some g -> ns_type g <> NONE ->
  dict_count (matched_gold st) n = true -> dict_find gate n = None ->
  snd (dump_samples gold gate H c gold_mod gate_mod snap st s) = None.
Proof.
  intros Hd Hg Ht Hm Hk. unfold dump_samples. rewrite Hd. cbn [negb].
  assert (Hf : forall l t, snd (for_each_m (dump_step gate H c gold_mod gate_mod (match_jsonl (dump_cfg (mc_conf c))) snap st)
      l (dict_iter gold) t) = None).
  { intros l t. revert l t. apply (for_each_m_throws _ (n, g : NamedSig B)).
  - intros sugs t. unfold dump_step. cbn [fst snd].
    destruct (type_eqb (ns_type g) NONE) eqn:E; [by apply type_eqb_spec in E|]. by rewrite Hm, Hk.
  - unfold dict_iter. apply elem_of_reverse. by apply dict_find_elem. }
  unfold bind. specialize (Hf [] s). destruct (for_each_m _ [] _ s) as [t [r|]]; done.
Qed.

(** ** Properties *)

(** C5: the matching of a module pair is one-to-one: whatever the guidance file
    and the suggestions say, the cutpoints it returns are those of a list of
    pairs of names without a repeated name on either side, each cutpoint carries
    the signals, wires and bits of its pair, every name that occurs on both sides
    is paired with itself, and the counters of the statistics are those of the
    list. *)
Theorem match_one_to_one emit snap s s' r :
  module_m emit snap s = (s', Some r) ->
  exists l, NoDup l.*1 /\ NoDup l.*2 /\ Forall2 joins l (mr_cut_points r) /\
    (forall x, x ∈ keys gold -> x ∈ keys gate -> (x, x) ∈ l) /\
    exact_total (mr_stats r) = Z.of_nat (length l) /\
    unmatched_gold (mr_stats r) = Z.of_nat (length gold) - Z.of_nat (length l) /\
    unmatched_gate (mr_stats r) = Z.of_nat (length gate) - Z.of_nat (length l).
Proof.
  intros (st & (l & (_ & _ & Hn & Hn' & HF & Ht) & Hug & Huk) & ->)%module_settled.
  exists (shared_pairs ++ l). split_and!; try done.
  intros x Hg Hk. apply elem_of_app. left. by apply shared_pairs_spec.
Qed.

(** C6: a suggestion of the matching model becomes a cutpoint only through all
    the gates: it names the pair and the snapshot before the async-to-sync
    conversion, its margin is positive, the two signals are of one type that is
    not [NONE], neither of them was matched before the suggestions or by an
    earlier one, and a flip-flop was proved by the local validation run with the
    cutpoints present at that moment; the number returned is that of the cutpoints
    added, and exactly their signals become matched. *)
Theorem suggestions_gated emit st s s' st' n items :
  accepted_sugs c = Some items -> suggested_m emit st s = (s', Some (st', n)) ->
  exists l new, cut_points st' = cut_points st ++ new /\ n = Z.of_nat (length new) /\
    keys (matched_gold st') = keys (matched_gold st) ++ l.*1 /\ keys (matched_gate st') = keys (matched_gate st) ++ l.*2 /\
    suggested_pairs items st l new.
Proof.
  intros Hi. unfold suggested_m, match_suggested.
  assert (H0 : suggested_pairs items st [] []) by (split; [done|]; intros i p cp; by rewrite lookup_nil).
  destruct (negb emit || _).
  - intros E. injection E as _ <- <-. exists [], []. rewrite !app_nil_r. by split_and!.
  - rewrite Hi. intros E. apply bind_inv in E as (s1 & acc & E & Er).
    apply bind_inv in Er as (s2 & u & _ & Er). injection Er as _ <- <-.
    refine (for_each_m_inv (all_gated items st) _ items _ _ _ _ _ _ E).
    + intros acc0 item t t' r Hin. by apply all_gated_step.
    + exists [], []. rewrite !app_nil_r. by split_and!.
Qed.

(** C37: with the dump of matching samples on, a gold signal of a type other than
    [NONE] that the guidance file matched with a gate signal of another name makes
    the matching end without a result when the gate side has no signal of the gold name, whatever the
    suggestions add and the operating system answers: the sample of a matched
    signal looks the gate signal up under the gold name ([gate.at] throws). *)
Theorem dump_after_external_throws emit snap s n g :
  dump_match (dump_cfg (mc_conf c)) = true ->
  dict_count (matched_gold before_suggestions) n = true ->
  dict_find gold n = Some g -> ns_type g <> NONE -> dict_find gate n = None ->
  snd (module_m emit snap s) = None.
Proof.
  intros Hd Hm Hg Ht Hk. destruct (module_m emit snap s) as [s' [r|]] eqn:E; [|done].
  apply module_inv in E as (st & k & s1 & s2 & s3 & s4 & Es & Ed & _).
  assert (Hm' : dict_count (matched_gold st) n = true).
  { destruct before_settled as (l0 & Hok & Hc).
    assert (Hs : settled (shared_pairs ++ l0) before_suggestions) by (exists []; by rewrite app_nil_r).
    apply (match_suggested_settled _ _ _ _ _ _ Hs) in Es as (l1 & (K1 & _) & _). cbn [fst] in K1.
    destruct Hok as (K0 & _). apply dict_count_spec in Hm. apply dict_count_spec.
    rewrite K0 in Hm. rewrite K1, fmap_app. apply elem_of_app. by left. }
  pose proof (dump_throws snap st n g s3 Hd Hg Ht Hm' Hk) as Hf. by rewrite Ed in Hf.
Qed.
End MatchSpec.

(** ** A concrete pair

    An input on both sides, two flip-flops whose names differ, an output of the
    gate side. *)
Definition pair_gold : dict string (NamedSig string) :=
  [("\a", mkNamedSig "a" PI "\a" 0); ("\r", mkNamedSig "r" DFF "\r" 0); ("\s", mkNamedSig "s" DFF "\s" 0)].
Definition pair_gate : dict string (NamedSig string) :=
  [("\a", mkNamedSig "a" PI "\a" 0); ("\t", mkNamedSig "t" DFF "\t" 0); ("\u", mkNamedSig "u" DFF "\u" 0)].

Lemma pair_gold_wf : dict_wf pair_gold.
Proof. apply (bool_decide_unpack _). vm_compute. exact I. Defined.

Lemma pair_gate_wf : dict_wf pair_gate.
Proof. apply (bool_decide_unpack _). vm_compute. exact I. Defined.

Definition suggest (gold_name gate_name : string) (margin : Z) : Json :=
  JObject [("pair_id", JString "gold__vs__gate"); ("snapshot", JString "pre_async");
           ("gold_name", JString gold_name); ("suggested_gate_name", JString gate_name);
           ("score_margin", JInt margin)].

(** The guidance file pairs [s] with [u]; the model suggests [r] with [t], once
    more without a margin. *)
Definition pair_conf (dump : MlDumpConfig) : MatchConf :=
  mkMatchConf
    (mkCheckConfig "abc" "/tmp" [] (mkDMod "\gold" false false [] []) (mkDMod "\gate" false false [] [])
       (mkSeqCheckConfig 20 0 false false) dump None)
    "sugs.json" (Some "s u DFF") (Some [suggest "r" "t" 0; suggest "r" "t" 30]) None.

Definition match_host : Host unit :=
  mkHost unit (fun w _ => (w, None)) (fun w _ => (w, true)) (fun w n => (w, n)) "/tmp"
    (fun w _ => (w, true)) (fun w _ => (w, true)) (fun w _ _ => w) (fun w _ _ => (w, true)) (fun _ _ => false) "" "".

(** A validation that proves the flip-flop [r] only. *)
Definition validate_r (cps : list (CutPoint string)) (cp : CutPoint string) :
    M unit (bool * list (string * Json)) := ret (String.eqb (gold_sig cp) "r", []).

Definition pair_dump : MlDumpConfig := mkMlDumpConfig false true false "" "m.jsonl" "".
Definition quiet_dump : MlDumpConfig := mkMlDumpConfig false false false "" "" "".

Definition pair_start : GState unit := mkGState tt None [] [] [].

#[local] Abbreviation pair_module dump :=
  (module_m (fun x : string => x) pair_gold pair_gate [("r", "$1")] [("t", "$2")] match_host (pair_conf dump)
    "\gold" "\gate" validate_r true "pre_async" pair_start).

Lemma match_one_to_one_witness :
  exists r, snd (pair_module quiet_dump) = Some r /\
    cp_name <$> mr_cut_points r = ["\a"; "\s"; "\r"] /\
  exists l, NoDup l.*1 /\ NoDup l.*2 /\ Forall2 (joins pair_gold pair_gate) l (mr_cut_points r) /\
    (forall x, x ∈ keys pair_gold -> x ∈ keys pair_gate -> (x, x) ∈ l) /\
    exact_total (mr_stats r) = Z.of_nat (length l) /\
    unmatched_gold (mr_stats r) = Z.of_nat (length pair_gold) - Z.of_nat (length l) /\
    unmatched_gate (mr_stats r) = Z.of_nat (length pair_gate) - Z.of_nat (length l).
Proof.
  assert (E : exists s' r, pair_module quiet_dump = (s', Some r) /\
                cp_name <$> mr_cut_points r = ["\a"; "\s"; "\r"])
    by (eexists _, _; vm_compute; split; reflexivity).
  destruct E as (s' & r & E & Hc). exists r. rewrite E. split; [done|]. split; [exact Hc|].
  exact (match_one_to_one (fun x : string => x) pair_gold pair_gate [("r", "$1")] [("t", "$2")] pair_gold_wf
    pair_gate_wf match_host (pair_conf quiet_dump) "\gold" "\gate" validate_r true "pre_async" pair_start s' r E).
Defined.

(** The matching of the pair before the suggestions. *)
Definition pair_external : MatchState (B:=string) :=
  before_suggestions (fun x : string => x) pair_gold pair_gate [("r", "$1")] [("t", "$2")] (pair_conf quiet_dump)
    "\gold" "\gate".

Definition pair_suggested (dump : MlDumpConfig) :=
  suggested_m (fun x : string => x) pair_gold pair_gate [("r", "$1")] [("t", "$2")] match_host (pair_conf dump)
    "\gold" "\gate" validate_r.

Lemma suggestions_gated_witness :
  exists st', snd (pair_suggested quiet_dump true pair_external pair_start) = Some (st', 1) /\
  exists l new, cut_points st' = cut_points pair_external ++ new /\ 1 = Z.of_nat (length new) /\
    keys (matched_gold st') = keys (matched_gold pair_external) ++ l.*1 /\
    keys (matched_gate st') = keys (matched_gate pair_external) ++ l.*2 /\
    suggested_pairs pair_gold pair_gate [("r", "$1")] [("t", "$2")] "\gold" "\gate" validate_r
      [suggest "r" "t" 0; suggest "r" "t" 30] pair_external l new.
Proof.
  assert (E : exists s' st', pair_suggested quiet_dump true pair_external pair_start = (s', Some (st', 1)))
    by (eexists _, _; vm_compute; reflexivity).
  destruct E as (s' & st' & E). exists st'. rewrite E. split; [done|].
  exact (suggestions_gated (fun x : string => x) pair_gold pair_gate [("r", "$1")] [("t", "$2")]
    match_host (pair_conf quiet_dump) "\gold" "\gate" validate_r true pair_external pair_start s' st' 1 _ eq_refl E).
Defined.

Lemma dump_after_external_throws_witness :
  snd (pair_module quiet_dump) <> None /\ snd (pair_module pair_dump) = None.
Proof.
  split; [vm_compute; discriminate|].
  refine (dump_after_external_throws (fun x : string => x) pair_gold pair_gate [("r", "$1")] [("t", "$2")]
    pair_gold_wf pair_gate_wf match_host (pair_conf pair_dump) "\gold" "\gate" validate_r true "pre_async" pair_start "\s"
    (mkNamedSig "s" DFF "\s" 0) eq_refl _ eq_refl ltac:(discriminate) eq_refl).
  vm_compute. reflexivity.
Defined.
