(* ===== verification/GuideCheck.v ===== *)
(** * The pass [guide_check] ([passes/guide/guide_check.cc])

    Its arguments, the combinational and sequential checks of the module pairs
    ([abc_cec]) and the report with the verdict.  The results of the multiplier,
    divider and retiming checks come from other parts and are arguments here. *)

From S2P Require Import Prelude GuideNames Dict Shared ModMap Sched Effects FailExec AbcPlan.

Local Open Scope string_scope.
Local Open Scope list_scope.
Local Open Scope Z_scope.
Local Open Scope guide_scope.

(** ** Arguments *)

Record Options := mkOptions {
  o_nocleanup : bool; o_exe : string; o_assert : bool; o_lib : string;
  o_weak : bool; o_k : Z; o_skip : Z; o_dump : MlDumpConfig;
  o_sched_model : string; o_match_model : string; o_accept : string; o_external : string;
  o_div_sig_dir : string
}.

Definition default_options (exe : string) : Options :=
  mkOptions false exe false "" false 20 0 (mkMlDumpConfig false false false "" "" "") "" "" "" "" "".

(** [atoi]: white space, a sign, the digits up to the first other character. *)
Definition is_digit (c : ascii) : bool := in_range c (ch "0") (ch "9").
Fixpoint digits (s : string) (acc : Z) : Z :=
  match s with
  | String c s => if is_digit c then digits s (10 * acc + (Z.of_N (N_of_ascii c) - 48)) else acc
  | EmptyString => acc
  end.
Fixpoint atoi (s : string) : Z :=
  match s with
  | String c s' =>
      if is_space c then atoi s'
      else if Ascii.eqb c "-" then s32 (- digits s' 0)
      else if Ascii.eqb c "+" then s32 (digits s' 0)
      else s32 (digits s 0)
  | EmptyString => 0
  end.

(** One option without a value; [None] is [log_error]. *)
Definition flag_option (o : Options) (arg : string) : option (option Options) :=
  let '(mkOptions nocleanup exe as_ lib weak k skip dump sm mm ac ex dv) := o in
  if String.eqb arg "-nocleanup" then Some (Some (mkOptions true exe as_ lib weak k skip dump sm mm ac ex dv))
  else if String.eqb arg "-assert" then Some (Some (mkOptions nocleanup exe true lib weak k skip dump sm mm ac ex dv))
  else if String.eqb arg "-weak" then Some (Some (mkOptions nocleanup exe as_ lib true k skip dump sm mm ac ex dv))
  else if String.eqb arg "-noinit" then Some None
  else None.

(** One option with its value. *)
Definition value_option (o : Options) (arg v : string) : option Options :=
  let '(mkOptions nocleanup exe as_ lib weak k skip dump sm mm ac ex dv) := o in
  let '(mkMlDumpConfig ds dm df sj mj fj) := dump in
  if String.eqb arg "-exe" then Some (mkOptions nocleanup v as_ lib weak k skip dump sm mm ac ex dv)
  else if String.eqb arg "-lib" then Some (mkOptions nocleanup exe as_ v weak k skip dump sm mm ac ex dv)
  else if String.eqb arg "-skip" then Some (mkOptions nocleanup exe as_ lib weak k (atoi v) dump sm mm ac ex dv)
  else if String.eqb arg "-k" then Some (mkOptions nocleanup exe as_ lib weak (atoi v) skip dump sm mm ac ex dv)
  else if String.eqb arg "-guide-dump-sched" then
    Some (mkOptions nocleanup exe as_ lib weak k skip (mkMlDumpConfig true dm df v mj fj) sm mm ac ex dv)
  else if String.eqb arg "-guide-dump-match" then
    Some (mkOptions nocleanup exe as_ lib weak k skip (mkMlDumpConfig ds true df sj v fj) sm mm ac ex dv)
  else if String.eqb arg "-guide-dump-fail" then
    Some (mkOptions nocleanup exe as_ lib weak k skip (mkMlDumpConfig ds dm true sj mj v) sm mm ac ex dv)
  else if String.eqb arg "-guide-sched-model" then Some (mkOptions nocleanup exe as_ lib weak k skip dump v mm ac ex dv)
  else if String.eqb arg "-guide-match-model" then Some (mkOptions nocleanup exe as_ lib weak k skip dump sm v ac ex dv)
  else if String.eqb arg "-guide-accept-match-suggestions" then
    Some (mkOptions nocleanup exe as_ lib weak k skip dump sm mm v ex dv)
  else if String.eqb arg "-guide-external-match" then Some (mkOptions nocleanup exe as_ lib weak k skip dump sm mm ac v dv)
  else if String.eqb arg "-div-sig-dir" then Some (mkOptions nocleanup exe as_ lib weak k skip dump sm mm ac ex v)
  else None.

(** The option loop: the options and the arguments left; [None] is [log_error]. *)
Fixpoint parse_options (o : Options) (args : list string) : option (Options * list string) :=
  match args with
  | [] => Some (o, [])
  | arg :: args' =>
      match flag_option o arg with
      | Some None => None
      | Some (Some o') => parse_options o' args'
      | None =>
          match args' with
          | v :: args'' =>
              match value_option o arg v with
              | Some o' => parse_options o' args''
              | None => Some (o, args)
              end
          | [] => Some (o, args)
          end
      end
  end.

(** The names and prefixes of the two tops; [None] is the wrong number of
    arguments. *)
Definition top_names (rest : list string) : option NameConf :=
  match rest with
  | [gold; gate] => Some (mkNameConf (escape_id gold) (escape_id gate) (gold +:+ ".") (gate +:+ "."))
  | [gold; gold_prefix; gate; gate_prefix] => Some (mkNameConf (escape_id gold) (escape_id gate) gold_prefix gate_prefix)
  | _ => None
  end.

Definition parse_args (exe : string) (args : list string) : option (Options * NameConf) :=
  r ← parse_options (default_options exe) args; c ← top_names (snd r); Some (fst r, c).

(** ** [abc_cec] *)

(** [clone_design_for_passes]: the copies are added in iteration order, and a
    dictionary iterates from the last entry added. *)
Definition clone_module (md : DMod) : DMod :=
  mkDMod (d_name md) (d_blackbox md) (d_whitebox md) (reverse (d_wires md)) (reverse (d_cells md)).
Definition clone_design_for_passes (d : design) : design := reverse (clone_module <$> d).

(** The loop over the modules; [None] is the exception of [substr]. *)
Definition equiv_step (d : design) (c : NameConf) (acc : list (string * string)) (m : DMod)
    : option (list (string * string)) :=
  if get_blackbox_attribute m then Some acc
  else if on_side (d_name m) (gold_top c) (gold_prefix c) then
    gate_name ← partner (d_name m) (gold_top c) (gold_prefix c) (gate_top c) (gate_prefix c);
    Some (if has_module d gate_name then acc ++ [(d_name m, gate_name)] else acc)
  else Some acc.

Definition equiv_mods (d : design) (c : NameConf) : option (list (string * string)) :=
  for_opt (equiv_step d c) [] d.

Definition of_option {W A} (o : option A) : M W A := match o with Some a => ret a | None => log_error end.

Section AbcCec.
Context {W : Type} (H : Host W) (D : Dumper W) (fudge : Z).

Definition with_modules (conf : CheckConfig) (d : design) (gold gate : DMod) : CheckConfig :=
  mkCheckConfig (abc_exe_file conf) (tempdir_name conf) d gold gate (seq_check_cfg conf) (dump_cfg conf)
    (sched_model conf).

(** One pair: its name in the results and its answer. *)
Definition cec_pair (conf : CheckConfig) (c : NameConf) (mod_pair : string * string) : M W (string * bool) :=
  let d := clone_design_for_passes (cc_design conf) in
  match design_module d (fst mod_pair), design_module d (snd mod_pair) with
  | Some gold_m, Some gate_m =>
      let! res := abc_cec_module H D fudge (with_modules conf d gold_m gate_m) true in
      let! name := of_option (get_orignal_mod_name (fst mod_pair) (snd mod_pair) (gold_prefix c)) in
      ret (name, fst res)
  | _, _ => log_error
  end.

Fixpoint cec_pairs (conf : CheckConfig) (c : NameConf) (pairs : list (string * string)) : M W (list (string * bool)) :=
  match pairs with
  | [] => ret []
  | p :: pairs => let! r := cec_pair conf c p in let! rs := cec_pairs conf c pairs in ret (r :: rs)
  end.

Definition abc_cec (conf : CheckConfig) (c : NameConf) : M W (list (string * bool)) :=
  let! pairs := of_option (equiv_mods (cc_design conf) c) in
  cec_pairs conf c pairs.
End AbcCec.

(** ** The report *)

Abbreviation Results := (list (string * bool)).

Definition log_id (id : string) : string := unescape_id id.

Definition ESC : string := String "027" "".
Definition ok_str (ok : bool) : string :=
  if ok then ESC +:+ "[1;32mPASSED" +:+ ESC +:+ "[0m" else ESC +:+ "[1;31mFAILED" +:+ ESC +:+ "[0m".

Fixpoint str_repeat (c : ascii) (n : nat) : string :=
  match n with O => "" | S n => String c (str_repeat c n) end.

(** [%-*s] *)
Definition pad (w : nat) (s : string) : string := s +:+ str_repeat " " (w - String.length s).

Definition W_CAT : nat := 12.
Definition W_MOD : nat := 35.
Definition W_RES : nat := 6.

Definition print_sep : string :=
  "+-" +:+ str_repeat "-" W_CAT +:+ "-+-" +:+ str_repeat "-" W_MOD +:+ "-+-" +:+ str_repeat "-" W_RES +:+ "-+".
Definition print_row (c1 c2 c3 : string) : string :=
  "| " +:+ pad W_CAT c1 +:+ " | " +:+ pad W_MOD c2 +:+ " | " +:+ pad W_RES c3 +:+ " |".

Definition report_rows (category : string) (rs : Results) : list string :=
  (fun r => print_row category (log_id (fst r)) (ok_str (snd r))) <$> rs.

(** The flag of a category: cleared by every failed row. *)
Definition rows_ok (rs : Results) : bool := fold_left (fun (ok : bool) (r : string * bool) => if snd r then ok else false) rs true.

(** The lines of the report and its result. *)
Definition report (gold_mod_name_id gate_mod_name_id : string) (mul_results div_results retime_results cec_results : Results)
    : list string * bool :=
  let mul_ok := rows_ok mul_results in
  let div_ok := rows_ok div_results in
  let retime_ok := rows_ok retime_results in
  let cec_ok := rows_ok cec_results in
  let succ := mul_ok && div_ok && cec_ok && retime_ok in
  (["================== Equivalence Checking Report ================"; print_sep;
    print_row "Category" "Module" "Result"; print_sep] ++
   report_rows "MULTIPLIER" mul_results ++ report_rows "DIVIDER" div_results ++
   report_rows "RETIMING" retime_results ++ report_rows "CEC/SEC" cec_results ++
   [print_sep;
    if succ then "GUIDE_CHECK PASSED: Modules " +:+ log_id gold_mod_name_id +:+ " and " +:+ log_id gate_mod_name_id +:+ " are equivalent."
    else "GUIDE_CHECK FAILED: Modules " +:+ log_id gold_mod_name_id +:+ " and " +:+ log_id gate_mod_name_id +:+ " are NOT equivalent.";
    "==============================================================="], succ).

(** The loops of [execute] that stop at the first failure. *)
Fixpoint first_failure (rs : Results) : bool :=
  match rs with [] => true | r :: rs => if snd r then first_failure rs else false end.

Section Execute.
Context {W : Type} (H : Host W) (D : Dumper W) (fudge : Z).

(** The end of [execute], from the CEC phase on: the report and [succ]; in
    assert mode a failure is [log_error]. *)
Definition check_and_report (conf : CheckConfig) (c : NameConf) (assert_mode : bool)
    (multi_results div_results retime_results : Results) : M W (list string * bool * bool) :=
  let multi_result := first_failure multi_results in
  let div_result := first_failure div_results in
  let retime_result := first_failure retime_results in
  let! cec_result_mod := abc_cec H D fudge conf c in
  let cec_result := first_failure cec_result_mod in
  let '(lines, reported) := report (gold_top c) (gate_top c) multi_results div_results retime_results cec_result_mod in
  let succ := cec_result && multi_result && div_result && retime_result in
  if assert_mode && negb succ then log_error else ret (lines, reported, succ).
End Execute.
