(* ===== verification/GuideCheckSpec.v ===== *)
(** * Properties of the pass [guide_check] ([GuideCheck.v]) *)

From S2P Require Import Prelude GuideNames Dict Shared ModMap Sched Effects FailExec AbcPlan AbcPlanSpec GuideCheck.

Local Open Scope string_scope.
Local Open Scope list_scope.
Local Open Scope Z_scope.
Local Open Scope guide_scope.

(** ** The verdict *)

Lemma first_failure_forallb rs : first_failure rs = forallb snd rs.
Proof. induction rs as [|r rs IH]; [done|]. cbn. rewrite IH. by destruct (snd r). Qed.

Lemma rows_ok_forallb rs : rows_ok rs = forallb snd rs.
Proof.
  unfold rows_ok.
  assert (Hgen : forall b, fold_left (fun (ok : bool) (r : string * bool) => if snd r then ok else false) rs b = b && forallb snd rs).
  { induction rs as [|r rs IH]; intros b; cbn; [by rewrite andb_true_r|]. rewrite IH.
    destruct (snd r), b; reflexivity. }
  by rewrite Hgen.
Qed.

(** ** The pairs *)

Lemma equiv_step_mono d c acc m acc' : equiv_step d c acc m = Some acc' ->
  acc' = acc \/ exists k, acc' = acc ++ [(d_name m, k)] /\ get_blackbox_attribute m = false /\
    on_side (d_name m) (gold_top c) (gold_prefix c) = true /\
    partner (d_name m) (gold_top c) (gold_prefix c) (gate_top c) (gate_prefix c) = Some k /\ has_module d k = true.
Proof.
  unfold equiv_step. destruct (get_blackbox_attribute m); [intros [= <-]; auto|].
  destruct (on_side _ _ _); [|intros [= <-]; auto].
  destruct (partner _ _ _ _ _) as [k|]; cbn [mbind option_bind]; [|done].
  destruct (has_module d k) eqn:E; intros [= <-]; [right; by exists k|auto].
Qed.

Lemma equiv_step_adds d c acc m acc' k : equiv_step d c acc m = Some acc' ->
  get_blackbox_attribute m = false -> on_side (d_name m) (gold_top c) (gold_prefix c) = true ->
  partner (d_name m) (gold_top c) (gold_prefix c) (gate_top c) (gate_prefix c) = Some k -> has_module d k = true ->
  acc' = acc ++ [(d_name m, k)].
Proof. unfold equiv_step. intros E Hb Ho Hp Hm. rewrite Hb, Ho, Hp in E. cbn [mbind option_bind] in E. rewrite Hm in E. congruence. Qed.

(** A module and the partner its name gives it. *)
Definition named_pair (d : design) (c : NameConf) (p : string * string) (m : DMod) : Prop :=
  p.1 = d_name m /\ get_blackbox_attribute m = false /\
  on_side (d_name m) (gold_top c) (gold_prefix c) = true /\
  partner (d_name m) (gold_top c) (gold_prefix c) (gate_top c) (gate_prefix c) = Some p.2 /\ has_module d p.2 = true.

Lemma equiv_loop d c ms : forall acc pairs, for_opt (equiv_step d c) acc ms = Some pairs ->
  forall p, p ∈ pairs <-> p ∈ acc \/ exists m, m ∈ ms /\ named_pair d c p m.
Proof.
  induction ms as [|m ms IH]; intros acc pairs E p.
  - injection E as <-. split; [auto|]. intros [?|(m & ?%elem_of_nil & _)]; done.
  - cbn [for_opt] in E. destruct (equiv_step d c acc m) as [acc1|] eqn:E1; [|done]. cbn [mbind option_bind] in E.
    rewrite (IH _ _ E). split.
    + intros [Hp|(m' & Hm & Hn)]; [|right; exists m'; split; [by right|done]].
      apply equiv_step_mono in E1 as [->|(k & -> & Hb & Ho & Hk & Hh)]; [by left|].
      apply elem_of_app in Hp as [Hp| ->%list_elem_of_singleton]; [by left|].
      right. exists m. split; [by left|]. by split_and!.
    + intros [Hp|(m' & [->|Hm]%elem_of_cons & Hn)]; [| |right; by exists m'].
      * left. apply equiv_step_mono in E1 as [->|(k & -> & _)]; [done|]. by apply elem_of_app; left.
      * left. destruct Hn as (Hp1 & Hb & Ho & Hk & Hh). rewrite (equiv_step_adds _ _ _ _ _ _ E1 Hb Ho Hk Hh).
        apply elem_of_app; right. apply list_elem_of_singleton. destruct p; cbn in *; congruence.
Qed.

(** ** [abc_cec] *)

Section Cec.
Context {W : Type} (H : Host W) (D : Dumper W) (fudge : Z) (conf : CheckConfig) (c : NameConf).

(** The commands of a pair, on the modules of a clone of the design. *)
Definition pair_checked (p : string * string) (ok : bool) (l : list (string * CommandResult)) : Prop :=
  exists gold gate,
    design_module (clone_design_for_passes (cc_design conf)) p.1 = Some gold /\
    design_module (clone_design_for_passes (cc_design conf)) p.2 = Some gate /\
    cec_sound D (with_modules conf (clone_design_for_passes (cc_design conf)) gold gate) true ok l.

Lemma cec_pair_spec p s s' r : cec_pair H D fudge conf c p s = (s', Some r) ->
  exists l, calls s' = calls s ++ l /\ pair_checked p r.2 l /\
    get_orignal_mod_name p.1 p.2 (gold_prefix c) = Some r.1.
Proof.
  unfold cec_pair. cbv zeta. destruct (design_module _ p.1) as [gold|] eqn:Eg; [|done].
  destruct (design_module _ p.2) as [gate|] eqn:Ek; [|done].
  intros (s1 & [ok d] & E1 & E)%bind_inv. apply abc_cec_module_sound in E1 as (l & Hl & Hs).
  apply bind_inv in E as (s2 & name & E2 & E).
  destruct (get_orignal_mod_name _ _ _) as [n|] eqn:En; [|done]. injection E2 as <- <-. injection E as <- <-.
  exists l. split; [done|]. split; [|done]. by exists gold, gate.
Qed.

Lemma cec_pairs_spec pairs : forall s s' rs, cec_pairs H D fudge conf c pairs s = (s', Some rs) ->
  exists ls, calls s' = calls s ++ concat ls /\ length ls = length pairs /\
    Forall2 (fun p r => get_orignal_mod_name p.1 p.2 (gold_prefix c) = Some r.1) pairs rs /\
    forall i p r, pairs !! i = Some p -> rs !! i = Some r -> exists l, ls !! i = Some l /\ pair_checked p r.2 l.
Proof.
  induction pairs as [|p pairs IH]; intros s s' rs E.
  - injection E as <- <-. exists []. rewrite app_nil_r. by repeat split.
  - apply bind_inv in E as (s1 & r & E1 & E). apply bind_inv in E as (s2 & rs' & E2 & E). injection E as <- <-.
    apply cec_pair_spec in E1 as (l & Hl & Hp & Hn). apply IH in E2 as (ls & Hls & Hlen & Hns & Hps).
    exists (l :: ls). split; [cbn; by rewrite Hls, Hl, app_assoc|]. split; [cbn; by rewrite Hlen|].
    split; [by constructor|]. intros [|i] q r'; [|apply Hps]. cbn. intros [= <-] [= <-]. by exists l.
Qed.
End Cec.

(** C1: a run of [guide_check] that ends and reports PASSED is backed by its
    parts: the report and the exit condition of the pass agree, every multiplier,
    divider and retiming result passed, and for every module of the gold side
    with a partner of its name, black boxes apart, an ABC command on the two
    dumped modules ended with status 0 and printed "Networks are equivalent".
    In assert mode every run that ends has passed. *)
Theorem guide_check_passed {W} (H : Host W) (D : Dumper W) fudge conf c assert_mode mr dr rr s s' lines reported succ :
  check_and_report H D fudge conf c assert_mode mr dr rr s = (s', Some (lines, reported, succ)) ->
  reported = succ /\ (assert_mode = true -> succ = true) /\
  (succ = true ->
     Forall (fun r => snd r = true) (mr ++ dr ++ rr) /\
     forall p m, m ∈ cc_design conf -> named_pair (cc_design conf) c p m ->
       exists gold gate gold_file gate_file action r,
         design_module (clone_design_for_passes (cc_design conf)) p.1 = Some gold /\
         design_module (clone_design_for_passes (cc_design conf)) p.2 = Some gate /\
         dumped_as D gold gold_file /\ dumped_as D gate gate_file /\
         (abc_shell conf (abc_command action
            (match_file_name (with_modules conf (clone_design_for_passes (cc_design conf)) gold gate))
            gold_file gate_file), r) ∈ calls s' /\
         exit_status r = 0 /\ contains (output r) "Networks are equivalent" = true).
Proof.
  unfold check_and_report. cbv zeta. intros (s1 & rs & E1 & E)%bind_inv.
  cbn [report] in E. set (lines' := _ ++ _) in E. rewrite (first_failure_forallb rs), (first_failure_forallb mr), (first_failure_forallb dr),
    (first_failure_forallb rr), !rows_ok_forallb in E.
  set (ok1 := forallb snd rs && _ && _ && _) in E. set (ok2 := forallb snd mr && _ && _ && _) in E.
  assert (Hok : ok2 = ok1) by (unfold ok1, ok2; destruct (forallb snd mr), (forallb snd dr), (forallb snd rs), (forallb snd rr); done).
  destruct (assert_mode && negb ok1) eqn:Ea; [done|]. injection E as <- _ <- <-.
  split; [done|]. split; [intros ->; by destruct ok1|]. intros Hs. unfold ok1 in Hs.
  rewrite !andb_true_iff, !forallb_forall in Hs. destruct Hs as [[[Hcec Hm] Hd] Hr].
  split; [apply Forall_forall; intros x; rewrite !elem_of_app, !list_elem_of_In; intros [|[|]]; auto|].
  intros p m Hin Hn. apply bind_inv in E1 as (s2 & pairs & E2 & E1).
  destruct (equiv_mods (cc_design conf) c) as [ps|] eqn:Ep; [|done]. injection E2 as <- <-.
  assert (Hp : p ∈ ps) by (eapply equiv_loop; [exact Ep|]; right; by exists m).
  apply cec_pairs_spec in E1 as (ls & Hc & _ & HF & Hps).
  apply list_elem_of_lookup in Hp as [i Hi]. destruct (Forall2_lookup_l _ _ _ _ _ HF Hi) as (r & Hri & _).
  destruct (Hps _ _ _ Hi Hri) as (l & Hli & gold & gate & Hg & Hk & gf & kf & Hgf & Hkf & Heq & Hfat & Hcmd).
  assert (Hr2 : r.2 = true) by (apply Hcec, list_elem_of_In, list_elem_of_lookup; by exists i).
  apply Heq in Hr2 as ([cmd res] & Hx & Ho). specialize (Hfat eq_refl).
  rewrite Forall_forall in Hfat, Hcmd. destruct (Hfat _ Hx) as [Hst _]. destruct (Hcmd _ Hx) as [action Ha].
  cbn [fst snd] in Ha, Ho, Hst. exists gold, gate, gf, kf, action, res. split_and!; try done.
  rewrite Hc. apply elem_of_app; right. apply list_elem_of_In, in_concat. exists l.
  split; [by eapply list_elem_of_In, list_elem_of_lookup_2|]. apply list_elem_of_In. by rewrite Ha in Hx.
Qed.

Definition example_design : design :=
  [mkDMod "\gold" false false [] []; mkDMod "\gold.a" false false [mkPWire 3 true false 1; mkPWire 4 false true 2] [];
   mkDMod "\gate" false false [] []; mkDMod "\gate.a2" false false [mkPWire 3 true false 1; mkPWire 4 false true 2] []].

Definition example_conf (m : option GuideSchedModel) : CheckConfig :=
  mkCheckConfig "abc" "/tmp" example_design (mkDMod "\gold" false false [] []) (mkDMod "\gate" false false [] [])
    (mkSeqCheckConfig 20 0 false false) no_dump m.

Definition example_names : NameConf := mkNameConf "\gold" "\gate" "gold." "gate.".

Definition example_start (answers : list (string * Z)) : GState (list (string * Z)) := mkGState answers None [] [] [].

Lemma guide_check_passed_witness :
  exists s' lines, check_and_report script_host plain_dumper 0 (example_conf None) example_names true [("m", true)] [] []
                     (example_start [("Networks are equivalent", 0)]) = (s', Some (lines, true, true)) /\
  (true = true ->
     Forall (fun r => snd r = true) ([("m", true)] ++ [] ++ []) /\
     forall p m, m ∈ example_design -> named_pair example_design example_names p m ->
       exists gold gate gold_file gate_file action r,
         design_module (clone_design_for_passes example_design) p.1 = Some gold /\
         design_module (clone_design_for_passes example_design) p.2 = Some gate /\
         dumped_as (W := list (string * Z)) plain_dumper gold gold_file /\
         dumped_as (W := list (string * Z)) plain_dumper gate gate_file /\
         (abc_shell (example_conf None) (abc_command action
            (match_file_name (with_modules (example_conf None) (clone_design_for_passes example_design) gold gate))
            gold_file gate_file), r) ∈ calls s' /\
         exit_status r = 0 /\ contains (output r) "Networks are equivalent" = true).
Proof.
  assert (E : exists s' lines, check_and_report script_host plain_dumper 0 (example_conf None) example_names true
                [("m", true)] [] [] (example_start [("Networks are equivalent", 0)]) = (s', Some (lines, true, true)))
    by (eexists _, _; vm_compute; reflexivity).
  destruct E as (s' & lines & E). exists s', lines. split; [exact E|].
  exact (proj2 (proj2 (guide_check_passed script_host plain_dumper 0 (example_conf None) example_names true
                         [("m", true)] [] [] _ s' lines true true E))).
Defined.

(** The commands of a run are those of the pairs of [equiv_mods], pair by pair. *)
Lemma check_and_report_calls {W} (H : Host W) (D : Dumper W) fudge conf c assert_mode mr dr rr s s' out :
  check_and_report H D fudge conf c assert_mode mr dr rr s = (s', Some out) ->
  exists pairs ls, equiv_mods (cc_design conf) c = Some pairs /\ calls s' = calls s ++ concat ls /\
    Forall2 (fun p l => exists ok, pair_checked D conf p ok l) pairs ls.
Proof.
  unfold check_and_report. cbv zeta. intros (s1 & rs & E1 & E)%bind_inv.
  destruct (report _ _ _ _ _ _) as [lines rep]. destruct (assert_mode && _); [done|]. injection E as <- _.
  apply bind_inv in E1 as (s2 & pairs & E2 & E1).
  destruct (equiv_mods (cc_design conf) c) as [ps|] eqn:Ep; [|done]. injection E2 as <- <-.
  apply cec_pairs_spec in E1 as (ls & Hc & Hlen & HF & Hps). exists ps, ls. split; [done|]. split; [done|].
  apply Forall2_same_length_lookup_2; [done|]. intros i p l Hp Hl.
  destruct (Forall2_lookup_l _ _ _ _ _ HF Hp) as (r & Hri & _).
  destruct (Hps _ _ _ Hp Hri) as (l' & Hl' & Hck). exists r.2. by simplify_eq.
Qed.



(** ** Names of the results *)

Lemma string_length_app a b : String.length (a +:+ b) = (String.length a + String.length b)%nat.
Proof. induction a as [|c a IH]; [done|]. exact (f_equal S IH). Qed.

Lemma prefix_length p s : String.prefix p s = true -> (String.length p <= String.length s)%nat.
Proof. intros Hp. apply prefix_spec in Hp as [t ->]. rewrite string_length_app. lia. Qed.

Lemma escape_dot_longer g : (String.length (escape_id g) < String.length (escape_id (g +:+ ".")))%nat.
Proof.
  destruct g as [|c g]; [by apply Nat.ltb_lt|]. unfold escape_id. change (String c g +:+ ".") with (String c (g +:+ ".")).
  cbv beta iota.
  destruct (negb (Ascii.eqb c BACKSLASH) && negb (Ascii.eqb c DOLLAR));
    cbn [String.length]; rewrite string_length_app; change (String.length ".") with 1%nat; lia.
Qed.

(** In the form with two arguments the result of the two tops has no name:
    [abc_cec] passes the gate module to [get_orignal_mod_name] as the root, so
    the top of the gold side is neither the root nor prefixed, and its row in
    the report is blank. *)
Theorem top_result_unnamed gold gate c :
  top_names [gold; gate] = Some c -> gold_top c <> gate_top c ->
  get_orignal_mod_name (gold_top c) (gate_top c) (gold_prefix c) = Some "" /\
  partner (gold_top c) (gold_top c) (gold_prefix c) (gate_top c) (gate_prefix c) = Some (gate_top c).
Proof.
  intros [= <-] Hne. cbn [gold_top gate_top gold_prefix gate_prefix] in *.
  unfold get_orignal_mod_name, partner. rewrite String.eqb_refl. split; [|done].
  destruct (String.eqb_spec (escape_id gold) (escape_id gate)); [done|].
  destruct (begins_with _ _) eqn:E; [|done]. apply prefix_length in E. pose proof (escape_dot_longer gold). lia.
Qed.

Lemma top_result_unnamed_witness :
  top_names ["gold"; "gate"] = Some example_names /\
  get_orignal_mod_name "\gold" "\gate" "gold." = Some "".
Proof.
  split; [reflexivity|]. refine (proj1 (top_result_unnamed "gold" "gate" example_names eq_refl _)). done.
Defined.
